(* ===== verification/_CoqProject ===== *)
-Q . S2P
Prelude.v
Errors.v
Effects.v
Bytes.v
Types.v
Records.v
KV.v
Keys.v
Retries.v
Workers.v
Claims.v
Sdk.v
Log.v
Config.v
Validate.v
ValidateProps.v
Artifacts.v
Storage.v
ByteStore.v
StorageRefine.v
StorageSpec.v
StorageProps.v
Seal.v
SealProps.v
SealInv.v
SealAccount.v
Frame.v
Chains.v
Engine.v
Finalize.v
Lifecycle.v
LifecycleProps.v
LifecycleSpec.v
Recovery.v
Ingest.v
IngestProps.v
Submissions.v
EngineSteps.v
Scheduler.v
Fold.v
Scatter.v
JobSteps.v
Confine.v
JobProps.v
Waits.v
ChainInv.v
FoldSpec.v
PassProps.v
Work.v
Apart.v
Runtimes.v
RuntimeSteps.v
RuntimeSeals.v
RuntimeEngine.v
RuntimePasses.v
Reachable.v
ApiErrors.v
Api.v
ApiProps.v
Served.v
Triggers.v
FakeProver.v
FakeProps.v
Commands.v
Keywarden.v
KeywardenCmd.v
Toy.v
Witnesses.v
JobWitnesses.v
ApiWitnesses.v
SystemWitnesses.v
FakeWitnesses.v
