(* ===== verification/Prelude.v ===== *)
(** * davinci-fold: the orchestrator of folded voting proofs, verified

    davinci-fold (src/) collects the votes of elections, seals them in batches,
    has each batch proved by a pool of remote provers, folds the proofs into
    one chain per election, and publishes the results with a final proof.  This
    library models the Go program as executable definitions and proves what
    makes it correct.

    ** The program and the files that model it

    The storage (src/storage/) keeps elections, votes, batches, proofs and
    audit records in a key-value database.  The engine (src/orchestrator/)
    keeps a runtime per election: [SubmitVote] validates and buffers a vote,
    sealing turns buffered votes into batches and advances the state tree, the
    monitor's sweep ends elections and seals stale buffers.  The scheduler
    (src/orchestrator/scheduler.go) proves and folds the batches on the workers
    of a pool (src/workers/).  The HTTP API (src/api/) serves organizers, voters
    and the keywarden, whose client is src/keywarden/.

    - Prelude, Errors, Effects, Bytes: shared lemmas and tactics, Go errors as
      the sentinels they wrap, the state-and-error monad [stE] of the handlers
      with [preserves] and [via] to reason about it, byte strings.
    - Types, Records (src/types/): statuses, identifiers, persisted records.
    - KV, Keys, Artifacts, Storage, ByteStore (src/storage/): the layout of the
      keys, the storage calls over a typed store whose commits may fail, and
      the same calls over bytes.
    - Retries (retry.go), Workers (worker_manager.go): the backoff table and the
      pool.  [Acquire], [Claim], [Hold] and [Release] are goroutines
      ([pool_thread]) that make one atomic access of the pool per step
      ([thread_step]): the choice of a worker, the compare-and-swap, the check
      of the registry and the wait are separate.
    - Sdk: the third-party code as classes: curves, hashes, Groth16, ECDSA, the
      codecs ([Sdk]) and the state tree ([Chain], with [ChainLaws]).
    - Log (src/log/): the process-wide logger, its levels, hook and writers, and
      the wrappers that write a line, exit or panic.
    - Config (config.go, snarkjs.go), Validate (validate.go, census.go,
      crypto/helpers.go): the parsers and the validation of a vote.
    - Seal (seal.go, part of engine.go and dispatch.go): a runtime and its seals,
      on a state [SW] of one runtime with the environment it shares.
    - Chains (scheduler.go, scatter.go): the data of the scheduler.
    - Engine (engine.go): [World], the state of the daemon, with the runtimes on
      a heap and the background goroutines as a list; construction,
      restoration, elections, workers.
    - Lifecycle (lifecycle.go, the sweep of engine.go), Ingest (ingest.go),
      Finalize (the checks of finalize.go, on the SDK's digest, an abstract
      type with the fields they read).
    - Scheduler, Fold, Scatter (scheduler.go, scatter.go, dispatch.go,
      finalize.go): jobs and their waits, the fold chain and the proofs of
      batches, the passes, the finalize and the dispatch loop.  The pool's
      operations run there step by step, others in between
      ([pool_thread_loop]).
    - ApiErrors, Api (src/api/): errors, routes, roles, handlers, logging.  The
      body of a request is a stream that may break off ([Stream]), and the
      logging middleware reads ahead in it.
    - Commands (src/cmd/davinci-fold/, src/service/): [loadConfig] over flags,
      environment and defaults, the checks of a configuration, the services
      started and shut down in order, the two ends of [main].
    - Keywarden (src/keywarden/): the client, request by request, up to the wait
      for the results.  KeywardenCmd (src/cmd/test-keywarden/): the key file,
      [keygen] and [finalize] of the keywarden's command.
    - FakeProver (src/tests/helpers/): the in-process prover of the tests, its
      job store and handlers, and the ledger several of them share.

    Definitions keep the names of the source; where two things share a name the
    model adds a suffix or a prefix ([Election_] the storage call,
    [Engine_Election] the engine's, [Scheduler_Finalize] the scheduler's).  A Go
    [int] is a [Z], a [uint64] an [N] wrapped by [u64], a [time.Time] its
    nanoseconds since year 1.  A pointer is a number into a heap, so what Go
    shares is shared; a chain's place also names its election.  A function is
    [stE W A]: an error returned early keeps the writes made before it, and a
    panic is the error [Panic].

    ** What is proved

    - Storage (StorageRefine, StorageSpec, StorageProps): the byte-level storage
      refines the typed one; transactions are atomic; votes never change and
      their statuses only move forward; the vote log has no gaps; reservations
      exclude.
    - Validation (ValidateProps): what an accepted vote satisfies, and that the
      canonical forms read back to the same values.
    - Sealing (SealProps, SealInv, SealAccount, Frame): each seal by its outcome
      with the bisection of refused votes, the invariant of a runtime, no vote
      lost (short of a refused vote whose status write failed), the loops end.
      Recovery: a restart rebuilds the runtime, its buffer from the stored
      pending votes.
    - Claims: the steps of the pool's operations interleaved in any way: the
      counters are the jobs and claims there are, a swap grants a worker nobody
      holds, and a claim that waits will be woken.
    - Submissions, IngestProps: at most one vote per ID under every
      interleaving of the steps of submissions, and what acceptance does.
    - LifecycleProps, LifecycleSpec, EngineSteps: the engine as a transition
      system whose elections follow their lifecycle, whoever calls what.
    - JobSteps, Confine, JobProps, Waits, ChainInv, FoldSpec, PassProps: the
      scheduler against provers that answer anything, with other goroutines
      running before every request and storage call: what it leaves alone, that
      the proofs and results it stores were checked, that chains stay in
      order, that a fold commits what it folded, that waits end by their
      deadline, that failing folds escalate within bounds.
      [EngineScheduler] makes it the scheduler the engine's theorems assume.
    - Work, Apart, Served: the whole system.  Each step of the engine is a
      sequence of its own writes, passes and finalizes ([work]); no two
      elections share a chain, so the drive lock is enough for a pass; the
      results served were checked, whatever runs since the start.
    - Triggers: a notification that comes between two iterations of a dispatch
      loop is there for the next one, whatever the system does in between, and
      so is one that comes while an iteration runs.
    - Runtimes, RuntimeSteps, RuntimeSeals, RuntimeEngine, RuntimePasses,
      Reachable: the invariant of the daemon's world ([core]) and the facts
      other goroutines only let grow ([grows]).  Each operation is [safely] run
      from any world of the invariant, or from one with the fact it needs, which
      the postconditions ([post]) carry from step to step; the theorem is of
      every world the daemon reaches from its start, submissions interleaving
      step by step.
    - ApiProps: the API is a sequence of the engine's steps, changes need a
      token, the handlers' answers are well formed, logging serves a request as
      the router does unless it cannot read the body, secrets are not logged.
    - Commands, Keywarden, KeywardenCmd, Log: the settings in force are those the
      command read and accepted; the client's key reaches the engine and its
      wait ends; the keywarden's command asks for the ciphertext before it
      releases its key, once, and the key it generated is one the engine accepts;
      a line from the configured level on is written once to the output.
    - FakeProps: the fake prover of the tests counts the jobs at one instant,
      and the folds behind a finalize walk back to the genesis, through every
      prover they moved between, if the proofs imported are theirs and SHA-256
      does not collide; over any ledger a walk that succeeds is sound.
    - Toy, Witnesses, JobWitnesses, ApiWitnesses, SystemWitnesses,
      FakeWitnesses: a small instance of every class and runs of the theorems at
      concrete inputs, one of them from the start of the engine to an election's
      results.

    ** Interleaving, fuel and bounds

    Concurrency is explicit where the code depends on it: the steps of
    submissions and of the claims of workers, the background goroutines run by
    [run_background].  In the scheduler, [others] is what the other goroutines
    do at a moment, an arbitrary function of the world, and every theorem that
    needs the drive lock states it as the class [DriveLock]: the others leave
    the chain alone.  Apart shows that the work on other elections does, in every
    world the engine reaches.  The other classes on [others] ([CalmOthers],
    [CheckedOthers], [DistinctOthers], [SparingOthers], [SoundOthers],
    [OneLoop], ...)
    assume of them what is proved of every step of the engine; others that
    serve requests and take votes are sound ([requests_sound]).  The proves of a
    pass run whole, in the order [turns] gives, while the pass waits for a proof
    or when it ends; a dispatch loop is its iterations, [dispatch_pass].

    Loops over data have the length of the data as fuel, which the termination
    theorems show to be enough.  [waitJob] has one unit per poll interval up to
    the deadline ([polls]) and [WaitForResults] one per polling interval of its
    timeout.
    The waits for another goroutine ([pool_Acquire], [claim], [acquire], a pass's proof) are
    followed for [rounds] rounds and then give [Diverges], an error no theorem
    takes for a result.

    ** Not modelled

    Third-party code is a parameter: the circuits' SDK, the curves, the state
    tree, CBOR and JSON encodings, the JWT library, the chi router, the
    database.  The documented behaviour relied on is in the classes of laws
    ([ChainLaws], [HttpLaws], [ZerologLaws], [KeyLaws], [FakeLaws], [FoldLock]
    and the codec's).  So are zerolog ([Zerolog]), viper and pflag ([Settings]), the
    key tools of the SDK ([KeyTools]) and, for the keywarden, the server it
    talks to ([Orchestrator]), whose answer may depend on every request before.
    Messages of errors are not modelled but for the fixed texts the API and a
    failed finalize publish; neither are the time and the caller a log line
    carries.  [FetchFinal] makes the two requests for a final proof as one.
    Left out as I/O: the build's version, signals and sockets, the HTTP
    transport of the clients, the CORS, throttling and timeout middleware, and
    the helpers of the tests (src/tests/) but for the fake prover. *)

From stdpp Require Export base list gmap strings fin_maps sorting.
From Stdlib Require Export ZArith NArith Lia.


(** ** Scope and hint database of the development *)

Declare Scope fold_scope.
Delimit Scope fold_scope with fold.
Open Scope fold_scope.

Create HintDb fold.

(** ** Tactics shared by the components *)

(** Case analysis on the first [match] or [if] scrutinee of the goal. *)
Ltac case_match_goal :=
  match goal with
  | |- context [ match ?x with _ => _ end ] => destruct x eqn:?
  end.

(** Split every conjunction and existential of the hypotheses. *)
Ltac break :=
  repeat match goal with
    | H : _ /\ _ |- _ => destruct H
    | H : exists _, _ |- _ => destruct H
    | p : (_ * _)%type |- _ => destruct p
    end.

(** ** Lists *)

Section lists.
Context {A B : Type}.
Implicit Types (l : list A).

(** The longest prefix of a list satisfying a boolean predicate. *)
Fixpoint take_while (p : A -> bool) (l : list A) : list A :=
  match l with
  | [] => []
  | x :: r => if p x then x :: take_while p r else []
  end.

Lemma take_while_prefix (p : A -> bool) l : take_while p l `prefix_of` l.
Proof.
  induction l as [|x l IH]; simpl; [done|].
  destruct (p x); [by apply prefix_cons|apply prefix_nil].
Qed.

Lemma list_filter_id (P : A -> Prop) `{!forall x, Decision (P x)} l :
  Forall P l -> filter P l = l.
Proof.
  induction 1 as [|x l Hx _ IH]; [done|].
  by rewrite filter_cons_True, IH.
Qed.

Lemma list_filter_none (P : A -> Prop) `{!forall x, Decision (P x)} l :
  Forall (fun x => ~ P x) l -> filter P l = [].
Proof.
  induction 1 as [|x l Hx _ IH]; [done|]. by rewrite filter_cons_False.
Qed.

Lemma list_filter_ext_in (P Q : A -> Prop) `{!forall x, Decision (P x)}
    `{!forall x, Decision (Q x)} l :
  (forall x, x ∈ l -> P x <-> Q x) -> filter P l = filter Q l.
Proof.
  induction l as [|x l IH]; intros E; [done|].
  assert (filter P l = filter Q l) as El by (apply IH; set_solver).
  destruct (decide (P x)) as [HP|HP].
  - rewrite !filter_cons_True by (done || by apply E; [set_solver|]). by rewrite El.
  - rewrite !filter_cons_False; [done| |done]. intros HQ. by apply HP, E; [set_solver|].
Qed.

Lemma Forall_filter_sub (P Q : A -> Prop) `{!forall x, Decision (P x)} l :
  Forall Q l -> Forall Q (filter P l).
Proof.
  rewrite !Forall_forall. intros HQ x Hx.
  apply list_elem_of_filter in Hx as [_ Hx]. eauto.
Qed.

Lemma Sorted_filter_sub (R : relation A) `{!Transitive R}
    (P : A -> Prop) `{!forall x, Decision (P x)} l :
  StronglySorted R l -> StronglySorted R (filter P l).
Proof.
  induction 1 as [|x l Hs IH Hx]; [constructor|].
  destruct (decide (P x)).
  - rewrite filter_cons_True by done. constructor; [done|].
    by apply Forall_filter_sub.
  - by rewrite filter_cons_False.
Qed.

Lemma StronglySorted_snoc (R : relation A) l x :
  StronglySorted R l -> Forall (fun y => R y x) l -> StronglySorted R (l ++ [x]).
Proof.
  induction 1 as [|y l Hs IH Hy]; intros Hf; simpl.
  - repeat constructor.
  - inversion_clear Hf. constructor; [eauto|].
    apply Forall_app. split; [done|]. by constructor.
Qed.
End lists.

(** A list sorted for a relation that is antisymmetric on its elements is
    determined by its elements. *)
Lemma sorted_by_unique {A B} (R : relation B) `{!Transitive R, !AntiSymm (=) R}
    (f : A -> B) (l1 l2 : list A) :
  (forall x y, x ∈ l1 -> y ∈ l2 -> f x = f y -> x = y) ->
  Sorted (fun x y => R (f x) (f y)) l1 -> Sorted (fun x y => R (f x) (f y)) l2 ->
  l1 ≡ₚ l2 -> l1 = l2.
Proof.
  intros Hinj H1 H2 HP.
  assert (Transitive (fun x y => R (f x) (f y))) by (intros x y z ??; by trans (f y)).
  apply (Sorted_unique_strong (fun x y => R (f x) (f y)));
    [intros x y Hx Hy Hxy Hyx|done..].
  apply Hinj; [done..|]. by apply (anti_symm R).
Qed.

Lemma omap_fmap_some {A B C} (f : A -> B) (g : B -> option C) (l : list A) :
  omap g (f <$> l) = omap (fun x => g (f x)) l.
Proof. induction l as [|x l IH]; csimpl; [done|]. by rewrite IH. Qed.

Lemma omap_ext_in {A B} (f g : A -> option B) (l : list A) :
  (forall x, x ∈ l -> f x = g x) -> omap f l = omap g l.
Proof.
  induction l as [|x l IH]; intros Hfg; csimpl; [done|].
  rewrite (Hfg x) by set_solver. rewrite IH; [done|]. intros y Hy. apply Hfg. set_solver.
Qed.

#[export] Hint Resolve take_while_prefix : fold.

(** ** Unsigned machine integers *)

(** A [uint64] is an [N]; arithmetic that may wrap around goes through
    [u64]. *)
Definition two64 : N := 18446744073709551616.
Definition u64 (n : N) : N := (n mod two64)%N.
Definition u64_succ (n : N) : N := u64 (n + 1).

Lemma u64_small n : (n < two64)%N -> u64 n = n.
Proof. apply N.mod_small. Qed.

Lemma u64_lt n : (u64 n < two64)%N.
Proof. apply N.mod_lt. discriminate. Qed.

#[export] Hint Resolve u64_lt : fold.
