(* ===== verification/Errors.v ===== *)
(** * Errors

    Go errors as the callers see them: the chain of sentinel errors an error
    wraps, which [errors.Is] looks through.  Messages are not modelled. *)

From S2P Require Import Prelude.

(** The sentinel errors of storage/storage.go, orchestrator/errors.go,
    orchestrator/scheduler.go, orchestrator/finalize.go and
    workers/worker_manager.go, with [Canceled] for [context.Canceled].
    [Panic] marks a run-time panic, which ends the handler as an error does,
    [Exited] the end of the process,
    and [Diverges] a wait that outlasts the rounds it is followed for. *)
Inductive sentinel :=
  | ErrNotFound | ErrKeyAlreadyExists | ErrNoMoreElements
  | ErrElectionNotFound | ErrNotAcceptingVotes | ErrVoteAlreadySubmitted
  | ErrInvalidBallotProof | ErrInvalidSignature | ErrInvalidCensusProof
  | ErrMalformedVote | ErrInvalidTransition | ErrInvalidDecryptionKey
  | ErrWorkerNotFound
  | errNoWorker | ErrWorkerRemoved | errFoldWorker | errJobFailed | errStopped
  | errProverUnavailable | errFinalizeInterrupted | errNothingToFinalize
  | errFinalFoldFailed | errDecryptionFailed | errFinalProofFailed
  | errVerificationFailed | errFinalizeInternal
  | Canceled
  | Panic
  | Exited
  | Diverges.

#[export] Instance sentinel_eq_dec : EqDecision sentinel.
Proof. solve_decision. Defined.

(** An error is the list of the sentinels it wraps, [[]] for an error that
    wraps none. *)
Definition error : Type := list sentinel.

(** [fmt.Errorf] without a wrapped sentinel. *)
Definition errorf : error := [].

(** [errors.Is]. *)
Definition errors_Is (e : error) (s : sentinel) : bool := bool_decide (s ∈ e).

(** [fmt.Errorf("%w: ...", s)] and [fmt.Errorf("%w: %w", s, e)]. *)
Definition wrap (s : sentinel) (e : error) : error := s :: e.

(** A Go [(T, error)] pair: the value, or the error. *)
Inductive result (A : Type) :=
  | Ok (a : A)
  | Err (e : error).
Arguments Ok {A} a.
Arguments Err {A} e.

#[export] Instance result_eq_dec `{EqDecision A} : EqDecision (result A).
Proof. solve_decision. Defined.

Definition is_ok {A} (r : result A) : bool :=
  match r with Ok _ => true | Err _ => false end.

(** Sequencing of computations that fail without touching a state. *)
#[export] Instance result_ret : MRet result := fun A a => Ok a.
#[export] Instance result_bind : MBind result := fun A B f r =>
  match r with Ok a => f a | Err e => Err e end.
#[export] Instance result_fmap : FMap result := fun A B f r =>
  match r with Ok a => Ok (f a) | Err e => Err e end.

(** [if cond { return err }]. *)
Definition guard_err (ok : bool) (e : error) : result unit :=
  if ok then Ok tt else Err e.

(** An optional value of a call that only says whether it failed. *)
Definition of_option {A} (o : option A) (e : error) : result A :=
  match o with Some a => Ok a | None => Err e end.

Lemma errors_Is_wrap s e s' :
  errors_Is (wrap s e) s' = bool_decide (s' = s) || errors_Is e s'.
Proof.
  unfold errors_Is, wrap.
  destruct (decide (s' = s)), (decide (s' ∈ e)); repeat case_bool_decide; set_solver.
Qed.

Lemma result_bind_Ok {A B} (f : A -> result B) (r : result A) b :
  r ≫= f = Ok b <-> exists a, r = Ok a /\ f a = Ok b.
Proof. destruct r as [a|e]; naive_solver. Qed.

Lemma guard_err_tt ok e : guard_err ok e = Ok tt <-> ok = true.
Proof. by destruct ok. Qed.

Lemma of_option_Ok {A} (o : option A) e a : of_option o e = Ok a <-> o = Some a.
Proof. destruct o; simpl; naive_solver. Qed.
