(* ===== verification/Effects.v ===== *)
(** * Effects

    The state-and-error monad of the handlers: a Go function with side effects
    on a state [S] that returns [(A, error)].  An error returned early keeps
    the writes made before it, as in Go. *)

From S2P Require Import Prelude Errors.

Definition stE (S A : Type) : Type := S -> result A * S.

#[export] Instance stE_ret S : MRet (stE S) := fun A a s => (Ok a, s).

#[export] Instance stE_bind S : MBind (stE S) := fun A B f m s =>
  match m s with
  | (Ok a, s') => f a s'
  | (Err e, s') => (Err e, s')
  end.

Section effects.
Context {S : Type}.

(** [return ..., err] *)
Definition throw {A} (e : error) : stE S A := fun s => (Err e, s).

(** A pure result. *)
Definition lift {A} (r : result A) : stE S A := fun s => (r, s).

Definition get_st : stE S S := fun s => (Ok s, s).
Definition gets {A} (f : S -> A) : stE S A := fun s => (Ok (f s), s).
Definition modify (f : S -> S) : stE S unit := fun s => (Ok tt, f s).

(** [v, err := m()] with the error inspected by the caller. *)
Definition attempt {A} (m : stE S A) : stE S (result A) := fun s =>
  let '(r, s') := m s in (Ok r, s').

(** [if err := m(); err != nil { log }] and [_ = m()]. *)
Definition ignore {A} (m : stE S A) : stE S unit := fun s => (Ok tt, (m s).2).

(** [if b { return err }] *)
Definition throw_if (b : bool) (e : error) : stE S unit :=
  if b then throw e else mret tt.

(** A failed call wrapped by its caller:
    [if err != nil { return fmt.Errorf("...: %w", s, err) }]. *)
Definition rethrow {A} (f : error -> error) (m : stE S A) : stE S A := fun s =>
  match m s with
  | (Ok a, s') => (Ok a, s')
  | (Err e, s') => (Err (f e), s')
  end.

(** [for _, x := range l { m(x) }] *)
Fixpoint for_each {A} (l : list A) (m : A -> stE S unit) : stE S unit :=
  match l with
  | [] => mret tt
  | x :: r => m x ≫= fun _ => for_each r m
  end.

Lemma bind_Ok {A B} (m : stE S A) (f : A -> stE S B) s r s' :
  (m ≫= f) s = (r, s') ->
  (exists a s1, m s = (Ok a, s1) /\ f a s1 = (r, s')) \/
  (exists e, m s = (Err e, s') /\ r = Err e).
Proof.
  unfold mbind, stE_bind. destruct (m s) as [[a|e] s1].
  - intros H. left. eauto.
  - intros [= <- <-]. right. eauto.
Qed.
End effects.

(** Running a computation on a part of a larger state. *)
Definition zoom {S T A} (get : T -> S) (set : S -> T -> T) (m : stE S A) : stE T A :=
  fun t => let '(r, s') := m (get t) in (r, set s' t).

(** ** Preservation of an invariant *)

(** [preserves I m]: whatever [m] returns, it keeps [I]. *)
Definition preserves {S A} (I : S -> Prop) (m : stE S A) : Prop :=
  forall s, I s -> I (m s).2.

Section preserves.
Context {S : Type} (I : S -> Prop).

Lemma preserves_ret {A} (a : A) : preserves I (mret a).
Proof. by intros s. Qed.

Lemma preserves_throw {A} e : preserves I (throw (A := A) e).
Proof. by intros s. Qed.

Lemma preserves_lift {A} (r : result A) : preserves I (lift r).
Proof. by intros s. Qed.

Lemma preserves_gets {A} (f : S -> A) : preserves I (gets f).
Proof. by intros s. Qed.

Lemma preserves_throw_if b e : preserves I (throw_if b e).
Proof. destruct b; by intros s. Qed.

Lemma preserves_bind {A B} (m : stE S A) (f : A -> stE S B) :
  preserves I m -> (forall a, preserves I (f a)) -> preserves I (m ≫= f).
Proof.
  intros Hm Hf s Hs. unfold mbind, stE_bind. specialize (Hm s Hs).
  destruct (m s) as [[a|e] s']; [|done]. by apply Hf.
Qed.

Lemma preserves_attempt {A} (m : stE S A) :
  preserves I m -> preserves I (attempt m).
Proof.
  intros Hm s Hs. specialize (Hm s Hs). unfold attempt. by destruct (m s).
Qed.

Lemma preserves_ignore {A} (m : stE S A) :
  preserves I m -> preserves I (ignore m).
Proof. intros Hm s Hs. apply (Hm s Hs). Qed.

Lemma preserves_rethrow {A} f (m : stE S A) :
  preserves I m -> preserves I (rethrow f m).
Proof.
  intros Hm s Hs. specialize (Hm s Hs). unfold rethrow. by destruct (m s) as [[]].
Qed.

Lemma preserves_for_each {A} (l : list A) m :
  (forall x, x ∈ l -> preserves I (m x)) -> preserves I (for_each l m).
Proof.
  induction l as [|x l IH]; intros Hm; simpl; [apply preserves_ret|].
  apply preserves_bind; [apply Hm; set_solver|].
  intros _. apply IH. set_solver.
Qed.
End preserves.

#[export] Hint Resolve preserves_ret preserves_throw preserves_lift preserves_gets
  preserves_throw_if preserves_bind preserves_attempt preserves_ignore
  preserves_rethrow preserves_for_each : fold.

(** Decompose a handler into its steps. *)
Ltac preserve_step :=
  lazymatch goal with
  | |- preserves _ (mret _) => apply preserves_ret
  | |- preserves _ (throw _) => apply preserves_throw
  | |- preserves _ (lift _) => apply preserves_lift
  | |- preserves _ (gets _) => apply preserves_gets
  | |- preserves _ (throw_if _ _) => apply preserves_throw_if
  | |- preserves _ (_ ≫= _) => apply preserves_bind; [|intros ?]
  | |- preserves _ (attempt _) => apply preserves_attempt
  | |- preserves _ (ignore _) => apply preserves_ignore
  | |- preserves _ (rethrow _ _) => apply preserves_rethrow
  | |- preserves _ (for_each _ _) => apply preserves_for_each; intros ? ?
  end.
Ltac preserve := repeat preserve_step.

(** Run a handler symbolically: the first bind whose result is not known. *)
Ltac step_bind H :=
  let a := fresh "a" in let s := fresh "s" in
  let Hm := fresh "Hm" in let e := fresh "e" in let Hr := fresh "Hr" in
  apply bind_Ok in H as [(a & s & Hm & H)|(e & Hm & Hr)];
  [|first [discriminate Hr | subst]].

(** ** Keeping a relation *)

(** [via R m]: what [m] does to the state is in [R]. *)
Section steps.
Context {W : Type} (R : relation W).

Definition via {A} (m : stE W A) : Prop := forall w, R w (m w).2.

Section combinators.
Context `{!PreOrder R}.

Lemma via_state {A} (m : stE W A) : (forall w, (m w).2 = w) -> via m.
Proof. intros Hm w. by rewrite Hm. Qed.

Lemma via_ret {A} (a : A) : via (mret a).
Proof. by apply via_state. Qed.
Lemma via_throw {A} e : via (throw (A := A) e).
Proof. by apply via_state. Qed.
Lemma via_lift {A} (r : result A) : via (lift r).
Proof. by apply via_state. Qed.
Lemma via_gets {A} (f : W -> A) : via (gets f).
Proof. by apply via_state. Qed.
Lemma via_throw_if b e : via (throw_if b e).
Proof. apply via_state. by destruct b. Qed.

Lemma via_bind {A B} (m : stE W A) (f : A -> stE W B) : via m -> (forall a, via (f a)) -> via (m ≫= f).
Proof.
  intros Hm Hf w. unfold mbind, stE_bind. specialize (Hm w). destruct (m w) as [[a|e] w']; [|done].
  etrans; [exact Hm|]. apply Hf.
Qed.
Lemma via_attempt {A} (m : stE W A) : via m -> via (attempt m).
Proof. intros Hm w. specialize (Hm w). unfold attempt. by destruct (m w). Qed.
Lemma via_ignore {A} (m : stE W A) : via m -> via (ignore m).
Proof. intros Hm w. apply (Hm w). Qed.
Lemma via_rethrow {A} f (m : stE W A) : via m -> via (rethrow f m).
Proof. intros Hm w. specialize (Hm w). unfold rethrow. by destruct (m w) as [[]]. Qed.
Lemma via_for_each {A} (l : list A) (m : A -> stE W unit) : (forall x, via (m x)) -> via (for_each l m).
Proof.
  intros Hm. induction l as [|x l IH]; [apply via_ret|]. apply via_bind; [apply Hm|]. by intros _.
Qed.
End combinators.
End steps.

(** Take an operation apart into the steps it is made of. *)
Ltac via_step :=
  lazymatch goal with
  | |- via _ (mret _) => apply via_ret, _
  | |- via _ (throw _) => apply via_throw, _
  | |- via _ (lift _) => apply via_lift, _
  | |- via _ (gets _) => apply via_gets, _
  | |- via _ (throw_if _ _) => apply via_throw_if, _
  | |- via _ (_ ≫= _) => apply via_bind; [apply _| |intros ?]
  | |- via _ (attempt _) => apply via_attempt
  | |- via _ (ignore _) => apply via_ignore
  | |- via _ (rethrow _ _) => apply via_rethrow
  | |- via _ (for_each _ _) => apply via_for_each; [apply _|intros ?]
  | |- via _ (match ?x with _ => _ end) => destruct x
  | |- via _ (if ?x then _ else _) => destruct x
  | |- via _ (let _ := _ in _) => cbv zeta
  | _ => solve [eauto with via fold]
  end.
Ltac via := repeat via_step.

Create HintDb via.
