(* ===== verification/Bytes.v ===== *)
(** * Bytes

    Byte strings ([[]byte] and Go strings), their lexicographic order,
    fixed-width positional encodings (big-endian integers and zero-padded
    decimals) and hex. *)

From S2P Require Import Prelude.
From Stdlib Require Import Strings.Byte.
From stdpp Require Import sorting.

Abbreviation byte := Byte.byte.
Abbreviation bytes := (list byte).

#[export] Instance byte_eq_dec : EqDecision byte := Byte.byte_eq_dec.

#[export] Program Instance byte_countable : Countable byte := {|
  encode b := N.succ_pos (Byte.to_N b);
  decode p := Byte.of_N (Pos.pred_N p);
|}.
Next Obligation. intros b. simpl. by destruct b. Qed.

#[export] Instance byte_inhabited : Inhabited byte := populate x00.

(** A string literal as the bytes of a Go string. *)
Definition lit (s : string) : bytes := String.list_byte_of_string s.

(** The byte of value [n], for [n < 256]. *)
Definition byte_of (n : N) : byte := default x00 (Byte.of_N n).

Lemma byte_of_to_N b : byte_of (Byte.to_N b) = b.
Proof. unfold byte_of. by rewrite Byte.of_to_N. Qed.

Lemma byte_of_N_lt n : (n < 256)%N -> exists b, Byte.of_N n = Some b.
Proof.
  intros Hn. destruct (Byte.of_N n) as [b|] eqn:E; [by eexists|].
  apply Byte.of_N_None_iff in E. lia.
Qed.

Lemma to_N_byte_of n : (n < 256)%N -> Byte.to_N (byte_of n) = n.
Proof.
  intros [b Hb]%byte_of_N_lt. unfold byte_of. rewrite Hb. simpl.
  by apply Byte.to_of_N.
Qed.

Lemma to_N_lt b : (Byte.to_N b < 256)%N.
Proof. pose proof (Byte.to_N_bounded b). lia. Qed.

Lemma to_N_inj a b : Byte.to_N a = Byte.to_N b -> a = b.
Proof. intros H. by rewrite <- (byte_of_to_N a), <- (byte_of_to_N b), H. Qed.

#[export] Hint Resolve to_N_lt : fold.

(** ** Lexicographic order *)

(** [bytes.Compare(a, b) <= 0], the order the database iterates in. *)
Fixpoint lex_leb (a b : bytes) : bool :=
  match a, b with
  | [], _ => true
  | _ :: _, [] => false
  | x :: a', y :: b' =>
      if (Byte.to_N x <? Byte.to_N y)%N then true
      else if (Byte.to_N y <? Byte.to_N x)%N then false
      else lex_leb a' b'
  end.

Definition lex_le (a b : bytes) : Prop := lex_leb a b = true.

#[export] Instance lex_le_dec a b : Decision (lex_le a b).
Proof. unfold lex_le. apply _. Defined.

Lemma lex_leb_cons x y a b :
  lex_leb (x :: a) (y :: b) = true <->
  (Byte.to_N x < Byte.to_N y)%N \/ x = y /\ lex_leb a b = true.
Proof.
  simpl. destruct (N.ltb_spec (Byte.to_N x) (Byte.to_N y)).
  - naive_solver.
  - destruct (N.ltb_spec (Byte.to_N y) (Byte.to_N x)).
    + split; [done|]. intros [?|[-> _]]; lia.
    + assert (x = y) as -> by (apply to_N_inj; lia). naive_solver lia.
Qed.

#[export] Instance lex_le_refl : Reflexive lex_le.
Proof.
  intros a. unfold lex_le. induction a as [|x a IH]; [done|].
  apply lex_leb_cons. auto.
Qed.

#[export] Instance lex_le_trans : Transitive lex_le.
Proof.
  unfold lex_le. intros a. induction a as [|x a IH]; intros [|y b] [|z c] Hab Hbc;
    try done.
  apply lex_leb_cons in Hab, Hbc. apply lex_leb_cons.
  destruct Hab as [?|[-> Hab]], Hbc as [?|[-> Hbc]]; [left; lia|auto..].
  right. split; [done|]. by apply (IH b).
Qed.

#[export] Instance lex_le_antisym : AntiSymm (=) lex_le.
Proof.
  unfold lex_le. intros a. induction a as [|x a IH]; intros [|y b] Hab Hba; try done.
  apply lex_leb_cons in Hab, Hba.
  destruct Hab as [Hlt|[-> Hab]], Hba as [Hlt'|[E Hba]]; [lia|subst; lia|lia|].
  f_equal. by apply IH.
Qed.

#[export] Instance lex_le_total : Total lex_le.
Proof.
  unfold lex_le. intros a. induction a as [|x a IH]; intros [|y b]; [by left..|by right|].
  destruct (N.lt_trichotomy (Byte.to_N x) (Byte.to_N y)) as [H|[H|H]].
  - left. apply lex_leb_cons. auto.
  - apply to_N_inj in H as ->.
    destruct (IH b); [left|right]; apply lex_leb_cons; auto.
  - right. apply lex_leb_cons. auto.
Qed.

(** Prepending the same bytes does not change the order. *)
Lemma lex_le_app p a b : lex_le (p ++ a) (p ++ b) <-> lex_le a b.
Proof.
  unfold lex_le. induction p as [|x p IH]; [done|].
  simpl. by rewrite N.ltb_irrefl.
Qed.

(** ** Fixed-width positional encodings *)

(** The [w] low digits of [n] in base [base], the most significant first. *)
Fixpoint digits_be (base : N) (w : nat) (n : N) : list N :=
  match w with
  | O => []
  | S w' => digits_be base w' (n / base) ++ [(n mod base)%N]
  end.

(** The value of a digit string. *)
Definition of_digits (base : N) (l : list N) : N :=
  foldl (fun acc d => acc * base + d)%N 0%N l.

Lemma length_digits_be base w n : length (digits_be base w n) = w.
Proof.
  revert n. induction w as [|w IH]; intros n; simpl; [done|].
  rewrite length_app, IH. simpl. lia.
Qed.

Lemma digits_be_lt base w n :
  (0 < base)%N -> Forall (fun d => d < base)%N (digits_be base w n).
Proof.
  intros Hb. revert n. induction w as [|w IH]; intros n; simpl; [constructor|].
  apply Forall_app. split; [apply IH|]. constructor; [|constructor].
  apply N.mod_lt. lia.
Qed.

Lemma of_digits_snoc base l d : of_digits base (l ++ [d]) = (of_digits base l * base + d)%N.
Proof. unfold of_digits. by rewrite foldl_app. Qed.

Lemma of_digits_be base w n :
  (0 < base)%N -> of_digits base (digits_be base w n) = (n mod base ^ N.of_nat w)%N.
Proof.
  intros Hb. revert n. induction w as [|w IH]; intros n.
  - simpl. by rewrite N.mod_1_r.
  - simpl digits_be. rewrite of_digits_snoc, IH.
    replace (N.of_nat (S w)) with (N.succ (N.of_nat w)) by lia.
    rewrite N.pow_succ_r by lia.
    rewrite N.Div0.mod_mul_r. lia.
Qed.

(** Numbers that fit their width are determined by their digits. *)
Lemma digits_be_inj base w m n :
  (0 < base)%N -> (m < base ^ N.of_nat w)%N -> (n < base ^ N.of_nat w)%N ->
  digits_be base w m = digits_be base w n -> m = n.
Proof.
  intros Hb Hm Hn E. apply (f_equal (of_digits base)) in E.
  rewrite !of_digits_be, !N.mod_small in E by done. done.
Qed.

(** Digit strings of one width compare as their values do. *)
Fixpoint nlex_leb (a b : list N) : bool :=
  match a, b with
  | [], _ => true
  | _ :: _, [] => false
  | x :: a', y :: b' =>
      if (x <? y)%N then true else if (y <? x)%N then false else nlex_leb a' b'
  end.

Lemma foldl_digits base acc l :
  foldl (fun a d => a * base + d)%N acc l = (acc * base ^ N.of_nat (length l) + of_digits base l)%N.
Proof.
  unfold of_digits. revert acc. induction l as [|d l IH]; intros acc.
  - simpl. rewrite N.mul_1_r. lia.
  - cbn [foldl length]. rewrite IH, (IH (0 * base + d)%N).
    replace (N.of_nat (S (length l))) with (N.succ (N.of_nat (length l))) by lia.
    rewrite N.pow_succ_r by lia. nia.
Qed.

Lemma of_digits_cons base d l :
  of_digits base (d :: l) = (d * base ^ N.of_nat (length l) + of_digits base l)%N.
Proof. unfold of_digits at 1. simpl. by rewrite foldl_digits. Qed.

Lemma of_digits_bound base l :
  Forall (fun d => d < base)%N l -> (of_digits base l < base ^ N.of_nat (length l))%N.
Proof.
  induction 1 as [|d l Hd _ IH]; [by simpl; unfold of_digits; simpl|].
  rewrite of_digits_cons. simpl length.
  replace (N.of_nat (S (length l))) with (N.succ (N.of_nat (length l))) by lia.
  rewrite N.pow_succ_r by lia. nia.
Qed.

Lemma nlex_leb_value base a b :
  length a = length b -> Forall (fun d => d < base)%N a -> Forall (fun d => d < base)%N b ->
  nlex_leb a b = (of_digits base a <=? of_digits base b)%N.
Proof.
  revert b. induction a as [|x a IH]; intros [|y b] Hl Ha Hb; try done.
  inversion_clear Ha as [|? ? Hx Ha']. inversion_clear Hb as [|? ? Hy Hb'].
  simpl in Hl. injection Hl as Hl.
  rewrite !of_digits_cons, Hl. simpl.
  pose proof (of_digits_bound base a Ha') as Ba. rewrite Hl in Ba.
  pose proof (of_digits_bound base b Hb') as Bb.
  rewrite (IH b Hl Ha' Hb').
  destruct (N.ltb_spec x y); [symmetry; apply N.leb_le; nia|].
  destruct (N.ltb_spec y x); [symmetry; apply N.leb_gt; nia|].
  assert (x = y) as -> by lia.
  destruct (N.leb_spec (of_digits base a) (of_digits base b));
    symmetry; [apply N.leb_le|apply N.leb_gt]; lia.
Qed.

(** A digit string written with an increasing digit encoding. *)
Lemma lex_leb_digits (f : N -> byte) base a b :
  (forall i j, (i < base)%N -> (j < base)%N ->
    ((Byte.to_N (f i) <? Byte.to_N (f j)) = (i <? j))%N) ->
  Forall (fun d => d < base)%N a -> Forall (fun d => d < base)%N b ->
  lex_leb (f <$> a) (f <$> b) = nlex_leb a b.
Proof.
  intros Hf. revert b. induction a as [|x a IH]; intros [|y b] Ha Hb; try done.
  inversion_clear Ha. inversion_clear Hb. csimpl.
  rewrite !Hf by done. by rewrite IH.
Qed.

(** ** Big-endian integers *)

(** [binary.BigEndian.PutUint64] into eight bytes. *)
Definition put_uint64 (n : N) : bytes := byte_of <$> digits_be 256 8 n.

(** [binary.BigEndian.Uint64] and [big.Int.SetBytes]: the value of a byte
    string. *)
Definition bytes_to_N (b : bytes) : N := of_digits 256 (Byte.to_N <$> b).

(** [big.Int.FillBytes] into a buffer of [w] bytes, for a value that fits. *)
Definition fill_bytes (w : nat) (n : N) : bytes := byte_of <$> digits_be 256 w n.

Lemma length_fill_bytes w n : length (fill_bytes w n) = w.
Proof. unfold fill_bytes. by rewrite length_fmap, length_digits_be. Qed.

Lemma to_N_digits w n :
  Byte.to_N <$> (byte_of <$> digits_be 256 w n) = digits_be 256 w n.
Proof.
  rewrite <- list_fmap_compose. rewrite <- (list_fmap_id (digits_be 256 w n)) at 2.
  apply list_fmap_ext. intros i d Hd. simpl. apply to_N_byte_of.
  eapply Forall_lookup_1 in Hd; [|apply digits_be_lt; lia]. done.
Qed.

Lemma bytes_to_N_fill w n :
  (n < 256 ^ N.of_nat w)%N -> bytes_to_N (fill_bytes w n) = n.
Proof.
  intros Hn. unfold bytes_to_N, fill_bytes.
  rewrite to_N_digits, of_digits_be by lia. by apply N.mod_small.
Qed.

Lemma bytes_to_N_bound b : (bytes_to_N b < 256 ^ N.of_nat (length b))%N.
Proof.
  unfold bytes_to_N. rewrite <- (length_fmap Byte.to_N b). apply of_digits_bound.
  apply Forall_fmap, Forall_true. intros x. apply to_N_lt.
Qed.

Lemma put_uint64_inj m n :
  (m < two64)%N -> (n < two64)%N -> put_uint64 m = put_uint64 n -> m = n.
Proof.
  intros Hm Hn E. apply (f_equal bytes_to_N) in E.
  change put_uint64 with (fill_bytes 8) in E.
  by rewrite !bytes_to_N_fill in E by done.
Qed.

Lemma length_put_uint64 n : length (put_uint64 n) = 8.
Proof. apply length_fill_bytes. Qed.

(** Big-endian keys sort in numeric order. *)
Lemma put_uint64_order m n :
  (m < two64)%N -> (n < two64)%N -> lex_le (put_uint64 m) (put_uint64 n) <-> (m <= n)%N.
Proof.
  intros Hm Hn. unfold lex_le, put_uint64.
  assert (forall k, Forall (fun d => d < 256)%N (digits_be 256 8 k)) as Hd
    by (intros k; apply digits_be_lt; lia).
  rewrite (lex_leb_digits _ 256) by (done || intros i j ? ?; by rewrite !to_N_byte_of).
  rewrite (nlex_leb_value 256) by (done || by rewrite !length_digits_be).
  rewrite !of_digits_be by lia.
  change (256 ^ N.of_nat 8)%N with two64.
  rewrite !N.mod_small by done. apply N.leb_le.
Qed.

(** ** Zero-padded decimals *)

Definition dec_digit (d : N) : byte := byte_of (48 + d).

(** How many decimal digits [n] has, at least one. *)
Fixpoint ndigits (fuel : nat) (n : N) : nat :=
  match fuel with
  | O => 1
  | S f => if (n <? 10)%N then 1 else S (ndigits f (n / 10))
  end.

(** [fmt.Sprintf("%0wd", n)] for a non-negative [n]. *)
Definition fmt_0d (w : nat) (n : N) : bytes :=
  dec_digit <$> digits_be 10 (max w (ndigits (N.size_nat n) n)) n.

(** [strconv.FormatUint(n, 10)] and [big.Int.String] of a non-negative
    value. *)
Definition fmt_d (n : N) : bytes := fmt_0d 1 n.

(** ** Hex *)

Definition hex_digit (d : N) : byte :=
  byte_of (if d <? 10 then 48 + d else 87 + d)%N.

(** [hex.EncodeToString]: two lowercase digits per byte. *)
Definition hex_byte (b : byte) : bytes :=
  [hex_digit (Byte.to_N b / 16); hex_digit (Byte.to_N b mod 16)].

Definition hex_encode (b : bytes) : bytes := b ≫= hex_byte.

(** The value of a hex digit, upper or lower case. *)
Definition hex_value (c : byte) : option N :=
  let n := Byte.to_N c in
  if ((48 <=? n) && (n <=? 57))%N then Some (n - 48)%N
  else if ((97 <=? n) && (n <=? 102))%N then Some (n - 87)%N
  else if ((65 <=? n) && (n <=? 70))%N then Some (n - 55)%N
  else None.

(** [hex.DecodeString]: an error on an odd length or another character. *)
Fixpoint hex_decode (s : bytes) : option bytes :=
  match s with
  | [] => Some []
  | [_] => None
  | c1 :: c2 :: r =>
      h ← hex_value c1; l ← hex_value c2; t ← hex_decode r;
      Some (byte_of (16 * h + l) :: t)
  end.

Lemma hex_encode_cons b l : hex_encode (b :: l) = hex_byte b ++ hex_encode l.
Proof. done. Qed.

Lemma hex_value_digit d : (d < 16)%N -> hex_value (hex_digit d) = Some d.
Proof.
  intros Hd. assert (In d (map N.of_nat (seq 0 16))) as Hin.
  { apply in_map_iff. exists (N.to_nat d). rewrite in_seq. lia. }
  revert d Hd Hin.
  assert (forallb (fun d => bool_decide (hex_value (hex_digit d) = Some d))
            (map N.of_nat (seq 0 16)) = true) as H by by vm_compute.
  rewrite forallb_forall in H. intros d _ Hin. specialize (H d Hin).
  by apply bool_decide_eq_true in H.
Qed.

Lemma hex_decode_encode b : hex_decode (hex_encode b) = Some b.
Proof.
  induction b as [|x b IH]; [done|].
  rewrite hex_encode_cons. unfold hex_byte. cbn [app hex_decode].
  pose proof (to_N_lt x).
  rewrite !hex_value_digit by (apply N.mod_lt || apply N.Div0.div_lt_upper_bound; lia).
  simpl. rewrite IH. simpl. do 2 f_equal.
  rewrite <- N.div_mod by lia. apply byte_of_to_N.
Qed.

#[export] Instance hex_encode_inj : Inj (=) (=) hex_encode.
Proof.
  intros a b E. apply (f_equal hex_decode) in E. rewrite !hex_decode_encode in E.
  by injection E.
Qed.

Lemma length_hex_encode b : length (hex_encode b) = 2 * length b.
Proof.
  induction b as [|x b IH]; [done|].
  rewrite hex_encode_cons, length_app, IH. simpl. lia.
Qed.

(** Only hex digits: in particular no slash. *)
Definition slash : byte := "/"%byte.

Lemma hex_no_slash b : slash ∉ hex_encode b.
Proof.
  induction b as [|x b IH]; [apply not_elem_of_nil|].
  rewrite hex_encode_cons. apply not_elem_of_app. split; [|done].
  apply (bool_decide_eq_true_1 (slash ∉ hex_byte x)). by destruct x.
Qed.

(** A string up to its first slash is determined by the whole. *)
Lemma split_slash a b x y :
  slash ∉ a -> slash ∉ b -> a ++ slash :: x = b ++ slash :: y -> a = b /\ x = y.
Proof.
  revert b. induction a as [|c a IH]; intros [|d b] Ha Hb E; simpl in E.
  - by injection E.
  - injection E as E _. destruct Hb. rewrite E. by left.
  - injection E as E _. destruct Ha. rewrite E. by left.
  - injection E as -> E. apply not_elem_of_cons in Ha as [_ Ha], Hb as [_ Hb].
    destruct (IH b Ha Hb E) as [-> ->]. done.
Qed.

#[export] Hint Resolve hex_no_slash : fold.

(** A number is below the power of two of its bit size. *)
Lemma size_nat_bound n : (n < 2 ^ N.of_nat (N.size_nat n))%N.
Proof.
  destruct n as [|p]; [done|]. simpl N.size_nat.
  induction p as [p IH|p IH|]; [..|done]; cbn [Pos.size_nat];
    replace (N.of_nat (S (Pos.size_nat p))) with (N.succ (N.of_nat (Pos.size_nat p))) by lia;
    rewrite N.pow_succ_r by lia; lia.
Qed.
