(* ===== verification/Types.v ===== *)
(** * Domain records (types/)

    The persisted records of types/, with the statuses and their order.  A
    [time.Time] is its nanoseconds since the zero time, so [IsZero] is
    equality with zero; a Go [int] is a [Z] and a [uint64] an [N]. *)

From S2P Require Import Prelude Bytes.

(** ** Time *)

Definition time := Z.
Definition duration := Z.
Definition zero_time : time := 0%Z.
Definition IsZero (t : time) : bool := (t =? zero_time)%Z.

Definition nanosecond : duration := 1%Z.
Definition second : duration := 1000000000%Z.
Definition minute : duration := (60 * second)%Z.

(** Seconds from the zero time (year 1) to the Unix epoch. *)
Definition unix_epoch : Z := 62135596800%Z.
Definition Unix (t : time) : Z := (t / second - unix_epoch)%Z.
Definition UnixNano (t : time) : Z := (t - unix_epoch * second)%Z.

(** The CBOR encoding keeps whole seconds ([cbor.TimeUnix]). *)
Definition whole_seconds (t : time) : time := (t / second * second)%Z.

Lemma whole_seconds_idemp t : whole_seconds (whole_seconds t) = whole_seconds t.
Proof. unfold whole_seconds, second. by rewrite Z.div_mul by lia. Qed.

Lemma whole_seconds_le t : (whole_seconds t <= t < whole_seconds t + second)%Z.
Proof.
  unfold whole_seconds, second.
  pose proof (Z.div_mod t 1000000000). pose proof (Z.mod_pos_bound t 1000000000). lia.
Qed.

(** ** Identifiers *)

Abbreviation ElectionID := (list Byte.byte).
Abbreviation VoteID := (list Byte.byte).

(** [ElectionID.String] *)
Definition ElectionID_String (e : ElectionID) : bytes := hex_encode e.

(** [VoteID.String] *)
Definition VoteID_String (v : VoteID) : bytes := hex_encode v.

(** ** Election status *)

Inductive Status :=
  | StatusCreated | StatusActive | StatusEnded | StatusDecrypting
  | StatusFinalizing | StatusResults | StatusPaused | StatusCanceled.

#[export] Instance status_eq_dec : EqDecision Status.
Proof. solve_decision. Defined.

(** The persisted value of a status. *)
Definition status_code (s : Status) : N :=
  match s with
  | StatusCreated => 0 | StatusActive => 1 | StatusEnded => 2
  | StatusDecrypting => 3 | StatusFinalizing => 4 | StatusResults => 5
  | StatusPaused => 6 | StatusCanceled => 7
  end.

Definition status_of_code (n : N) : option Status :=
  list_find (fun s => status_code s = n)
    [StatusCreated; StatusActive; StatusEnded; StatusDecrypting;
     StatusFinalizing; StatusResults; StatusPaused; StatusCanceled] ≫= fun p => Some p.2.

#[export] Program Instance status_countable : Countable Status := {|
  encode s := N.succ_pos (status_code s);
  decode p := status_of_code (Pos.pred_N p);
|}.
Next Obligation. by intros []. Qed.

(** [Status.String] *)
Definition Status_String (s : Status) : string :=
  match s with
  | StatusCreated => "created"
  | StatusActive => "active"
  | StatusEnded => "ended"
  | StatusDecrypting => "decrypting"
  | StatusFinalizing => "finalizing"
  | StatusResults => "results"
  | StatusPaused => "paused"
  | StatusCanceled => "canceled"
  end.

(** ** Vote status *)

Inductive VoteStatus :=
  | VoteStatusPending | VoteStatusBatched | VoteStatusFolded
  | VoteStatusSettled | VoteStatusError.

#[export] Instance vote_status_eq_dec : EqDecision VoteStatus.
Proof. solve_decision. Defined.

Definition vote_status_code (s : VoteStatus) : N :=
  match s with
  | VoteStatusPending => 0 | VoteStatusBatched => 1 | VoteStatusFolded => 2
  | VoteStatusSettled => 3 | VoteStatusError => 4
  end.

Definition vote_status_of_code (n : N) : option VoteStatus :=
  list_find (fun s => vote_status_code s = n)
    [VoteStatusPending; VoteStatusBatched; VoteStatusFolded;
     VoteStatusSettled; VoteStatusError] ≫= fun p => Some p.2.

#[export] Program Instance vote_status_countable : Countable VoteStatus := {|
  encode s := N.succ_pos (vote_status_code s);
  decode p := vote_status_of_code (Pos.pred_N p);
|}.
Next Obligation. by intros []. Qed.

(** [VoteStatus.Final] *)
Definition Final (s : VoteStatus) : bool :=
  bool_decide (s = VoteStatusSettled) || bool_decide (s = VoteStatusError).

(** [VoteStatus.CanMoveTo] *)
Definition CanMoveTo (s next : VoteStatus) : bool :=
  negb (Final s) && (vote_status_code s <? vote_status_code next)%N.

(** [VoteStatus.String] *)
Definition VoteStatus_String (s : VoteStatus) : string :=
  match s with
  | VoteStatusPending => "pending"
  | VoteStatusBatched => "batched"
  | VoteStatusFolded => "folded"
  | VoteStatusSettled => "settled"
  | VoteStatusError => "error"
  end.

(** The order votes move in: a status is followed by itself and by the
    statuses it may move to. *)
Definition vs_le (s t : VoteStatus) : Prop := s = t \/ CanMoveTo s t = true.

#[export] Instance vs_le_refl : Reflexive vs_le.
Proof. by left. Qed.

#[export] Instance vs_le_trans : Transitive vs_le.
Proof. intros [] [] []; unfold vs_le; naive_solver. Qed.

#[export] Instance vs_le_antisym : AntiSymm (=) vs_le.
Proof. intros [] []; unfold vs_le; naive_solver. Qed.

Lemma Final_max s t : Final s = true -> vs_le s t -> s = t.
Proof. destruct s, t; unfold vs_le; naive_solver. Qed.

#[export] Hint Resolve vs_le_refl : fold.
