(* ===== verification/Records.v ===== *)
(** * Persisted records (types/election.go, vote.go, batch.go, worker.go,
    audit.go), and what their CBOR encoding keeps of them *)

From S2P Require Import Prelude Bytes Types.

(** [types.ElectionConfig] *)
Record ElectionConfig := {
  ProcessID : string;
  BallotMode : string;
  EncX : string;
  EncY : string;
  CensusOrigin : N;
  CensusRoot : string;
  ec_VK : bytes;
}.

(** [types.Election] *)
Record Election := {
  el_ID : ElectionID;
  el_Status : Status;
  el_Config : ElectionConfig;
  el_BatchSize : Z;
  el_FoldEvery : Z;
  el_EndTime : time;
  el_CreatedAt : time;
  el_UpdatedAt : time;
  el_FoldWorker : string;
  el_FinalizeError : string;
}.

(** [types.Vote] *)
Record Vote := {
  v_ID : VoteID;
  v_Address : bytes;
  v_Slot : N;
  v_VoteIDKey : N;
  v_Ballot : bytes;
  v_Payload : bytes;
  v_Seq : N;
  v_SubmittedAt : time;
}.

(** [types.BatchInput] *)
Record BatchInput := {
  bi_ElectionID : ElectionID;
  bi_Seq : N;
  bi_ProveRequest : bytes;
  bi_NewStateRoot : string;
  bi_VoteIDs : list VoteID;
  bi_Worker : string;
  bi_JobID : string;
  bi_ImportedID : string;
  bi_FoldWorker : string;
  bi_SealedAt : time;
}.

(** [types.FoldCheckpoint] *)
Record FoldCheckpoint := {
  cp_ElectionID : ElectionID;
  cp_FoldCount : N;
  cp_LastFoldJob : string;
  cp_FoldWorker : string;
  cp_StateRoot : string;
  cp_BatchesFolded : N;
  cp_AggVK : string;
  cp_BatchVK : string;
  cp_UpdatedAt : time;
  cp_Version : N;
}.

(** [types.Results] *)
Record Results := {
  rs_ElectionID : ElectionID;
  rs_Tally : list N;
  rs_ProgramVK : string;
  rs_RootCVadcopFinal : string;
  rs_PublicValues : string;
  rs_ProofBytes : string;
  rs_FinalizedAt : time;
}.

(** [types.AuditRecord] *)
Record AuditRecord := {
  au_Subject : string;
  au_Role : string;
  au_Action : string;
  au_ElectionID : ElectionID;
  au_Timestamp : time;
}.

(** [types.WorkerRegistration] *)
Record WorkerRegistration := {
  wr_Address : string;
  wr_Name : string;
  wr_RegisteredAt : time;
}.

Definition FoldCheckpointVersion : N := 1.

(** ** Field updates *)

Definition el_set_status (s : Status) (e : Election) : Election := {|
  el_ID := el_ID e; el_Status := s; el_Config := el_Config e;
  el_BatchSize := el_BatchSize e; el_FoldEvery := el_FoldEvery e;
  el_EndTime := el_EndTime e; el_CreatedAt := el_CreatedAt e;
  el_UpdatedAt := el_UpdatedAt e; el_FoldWorker := el_FoldWorker e;
  el_FinalizeError := el_FinalizeError e |}.

Definition el_set_finalize_error (m : string) (e : Election) : Election := {|
  el_ID := el_ID e; el_Status := el_Status e; el_Config := el_Config e;
  el_BatchSize := el_BatchSize e; el_FoldEvery := el_FoldEvery e;
  el_EndTime := el_EndTime e; el_CreatedAt := el_CreatedAt e;
  el_UpdatedAt := el_UpdatedAt e; el_FoldWorker := el_FoldWorker e;
  el_FinalizeError := m |}.

Definition el_set_fold_worker (w : string) (e : Election) : Election := {|
  el_ID := el_ID e; el_Status := el_Status e; el_Config := el_Config e;
  el_BatchSize := el_BatchSize e; el_FoldEvery := el_FoldEvery e;
  el_EndTime := el_EndTime e; el_CreatedAt := el_CreatedAt e;
  el_UpdatedAt := el_UpdatedAt e; el_FoldWorker := w;
  el_FinalizeError := el_FinalizeError e |}.

Definition el_set_updated (t : time) (e : Election) : Election := {|
  el_ID := el_ID e; el_Status := el_Status e; el_Config := el_Config e;
  el_BatchSize := el_BatchSize e; el_FoldEvery := el_FoldEvery e;
  el_EndTime := el_EndTime e; el_CreatedAt := el_CreatedAt e;
  el_UpdatedAt := t; el_FoldWorker := el_FoldWorker e;
  el_FinalizeError := el_FinalizeError e |}.

Definition el_set_created (t : time) (e : Election) : Election := {|
  el_ID := el_ID e; el_Status := el_Status e; el_Config := el_Config e;
  el_BatchSize := el_BatchSize e; el_FoldEvery := el_FoldEvery e;
  el_EndTime := el_EndTime e; el_CreatedAt := t; el_UpdatedAt := t;
  el_FoldWorker := el_FoldWorker e; el_FinalizeError := el_FinalizeError e |}.

Definition el_set_params (size every : Z) (s : Status) (vk : bytes) (e : Election) : Election := {|
  el_ID := el_ID e; el_Status := s;
  el_Config := {| ProcessID := ProcessID (el_Config e);
                  BallotMode := BallotMode (el_Config e);
                  EncX := EncX (el_Config e); EncY := EncY (el_Config e);
                  CensusOrigin := CensusOrigin (el_Config e);
                  CensusRoot := CensusRoot (el_Config e); ec_VK := vk |};
  el_BatchSize := size; el_FoldEvery := every;
  el_EndTime := el_EndTime e; el_CreatedAt := el_CreatedAt e;
  el_UpdatedAt := el_UpdatedAt e; el_FoldWorker := el_FoldWorker e;
  el_FinalizeError := el_FinalizeError e |}.

Definition v_set_log (seq : N) (t : time) (v : Vote) : Vote := {|
  v_ID := v_ID v; v_Address := v_Address v; v_Slot := v_Slot v;
  v_VoteIDKey := v_VoteIDKey v; v_Ballot := v_Ballot v;
  v_Payload := v_Payload v; v_Seq := seq; v_SubmittedAt := t |}.

Definition bi_set_jobs (worker job imported foldWorker : string) (b : BatchInput) : BatchInput := {|
  bi_ElectionID := bi_ElectionID b; bi_Seq := bi_Seq b;
  bi_ProveRequest := bi_ProveRequest b; bi_NewStateRoot := bi_NewStateRoot b;
  bi_VoteIDs := bi_VoteIDs b; bi_Worker := worker; bi_JobID := job;
  bi_ImportedID := imported; bi_FoldWorker := foldWorker;
  bi_SealedAt := bi_SealedAt b |}.

Definition bi_set_sealed (t : time) (b : BatchInput) : BatchInput := {|
  bi_ElectionID := bi_ElectionID b; bi_Seq := bi_Seq b;
  bi_ProveRequest := bi_ProveRequest b; bi_NewStateRoot := bi_NewStateRoot b;
  bi_VoteIDs := bi_VoteIDs b; bi_Worker := bi_Worker b; bi_JobID := bi_JobID b;
  bi_ImportedID := bi_ImportedID b; bi_FoldWorker := bi_FoldWorker b;
  bi_SealedAt := t |}.

Definition cp_set_updated (t : time) (c : FoldCheckpoint) : FoldCheckpoint := {|
  cp_ElectionID := cp_ElectionID c; cp_FoldCount := cp_FoldCount c;
  cp_LastFoldJob := cp_LastFoldJob c; cp_FoldWorker := cp_FoldWorker c;
  cp_StateRoot := cp_StateRoot c; cp_BatchesFolded := cp_BatchesFolded c;
  cp_AggVK := cp_AggVK c; cp_BatchVK := cp_BatchVK c; cp_UpdatedAt := t;
  cp_Version := cp_Version c |}.

Definition rs_set_finalized (t : time) (r : Results) : Results := {|
  rs_ElectionID := rs_ElectionID r; rs_Tally := rs_Tally r;
  rs_ProgramVK := rs_ProgramVK r; rs_RootCVadcopFinal := rs_RootCVadcopFinal r;
  rs_PublicValues := rs_PublicValues r; rs_ProofBytes := rs_ProofBytes r;
  rs_FinalizedAt := t |}.

Definition au_set_timestamp (t : time) (r : AuditRecord) : AuditRecord := {|
  au_Subject := au_Subject r; au_Role := au_Role r; au_Action := au_Action r;
  au_ElectionID := au_ElectionID r; au_Timestamp := t |}.

Definition wr_set_registered (t : time) (w : WorkerRegistration) : WorkerRegistration := {|
  wr_Address := wr_Address w; wr_Name := wr_Name w; wr_RegisteredAt := t |}.

(** ** What is read back: every timestamp in whole seconds *)

Definition kept_Election (e : Election) : Election := {|
  el_ID := el_ID e; el_Status := el_Status e; el_Config := el_Config e;
  el_BatchSize := el_BatchSize e; el_FoldEvery := el_FoldEvery e;
  el_EndTime := whole_seconds (el_EndTime e);
  el_CreatedAt := whole_seconds (el_CreatedAt e);
  el_UpdatedAt := whole_seconds (el_UpdatedAt e);
  el_FoldWorker := el_FoldWorker e; el_FinalizeError := el_FinalizeError e |}.

Definition kept_Vote (v : Vote) : Vote := v_set_log (v_Seq v) (whole_seconds (v_SubmittedAt v)) v.
Definition kept_BatchInput (b : BatchInput) : BatchInput :=
  bi_set_sealed (whole_seconds (bi_SealedAt b)) b.
Definition kept_FoldCheckpoint (c : FoldCheckpoint) : FoldCheckpoint :=
  cp_set_updated (whole_seconds (cp_UpdatedAt c)) c.
Definition kept_Results (r : Results) : Results :=
  rs_set_finalized (whole_seconds (rs_FinalizedAt r)) r.
Definition kept_AuditRecord (r : AuditRecord) : AuditRecord :=
  au_set_timestamp (whole_seconds (au_Timestamp r)) r.
Definition kept_WorkerRegistration (w : WorkerRegistration) : WorkerRegistration :=
  wr_set_registered (whole_seconds (wr_RegisteredAt w)) w.

(** ** Decidable equality and countability *)

#[export] Instance ElectionConfig_eq_dec : EqDecision ElectionConfig.
Proof. solve_decision. Defined.
#[export] Instance Election_eq_dec : EqDecision Election.
Proof. solve_decision. Defined.
#[export] Instance Vote_eq_dec : EqDecision Vote.
Proof. solve_decision. Defined.
#[export] Instance BatchInput_eq_dec : EqDecision BatchInput.
Proof. solve_decision. Defined.
#[export] Instance FoldCheckpoint_eq_dec : EqDecision FoldCheckpoint.
Proof. solve_decision. Defined.
#[export] Instance Results_eq_dec : EqDecision Results.
Proof. solve_decision. Defined.
#[export] Instance AuditRecord_eq_dec : EqDecision AuditRecord.
Proof. solve_decision. Defined.
#[export] Instance WorkerRegistration_eq_dec : EqDecision WorkerRegistration.
Proof. solve_decision. Defined.

#[export] Instance ElectionConfig_countable : Countable ElectionConfig.
Proof.
  refine (inj_countable'
    (fun c => (ProcessID c, BallotMode c, EncX c, EncY c, CensusOrigin c, CensusRoot c, ec_VK c))
    (fun '(a, b, c, d, e, f, g) => Build_ElectionConfig a b c d e f g) _).
  by intros [].
Defined.

#[export] Instance Election_countable : Countable Election.
Proof.
  refine (inj_countable'
    (fun e => (el_ID e, el_Status e, el_Config e, el_BatchSize e, el_FoldEvery e,
               el_EndTime e, el_CreatedAt e, el_UpdatedAt e, el_FoldWorker e, el_FinalizeError e))
    (fun '(a, b, c, d, e, f, g, h, i, j) => Build_Election a b c d e f g h i j) _).
  by intros [].
Defined.

#[export] Instance Vote_countable : Countable Vote.
Proof.
  refine (inj_countable'
    (fun v => (v_ID v, v_Address v, v_Slot v, v_VoteIDKey v, v_Ballot v, v_Payload v,
               v_Seq v, v_SubmittedAt v))
    (fun '(a, b, c, d, e, f, g, h) => Build_Vote a b c d e f g h) _).
  by intros [].
Defined.

#[export] Instance BatchInput_countable : Countable BatchInput.
Proof.
  refine (inj_countable'
    (fun b => (bi_ElectionID b, bi_Seq b, bi_ProveRequest b, bi_NewStateRoot b, bi_VoteIDs b,
               bi_Worker b, bi_JobID b, bi_ImportedID b, bi_FoldWorker b, bi_SealedAt b))
    (fun '(a, b, c, d, e, f, g, h, i, j) => Build_BatchInput a b c d e f g h i j) _).
  by intros [].
Defined.

#[export] Instance FoldCheckpoint_countable : Countable FoldCheckpoint.
Proof.
  refine (inj_countable'
    (fun c => (cp_ElectionID c, cp_FoldCount c, cp_LastFoldJob c, cp_FoldWorker c, cp_StateRoot c,
               cp_BatchesFolded c, cp_AggVK c, cp_BatchVK c, cp_UpdatedAt c, cp_Version c))
    (fun '(a, b, c, d, e, f, g, h, i, j) => Build_FoldCheckpoint a b c d e f g h i j) _).
  by intros [].
Defined.

#[export] Instance Results_countable : Countable Results.
Proof.
  refine (inj_countable'
    (fun r => (rs_ElectionID r, rs_Tally r, rs_ProgramVK r, rs_RootCVadcopFinal r,
               rs_PublicValues r, rs_ProofBytes r, rs_FinalizedAt r))
    (fun '(a, b, c, d, e, f, g) => Build_Results a b c d e f g) _).
  by intros [].
Defined.

#[export] Instance AuditRecord_countable : Countable AuditRecord.
Proof.
  refine (inj_countable'
    (fun r => (au_Subject r, au_Role r, au_Action r, au_ElectionID r, au_Timestamp r))
    (fun '(a, b, c, d, e) => Build_AuditRecord a b c d e) _).
  by intros [].
Defined.

#[export] Instance WorkerRegistration_countable : Countable WorkerRegistration.
Proof.
  refine (inj_countable'
    (fun w => (wr_Address w, wr_Name w, wr_RegisteredAt w))
    (fun '(a, b, c) => Build_WorkerRegistration a b c) _).
  by intros [].
Defined.
