(* ===== verification/KV.v ===== *)
(** * The key-value database

    The interface of the database the storage layer runs on (davinci-node's
    db.Database over Pebble, which is not part of the repository): reads,
    prefix iteration and atomic write transactions, with the documented
    behaviour the storage layer relies on as laws, and an in-memory instance
    of the interface. *)

From S2P Require Import Prelude Bytes.
From stdpp Require Import sorting.

(** A write of a transaction. *)
Inductive kvop :=
  | KPut (k v : bytes)
  | KDel (k : bytes).

(** The contents of a database, key by key. *)
Definition contents := bytes -> option bytes.

Definition kv_write (w : kvop) (c : contents) : contents := fun k =>
  match w with
  | KPut k' v => if decide (k' = k) then Some v else c k
  | KDel k' => if decide (k' = k) then None else c k
  end.

(** The writes of a transaction take effect in order. *)
Definition kv_writes (ws : list kvop) (c : contents) : contents :=
  foldl (fun c w => kv_write w c) c ws.

(** [kv_faults] is the outcome of the commits to come, [true] for one that
    fails (the disk is full, ...); when it runs out, commits succeed.
    [kv_readable] says whether iterations succeed (the database is open). *)
Class KV (DB : Type) := {
  kv_get : DB -> bytes -> option bytes;
  kv_iter : DB -> bytes -> option (list (bytes * bytes));
  kv_commit : list kvop -> DB -> bool * DB;
  kv_faults : DB -> list bool;
  kv_readable : DB -> bool;
}.

Definition next_fault (f : list bool) : bool := hd false f.

(** What is relied on: a commit is all or nothing, and an iteration lists
    the keys under a prefix, without the prefix, in lexicographic order. *)
Class KVLaws (DB : Type) `{KV DB} := {
  kv_commit_outcome db ws : (kv_commit ws db).1 = negb (next_fault (kv_faults db));
  kv_commit_ok db ws k :
    next_fault (kv_faults db) = false ->
    kv_get (kv_commit ws db).2 k = kv_writes ws (kv_get db) k;
  kv_commit_failed db ws k :
    next_fault (kv_faults db) = true ->
    kv_get (kv_commit ws db).2 k = kv_get db k;
  kv_commit_faults db ws : kv_faults (kv_commit ws db).2 = tl (kv_faults db);
  kv_commit_readable db ws : kv_readable (kv_commit ws db).2 = kv_readable db;
  kv_iter_unreadable db p : kv_readable db = false -> kv_iter db p = None;
  kv_iter_readable db p :
    kv_readable db = true ->
    exists l, kv_iter db p = Some l /\
      NoDup l.*1 /\ Sorted lex_le l.*1 /\
      (forall k v, (k, v) ∈ l <-> kv_get db (p ++ k) = Some v);
}.

(** ** An in-memory database *)

Record MemDB := {
  mem_data : gmap bytes bytes;
  mem_faults : list bool;
  mem_readable : bool;
}.

Definition mem_write (w : kvop) (m : gmap bytes bytes) : gmap bytes bytes :=
  match w with
  | KPut k v => <[k := v]> m
  | KDel k => delete k m
  end.

(** The rest of a key under a prefix. *)
Fixpoint strip_prefix (p k : bytes) : option bytes :=
  match p, k with
  | [], _ => Some k
  | _ :: _, [] => None
  | x :: p', y :: k' => if decide (x = y) then strip_prefix p' k' else None
  end.

Definition mem_under (p : bytes) (m : gmap bytes bytes) : list (bytes * bytes) :=
  omap (fun '(k, v) => k' ← strip_prefix p k; Some (k', v)) (map_to_list m).

Definition by_key (x y : bytes * bytes) : Prop := lex_le x.1 y.1.

#[export] Instance by_key_dec x y : Decision (by_key x y).
Proof. unfold by_key. apply _. Defined.

#[export] Instance by_key_total : Total by_key.
Proof. intros x y. apply lex_le_total. Qed.

#[export] Instance MemKV : KV MemDB := {|
  kv_get db k := mem_data db !! k;
  kv_iter db p :=
    if mem_readable db then Some (merge_sort by_key (mem_under p (mem_data db))) else None;
  kv_commit ws db :=
    let failed := next_fault (mem_faults db) in
    (negb failed,
     {| mem_data := if failed then mem_data db
                    else foldl (fun m w => mem_write w m) (mem_data db) ws;
        mem_faults := tl (mem_faults db);
        mem_readable := mem_readable db |});
  kv_faults := mem_faults;
  kv_readable := mem_readable;
|}.

Definition mem_empty : MemDB :=
  {| mem_data := ∅; mem_faults := []; mem_readable := true |}.

Lemma strip_prefix_Some p k k' : strip_prefix p k = Some k' <-> k = p ++ k'.
Proof.
  revert k. induction p as [|x p IH]; intros k; simpl; [naive_solver|].
  destruct k as [|y k]; [naive_solver|]. case_decide as E.
  - subst. rewrite IH. naive_solver.
  - naive_solver.
Qed.

Lemma mem_write_lookup w m k :
  mem_write w m !! k = kv_write w (fun k => m !! k) k.
Proof. destruct w as [k' v|k']; simpl; [rewrite lookup_insert|rewrite lookup_delete]; done. Qed.

Lemma kv_writes_ext ws c c' k :
  (forall k, c k = c' k) -> kv_writes ws c k = kv_writes ws c' k.
Proof.
  revert c c'. induction ws as [|w ws IH]; intros c c' Hc; [apply Hc|].
  apply IH. intros k'. destruct w; simpl; by rewrite Hc.
Qed.

Lemma mem_writes_lookup ws m k :
  foldl (fun m w => mem_write w m) m ws !! k = kv_writes ws (fun k => m !! k) k.
Proof.
  revert m. induction ws as [|w ws IH]; intros m; [done|].
  simpl. rewrite IH. apply kv_writes_ext. intros k'. apply mem_write_lookup.
Qed.

Lemma mem_under_elem p m k v : (k, v) ∈ mem_under p m <-> m !! (p ++ k) = Some v.
Proof.
  unfold mem_under. rewrite list_elem_of_omap. split.
  - intros ([k' v'] & Hin & E). apply elem_of_map_to_list in Hin.
    destruct (strip_prefix p k') as [k''|] eqn:Es; [|done]. simpl in E.
    apply strip_prefix_Some in Es as ->. by injection E as -> ->.
  - intros Hk. exists (p ++ k, v). split; [by apply elem_of_map_to_list|].
    assert (strip_prefix p (p ++ k) = Some k) as -> by by apply strip_prefix_Some.
    done.
Qed.

Lemma mem_under_nodup p m : NoDup (mem_under p m).*1.
Proof.
  unfold mem_under. pose proof (NoDup_fst_map_to_list m) as Hnd.
  induction (map_to_list m) as [|[k v] l IH]; [constructor|].
  csimpl in *. inversion_clear Hnd as [|? ? Hk Hnd'].
  destruct (strip_prefix p k) as [k'|] eqn:Es; simpl; [|auto].
  csimpl. constructor; [|auto]. intros Hin. apply Hk.
  apply strip_prefix_Some in Es as ->.
  apply list_elem_of_fmap in Hin as ([k'' v''] & -> & Hin). simpl.
  apply list_elem_of_omap in Hin as ([k3 v3] & Hin & E).
  destruct (strip_prefix p k3) eqn:Es; simplify_eq/=.
  apply strip_prefix_Some in Es as ->.
  apply list_elem_of_fmap. by exists (p ++ k'', v'').
Qed.

#[export] Instance MemKVLaws : KVLaws MemDB.
Proof.
  split; simpl; try done.
  - intros db ws k ->. apply mem_writes_lookup.
  - by intros db ws k ->.
  - by intros db p ->.
  - intros db p ->. eexists. split; [done|].
    pose proof (merge_sort_Permutation by_key (mem_under p (mem_data db))) as HP.
    split; [|split].
    + rewrite HP. apply mem_under_nodup.
    + apply (Sorted_fmap fst by_key lex_le); [done|].
      apply Sorted_merge_sort. apply _.
    + intros k v. rewrite HP. apply mem_under_elem.
Qed.
