(* ===== verification/Keys.v ===== *)
(** * Key layout (storage/keys.go, and the key functions of storage.go,
    proofs.go and audit.go)

    Every artifact the store holds, by the typed key that identifies it
    ([Key]), and the byte key it is stored at ([key_bytes]).  The layout is
    proved unambiguous: two typed keys never share a byte key, and the keys
    under a scan prefix are those of the artifacts the scan is for, in the
    order the callers rely on. *)

From S2P Require Import Prelude Bytes Types.

(** ** Building blocks, as in the code *)

(** Namespace prefixes. *)
Definition reservationPrefixRoot := lit "r/".
Definition electionPrefix := lit "el/".
Definition votePrefix := lit "v/".
Definition voteStatusPrefix := lit "vs/".
Definition voteSeqPrefix := lit "vseq/".
Definition batchPrefix := lit "ba/".
Definition foldPrefix := lit "fc/".
Definition snapshotPrefix := lit "ss/".
Definition resultsPrefix := lit "rs/".
Definition auditPrefix := lit "au/".
Definition proofPrefix := lit "pf/".
Definition workerPrefix := lit "wk/".

Definition electionKey (id : ElectionID) : bytes := ElectionID_String id.

Definition subKey (id : ElectionID) (sub : bytes) : bytes :=
  (ElectionID_String id ++ [slash]) ++ sub.

Definition electionScanPrefix (id : ElectionID) : bytes :=
  ElectionID_String id ++ [slash].

Definition seqBytes (seq : N) : bytes := put_uint64 seq.

Definition batchProofKey (id : ElectionID) (seq : N) : bytes :=
  subKey id (lit "b" ++ seqBytes seq).

Definition foldProofKey (id : ElectionID) : bytes := subKey id (lit "f").

(** [fmt.Sprintf("%0wd", z)] of an [int64]. *)
Definition fmt_0d_Z (w : nat) (z : Z) : bytes :=
  if (z <? 0)%Z then lit "-" ++ fmt_0d (w - 1) (Z.to_N (- z))
  else fmt_0d w (Z.to_N z).

Definition auditKey (nanos : Z) (seq : N) : bytes :=
  fmt_0d_Z 20 nanos ++ lit "-" ++ fmt_0d 10 seq.

(** ** Typed keys *)

Inductive Key :=
  | KElection (id : ElectionID)
  | KSnapshot (id : ElectionID)
  | KVoteSeq (id : ElectionID)
  | KVote (id : ElectionID) (voteID : VoteID)
  | KVoteStatus (id : ElectionID) (voteID : VoteID)
  | KBatch (id : ElectionID) (seq : N)
  | KFold (id : ElectionID)
  | KResults (id : ElectionID)
  | KBatchProof (id : ElectionID) (seq : N)
  | KFoldProof (id : ElectionID)
  | KWorker (address : string)
  | KAudit (nanos : Z) (seq : N)
  | KReservation (id : ElectionID) (seq : N).

#[export] Instance Key_eq_dec : EqDecision Key.
Proof. solve_decision. Defined.

#[export] Instance Key_countable : Countable Key.
Proof.
  refine (inj_countable' (A := nat * (list Byte.byte * (list Byte.byte * N * (string * Z))))
    (fun k => match k with
     | KElection id => (0, (id, ([], 0%N, (""%string, 0%Z))))
     | KSnapshot id => (1, (id, ([], 0%N, (""%string, 0%Z))))
     | KVoteSeq id => (2, (id, ([], 0%N, (""%string, 0%Z))))
     | KVote id v => (3, (id, (v, 0%N, (""%string, 0%Z))))
     | KVoteStatus id v => (4, (id, (v, 0%N, (""%string, 0%Z))))
     | KBatch id n => (5, (id, ([], n, (""%string, 0%Z))))
     | KFold id => (6, (id, ([], 0%N, (""%string, 0%Z))))
     | KResults id => (7, (id, ([], 0%N, (""%string, 0%Z))))
     | KBatchProof id n => (8, (id, ([], n, (""%string, 0%Z))))
     | KFoldProof id => (9, (id, ([], 0%N, (""%string, 0%Z))))
     | KWorker a => (10, ([], ([], 0%N, (a, 0%Z))))
     | KAudit t n => (11, ([], ([], n, (""%string, t))))
     | KReservation id n => (12, (id, ([], n, (""%string, 0%Z))))
     end)
    (fun '(c, (id, (v, n, (a, t)))) => match c with
     | 0 => KElection id | 1 => KSnapshot id | 2 => KVoteSeq id
     | 3 => KVote id v | 4 => KVoteStatus id v | 5 => KBatch id n
     | 6 => KFold id | 7 => KResults id | 8 => KBatchProof id n
     | 9 => KFoldProof id | 10 => KWorker a | 11 => KAudit t n
     | _ => KReservation id n
     end) _).
  by intros [].
Defined.

(** The namespace of a key and its key in there. *)
Definition key_prefix (k : Key) : bytes :=
  match k with
  | KElection _ => electionPrefix
  | KSnapshot _ => snapshotPrefix
  | KVoteSeq _ => voteSeqPrefix
  | KVote _ _ => votePrefix
  | KVoteStatus _ _ => voteStatusPrefix
  | KBatch _ _ => batchPrefix
  | KFold _ => foldPrefix
  | KResults _ => resultsPrefix
  | KBatchProof _ _ | KFoldProof _ => proofPrefix
  | KWorker _ => workerPrefix
  | KAudit _ _ => auditPrefix
  | KReservation _ _ => reservationPrefixRoot ++ batchPrefix
  end.

Definition key_local (k : Key) : bytes :=
  match k with
  | KElection id | KSnapshot id | KVoteSeq id | KFold id | KResults id => electionKey id
  | KVote id v | KVoteStatus id v => subKey id v
  | KBatch id seq | KReservation id seq => subKey id (seqBytes seq)
  | KBatchProof id seq => batchProofKey id seq
  | KFoldProof id => foldProofKey id
  | KWorker a => lit a
  | KAudit t n => auditKey t n
  end.

Definition key_bytes (k : Key) : bytes := key_prefix k ++ key_local k.

(** Keys of the numbers a [uint64] holds; for the audit log, timestamps of
    at most 20 digits (every [UnixNano] since 1970 has fewer). *)
Definition valid_key (k : Key) : Prop :=
  match k with
  | KBatch _ seq | KBatchProof _ seq | KReservation _ seq => (seq < two64)%N
  | KAudit t n => (0 <= t < 10 ^ 20)%Z
  | _ => True
  end.

(** ** Scans *)

Inductive Scan :=
  | ScanElections
  | ScanVotes (id : ElectionID)
  | ScanVoteStatuses (id : ElectionID)
  | ScanBatches (id : ElectionID)
  | ScanProofs (id : ElectionID)
  | ScanWorkers
  | ScanAudit
  | ScanReservations.

(** The prefix a scan iterates under. *)
Definition scan_prefix (s : Scan) : bytes :=
  match s with
  | ScanElections => electionPrefix
  | ScanVotes id => votePrefix ++ electionScanPrefix id
  | ScanVoteStatuses id => voteStatusPrefix ++ electionScanPrefix id
  | ScanBatches id => batchPrefix ++ electionScanPrefix id
  | ScanProofs id => proofPrefix ++ electionScanPrefix id
  | ScanWorkers => workerPrefix
  | ScanAudit => auditPrefix
  | ScanReservations => reservationPrefixRoot ++ batchPrefix
  end.

(** The keys a scan is for. *)
Definition in_scan (s : Scan) (k : Key) : Prop :=
  match s, k with
  | ScanElections, KElection _ => True
  | ScanVotes id, KVote id' _ => id' = id
  | ScanVoteStatuses id, KVoteStatus id' _ => id' = id
  | ScanBatches id, KBatch id' _ => id' = id
  | ScanProofs id, (KBatchProof id' _ | KFoldProof id') => id' = id
  | ScanWorkers, KWorker _ => True
  | ScanAudit, KAudit _ _ => True
  | ScanReservations, KReservation _ _ => True
  | _, _ => False
  end.

#[export] Instance in_scan_dec s k : Decision (in_scan s k).
Proof. destruct s, k; simpl; apply _. Defined.

(** What a key has after the prefix of its scan. *)
Definition scan_suffix (s : Scan) (k : Key) : bytes :=
  drop (length (scan_prefix s)) (key_bytes k).

(** ** The namespaces are disjoint *)

(** Neither of two byte strings is a prefix of the other. *)
Fixpoint diverge (p q : bytes) : bool :=
  match p, q with
  | x :: p', y :: q' => if decide (x = y) then diverge p' q' else true
  | _, _ => false
  end.

Lemma diverge_app p q x y : diverge p q = true -> p ++ x <> q ++ y.
Proof.
  revert q. induction p as [|a p IH]; intros [|b q]; simpl; try done.
  case_decide as E; [|congruence].
  intros Hd [= _ H]. by apply (IH q).
Qed.

(** The namespace of a key, as a number. *)
Definition key_ns (k : Key) : nat :=
  match k with
  | KElection _ => 0 | KSnapshot _ => 1 | KVoteSeq _ => 2 | KVote _ _ => 3
  | KVoteStatus _ _ => 4 | KBatch _ _ => 5 | KFold _ => 6 | KResults _ => 7
  | KBatchProof _ _ | KFoldProof _ => 8 | KWorker _ => 9 | KAudit _ _ => 10
  | KReservation _ _ => 11
  end.

Lemma key_prefix_ns k1 k2 x y :
  key_prefix k1 ++ x = key_prefix k2 ++ y -> key_ns k1 = key_ns k2.
Proof.
  intros E. destruct k1, k2; simpl in *; try done;
    exfalso; revert E; apply diverge_app; by vm_compute.
Qed.

Lemma subKey_inj id1 id2 x y : subKey id1 x = subKey id2 y -> id1 = id2 /\ x = y.
Proof.
  unfold subKey. rewrite <- !app_assoc. simpl. intros E.
  apply split_slash in E as [E ->]; [|apply hex_no_slash..].
  split; [|done]. by apply (inj hex_encode).
Qed.

Lemma lit_inj a b : lit a = lit b -> a = b.
Proof.
  intros E. rewrite <- (String.string_of_list_byte_of_string a).
  rewrite <- (String.string_of_list_byte_of_string b). by f_equal.
Qed.

(** ** Padded decimals *)

Lemma ndigits_le fuel w n : 1 <= w -> (n < 10 ^ N.of_nat w)%N -> ndigits fuel n <= w.
Proof.
  revert w n. induction fuel as [|f IH]; intros w n Hw Hn; simpl; [lia|].
  destruct (N.ltb_spec n 10) as [?|Hge]; [lia|].
  destruct w as [|[|w]]; [lia|simpl in Hn; lia|].
  assert (ndigits f (n / 10) <= S w); [|lia].
  apply IH; [lia|]. apply N.Div0.div_lt_upper_bound.
  rewrite <- N.pow_succ_r by lia. by replace (N.succ (N.of_nat (S w))) with (N.of_nat (S (S w))) by lia.
Qed.

(** A number that fits the width is printed at exactly that width. *)
Lemma fmt_0d_fits w n :
  1 <= w -> (n < 10 ^ N.of_nat w)%N -> fmt_0d w n = dec_digit <$> digits_be 10 w n.
Proof.
  intros Hw Hn. unfold fmt_0d. pose proof (ndigits_le (N.size_nat n) w n Hw Hn).
  by rewrite Nat.max_l by done.
Qed.

Lemma to_N_dec_digit d : (d < 10)%N -> Byte.to_N (dec_digit d) = (48 + d)%N.
Proof. intros Hd. unfold dec_digit. apply to_N_byte_of. lia. Qed.

Lemma dec_digits_inj a b :
  Forall (fun d => d < 10)%N a -> Forall (fun d => d < 10)%N b ->
  dec_digit <$> a = dec_digit <$> b -> a = b.
Proof.
  intros Ha. revert b. induction Ha as [|x a Hx _ IH]; intros [|y b] Hb E; try done.
  inversion_clear Hb as [|? ? Hy Hb']. csimpl in E. injection E as E1 E2.
  apply (f_equal Byte.to_N) in E1. rewrite !to_N_dec_digit in E1 by done.
  f_equal; [lia|auto].
Qed.

Lemma ndigits_enough fuel n :
  (n < 2 ^ N.of_nat fuel)%N -> (n < 10 ^ N.of_nat (ndigits fuel n))%N.
Proof.
  revert n. induction fuel as [|f IH]; intros n Hn; [simpl in *; lia|].
  cbn [ndigits]. destruct (N.ltb_spec n 10) as [?|Hge]; [done|].
  assert (n / 10 < 2 ^ N.of_nat f)%N as Hdiv.
  { apply N.Div0.div_lt_upper_bound.
    replace (N.of_nat (S f)) with (N.succ (N.of_nat f)) in Hn by lia.
    rewrite N.pow_succ_r in Hn by lia. lia. }
  apply IH in Hdiv.
  replace (N.of_nat (S (ndigits f (n / 10)))) with (N.succ (N.of_nat (ndigits f (n / 10)))) by lia.
  rewrite N.pow_succ_r by lia.
  pose proof (N.div_mod n 10). pose proof (N.mod_lt n 10). lia.
Qed.

(** The printed decimal determines the number, whatever its size. *)
Lemma fmt_0d_inj w m n : fmt_0d w m = fmt_0d w n -> m = n.
Proof.
  unfold fmt_0d. intros E.
  apply dec_digits_inj in E; [|apply digits_be_lt; lia..].
  assert (El := f_equal length E). rewrite !length_digits_be in El.
  pose proof (ndigits_enough _ _ (size_nat_bound m)) as Hm.
  pose proof (ndigits_enough _ _ (size_nat_bound n)) as Hn.
  rewrite El in E. apply digits_be_inj in E; [done|lia|..];
    eapply N.lt_le_trans; try eassumption; apply N.pow_le_mono_r; lia.
Qed.

Lemma length_fmt_0d w n : 1 <= w -> (n < 10 ^ N.of_nat w)%N -> length (fmt_0d w n) = w.
Proof. intros. rewrite fmt_0d_fits by done. by rewrite length_fmap, length_digits_be. Qed.

Lemma auditKey_inj t1 n1 t2 n2 :
  valid_key (KAudit t1 n1) -> valid_key (KAudit t2 n2) ->
  auditKey t1 n1 = auditKey t2 n2 -> t1 = t2 /\ n1 = n2.
Proof.
  simpl. intros [Ht1 Ht1'] [Ht2 Ht2'] E. unfold auditKey, fmt_0d_Z in E.
  rewrite (proj2 (Z.ltb_ge t1 0)), (proj2 (Z.ltb_ge t2 0)) in E by done.
  assert (forall t, (0 <= t < 10 ^ 20)%Z -> (Z.to_N t < 10 ^ N.of_nat 20)%N) as Hfit
    by (intros t ?; rewrite <- N2Z.id; apply Z2N.inj_lt; simpl; lia).
  apply app_inj_1 in E as [E1 E2];
    [|rewrite !length_fmt_0d; [done|lia|apply Hfit; lia|lia|apply Hfit; lia]].
  apply fmt_0d_inj in E1.
  apply (app_inv_head (lit "-")), fmt_0d_inj in E2.
  split; [lia|done].
Qed.

(** ** The layout is unambiguous *)

Lemma batchProof_foldProof id id' seq : batchProofKey id seq <> foldProofKey id'.
Proof. intros [_ E]%subKey_inj. done. Qed.

(** Two typed keys never share a byte key. *)
Lemma key_bytes_injective k1 k2 :
  valid_key k1 -> valid_key k2 -> key_bytes k1 = key_bytes k2 -> k1 = k2.
Proof.
  intros V1 V2 E. unfold key_bytes in E.
  pose proof (key_prefix_ns k1 k2 _ _ E) as Ens.
  destruct k1, k2; cbn [key_ns] in Ens; try discriminate;
    cbn [key_prefix key_local valid_key] in *;
    match type of E with ?p ++ _ = ?p ++ _ => apply (app_inv_head p) in E end;
    try (apply (inj hex_encode) in E as ->; done);
    try (apply lit_inj in E as ->; done);
    try (apply subKey_inj in E as [-> E]; first [discriminate E | subst; done
           | apply (put_uint64_inj _ _ V1 V2) in E as ->; done
           | apply (app_inv_head (lit "b")), (put_uint64_inj _ _ V1 V2) in E as ->; done
           | done]).
  apply auditKey_inj in E as [-> ->]; done.
Qed.

(** ** Scans see what they are for *)

Lemma scan_prefix_local s k x :
  key_bytes k = scan_prefix s ++ x -> in_scan s k.
Proof.
  assert (forall id' id y z, subKey id' y = electionScanPrefix id ++ z -> id' = id) as Hsub.
  { intros id' id y z E. change (subKey id' y = subKey id z) in E.
    by apply subKey_inj in E as [-> _]. }
  unfold key_bytes. intros E.
  destruct s, k; cbn [key_prefix key_local scan_prefix in_scan] in *;
    rewrite <- ?app_assoc in E; try done;
    first [exfalso; revert E; apply diverge_app; by vm_compute | idtac];
    match type of E with ?p ++ _ = ?p ++ _ => apply (app_inv_head p) in E end;
    by eapply Hsub.
Qed.

Lemma in_scan_prefix s k : in_scan s k -> key_bytes k = scan_prefix s ++ scan_suffix s k.
Proof.
  intros Hs. assert (exists x, key_bytes k = scan_prefix s ++ x) as [x E].
  { unfold key_bytes. destruct s, k; cbn [key_prefix key_local scan_prefix in_scan] in *;
      try done; subst;
      try (by eexists);
      unfold batchProofKey, foldProofKey, subKey, electionScanPrefix;
      eexists; by rewrite <- !app_assoc. }
  unfold scan_suffix. by rewrite E, drop_app_length.
Qed.

(** Batches are scanned in sequence order. *)
Lemma batch_scan_order id m n :
  valid_key (KBatch id m) -> valid_key (KBatch id n) ->
  lex_le (scan_suffix (ScanBatches id) (KBatch id m)) (scan_suffix (ScanBatches id) (KBatch id n))
  <-> (m <= n)%N.
Proof.
  intros Hm Hn. rewrite <- put_uint64_order by done.
  assert (forall seq, scan_suffix (ScanBatches id) (KBatch id seq) = seqBytes seq) as Hs.
  { intros seq. assert (in_scan (ScanBatches id) (KBatch id seq)) as Hin by done.
    apply in_scan_prefix in Hin. unfold key_bytes in Hin.
    cbn [key_prefix key_local scan_prefix] in Hin.
    unfold subKey, electionScanPrefix in *. rewrite <- !app_assoc in Hin.
    by repeat apply app_inv_head in Hin. }
  by rewrite !Hs.
Qed.

(** A vote status is scanned under its vote ID. *)
Lemma vote_status_suffix id v :
  scan_suffix (ScanVoteStatuses id) (KVoteStatus id v) = v.
Proof.
  assert (in_scan (ScanVoteStatuses id) (KVoteStatus id v)) as Hin by done.
  apply in_scan_prefix in Hin. unfold key_bytes in Hin.
    cbn [key_prefix key_local scan_prefix] in Hin.
  unfold subKey, electionScanPrefix in *. rewrite <- !app_assoc in Hin.
  by repeat apply app_inv_head in Hin.
Qed.

#[export] Hint Resolve key_bytes_injective in_scan_prefix : fold.
