(* ===== verification/Retries.v ===== *)
(** * Backoff of failing tasks (orchestrator/retry.go)

    When a failed background task of an election may run again. *)

From S2P Require Import Prelude Errors Bytes Types.

Definition taskEnd : bytes := lit "end".
Definition taskDispatch : bytes := lit "dispatch".
Definition taskDrain : bytes := lit "drain".

Definition retryMinDelay : duration := second.
Definition retryMaxDelay : duration := (5 * minute)%Z.

(** [retryState] *)
Record retryState := { re_failures : Z; re_next : time }.

#[export] Instance retryState_eq_dec : EqDecision retryState.
Proof. solve_decision. Defined.

Abbreviation retries := (gmap bytes retryState).
Definition newRetries : retries := ∅.

(** [retryKey] *)
Definition retryKey (id : ElectionID) (task : bytes) : bytes :=
  ElectionID_String id ++ lit "/" ++ task.

(** [retryDelay], for at least one failure. *)
Definition retryDelay (failures : Z) : duration :=
  Z.min (Z.shiftl retryMinDelay (Z.min (failures - 1) 16)) retryMaxDelay.

(** [retries.due] *)
Definition due (now : time) (id : ElectionID) (task : bytes) (r : retries) : bool :=
  match r !! retryKey id task with
  | None => true
  | Some st => negb (now <? re_next st)%Z
  end.

(** [retries.take]: whether the task was taken. *)
Definition take_task (now : time) (id : ElectionID) (task : bytes) (r : retries) : bool * retries :=
  match r !! retryKey id task with
  | None => (false, r)
  | Some st =>
      if (now <? re_next st)%Z then (false, r)
      else (true, <[retryKey id task :=
              {| re_failures := re_failures st;
                 re_next := (now + retryDelay (Z.max (re_failures st) 1))%Z |}]> r)
  end.

(** [retries.schedule] *)
Definition schedule (id : ElectionID) (task : bytes) (r : retries) : retries :=
  match r !! retryKey id task with
  | Some _ => r
  | None => <[retryKey id task := {| re_failures := 0; re_next := zero_time |}]> r
  end.

(** [retries.failed] *)
Definition failed (now : time) (id : ElectionID) (task : bytes) (r : retries) : retries :=
  let failures :=
    (match r !! retryKey id task with Some st => re_failures st | None => 0 end + 1)%Z in
  <[retryKey id task := {| re_failures := failures; re_next := (now + retryDelay failures)%Z |}]> r.

(** [retries.succeeded] *)
Definition succeeded (id : ElectionID) (task : bytes) (r : retries) : retries :=
  delete (retryKey id task) r.

(** [retries.forget] *)
Definition forget (id : ElectionID) (r : retries) : retries :=
  foldl (fun r task => delete (retryKey id task) r) r [taskEnd; taskDispatch; taskDrain].

(** ** Delays *)

Lemma retryDelay_bounds n : (1 <= n)%Z -> (retryMinDelay <= retryDelay n <= retryMaxDelay)%Z.
Proof.
  intros Hn. unfold retryDelay. assert (0 <= Z.min (n - 1) 16)%Z as Hk by lia.
  rewrite Z.shiftl_mul_pow2 by done.
  assert (1 <= 2 ^ Z.min (n - 1) 16)%Z by (pose proof (Z.pow_pos_nonneg 2 _ ltac:(done) Hk); lia).
  unfold retryMinDelay, retryMaxDelay, minute, second in *. lia.
Qed.

Lemma retryDelay_mono m n : (1 <= m <= n)%Z -> (retryDelay m <= retryDelay n)%Z.
Proof.
  intros Hmn. unfold retryDelay. rewrite !Z.shiftl_mul_pow2 by lia.
  assert (2 ^ Z.min (m - 1) 16 <= 2 ^ Z.min (n - 1) 16)%Z by (apply Z.pow_le_mono_r; lia).
  unfold retryMinDelay, second. lia.
Qed.

(** The failures counted are not negative. *)
Definition retries_ok (r : retries) : Prop := map_Forall (fun _ st => (0 <= re_failures st)%Z) r.

(** The wait after the [n]th failure in a row doubles from a second up to
    five minutes, and never decreases or leaves those bounds. *)
Theorem retryDelay_doubles n :
  (1 <= n)%Z ->
  retryDelay n = (if decide (n <= 9)%Z then (2 ^ (n - 1) * second)%Z else retryMaxDelay) /\
  (retryMinDelay <= retryDelay n <= retryMaxDelay)%Z /\
  (retryDelay n <= retryDelay (n + 1))%Z.
Proof.
  intros Hn. split; [|split; [by apply retryDelay_bounds|apply retryDelay_mono; lia]].
  unfold retryDelay. rewrite Z.shiftl_mul_pow2 by lia.
  case_decide as Hd.
  - rewrite (Z.min_l (n - 1) 16) by lia.
    assert (2 ^ (n - 1) <= 2 ^ 8)%Z by (apply Z.pow_le_mono_r; lia).
    change (2 ^ 8)%Z with 256%Z in *.
    unfold retryMinDelay, retryMaxDelay, minute, second in *. lia.
  - assert (2 ^ 9 <= 2 ^ Z.min (n - 1) 16)%Z by (apply Z.pow_le_mono_r; lia).
    change (2 ^ 9)%Z with 512%Z in *.
    unfold retryMinDelay, retryMaxDelay, minute, second in *. lia.
Qed.

Lemma retryKey_inj id1 t1 id2 t2 :
  retryKey id1 t1 = retryKey id2 t2 -> id1 = id2 /\ t1 = t2.
Proof.
  unfold retryKey, ElectionID_String. intros E.
  apply split_slash in E as [E ->]; [|apply hex_no_slash..].
  by apply (inj hex_encode) in E.
Qed.

(** A task that failed does not run again before its delay, another task or
    election is not held back by it, and once it succeeds it is due at once. *)
Theorem failed_backs_off (now now' : time) (id id' : ElectionID) (task task' : bytes) (r : retries) :
  retries_ok r ->
  let r' := failed now id task r in
  retries_ok r' /\
  ((now' < now + retryMinDelay)%Z -> due now' id task r' = false) /\
  ((now + retryMaxDelay <= now')%Z -> due now' id task r' = true) /\
  ((id', task') <> (id, task) -> due now' id' task' r' = due now' id' task' r) /\
  due now' id task (succeeded id task r') = true.
Proof.
  intros Hok r'.
  set (n := (match r !! retryKey id task with Some st => re_failures st | None => 0 end + 1)%Z).
  assert (1 <= n)%Z as Hn.
  { unfold n. destruct (r !! retryKey id task) as [st|] eqn:E; [|lia].
    specialize (Hok _ _ E). simpl in Hok. lia. }
  pose proof (retryDelay_bounds n Hn) as Hb.
  assert (r' !! retryKey id task = Some {| re_failures := n; re_next := (now + retryDelay n)%Z |}) as El
    by apply lookup_insert_eq.
  split_and!.
  - apply map_Forall_insert_2; [simpl; lia|done].
  - intros Hlt. unfold due. rewrite El. simpl. apply negb_false_iff, Z.ltb_lt. lia.
  - intros Hge. unfold due. rewrite El. simpl. apply negb_true_iff, Z.ltb_ge. lia.
  - intros Hne. unfold due, r', failed. cbv zeta. rewrite lookup_insert_ne; [done|].
    intros [-> ->]%retryKey_inj. done.
  - unfold due, succeeded. by rewrite lookup_delete_eq.
Qed.

(** A scheduled task is taken once per delay: taking it holds off the next
    take, so a run is never doubled. *)
Theorem take_holds_off (now now' : time) (id : ElectionID) (task : bytes) (r : retries) :
  retries_ok r ->
  let '(taken, r') := take_task now id task r in
  retries_ok r' /\
  (taken = true -> (now' < now + retryMinDelay)%Z -> (take_task now' id task r').1 = false) /\
  (taken = false -> r' = r).
Proof.
  intros Hok. unfold take_task at 1.
  destruct (r !! retryKey id task) as [st|] eqn:E; [|done].
  destruct (now <? re_next st)%Z; [done|].
  pose proof (retryDelay_bounds (Z.max (re_failures st) 1) ltac:(lia)) as Hb.
  split; [|split; [|done]].
  - apply map_Forall_insert_2; [by apply (Hok _ _ E)|done].
  - intros _ Hlt. unfold take_task. rewrite lookup_insert_eq. simpl.
    rewrite (proj2 (Z.ltb_lt _ _)) by lia. done.
Qed.
