(* ===== verification/Workers.v ===== *)
(** * The worker pool (workers/worker_manager.go)

    The registry of provers: registration, health polls, bans, and the steps of
    the claims that let a worker run one job of the process at a time (their
    interleavings are in Claims.v).  Workers are
    pointers: a worker removed and registered again is another object, which
    the jobs holding the first one still see. *)

From S2P Require Import Prelude Errors Effects Bytes Types.

(** [WorkerBanRules] *)
Record WorkerBanRules := { BanTimeout : duration; FailuresToGetBanned : Z }.

Definition DefaultWorkerBanRules : WorkerBanRules :=
  {| BanTimeout := (30 * minute)%Z; FailuresToGetBanned := 3 |}.

(** [Worker] *)
Record Worker := MkWorker {
  w_Address : string;
  w_Name : string;
  w_consecutiveFails : Z;
  w_bannedUntilNanos : Z;
  w_successCount : Z;
  w_failedCount : Z;
  w_queueLen : Z;
  w_healthy : bool;
  w_missedPolls : Z;
  w_jobs : Z;
  w_claimers : Z;
}.

#[export] Instance Worker_eq_dec : EqDecision Worker.
Proof. solve_decision. Defined.

(** [WorkerManager]: the registry maps an address to its worker object;
    [wm_freed] numbers the channel [Freed] returns, which is closed once the
    number moved on. *)
Record WorkerManager := MkPool {
  wm_objects : gmap nat Worker;
  wm_workers : gmap string nat;
  wm_rules : WorkerBanRules;
  wm_freed : nat;
}.

Definition new_worker (address name : string) : Worker :=
  MkWorker address name 0 0 0 0 0 false 0 0 0.

Definition w_set_name (n : string) (w : Worker) : Worker :=
  MkWorker (w_Address w) n (w_consecutiveFails w) (w_bannedUntilNanos w) (w_successCount w)
    (w_failedCount w) (w_queueLen w) (w_healthy w) (w_missedPolls w) (w_jobs w) (w_claimers w).
Definition w_set_fails (fails success failed : Z) (w : Worker) : Worker :=
  MkWorker (w_Address w) (w_Name w) fails (w_bannedUntilNanos w) success failed
    (w_queueLen w) (w_healthy w) (w_missedPolls w) (w_jobs w) (w_claimers w).
Definition w_set_ban (fails until : Z) (w : Worker) : Worker :=
  MkWorker (w_Address w) (w_Name w) fails until (w_successCount w)
    (w_failedCount w) (w_queueLen w) (w_healthy w) (w_missedPolls w) (w_jobs w) (w_claimers w).
Definition w_set_health (h : bool) (q missed : Z) (w : Worker) : Worker :=
  MkWorker (w_Address w) (w_Name w) (w_consecutiveFails w) (w_bannedUntilNanos w)
    (w_successCount w) (w_failedCount w) q h missed (w_jobs w) (w_claimers w).
Definition w_set_claims (jobs claimers : Z) (w : Worker) : Worker :=
  MkWorker (w_Address w) (w_Name w) (w_consecutiveFails w) (w_bannedUntilNanos w)
    (w_successCount w) (w_failedCount w) (w_queueLen w) (w_healthy w) (w_missedPolls w)
    jobs claimers.

Definition set_objects (o : gmap nat Worker) (p : WorkerManager) : WorkerManager :=
  MkPool o (wm_workers p) (wm_rules p) (wm_freed p).
Definition set_workers (m : gmap string nat) (p : WorkerManager) : WorkerManager :=
  MkPool (wm_objects p) m (wm_rules p) (wm_freed p).

(** A change of one worker object. *)
Definition on_worker (l : nat) (f : Worker -> Worker) (p : WorkerManager) : WorkerManager :=
  set_objects (alter f l (wm_objects p)) p.

(** [wake] *)
Definition wake (p : WorkerManager) : WorkerManager :=
  MkPool (wm_objects p) (wm_workers p) (wm_rules p) (S (wm_freed p)).

(** ** Bans *)

(** [Worker.IsBanned] *)
Definition IsBanned (now : time) (rules : WorkerBanRules) (w : Worker) : bool :=
  if (FailuresToGetBanned rules <? w_consecutiveFails w)%Z then true
  else if (w_bannedUntilNanos w =? 0)%Z then false
  else (UnixNano now <? w_bannedUntilNanos w)%Z.

(** [Worker.GetBannedUntil], zero if there is no ban window. *)
Definition GetBannedUntil (w : Worker) : time :=
  if (w_bannedUntilNanos w =? 0)%Z then zero_time
  else (w_bannedUntilNanos w + unix_epoch * second)%Z.

(** [Worker.SetBannedUntil] *)
Definition SetBannedUntil (t : time) (w : Worker) : Worker :=
  w_set_ban (w_consecutiveFails w) (if IsZero t then 0 else UnixNano t) w.

(** ** Registration *)

(** [GetWorker] *)
Definition GetWorker (address : string) (p : WorkerManager) : option nat :=
  wm_workers p !! address.

(** [AddWorker]: the worker object registered at the address. *)
Definition AddWorker (address name : string) (p : WorkerManager) : nat * WorkerManager :=
  match GetWorker address p with
  | Some l =>
      (l, on_worker l (fun w =>
            if bool_decide (name <> ""%string) && bool_decide (w_Name w = ""%string)
            then w_set_name name w else w) p)
  | None =>
      let l := fresh (dom (wm_objects p)) in
      (l, set_workers (<[address := l]> (wm_workers p))
            (set_objects (<[l := new_worker address name]> (wm_objects p)) p))
  end.

(** [RemoveWorker]: the address leaves the registry, and the claims waiting are
    woken. *)
Definition unregister (address : string) (p : WorkerManager) : WorkerManager :=
  set_workers (delete address (wm_workers p)) p.
Definition RemoveWorker (address : string) (p : WorkerManager) : WorkerManager :=
  wake (unregister address p).

(** [Has] *)
Definition Has (l : nat) (p : WorkerManager) : bool :=
  match wm_objects p !! l with
  | Some w => bool_decide (GetWorker (w_Address w) p = Some l)
  | None => false
  end.

(** The registered workers, in the order [Range] meets them. *)
Definition registered (p : WorkerManager) : list (nat * Worker) :=
  omap (fun a => w ← wm_objects p !! a.2; Some (a.2, w)) (map_to_list (wm_workers p)).

(** ** Choosing a worker *)

(** What [leastLoaded] considers. *)
Definition candidate (now : time) (idle : bool) (exclude : list string) (p : WorkerManager)
    (w : Worker) : bool :=
  w_healthy w && negb (IsBanned now (wm_rules p) w)
  && negb (bool_decide (w_Address w ∈ exclude))
  && negb (idle && ((0 <? w_jobs w)%Z || (0 <? w_claimers w)%Z)).

Definition max_int : Z := (2 ^ 63 - 1)%Z.

Fixpoint least (best : option nat) (bestQ : Z) (l : list (nat * Worker)) : option nat :=
  match l with
  | [] => best
  | (o, w) :: l =>
      if (w_queueLen w <? bestQ)%Z then least (Some o) (w_queueLen w) l else least best bestQ l
  end.

(** [leastLoaded] *)
Definition leastLoaded (now : time) (idle : bool) (exclude : list string) (p : WorkerManager) :
    option nat :=
  least None max_int (filter (fun x => candidate now idle exclude p x.2) (registered p)).

(** [LeastLoaded] *)
Definition LeastLoaded (now : time) (exclude : list string) (p : WorkerManager) : option nat :=
  leastLoaded now false exclude p.

(** [Available] *)
Definition Available (now : time) (p : WorkerManager) : nat :=
  length (filter (fun x => w_healthy x.2 && negb (IsBanned now (wm_rules p) x.2)) (registered p)).

(** ** Claims *)

Definition jobs_of (l : nat) (p : WorkerManager) : Z :=
  match wm_objects p !! l with Some w => w_jobs w | None => 0 end.
Definition claimers_of (l : nat) (p : WorkerManager) : Z :=
  match wm_objects p !! l with Some w => w_claimers w | None => 0 end.

Definition add_jobs (n : Z) (l : nat) : WorkerManager -> WorkerManager :=
  on_worker l (fun w => w_set_claims (w_jobs w + n) (w_claimers w) w).
Definition add_claimers (n : Z) (l : nat) : WorkerManager -> WorkerManager :=
  on_worker l (fun w => w_set_claims (w_jobs w) (w_claimers w + n) w).

(** [atomic.CompareAndSwapInt64(&w.jobs, 0, 1)] *)
Definition cas_jobs (l : nat) (p : WorkerManager) : bool * WorkerManager :=
  if (jobs_of l p =? 0)%Z
  then (true, on_worker l (fun w => w_set_claims 1 (w_claimers w) w) p) else (false, p).

(** An operation of a goroutine on the claims, at the point it has reached:
    every step below is one atomic access of the pool, and the other
    goroutines run between two steps.  [freed] is the channel a claim waits
    on.  Claims and holds end in [Holding], which [Release] leaves. *)
Inductive claim_outcome := NoWorker | ErrRemoved | CtxDone | Freed.

Inductive pool_thread :=
  | AcquireTop (exclude : list string)
  | AcquireSwap (exclude : list string) (l : nat)
  | ClaimStart (l : nat)
  | ClaimTop (l : nat)
  | ClaimCtx (l freed : nat)
  | ClaimHas (l freed : nat)
  | ClaimSwap (l freed : nat)
  | ClaimWait (l freed : nat)
  | ClaimLeave (l : nat) (failed : option claim_outcome)
  | HoldStart (l : nat)
  | Holding (l : nat)
  | ReleaseStart (l : nat)
  | RemoveStart (address : string)
  | Waking
  | Ended (r : claim_outcome).

(** [Acquire]: choose, then swap, and choose again if another job was faster. *)
Definition Acquire_step (now : time) (t : pool_thread) (p : WorkerManager) : pool_thread * WorkerManager :=
  match t with
  | AcquireTop exclude =>
      match leastLoaded now true exclude p with
      | None => (Ended NoWorker, p)
      | Some l => (AcquireSwap exclude l, p)
      end
  | AcquireSwap exclude l =>
      let '(ok, p) := cas_jobs l p in (if ok then Holding l else AcquireTop exclude, p)
  | _ => (t, p)
  end.

(** [Claim]: announce the claim, try until it is granted or cannot be, and
    withdraw the announcement. *)
Definition Claim_step (ctx : bool) (t : pool_thread) (p : WorkerManager) : pool_thread * WorkerManager :=
  match t with
  | ClaimStart l => (ClaimTop l, add_claimers 1 l p)
  | ClaimTop l => (ClaimCtx l (wm_freed p), p)
  | ClaimCtx l freed => (if ctx then ClaimLeave l (Some CtxDone) else ClaimHas l freed, p)
  | ClaimHas l freed => (if Has l p then ClaimSwap l freed else ClaimLeave l (Some ErrRemoved), p)
  | ClaimSwap l freed =>
      let '(ok, p) := cas_jobs l p in (if ok then ClaimLeave l None else ClaimWait l freed, p)
  | ClaimWait l freed =>
      (if ctx || negb (freed =? wm_freed p)%nat then ClaimTop l else ClaimWait l freed, p)
  | ClaimLeave l failed => (from_option Ended (Holding l) failed, add_claimers (-1) l p)
  | _ => (t, p)
  end.

(** [Hold] *)
Definition Hold_step (t : pool_thread) (p : WorkerManager) : pool_thread * WorkerManager :=
  match t with
  | HoldStart l => (Holding l, add_jobs 1 l p)
  | _ => (t, p)
  end.

(** [Release], and the [wake] that ends a removal too. *)
Definition Release_step (t : pool_thread) (p : WorkerManager) : pool_thread * WorkerManager :=
  match t with
  | ReleaseStart l =>
      let p := add_jobs (-1) l p in (if (jobs_of l p =? 0)%Z then Waking else Ended Freed, p)
  | RemoveStart address => (Waking, unregister address p)
  | Waking => (Ended Freed, wake p)
  | _ => (t, p)
  end.

Definition thread_step (now : time) (ctx : bool) (t : pool_thread) (p : WorkerManager) :
    pool_thread * WorkerManager :=
  match t with
  | AcquireTop _ | AcquireSwap _ _ => Acquire_step now t p
  | ClaimStart _ | ClaimTop _ | ClaimCtx _ _ | ClaimHas _ _ | ClaimSwap _ _ | ClaimWait _ _
  | ClaimLeave _ _ => Claim_step ctx t p
  | HoldStart _ => Hold_step t p
  | ReleaseStart _ | RemoveStart _ | Waking => Release_step t p
  | Holding _ | Ended _ => (t, p)
  end.

(** The operation returned. *)
Definition thread_ended (t : pool_thread) : bool :=
  match t with Holding _ | Ended _ => true | _ => false end.

(** ** Health and bans *)

(** [Lost] *)
Definition Lost (now : time) (l : nat) (p : WorkerManager) : bool :=
  match wm_objects p !! l with
  | None => true
  | Some w => negb (Has l p) || IsBanned now (wm_rules p) w
              || (FailuresToGetBanned (wm_rules p) <? w_missedPolls w)%Z
  end.

(** [Banned] *)
Definition Banned (now : time) (l : nat) (p : WorkerManager) : bool :=
  match wm_objects p !! l with Some w => IsBanned now (wm_rules p) w | None => false end.

(** [BannedWorkers] *)
Definition BannedWorkers (now : time) (p : WorkerManager) : list (nat * Worker) :=
  filter (fun x => IsBanned now (wm_rules p) x.2) (registered p).

Definition at_address (address : string) (f : Worker -> Worker) (p : WorkerManager) :
    WorkerManager :=
  match GetWorker address p with Some l => on_worker l f p | None => p end.

(** [SetBanDuration] *)
Definition SetBanDuration (now : time) (address : string) (p : WorkerManager) : WorkerManager :=
  at_address address (SetBannedUntil (now + BanTimeout (wm_rules p))%Z) p.

(** [ResetWorker] *)
Definition ResetWorker (address : string) (p : WorkerManager) : WorkerManager :=
  at_address address (w_set_ban 0 0) p.

(** [WorkerResult] *)
Definition WorkerResult (address : string) (success : bool) (p : WorkerManager) : WorkerManager :=
  at_address address (fun w =>
    if success then w_set_fails 0 (w_successCount w + 1) (w_failedCount w) w
    else w_set_fails (w_consecutiveFails w + 1) (w_successCount w) (w_failedCount w + 1) w) p.

(** [pollHealth]: [health] is the queue length a worker answers, if it does. *)
Definition poll_worker (health : string -> option Z) (w : Worker) : Worker :=
  match health (w_Address w) with
  | None => w_set_health false (w_queueLen w) (w_missedPolls w + 1) w
  | Some q => w_set_health true q 0 w
  end.

Definition pollHealth (health : string -> option Z) (p : WorkerManager) : WorkerManager :=
  foldl (fun p x => on_worker x.1 (poll_worker health) p) p (registered p).

(** [expireBans]: the policy of a tick for each banned worker. *)
Definition expire_ban (now : time) (w : Worker) (p : WorkerManager) : WorkerManager :=
  let bannedUntil := GetBannedUntil w in
  if IsZero bannedUntil then SetBanDuration now (w_Address w) p
  else if (bannedUntil <? now)%Z then ResetWorker (w_Address w) p
  else p.

Definition expireBans (now : time) (p : WorkerManager) : WorkerManager :=
  foldl (fun p x => expire_ban now x.2 p) p (BannedWorkers now p).

(** [Start]'s tick. *)
Definition pool_tick (now : time) (health : string -> option Z) (p : WorkerManager) :
    WorkerManager :=
  expireBans now (pollHealth health p).

(** ** What the pool shows *)

(** [WorkerInfo]; the identifier is a hash of the address. *)
Record WorkerInfo := MkInfo {
  wi_ID : string;
  wi_Address : string;
  wi_Name : string;
  wi_Healthy : bool;
  wi_QueueLen : Z;
  wi_Banned : bool;
  wi_SuccessCount : Z;
  wi_FailedCount : Z;
}.

(** [Worker.Info] *)
Definition Info (WorkerID : string -> string) (now : time) (rules : WorkerBanRules) (w : Worker) :
    WorkerInfo :=
  MkInfo (WorkerID (w_Address w)) (w_Address w) (w_Name w) (w_healthy w) (w_queueLen w)
    (IsBanned now rules w) (w_successCount w) (w_failedCount w).

(** [ListWorkerStats] *)
Definition ListWorkerStats (WorkerID : string -> string) (now : time) (p : WorkerManager) :
    list WorkerInfo :=
  (fun x => Info WorkerID now (wm_rules p) x.2) <$> registered p.

(** [NewWorkerManager]; the ticker and the clients are not state. *)
Definition NewWorkerManager (rules : option WorkerBanRules) : WorkerManager :=
  MkPool ∅ ∅ (default DefaultWorkerBanRules rules) 0.

(** [Stop] *)
Definition pool_Stop (p : WorkerManager) : WorkerManager := set_workers ∅ p.

(** ** Choosing a worker *)

Lemma elem_of_registered p l w :
  (l, w) ∈ registered p <->
  wm_objects p !! l = Some w /\ exists a, wm_workers p !! a = Some l.
Proof.
  unfold registered. rewrite list_elem_of_omap. split.
  - intros ([a l'] & Ha & E). simpl in E.
    destruct (wm_objects p !! l') as [w'|] eqn:El; simplify_eq/=.
    split; [done|]. exists a. by apply elem_of_map_to_list.
  - intros [Hl [a Ha]]. exists (a, l). split; [by apply elem_of_map_to_list|]. simpl. by rewrite Hl.
Qed.

(** The choice over a list: one of its workers with the smallest queue. *)
Lemma least_spec l best bestQ :
  match least best bestQ l with
  | None => best = None /\ Forall (fun x => (bestQ <= w_queueLen x.2)%Z) l
  | Some o =>
      (best = Some o /\ Forall (fun x => (bestQ <= w_queueLen x.2)%Z) l) \/
      exists w, (o, w) ∈ l /\ (w_queueLen w < bestQ)%Z /\
        Forall (fun x => (w_queueLen w <= w_queueLen x.2)%Z) l
  end.
Proof.
  revert best bestQ. induction l as [|[o w] l IH]; intros best bestQ; simpl.
  { destruct best; [by left|done]. }
  destruct (Z.ltb_spec (w_queueLen w) bestQ) as [Hlt|Hge].
  - specialize (IH (Some o) (w_queueLen w)).
    destruct (least (Some o) (w_queueLen w) l) as [o'|]; [|by destruct IH].
    right. destruct IH as [[[= ->] Hall]|(w' & Hin & Hq & Hall)].
    + exists w. split; [left|]. split; [done|]. by constructor.
    + exists w'. split; [by right|]. split; [lia|]. constructor; [simpl; lia|done].
  - specialize (IH best bestQ). destruct (least best bestQ l) as [o'|].
    + destruct IH as [[-> Hall]|(w' & Hin & Hq & Hall)].
      * left. split; [done|]. by constructor.
      * right. exists w'. split; [by right|]. split; [done|]. constructor; [simpl; lia|done].
    + destruct IH as [-> Hall]. split; [done|]. by constructor.
Qed.

(** The least-loaded choice returns a registered, healthy worker that is
    not banned or excluded (and, for a prove, runs no job and is not waited
    for), with the shortest queue of all of those; it returns none only if
    there is none. *)
Theorem leastLoaded_spec now idle exclude p :
  let eligible x := x ∈ registered p /\ candidate now idle exclude p x.2 = true in
  match leastLoaded now idle exclude p with
  | Some l => exists w, eligible (l, w) /\
      forall l' w', eligible (l', w') -> (w_queueLen w <= w_queueLen w')%Z
  | None => forall l w, eligible (l, w) -> (max_int <= w_queueLen w)%Z
  end.
Proof.
  intros eligible. unfold leastLoaded.
  set (cs := filter _ (registered p)).
  assert (forall x, x ∈ cs <-> eligible x) as Hcs.
  { intros x. unfold cs, eligible. rewrite list_elem_of_filter.
    destruct (candidate now idle exclude p x.2); naive_solver. }
  pose proof (least_spec cs None max_int) as Hl.
  destruct (least None max_int cs) as [l|].
  - destruct Hl as [[? _]|(w & Hin & _ & Hall)]; [done|].
    exists w. split; [by apply Hcs|]. intros l' w' He%Hcs.
    rewrite Forall_forall in Hall. apply (Hall _ He).
  - destruct Hl as [_ Hall]. intros l w He%Hcs. rewrite Forall_forall in Hall. apply (Hall _ He).
Qed.

(** ** One job at a time *)

Lemma jobs_on_worker l f p l' :
  (forall w, w_jobs (f w) = w_jobs w) -> jobs_of l' (on_worker l f p) = jobs_of l' p.
Proof.
  intros Hf. unfold jobs_of, on_worker. simpl. destruct (decide (l = l')) as [->|Hne].
  - rewrite lookup_alter_eq. destruct (wm_objects p !! l'); simpl; [apply Hf|done].
  - by rewrite lookup_alter_ne.
Qed.

Lemma jobs_add_jobs n l p l' :
  is_Some (wm_objects p !! l) ->
  jobs_of l' (add_jobs n l p) = (jobs_of l' p + if decide (l' = l) then n else 0)%Z.
Proof.
  intros [w Hw]. unfold jobs_of, add_jobs, on_worker. simpl. case_decide as Hd.
  - subst. rewrite lookup_alter_eq, Hw. done.
  - rewrite lookup_alter_ne by done. lia.
Qed.

Lemma cas_jobs_spec l p ok p' :
  is_Some (wm_objects p !! l) -> cas_jobs l p = (ok, p') ->
  if ok then jobs_of l p = 0%Z /\
    forall l', jobs_of l' p' = (jobs_of l' p + if decide (l' = l) then 1 else 0)%Z
  else p' = p /\ jobs_of l p <> 0%Z.
Proof.
  intros [w Hw]. unfold cas_jobs. destruct (Z.eqb_spec (jobs_of l p) 0) as [E|E]; intros [= <- <-]; [|done].
  split; [done|]. intros l'. unfold jobs_of, on_worker in *. simpl. case_decide as Hd.
  - subst. rewrite lookup_alter_eq, Hw in *. simpl. lia.
  - rewrite lookup_alter_ne by done. lia.
Qed.

Lemma leastLoaded_object now idle exclude p l :
  leastLoaded now idle exclude p = Some l -> is_Some (wm_objects p !! l).
Proof.
  intros E. unfold leastLoaded in E.
  pose proof (least_spec (filter (fun x => candidate now idle exclude p x.2) (registered p)) None max_int) as Hl.
  rewrite E in Hl. destruct Hl as [[? _]|(w & Hin & _)]; [done|].
  apply list_elem_of_filter in Hin as [_ [Hw _]%elem_of_registered]. by eexists.
Qed.

Lemma cas_jobs_regs l p : wm_workers (cas_jobs l p).2 = wm_workers p /\
  forall l', is_Some (wm_objects (cas_jobs l p).2 !! l') <-> is_Some (wm_objects p !! l').
Proof.
  unfold cas_jobs. destruct (_ =? 0)%Z; [|done]. split; [done|].
  intros l'. apply lookup_alter_is_Some.
Qed.

(** ** Bans *)

(** Each registered worker is registered at its own address. *)
Definition reg_ok (p : WorkerManager) : Prop :=
  forall a l, wm_workers p !! a = Some l -> exists w, wm_objects p !! l = Some w /\ w_Address w = a.

(** What a tick does to a worker's ban. *)
Definition ban_tick (now : time) (rules : WorkerBanRules) (w : Worker) : Worker :=
  if IsBanned now rules w then
    if IsZero (GetBannedUntil w) then SetBannedUntil (now + BanTimeout rules)%Z w
    else if (GetBannedUntil w <? now)%Z then w_set_ban 0 0 w else w
  else w.

Lemma registered_nodup p : reg_ok p -> NoDup (registered p).*1.
Proof.
  intros Hreg. unfold registered.
  assert (forall l : list (string * nat), NoDup l.*1 -> (forall x, x ∈ l -> wm_workers p !! x.1 = Some x.2) ->
    NoDup (omap (fun a => w ← wm_objects p !! a.2; Some (a.2, w)) l).*1) as Hgen.
  { induction l as [|[a o] l IH]; intros Hnd Hin; [constructor|]. csimpl.
    apply NoDup_cons in Hnd as [Hn Hnd].
    assert (NoDup (omap (fun a => w ← wm_objects p !! a.2; Some (a.2, w)) l).*1) as IH'
      by (apply IH; [done|intros x Hx; apply Hin; set_solver]).
    destruct (wm_objects p !! o) as [w|] eqn:Eo; simpl; [|done]. constructor; [|done].
    intros ([o' w'] & -> & Hx)%list_elem_of_fmap. apply list_elem_of_omap in Hx as ([a' o''] & Ha' & E).
    simpl in E. destruct (wm_objects p !! o'') as [w''|] eqn:Eo''; simplify_eq/=.
    pose proof (Hin (a, o') ltac:(set_solver)) as H1.
    pose proof (Hin (a', o') ltac:(set_solver)) as H2. simpl in H1, H2.
    destruct (Hreg _ _ H1) as (w1 & Ew1 & <-), (Hreg _ _ H2) as (w2 & Ew2 & <-).
    simplify_eq. apply Hn. apply list_elem_of_fmap. eexists. split; [|done]. done. }
  apply Hgen; [apply NoDup_fst_map_to_list|]. intros [a o] Hx. by apply elem_of_map_to_list in Hx.
Qed.

Lemma expire_ban_objects now w p l :
  wm_objects p !! l = Some w -> wm_workers p !! w_Address w = Some l ->
  IsBanned now (wm_rules p) w = true ->
  wm_workers (expire_ban now w p) = wm_workers p /\ wm_rules (expire_ban now w p) = wm_rules p /\
  forall k, wm_objects (expire_ban now w p) !! k =
    if decide (k = l) then Some (ban_tick now (wm_rules p) w) else wm_objects p !! k.
Proof.
  intros Hl Ha Hb. unfold expire_ban, ban_tick, SetBanDuration, ResetWorker, at_address, GetWorker.
  rewrite Hb, Ha.
  destruct (IsZero (GetBannedUntil w)); [|destruct (_ <? now)%Z]; (split; [done|split; [done|]]);
    intros k; case_decide as Hd; subst; simpl; rewrite ?lookup_alter_eq, ?Hl; try done;
    by rewrite lookup_alter_ne.
Qed.

(** A tick of the ban policy reaches every registered worker once. *)
Lemma expireBans_objects now p l w :
  reg_ok p -> (exists a, wm_workers p !! a = Some l) -> wm_objects p !! l = Some w ->
  wm_objects (expireBans now p) !! l = Some (ban_tick now (wm_rules p) w).
Proof.
  intros Hreg Hl Hw. unfold expireBans.
  assert (forall L q, NoDup L.*1 -> wm_workers q = wm_workers p -> wm_rules q = wm_rules p ->
    (forall x, x ∈ L -> x ∈ BannedWorkers now p) ->
    (forall x, x ∈ L -> wm_objects q !! x.1 = Some x.2) ->
    forall k, wm_objects (foldl (fun p x => expire_ban now x.2 p) q L) !! k =
      if decide (k ∈ L.*1) then ban_tick now (wm_rules p) <$> (wm_objects q !! k)
      else wm_objects q !! k) as Hgen.
  { induction L as [|[o v] L IH]; intros q Hnd Eq Er HL Hq k.
    { rewrite decide_False; [done|]. by apply not_elem_of_nil. }
    apply NoDup_cons in Hnd as [Hn Hnd].
    assert ((o, v) ∈ BannedWorkers now p) as Hov by (apply HL; set_solver).
    apply list_elem_of_filter in Hov as [Hb [Ho [a Ha]]%elem_of_registered]. simpl in Hb.
    apply Is_true_true in Hb.
    destruct (Hreg _ _ Ha) as (v' & Ev & Eaddr). simplify_eq.
    destruct (expire_ban_objects now v q o) as (E1 & E2 & E3);
      [by apply (Hq (o, v)); set_solver|by rewrite Eq|by rewrite Er|].
    cbn [foldl snd]. rewrite IH; [|done|by rewrite E1|by rewrite E2|set_solver|].
    - rewrite E3, Er. cbn [fmap list_fmap fst]. destruct (decide (k = o)) as [->|Hk].
      + rewrite decide_False by done. rewrite decide_True by set_solver.
        pose proof (Hq (o, v) ltac:(set_solver)) as Hqo. simpl in Hqo. by rewrite Hqo.
      + destruct (decide (k ∈ L.*1)); [rewrite decide_True by set_solver|rewrite decide_False by set_solver]; done.
    - intros x Hx. rewrite E3. rewrite decide_False; [apply Hq; set_solver|].
      intros E. apply Hn. simpl. rewrite <- E. by apply (list_elem_of_fmap_2 fst). }
  assert (NoDup (BannedWorkers now p).*1) as Hnd.
  { pose proof (registered_nodup p Hreg) as Hnd. unfold BannedWorkers.
    induction (registered p) as [|x L IH]; [constructor|].
    apply NoDup_cons in Hnd as [Hn Hnd]. destruct (decide (IsBanned now (wm_rules p) x.2)).
    - rewrite filter_cons_True by done. constructor; [|by apply IH].
      intros (y & Ey & [_ Hy]%list_elem_of_filter)%list_elem_of_fmap. apply Hn.
      rewrite Ey. by apply list_elem_of_fmap_2.
    - rewrite filter_cons_False by done. by apply IH. }
  assert (forall x, x ∈ BannedWorkers now p -> wm_objects p !! x.1 = Some x.2) as Hob.
  { intros [o v] [_ [Ho _]%elem_of_registered]%list_elem_of_filter. done. }
  rewrite (Hgen (BannedWorkers now p) p) by done. rewrite Hw. simpl.
  case_decide as Hd; [done|]. f_equal. unfold ban_tick.
  destruct (IsBanned now (wm_rules p) w) eqn:Hb; [|done]. exfalso. apply Hd.
  apply list_elem_of_fmap. exists (l, w). split; [done|]. apply list_elem_of_filter.
  split; [by apply Is_true_true|]. by apply elem_of_registered.
Qed.

(** The window a tick opens, in [UnixNano]. *)
Definition window_end (now : time) (rules : WorkerBanRules) : Z := UnixNano (now + BanTimeout rules)%Z.

Lemma window_end_nonzero now rules :
  (unix_epoch * second < now)%Z -> (0 <= BanTimeout rules)%Z -> (window_end now rules <> 0)%Z.
Proof. unfold window_end, UnixNano. lia. Qed.

Lemma IsBanned_fails now rules w :
  (FailuresToGetBanned rules < w_consecutiveFails w)%Z -> IsBanned now rules w = true.
Proof. intros Hf. unfold IsBanned. by rewrite (proj2 (Z.ltb_lt _ _) Hf). Qed.

(** A worker with more failed jobs in a row than the rules allow is banned
    at once.  The first tick after that opens a ban window of the configured
    length, through which it stays banned whatever its jobs report; the first
    tick after the window, if it still counts the failures, lets it back with a
    clean count; a tick leaves a worker that is not banned alone. *)
Theorem expireBans_policy now p l w :
  reg_ok p -> (exists a, wm_workers p !! a = Some l) -> wm_objects p !! l = Some w ->
  (unix_epoch * second < now)%Z -> (0 <= BanTimeout (wm_rules p))%Z ->
  let rules := wm_rules p in
  exists w', wm_objects (expireBans now p) !! l = Some w' /\
    ((FailuresToGetBanned rules < w_consecutiveFails w)%Z ->
       IsBanned now rules w = true /\
       (w_bannedUntilNanos w = 0%Z ->
          w_bannedUntilNanos w' = window_end now rules /\
          forall t fails, (t < now + BanTimeout rules)%Z ->
            IsBanned t rules (w_set_ban fails (w_bannedUntilNanos w') w') = true) /\
       ((0 < w_bannedUntilNanos w < UnixNano now)%Z ->
          w_bannedUntilNanos w' = 0%Z /\ w_consecutiveFails w' = 0%Z)) /\
    (IsBanned now rules w = false -> w' = w).
Proof.
  intros Hreg Hl Hw Hnow Hto rules. exists (ban_tick now rules w).
  split; [by apply expireBans_objects|]. split.
  - intros Hf. assert (IsBanned now rules w = true) as Hb by by apply IsBanned_fails.
    unfold ban_tick. rewrite Hb. unfold GetBannedUntil, IsZero, zero_time.
    split; [done|]. split.
    + intros Hz. rewrite Hz. simpl. unfold SetBannedUntil, IsZero. fold rules in Hto |- *.
      rewrite (proj2 (Z.eqb_neq _ _)) by (unfold zero_time, unix_epoch, second in *; lia).
      split; [done|]. intros t fails Ht. unfold IsBanned. simpl. destruct (_ <? fails)%Z; [done|].
      pose proof (window_end_nonzero now rules Hnow Hto) as Hne. unfold window_end in Hne.
      rewrite (proj2 (Z.eqb_neq _ _) Hne). apply Z.ltb_lt. unfold UnixNano. lia.
    + intros Hb'. rewrite (proj2 (Z.eqb_neq (w_bannedUntilNanos w) 0)) by lia.
      rewrite (proj2 (Z.eqb_neq _ _)) by (unfold unix_epoch, second in *; lia).
      rewrite (proj2 (Z.ltb_lt _ _)); [done|]. unfold UnixNano in Hb'. lia.
  - intros Hb. unfold ban_tick. by rewrite Hb.
Qed.

(** A job that succeeds while its worker is banned leaves a ban window
    that no tick clears once it has passed; the next ban then ends at the next
    tick instead of lasting the configured time. *)
Theorem stale_window_cuts_the_next_ban now t p l w :
  reg_ok p -> (exists a, wm_workers p !! a = Some l) -> wm_objects p !! l = Some w ->
  (0 <= FailuresToGetBanned (wm_rules p))%Z -> (0 <= BanTimeout (wm_rules p))%Z ->
  (unix_epoch * second < now)%Z -> (now + BanTimeout (wm_rules p) < t)%Z ->
  w_bannedUntilNanos w = window_end now (wm_rules p) ->
  let rules := wm_rules p in
  exists w', wm_objects (expireBans t p) !! l = Some w' /\
    (w_consecutiveFails w = 0%Z -> w' = w) /\
    ((FailuresToGetBanned rules < w_consecutiveFails w)%Z ->
       IsBanned t rules w = true /\ IsBanned t rules w' = false).
Proof.
  intros Hreg Hl Hw Hr Hto Hnow Ht Hwin rules. exists (ban_tick t rules w).
  split; [by apply expireBans_objects|]. fold rules in Hr, Hto, Ht, Hwin.
  pose proof (window_end_nonzero now rules Hnow Hto) as Hne.
  assert (window_end now rules + unix_epoch * second = now + BanTimeout rules)%Z as Ew
    by (unfold window_end, UnixNano; lia).
  split.
  - intros Hf. unfold ban_tick, IsBanned. rewrite Hf, (proj2 (Z.ltb_ge _ _) Hr), Hwin.
    rewrite (proj2 (Z.eqb_neq _ _) Hne). rewrite (proj2 (Z.ltb_ge _ _)); [done|].
    unfold window_end, UnixNano. lia.
  - intros Hf. assert (IsBanned t rules w = true) as Hb by by apply IsBanned_fails.
    split; [done|]. unfold ban_tick. rewrite Hb. unfold GetBannedUntil.
    rewrite Hwin, (proj2 (Z.eqb_neq _ _) Hne), Ew. unfold IsZero.
    rewrite (proj2 (Z.eqb_neq _ _)) by (unfold zero_time, unix_epoch, second in *; lia).
    rewrite (proj2 (Z.ltb_lt _ _) Ht). unfold IsBanned. simpl.
    by rewrite (proj2 (Z.ltb_ge _ _) Hr).
Qed.
