(* ===== verification/Claims.v ===== *)
(** * The claims of the worker pool under interleaving (workers/worker_manager.go)

    [Acquire], [Claim], [Hold], [Release] and [RemoveWorker] run in any number
    of goroutines, one atomic access at a time ([Workers.thread_step]), while
    workers are registered, polled and banned.  The counters of a worker are
    the jobs and the claims in progress, a grant is exclusive, and a claim that
    waits is always going to be woken. *)

From S2P Require Import Prelude Errors Effects Bytes Types Workers.

Implicit Types (p : WorkerManager) (c : pool_thread) (t l : nat).

(** ** Goroutines *)

(** Goroutines by number, and the pool they share. *)
Abbreviation threads := (gmap nat pool_thread).

(** The goroutine holds a job on the worker: its swap or its hold is counted,
    and its release is not. *)
Definition holds_worker l c : bool :=
  match c with
  | ClaimLeave l' None | Holding l' | ReleaseStart l' => bool_decide (l' = l)
  | _ => false
  end.

(** The goroutine is in a [Claim] of the worker. *)
Definition announces l c : bool :=
  match c with
  | ClaimTop l' | ClaimCtx l' _ | ClaimHas l' _ | ClaimSwap l' _ | ClaimWait l' _ | ClaimLeave l' _ =>
      bool_decide (l' = l)
  | _ => false
  end.

Definition waking c : bool := match c with Waking => true | _ => false end.

(** The worker an operation was given or chose, and the channel it has. *)
Definition worker_of c : option nat :=
  match c with
  | AcquireSwap _ l | ClaimStart l | ClaimTop l | ClaimCtx l _ | ClaimHas l _ | ClaimSwap l _
  | ClaimWait l _ | ClaimLeave l _ | HoldStart l | Holding l | ReleaseStart l => Some l
  | _ => None
  end.
Definition channel_of c : option nat :=
  match c with
  | ClaimCtx _ f | ClaimHas _ f | ClaimSwap _ f | ClaimWait _ f => Some f
  | _ => None
  end.

(** An operation before its first step. *)
Definition starting c : bool :=
  match c with
  | AcquireTop _ | ClaimStart _ | HoldStart _ | RemoveStart _ => true
  | _ => false
  end.

(** A goroutine begins an operation on a worker it was handed, makes a step of
    it, releases the worker its job ran on, or the pool's ticker, the
    administrator and the ends of jobs change the registry. *)
Inductive pool_step : threads * WorkerManager -> threads * WorkerManager -> Prop :=
  | StepStart ts p t c :
      ts !! t = None -> starting c = true ->
      (forall l, worker_of c = Some l -> is_Some (wm_objects p !! l)) ->
      pool_step (ts, p) (<[t := c]> ts, p)
  | StepRun ts p t c now ctx :
      ts !! t = Some c ->
      pool_step (ts, p) (<[t := (thread_step now ctx c p).1]> ts, (thread_step now ctx c p).2)
  | StepDone ts p t l :
      ts !! t = Some (Holding l) -> pool_step (ts, p) (<[t := ReleaseStart l]> ts, p)
  | StepRegister ts p address name : pool_step (ts, p) (ts, (AddWorker address name p).2)
  | StepTick ts p now health : pool_step (ts, p) (ts, pool_tick now health p)
  | StepResult ts p address ok : pool_step (ts, p) (ts, WorkerResult address ok p).

(** A pool before any job: the workers registered have no claim. *)
Definition unclaimed p : Prop :=
  (forall a l, wm_workers p !! a = Some l -> is_Some (wm_objects p !! l)) /\
  forall l, jobs_of l p = 0%Z /\ claimers_of l p = 0%Z.

(** ** Counting goroutines *)

Definition count (P : pool_thread -> bool) (ts : threads) : Z :=
  Z.of_nat (size (filter (fun x : nat * pool_thread => P x.2) ts)).

Lemma count_new P ts t c : ts !! t = None -> count P (<[t := c]> ts) = (count P ts + Z.b2z (P c))%Z.
Proof.
  intros Ht. unfold count. destruct (P c) eqn:Hc.
  - rewrite map_filter_insert_True by (simpl; by rewrite Hc).
    rewrite map_size_insert_None; [simpl; lia|]. apply map_lookup_filter_None. by left.
  - rewrite map_filter_insert_not'; [simpl; lia|simpl; rewrite Hc; intros []|congruence].
Qed.

Lemma count_insert P ts t c c' : ts !! t = Some c ->
  count P (<[t := c']> ts) = (count P ts - Z.b2z (P c) + Z.b2z (P c'))%Z.
Proof.
  intros Ht. assert (delete t ts !! t = None) as Hn by apply lookup_delete_eq.
  rewrite <- (insert_delete_id ts t c Ht) at 2.
  rewrite <- (insert_delete_eq ts t c'). rewrite !count_new by done. lia.
Qed.

Lemma count_nonneg P ts : (0 <= count P ts)%Z.
Proof. unfold count. lia. Qed.

Lemma count_zero P ts t c : count P ts = 0%Z -> ts !! t = Some c -> P c = false.
Proof.
  intros H0 Ht. destruct (P c) eqn:Hc; [|done].
  unfold count in H0. exfalso.
  assert (filter (fun x : nat * pool_thread => P x.2) ts = ∅) as He by (apply map_size_empty_inv; lia).
  assert (filter (fun x : nat * pool_thread => P x.2) ts !! t = Some c) as Hf
    by (apply map_lookup_filter_Some; simpl; by rewrite Hc).
  by rewrite He in Hf.
Qed.

(** ** Changes that leave the claims alone *)

(** Every worker object keeps its address and its claims, a new one has none,
    no worker leaves the registry, and nobody is woken. *)
Record leaves_claims p p' : Prop := {
  kp_object l w : wm_objects p !! l = Some w -> exists w', wm_objects p' !! l = Some w' /\
    w_Address w' = w_Address w /\ w_jobs w' = w_jobs w /\ w_claimers w' = w_claimers w;
  kp_new l : wm_objects p !! l = None -> jobs_of l p' = 0%Z /\ claimers_of l p' = 0%Z;
  kp_gone a l : wm_workers p !! a = Some l -> wm_workers p' !! a = Some l;
  kp_reg a l : wm_workers p' !! a = Some l ->
    wm_workers p !! a = Some l \/ is_Some (wm_objects p' !! l);
  kp_freed : wm_freed p' = wm_freed p;
}.

#[export] Instance keeps_refl : Reflexive leaves_claims.
Proof.
  intros p. split; [by eauto| |by eauto|by eauto|done]. intros l Hl. unfold jobs_of, claimers_of. by rewrite Hl.
Qed.

Lemma keeps_object_some p p' l : leaves_claims p p' -> is_Some (wm_objects p !! l) -> is_Some (wm_objects p' !! l).
Proof. intros K [w Hw]. destruct (kp_object _ _ K l w Hw) as (w' & Hw' & _). by exists w'. Qed.

Lemma keeps_claims p p' l : leaves_claims p p' -> jobs_of l p' = jobs_of l p /\ claimers_of l p' = claimers_of l p.
Proof.
  intros K. destruct (wm_objects p !! l) as [w|] eqn:Hl.
  - destruct (kp_object _ _ K l w Hl) as (w' & Hw' & _ & Hj & Hc).
    unfold jobs_of, claimers_of. by rewrite Hl, Hw', Hj, Hc.
  - destruct (kp_new _ _ K l Hl) as [-> ->]. unfold jobs_of, claimers_of. by rewrite Hl.
Qed.

#[export] Instance keeps_trans : Transitive leaves_claims.
Proof.
  intros p1 p2 p3 K1 K2. split.
  - intros l w Hl. destruct (kp_object _ _ K1 l w Hl) as (w2 & Hl2 & ? & ? & ?).
    destruct (kp_object _ _ K2 l w2 Hl2) as (w3 & Hl3 & ? & ? & ?). exists w3. split_and!; [done|congruence..].
  - intros l Hl. destruct (keeps_claims _ _ l K2) as [-> ->]. by apply (kp_new _ _ K1).
  - intros a l Ha. by apply (kp_gone _ _ K2), (kp_gone _ _ K1).
  - intros a l [Ha|Ha]%(kp_reg _ _ K2); [|by right]. apply (kp_reg _ _ K1) in Ha as [Ha|Ha]; [by left|].
    right. by eapply keeps_object_some.
  - by rewrite (kp_freed _ _ K2), (kp_freed _ _ K1).
Qed.

Lemma keeps_on_worker l f p :
  (forall w, w_Address (f w) = w_Address w /\ w_jobs (f w) = w_jobs w /\ w_claimers (f w) = w_claimers w) ->
  leaves_claims p (on_worker l f p).
Proof.
  intros Hf. split; [| |by eauto|by eauto|done].
  - intros l' w Hl'. cbn. destruct (decide (l = l')) as [->|Hne].
    + rewrite lookup_alter_eq, Hl'. exists (f w). by split.
    + rewrite lookup_alter_ne by done. by exists w.
  - intros l' Hl'. unfold jobs_of, claimers_of. cbn. destruct (decide (l = l')) as [->|Hne].
    + by rewrite lookup_alter_eq, Hl'.
    + by rewrite lookup_alter_ne, Hl' by done.
Qed.

Lemma keeps_at_address a f p :
  (forall w, w_Address (f w) = w_Address w /\ w_jobs (f w) = w_jobs w /\ w_claimers (f w) = w_claimers w) ->
  leaves_claims p (at_address a f p).
Proof. intros Hf. unfold at_address. destruct (GetWorker a p); [by apply keeps_on_worker|done]. Qed.

Lemma keeps_foldl {A} (f : WorkerManager -> A -> WorkerManager) (l : list A) p :
  (forall p x, leaves_claims p (f p x)) -> leaves_claims p (foldl f p l).
Proof.
  intros Hf. revert p. induction l as [|x l IH]; intros p; [done|]. cbn. etransitivity; [apply Hf|apply IH].
Qed.

Lemma keeps_tick now health p : leaves_claims p (pool_tick now health p).
Proof.
  unfold pool_tick, expireBans. transitivity (pollHealth health p); apply keeps_foldl.
  - intros q x. apply keeps_on_worker. intros w. unfold poll_worker. by destruct (health (w_Address w)).
  - intros q x. unfold expire_ban. destruct (IsZero _); [by apply keeps_at_address|].
    destruct (_ <? now)%Z; [by apply keeps_at_address|done].
Qed.

Lemma keeps_result a ok p : leaves_claims p (WorkerResult a ok p).
Proof. apply keeps_at_address. by destruct ok. Qed.

Lemma keeps_register a name p : leaves_claims p (AddWorker a name p).2.
Proof.
  unfold AddWorker. destruct (GetWorker a p) as [l|] eqn:Ha; cbn.
  { apply keeps_on_worker. intros w. by case_match. }
  set (l := fresh (dom (wm_objects p))).
  assert (wm_objects p !! l = None) as Hl by (apply not_elem_of_dom, is_fresh). split; cbn; [..|done].
  - intros l' w Hl'. rewrite lookup_insert_ne by congruence. by exists w.
  - intros l' Hl'. unfold jobs_of, claimers_of. cbn. destruct (decide (l = l')) as [<-|Hne].
    + by rewrite lookup_insert_eq.
    + by rewrite lookup_insert_ne, Hl' by done.
  - intros a' l' Ha'. unfold GetWorker in Ha. by rewrite lookup_insert_ne by congruence.
  - intros a' l' [[_ <-]|[_ Ha']]%lookup_insert_Some; [|by left]. right. rewrite lookup_insert_eq. by eexists.
Qed.

Lemma keeps_has p p' l : leaves_claims p p' -> is_Some (wm_objects p !! l) -> Has l p = true -> Has l p' = true.
Proof.
  intros K [w Hw]. destruct (kp_object _ _ K l w Hw) as (w' & Hw' & Ea & _).
  unfold Has, GetWorker. rewrite Hw, Hw', Ea, !bool_decide_eq_true. apply (kp_gone _ _ K).
Qed.

(** ** The invariant *)

Record pool_inv (s : threads * WorkerManager) : Prop := {
  pi_object t c l : s.1 !! t = Some c -> worker_of c = Some l -> is_Some (wm_objects s.2 !! l);
  pi_reg a l : wm_workers s.2 !! a = Some l -> is_Some (wm_objects s.2 !! l);
  pi_jobs l : jobs_of l s.2 = count (holds_worker l) s.1;
  pi_claimers l : claimers_of l s.2 = count (announces l) s.1;
  pi_channel t c f : s.1 !! t = Some c -> channel_of c = Some f -> (f <= wm_freed s.2)%nat;
  pi_waits t l f : s.1 !! t = Some (ClaimWait l f) -> f = wm_freed s.2 ->
    (0 < jobs_of l s.2)%Z \/ (0 < count waking s.1)%Z;
  pi_has t c l f : s.1 !! t = Some c -> c = ClaimSwap l f \/ c = ClaimWait l f -> f = wm_freed s.2 ->
    Has l s.2 = true \/ (0 < count waking s.1)%Z;
}.

Lemma inv_unclaimed p : unclaimed p -> pool_inv (∅, p).
Proof.
  intros [Hr Hu]. split; cbn; try done.
  - intros l. destruct (Hu l) as [-> _]. done.
  - intros l. destruct (Hu l) as [_ ->]. done.
Qed.

Lemma inv_keeps ts p p' : leaves_claims p p' -> pool_inv (ts, p) -> pool_inv (ts, p').
Proof.
  intros K [I1 I2 I3 I4 I5 I6 I7]. cbn [fst snd] in *. split; cbn [fst snd].
  - intros t c l Ht Hc. eapply keeps_object_some; [done|by eapply I1].
  - intros a l [Ha|Ha]%(kp_reg _ _ K); [|done]. eapply keeps_object_some; [done|by eapply I2].
  - intros l. destruct (keeps_claims _ _ l K) as [-> _]. apply I3.
  - intros l. destruct (keeps_claims _ _ l K) as [_ ->]. apply I4.
  - intros t c f Ht Hc. rewrite (kp_freed _ _ K). by eapply I5.
  - intros t l f Ht Hf. rewrite (kp_freed _ _ K) in Hf. destruct (keeps_claims _ _ l K) as [-> _]. by eapply I6.
  - intros t c l f Ht Hc Hf. rewrite (kp_freed _ _ K) in Hf.
    destruct (I7 t c l f Ht Hc Hf) as [Hh|?]; [left|by right]. eapply keeps_has; [done| |done].
    apply (I1 t c); [done|]. by destruct Hc as [-> | ->].
Qed.

(** A step of one goroutine keeps the invariant if the counters move with it,
    and if a claim that waits is left with a holder, or with somebody about to
    wake it. *)
Record thread_moves (ts : threads) p c p' c' : Prop := {
  mv_object l : is_Some (wm_objects p !! l) -> is_Some (wm_objects p' !! l);
  mv_worker l : worker_of c' = Some l -> is_Some (wm_objects p' !! l);
  mv_reg a l : wm_workers p' !! a = Some l -> wm_workers p !! a = Some l;
  mv_jobs l : (jobs_of l p' - Z.b2z (holds_worker l c') = jobs_of l p - Z.b2z (holds_worker l c))%Z;
  mv_claimers l : (claimers_of l p' - Z.b2z (announces l c') = claimers_of l p - Z.b2z (announces l c))%Z;
  mv_freed : (wm_freed p <= wm_freed p')%nat;
  mv_channel f : channel_of c' = Some f -> (f <= wm_freed p')%nat;
  mv_waking : wm_freed p' = wm_freed p -> waking c = true -> waking c' = true;
  mv_busy l : wm_freed p' = wm_freed p -> (0 < jobs_of l p)%Z -> (0 < jobs_of l p')%Z \/ waking c' = true;
  mv_has l : wm_freed p' = wm_freed p -> is_Some (wm_objects p !! l) -> Has l p = true ->
    Has l p' = true \/ waking c' = true;
  mv_waits l f : c' = ClaimWait l f -> (0 < jobs_of l p')%Z;
  mv_swaps l f : c' = ClaimSwap l f \/ c' = ClaimWait l f -> f = wm_freed p' ->
    Has l p' = true \/ (0 < count waking ts)%Z /\ waking c = false;
}.

Lemma inv_moves ts p t c p' c' : pool_inv (ts, p) -> ts !! t = Some c -> thread_moves ts p c p' c' ->
  pool_inv (<[t := c']> ts, p').
Proof.
  intros [I1 I2 I3 I4 I5 I6 I7] Ht M. cbn [fst snd] in *.
  assert (count waking (<[t := c']> ts) = count waking ts - Z.b2z (waking c) + Z.b2z (waking c'))%Z as Hw
    by by apply count_insert.
  pose proof (count_nonneg waking (<[t := c']> ts)) as Hn.
  assert (waking c' = true -> 0 < count waking (<[t := c']> ts))%Z as Hw'.
  { intros E. destruct (Z.eq_dec (count waking (<[t := c']> ts)) 0) as [E0|]; [|lia].
    apply (count_zero _ _ t c') in E0; [congruence|apply lookup_insert_eq]. }
  assert (wm_freed p' = wm_freed p -> 0 < count waking ts -> 0 < count waking (<[t := c']> ts))%Z as Hw2.
  { intros Ef Hp. pose proof (mv_waking _ _ _ _ _ M Ef) as Hm. destruct (waking c); [by apply Hw', Hm|].
    destruct (waking c'); cbn [Z.b2z] in *; lia. }
  split; cbn [fst snd].
  - intros t' c0 l [[<- <-]|[_ Ht']]%lookup_insert_Some Hc; [by apply (mv_worker _ _ _ _ _ M)|].
    eapply mv_object, I1; done.
  - intros a l Ha%(mv_reg _ _ _ _ _ M). by eapply mv_object, I2.
  - intros l. rewrite (count_insert _ _ _ _ _ Ht). pose proof (mv_jobs _ _ _ _ _ M l). rewrite I3 in *. lia.
  - intros l. rewrite (count_insert _ _ _ _ _ Ht). pose proof (mv_claimers _ _ _ _ _ M l). rewrite I4 in *. lia.
  - intros t' c0 f [[<- <-]|[_ Ht']]%lookup_insert_Some Hc; [by apply (mv_channel _ _ _ _ _ M)|].
    etransitivity; [by eapply I5|by eapply mv_freed].
  - intros t' l f [[<- E]|[_ Ht']]%lookup_insert_Some Hf; [left; by apply (mv_waits _ _ _ _ _ M l f)|].
    pose proof (I5 _ _ f Ht' eq_refl) as Hle. pose proof (mv_freed _ _ _ _ _ M) as Hle'.
    assert (wm_freed p' = wm_freed p) as Ef by lia.
    destruct (I6 t' l f Ht' ltac:(lia)) as [Hj|Hj]; [|right; auto].
    apply (mv_busy _ _ _ _ _ M l Ef) in Hj as [Hj|Hj]; [by left|right; auto].
  - intros t' c0 l f [[<- <-]|[_ Ht']]%lookup_insert_Some Hc Hf.
    + destruct (mv_swaps _ _ _ _ _ M l f Hc Hf) as [Hh|[Hp Hcw]]; [by left|right].
      rewrite Hw, Hcw. destruct (waking c'); cbn [Z.b2z]; lia.
    + assert (channel_of c0 = Some f) as Hch by by destruct Hc as [-> | ->].
      pose proof (I5 _ _ f Ht' Hch) as Hle. pose proof (mv_freed _ _ _ _ _ M) as Hle'.
      assert (wm_freed p' = wm_freed p) as Ef by lia.
      destruct (I7 t' c0 l f Ht' Hc ltac:(lia)) as [Hh|Hh]; [|right; auto].
      apply (mv_has _ _ _ _ _ M l Ef) in Hh as [Hh|Hh]; [by left|right; auto|].
      apply (I1 t' c0); [done|]. by destruct Hc as [-> | ->].
Qed.

(** *** The atomic accesses *)

Lemma jobs_on_claims l f p l' : is_Some (wm_objects p !! l) ->
  jobs_of l' (on_worker l f p) =
    (if decide (l' = l) then from_option (fun w => w_jobs (f w)) 0 (wm_objects p !! l) else jobs_of l' p)%Z /\
  claimers_of l' (on_worker l f p) =
    (if decide (l' = l) then from_option (fun w => w_claimers (f w)) 0 (wm_objects p !! l) else claimers_of l' p)%Z.
Proof.
  intros [w Hw]. unfold jobs_of, claimers_of, on_worker. cbn. destruct (decide (l' = l)) as [->|Hne].
  - by rewrite lookup_alter_eq, Hw.
  - by rewrite lookup_alter_ne.
Qed.

Lemma has_on_worker l f p l' : (forall w, w_Address (f w) = w_Address w) -> Has l' (on_worker l f p) = Has l' p.
Proof.
  intros Hf. unfold Has, GetWorker, on_worker. cbn. destruct (decide (l = l')) as [->|Hne].
  - rewrite lookup_alter_eq. by destruct (wm_objects p !! l') as [w|]; cbn; rewrite ?Hf.
  - by rewrite lookup_alter_ne.
Qed.

(** A step on the claims of one worker. *)
Lemma moves_on_worker ts p l (f : Worker -> Worker) c c' :
  is_Some (wm_objects p !! l) -> (forall w, w_Address (f w) = w_Address w) ->
  worker_of c' = Some l \/ worker_of c' = None -> channel_of c' = None -> waking c = false ->
  (forall w l', wm_objects p !! l = Some w ->
     w_jobs (f w) = w_jobs w - Z.b2z (holds_worker l c) + Z.b2z (holds_worker l c') /\
     w_claimers (f w) = w_claimers w - Z.b2z (announces l c) + Z.b2z (announces l c') /\
     (0 < w_jobs w -> 0 < w_jobs (f w) \/ waking c' = true) /\
     (l' <> l -> holds_worker l' c' = holds_worker l' c /\ announces l' c' = announces l' c))%Z ->
  thread_moves ts p c (on_worker l f p) c'.
Proof.
  intros Hl Hf Hwk Hch Hwc Hw. destruct (Hl) as [w Ew].
  split; try done; try (intros; congruence).
  - intros l'. cbn. by rewrite lookup_alter_is_Some.
  - intros l' E. assert (l' = l) as -> by (destruct Hwk; congruence). cbn. by rewrite lookup_alter_is_Some.
  - intros l'. destruct (jobs_on_claims l f p l' Hl) as [-> _]. destruct (Hw w l' Ew) as (Hj & _ & _ & Ho).
    case_decide as Hd; [subst|destruct (Ho Hd) as [-> _]; lia].
    rewrite Ew. cbn. unfold jobs_of. rewrite Ew. lia.
  - intros l'. destruct (jobs_on_claims l f p l' Hl) as [_ ->]. destruct (Hw w l' Ew) as (_ & Hj & _ & Ho).
    case_decide as Hd; [subst|destruct (Ho Hd) as [_ ->]; lia].
    rewrite Ew. cbn. unfold claimers_of. rewrite Ew. lia.
  - intros l' _. destruct (jobs_on_claims l f p l' Hl) as [-> _]. destruct (Hw w l' Ew) as (_ & _ & Hj & _).
    case_decide as Hd; [subst|by left]. rewrite Ew. cbn. unfold jobs_of. by rewrite Ew.
  - intros l' _ _ Hh. left. by rewrite has_on_worker.
  - intros l' f' ->. done.
  - intros l' f' [-> | ->]; done.
Qed.

(** A step that reads. *)
Lemma moves_reads ts p c c' :
  (forall l, worker_of c' = Some l -> is_Some (wm_objects p !! l)) ->
  (forall l, holds_worker l c' = holds_worker l c /\ announces l c' = announces l c) ->
  (forall f, channel_of c' = Some f -> (f <= wm_freed p)%nat) -> waking c = false ->
  (forall l f, c' = ClaimWait l f -> (0 < jobs_of l p)%Z) ->
  (forall l f, c' = ClaimSwap l f \/ c' = ClaimWait l f -> f = wm_freed p ->
     Has l p = true \/ (0 < count waking ts)%Z) ->
  thread_moves ts p c p c'.
Proof.
  intros Hwk Hh Hch Hwc Hwt Hsw. split; try done; try (intros; congruence); auto.
  - intros l. by destruct (Hh l) as [-> _].
  - intros l. by destruct (Hh l) as [_ ->].
  - intros l f Hc Hf. destruct (Hsw l f Hc Hf); [by left|by right].
Qed.

Ltac claim_eqs := rewrite ?bool_decide_true, ?bool_decide_false by congruence; cbn [Z.b2z].

Lemma b2z_self l : Z.b2z (bool_decide (l = l)) = 1%Z.
Proof. by rewrite bool_decide_true. Qed.

(** A swap of a goroutine that swaps for [l]: granted or not. *)
Lemma cas_moves ts p t l c won lost :
  pool_inv (ts, p) -> ts !! t = Some c -> worker_of c = Some l ->
  (forall l', holds_worker l' c = false) -> waking c = false ->
  (forall l', holds_worker l' won = bool_decide (l = l') /\ announces l' won = announces l' c) ->
  worker_of won = Some l -> channel_of won = None ->
  ((0 < jobs_of l p)%Z -> thread_moves ts p c p lost) ->
  thread_moves ts p c (cas_jobs l p).2 (if (cas_jobs l p).1 then won else lost).
Proof.
  intros I Ht Hc Hh Hwc Hwon Hw Hch Hlost. pose proof (pi_object _ I t c l Ht Hc) as [w Ew]. cbn [snd] in Ew.
  unfold cas_jobs. destruct (Z.eqb_spec (jobs_of l p) 0) as [E|E]; cbn [fst snd].
  - apply moves_on_worker; try done; [by left|]. intros w' l' E'. simplify_eq.
    unfold jobs_of in E. rewrite Ew in E. destruct (Hwon l) as [-> ->], (Hwon l') as [-> ->]. rewrite !Hh.
    rewrite b2z_self. cbn [w_jobs w_claimers w_set_claims Z.b2z]. split_and!; [lia|lia|lia|].
    intros Hne. by rewrite bool_decide_false by congruence.
  - apply Hlost. pose proof (pi_jobs _ I l) as Hj. pose proof (count_nonneg (holds_worker l) ts). cbn [fst snd] in Hj. lia.
Qed.

Lemma Acquire_moves ts p t c now :
  pool_inv (ts, p) -> ts !! t = Some c -> (exists ex, c = AcquireTop ex) \/ (exists ex l, c = AcquireSwap ex l) ->
  thread_moves ts p c (Acquire_step now c p).2 (Acquire_step now c p).1.
Proof.
  intros I Ht [[ex ->]|(ex & l & ->)]; cbn [Acquire_step].
  - destruct (leastLoaded now true ex p) as [l|] eqn:El; apply moves_reads; cbn; try done; try naive_solver.
    intros l' [= <-]. by eapply leastLoaded_object.
  - pose proof (cas_moves ts p t l _ (Holding l) (AcquireTop ex) I Ht eq_refl) as M.
    destruct (cas_jobs l p) as [ok p']. cbn [fst snd] in *. apply M; try done.
    intros Hj. apply moves_reads; cbn; try done; naive_solver.
Qed.

Lemma Claim_moves ts p t c ctx :
  pool_inv (ts, p) -> ts !! t = Some c ->
  (exists l, c = ClaimStart l \/ c = ClaimTop l \/ (exists f, c = ClaimCtx l f \/ c = ClaimHas l f \/ c = ClaimSwap l f)
     \/ (exists r, c = ClaimLeave l r)) ->
  thread_moves ts p c (Claim_step ctx c p).2 (Claim_step ctx c p).1.
Proof.
  intros I Ht (l & Hc).
  assert (is_Some (wm_objects p !! l)) as Hl.
  { apply (pi_object _ I t c); [done|]. naive_solver. }
  assert (forall f, channel_of c = Some f -> (f <= wm_freed p)%nat) as Hch by (intros f; by apply (pi_channel _ I t)).
  destruct Hc as [->|[->|[(f & [->|[->| ->]])|(r & ->)]]]; cbn [Claim_step fst snd].
  - apply moves_on_worker; cbn; try done; [by left|]. intros w l' E. rewrite b2z_self.
    split_and!; [lia|lia|by left|]. intros Hne. by rewrite bool_decide_false by congruence.
  - apply moves_reads; cbn; try done; naive_solver.
  - destruct ctx; apply moves_reads; cbn; try done; naive_solver.
  - destruct (Has l p) eqn:Eh; apply moves_reads; cbn; try done; naive_solver.
  - pose proof (cas_moves ts p t l _ (ClaimLeave l None) (ClaimWait l f) I Ht eq_refl) as M.
    destruct (cas_jobs l p) as [ok p'] eqn:Ec. cbn [fst snd] in *. apply M; try done.
    intros Hj. apply moves_reads; cbn; try done; [by intros l' [= <-]|by intros l' f' [= <- <-]|].
    intros l' f' [?|[= <- <-]] Hf; [done|]. by apply (pi_has _ I t (ClaimSwap l f) l f Ht (or_introl eq_refl)).
  - apply moves_on_worker; cbn; try done; [destruct r; cbn; auto|by destruct r|].
    intros w l' E. rewrite b2z_self. destruct r; cbn; rewrite ?b2z_self; (split_and!; [lia|lia|by left|]);
      intros Hne; by rewrite ?bool_decide_false by congruence.
Qed.

Lemma Release_moves ts p t c :
  pool_inv (ts, p) -> ts !! t = Some c ->
  (exists l, c = ReleaseStart l) \/ (exists a, c = RemoveStart a) \/ c = Waking ->
  thread_moves ts p c (Release_step c p).2 (Release_step c p).1.
Proof.
  intros I Ht [[l ->]|[[a ->]| ->]]; cbn [Release_step fst snd].
  - pose proof (pi_object _ I t _ l Ht eq_refl) as Hl. cbn [snd] in Hl. destruct (Hl) as [w Ew].
    assert (jobs_of l (add_jobs (-1) l p) = w_jobs w - 1)%Z as Ej.
    { rewrite jobs_add_jobs, decide_True by done. unfold jobs_of. rewrite Ew. lia. }
    assert (1 <= w_jobs w)%Z as Hpos.
    { pose proof (pi_jobs _ I l) as Hj. unfold jobs_of in Hj. cbn [fst snd] in Hj. rewrite Ew in Hj.
      destruct (Z.eq_dec (count (holds_worker l) ts) 0) as [E0|]; [|pose proof (count_nonneg (holds_worker l) ts); lia].
      apply (count_zero _ _ _ _ E0) in Ht. cbn in Ht. by apply bool_decide_eq_false in Ht. }
    rewrite Ej. apply moves_on_worker; try done; [by destruct (_ =? 0)%Z; right|by destruct (_ =? 0)%Z|].
    intros w' l' E. assert (w' = w) as -> by congruence. destruct (Z.eqb_spec (w_jobs w - 1) 0) as [E0|E0]; cbn; rewrite b2z_self;
      (split_and!; [lia|lia| |]); try (intros Hne; by rewrite bool_decide_false by congruence); [by right|].
    intros _. left. lia.
  - split; cbn; try done; try naive_solver.
    intros a' l [_ Ha]%lookup_delete_Some. done.
  - split; cbn; try done; try lia; naive_solver.
Qed.

Lemma inv_run ts p t c now ctx :
  pool_inv (ts, p) -> ts !! t = Some c ->
  pool_inv (<[t := (thread_step now ctx c p).1]> ts, (thread_step now ctx c p).2).
Proof.
  intros I Ht.
  assert (thread_step now ctx c p = (c, p) \/ thread_moves ts p c (thread_step now ctx c p).2 (thread_step now ctx c p).1)
    as [E|M]; [|rewrite E; cbn [fst snd]; by rewrite insert_id|by eapply inv_moves].
  destruct c as [ex|ex l|l|l|l f|l f|l f|l f|l r|l|l|l|a| |r]; cbn [thread_step]; try (by left);
    try (right; by apply Acquire_moves with t; eauto); try (right; by apply Release_moves with t; eauto);
    try (right; by apply Claim_moves with t; eauto 8); pose proof (pi_object _ I t _ l Ht eq_refl) as Hl.
  - cbn [Claim_step fst snd]. destruct (ctx || _); [right|by left]. apply moves_reads; cbn; try done; naive_solver.
  - right. cbn [Hold_step fst snd]. apply moves_on_worker; cbn; try done; [by left|]. intros w l' E. rewrite b2z_self.
    split_and!; [lia|lia|intros; left; lia|]. intros Hn. by rewrite bool_decide_false by congruence.
Qed.

Lemma inv_start ts p t c :
  pool_inv (ts, p) -> ts !! t = None -> starting c = true ->
  (forall l, worker_of c = Some l -> is_Some (wm_objects p !! l)) -> pool_inv (<[t := c]> ts, p).
Proof.
  intros [I1 I2 I3 I4 I5 I6 I7] Ht Hs Hw. cbn [fst snd] in *.
  assert (forall l, holds_worker l c = false /\ announces l c = false) as Hz by (intros l; by destruct c).
  assert (channel_of c = None /\ waking c = false) as [Hch Hwk] by by destruct c.
  split; cbn [fst snd]; try done.
  - intros t' c' l [[<- <-]|[_ Ht']]%lookup_insert_Some; [apply Hw|by apply (I1 t')].
  - intros l. rewrite count_new by done. destruct (Hz l) as [-> _]. rewrite I3. cbn. lia.
  - intros l. rewrite count_new by done. destruct (Hz l) as [_ ->]. rewrite I4. cbn. lia.
  - intros t' c' f [[<- <-]|[_ Ht']]%lookup_insert_Some; [congruence|by apply (I5 t')].
  - intros t' l f [[<- ->]|[_ Ht']]%lookup_insert_Some Hf; [done|]. rewrite count_new, Hwk, Z.add_0_r by done. by eapply I6.
  - intros t' c' l f [[<- <-]|[_ Ht']]%lookup_insert_Some Hc Hf; [by destruct Hc as [-> | ->]|].
    rewrite count_new, Hwk, Z.add_0_r by done. by eapply I7.
Qed.

Lemma inv_step s s' : pool_inv s -> pool_step s s' -> pool_inv s'.
Proof.
  intros I Hs. destruct Hs as [ts p t c Ht Hc Hw|ts p t c now ctx Ht|ts p t l Ht|ts p a n|ts p now h|ts p a ok].
  - by apply inv_start.
  - by apply inv_run.
  - eapply inv_moves; [done..|]. pose proof (pi_object _ I t _ l Ht eq_refl) as Hl. apply moves_reads; cbn; try done; naive_solver.
  - eapply inv_keeps; [apply keeps_register|done].
  - eapply inv_keeps; [apply keeps_tick|done].
  - eapply inv_keeps; [apply keeps_result|done].
Qed.

Lemma inv_reachable p s : unclaimed p -> rtc pool_step (∅, p) s -> pool_inv s.
Proof.
  intros Hu Hr. apply inv_unclaimed in Hu. revert Hu. generalize (∅ : threads, p), s, Hr. clear.
  induction 1 as [|s1 s2 s3 Hst _ IH]; [done|]. intros I. by eapply IH, inv_step.
Qed.

(** ** What the claims promise *)

Lemma nobody_holds s l : pool_inv s -> jobs_of l s.2 = 0%Z <-> forall t c, s.1 !! t = Some c -> holds_worker l c = false.
Proof.
  intros I. rewrite (pi_jobs _ I l). split; [intros H0 t c; by apply count_zero|]. intros Hn.
  unfold count. assert (filter (fun x : nat * pool_thread => holds_worker l x.2) s.1 = ∅) as ->; [|done].
  apply map_empty_filter_2. intros t c Ht. cbn. rewrite (Hn t c Ht). intros [].
Qed.
Lemma somebody P ts : (0 < count P ts)%Z -> exists t c, ts !! t = Some c /\ P c = true.
Proof.
  intros Hc. destruct (map_choose (filter (fun x : nat * pool_thread => P x.2) ts)) as (t & c & Hf).
  - intros E. unfold count in Hc. rewrite E, map_size_empty in Hc. lia.
  - apply map_lookup_filter_Some in Hf as [Ht HP]. exists t, c. split; [done|]. by apply Is_true_true.
Qed.

(** The goroutine is about to swap the counter of the worker. *)
Definition swaps l c : Prop := (exists ex, c = AcquireSwap ex l) \/ exists f, c = ClaimSwap l f.

Lemma swap_granted p c l now ctx : swaps l c -> is_Some (wm_objects p !! l) ->
  holds_worker l (thread_step now ctx c p).1 = true <-> jobs_of l p = 0%Z.
Proof.
  intros Hc _. assert (holds_worker l (thread_step now ctx c p).1 = (jobs_of l p =? 0)%Z) as ->; [|by rewrite Z.eqb_eq].
  destruct Hc as [[ex ->]|[f ->]]; cbn; unfold cas_jobs; destruct (_ =? 0)%Z; cbn; try done; by rewrite bool_decide_true.
Qed.

Lemma chosen_idle p ex l now ctx :
  (thread_step now ctx (AcquireTop ex) p).1 = AcquireSwap ex l -> (jobs_of l p <= 0 /\ claimers_of l p <= 0)%Z.
Proof.
  cbn. destruct (leastLoaded now true ex p) as [l'|] eqn:El; [|done]. intros [= ->].
  pose proof (leastLoaded_spec now true ex p) as Hs. cbv zeta in Hs. rewrite El in Hs.
  destruct Hs as (w & [[Hw _]%elem_of_registered Hc] & _). unfold candidate in Hc. cbn [snd] in Hc.
  apply andb_prop in Hc as [_ Hc]. unfold jobs_of, claimers_of. rewrite Hw.
  destruct (Z.ltb_spec 0 (w_jobs w)), (Z.ltb_spec 0 (w_claimers w)); cbn in Hc; lia.
Qed.

