(* ===== verification/Sdk.v ===== *)
(** * Third-party code

    What the orchestrator calls outside the repository: the davinci-zkvm SDK
    (state tree, ballots, census, provers' constants), gnark and gnark-crypto,
    go-ethereum, lean-imt-go and the JSON and CBOR encodings of the records
    they exchange.  Everything here is a parameter; the laws state what the
    code relies on. *)

From S2P Require Import Prelude Errors Bytes Types Records.

(** ** Records of the SDK the code builds or reads *)

(** [spec.BallotMode] *)
Record BallotModeT := {
  bm_NumFields : N;
  bm_GroupSize : N;
  bm_UniqueValues : bool;
  bm_CostExponent : N;
  bm_MaxValue : N;
  bm_MinValue : N;
  bm_MaxValueSum : N;
  bm_MinValueSum : N;
}.

#[export] Instance BallotModeT_eq_dec : EqDecision BallotModeT.
Proof. solve_decision. Defined.

(** [davinci.CensusProof] *)
Record CensusProof := {
  cs_Root : string;
  cs_Leaf : string;
  cs_Index : N;
  cs_Siblings : list string;
}.

#[export] Instance CensusProof_eq_dec : EqDecision CensusProof.
Proof. solve_decision. Defined.

(** The JSON objects of orchestrator/snarkjs.go and orchestrator/validate.go. *)
Record snarkjsProof := {
  sp_A : list string;
  sp_B : list (list string);
  sp_C : list string;
}.

Record snarkjsVK := {
  sv_Alpha : list string;
  sv_Beta : list (list string);
  sv_Gamma : list (list string);
  sv_Delta : list (list string);
  sv_IC : list (list string);
}.

Record voteSig := {
  js_SignatureR : string;
  js_SignatureS : string;
  js_SignatureV : N;
}.

Record proverSig := {
  ps_PublicKeyX : string;
  ps_PublicKeyY : string;
  ps_SignatureR : string;
  ps_SignatureS : string;
  ps_SignatureV : byte;
  ps_VoteID : N;
  ps_Address : string;
}.

(** [voteProofBundle] *)
Record voteProofBundle := {
  vb_Proof : bytes;
  vb_PublicInputs : list string;
  vb_Sig : bytes;
  vb_Census : CensusProof;
}.

#[export] Instance voteProofBundle_eq_dec : EqDecision voteProofBundle.
Proof. solve_decision. Defined.

(** Coordinates of affine points. *)
Definition G1 : Type := Z * Z.
Definition G2 : Type := (Z * Z) * (Z * Z).

(** ** The libraries *)

Class Sdk := {
  (** BabyJubJub, BN254 and Groth16. *)
  Point : Type;
  SetPoint : Z -> Z -> Point;
  Order : Z;
  ScalarBaseMult : Z -> Point;
  Point_eq_dec :: EqDecision Point;
  BJJ_IsOnCurve : Z * Z -> bool;
  fp_Modulus : Z;
  fr_Modulus : Z;
  G1_IsInfinity : G1 -> bool;
  G1_IsOnCurve : G1 -> bool;
  G2_IsInfinity : G2 -> bool;
  G2_IsOnCurve : G2 -> bool;
  G2_IsInSubGroup : G2 -> bool;
  VerifyingKey : Type;
  Precompute : G1 -> G2 -> G2 -> G2 -> list G1 -> option VerifyingKey;
  Groth16_Verify : G1 * G2 * G1 -> VerifyingKey -> list Z -> bool;

  (** davinci-zkvm SDK. *)
  NumFields : N;
  MaxBatchSize : Z;
  ProcessIDLen : nat;
  CircomVerificationKey : bytes;
  VKHash : Type;
  BallotVKLeaf : bytes -> option VKHash;
  Pack : BallotModeT -> option Z;
  IsMerkle : N -> bool;
  IsCSP : N -> bool;
  LeafAddress : list N -> bytes;
  SlotKey : CensusProof -> option N;
  VoteID_Valid : N -> bool;
  Ballot : Type;
  Deserialize : Point -> bytes -> option Ballot;
  Ciphertexts : Ballot -> list ((Z * Z) * (Z * Z));
  BallotInputsHash : bytes -> BallotModeT -> Point -> bytes -> N -> Ballot -> Z -> option Z;

  (** lean-imt-go, go-iden3-crypto. *)
  VerifyProofWith : Z -> Z -> N -> list Z -> bool;
  CheckBigIntInField : Z -> bool;

  (** go-ethereum. *)
  secp256k1_N : Z;
  ECDSASignature : Type;
  Signature_SetBytes : bytes -> option ECDSASignature;
  Signature_Bytes : ECDSASignature -> bytes;
  Signature_Verify : ECDSASignature -> bytes -> bytes -> option bytes;

  (** Encodings. *)
  unmarshal_proof : bytes -> option snarkjsProof;
  marshal_proof : snarkjsProof -> option bytes;
  unmarshal_vk : bytes -> option snarkjsVK;
  marshal_vk : snarkjsVK -> option bytes;
  unmarshal_sig : bytes -> option voteSig;
  marshal_sig : proverSig -> option bytes;
  unmarshal_bundle : bytes -> option voteProofBundle;
  marshal_bundle : voteProofBundle -> option bytes;
}.

(** [chain.Config] *)
Record ChainConfig `{Sdk} := MkChainConfig {
  cc_ProcessID : Z;
  cc_BallotMode : Z;
  cc_EncKey : Point;
  cc_CensusOrigin : N;
  cc_CensusRoot : Z;
  cc_BallotVKHash : VKHash;
}.

(** [chain.Vote] *)
Record ChainVote `{Sdk} := MkChainVote {
  cv_Slot : N;
  cv_VoteID : N;
  cv_Ballot : Ballot;
}.

(** ** The state tree *)

(** [davinci.ProveRequest], as sealLocked fills it. *)
Record ProveRequest (StateData Reenc : Type) := MkProveRequest {
  pr_VK : bytes;
  pr_Output : string;
  pr_State : StateData;
  pr_Reencryption : Reenc;
  pr_Proofs : list bytes;
  pr_PublicInputs : list (list string);
  pr_Sigs : list bytes;
  pr_CensusProofs : list CensusProof;
}.
Arguments MkProveRequest {_ _}.

(** [chain.State].  [ApplyBatch] mutates the state, also when it fails; its
    second argument numbers the calls, so that what it draws at random may
    differ from call to call. *)
Class Chain `{Sdk} := {
  ChainState : Type;
  StateTransitionData : Type;
  ReencryptionData : Type;
  NewState : ChainConfig -> option ChainState;
  RestoreState : ChainConfig -> bytes -> option ChainState;
  State_Snapshot : ChainState -> option bytes;
  State_Root : ChainState -> string;
  ApplyBatch : ChainState -> nat -> list ChainVote ->
    option (StateTransitionData * ReencryptionData) * ChainState;
  EncryptedResults : ChainState -> list string;
  marshal_request : ProveRequest StateTransitionData ReencryptionData -> option bytes;
}.

(** Whether a state applies a batch. *)
Definition applies `{Chain} (st : ChainState) (n : nat) (vs : list ChainVote) : bool :=
  match (ApplyBatch st n vs).1 with Some _ => true | None => false end.

(** What seal.go relies on: whether a batch applies does not depend on the
    randomness, "ApplyBatch applies the votes in order, so once a prefix
    fails every longer one does", and a state restored from a snapshot applies
    what the state the snapshot was taken of applies. *)
Class ChainLaws `{Chain} := {
  applies_call st m n vs : applies st m vs = applies st n vs;
  applies_prefix st n vs ws : applies st n (vs ++ ws) = true -> applies st n vs = true;
  restore_snapshot cfg st b :
    State_Snapshot st = Some b ->
    exists st', RestoreState cfg b = Some st' /\ State_Root st' = State_Root st /\
      (forall n vs, applies st' n vs = applies st n vs);
}.
