(* ===== verification/Log.v ===== *)
(** * Logging (log/log.go)

    The process-wide logger: where [Init] sends its lines, the wrappers that
    send them, and the hook that turns an error line into a panic of a test.
    zerolog is a parameter: a logger, and the calls it makes back, for an
    event, of the writers and hooks it was built with. *)

From S2P Require Import Prelude Errors Effects Bytes Types.
From Stdlib Require Import Strings.Byte.

Definition LogLevelDebug : string := "debug".
Definition LogLevelInfo : string := "info".
Definition LogLevelWarn : string := "warn".
Definition LogLevelError : string := "error".
Definition logTestWriterName : string := "log_test_writer".

(** zerolog's levels. *)
Definition DebugLevel : Z := 0.
Definition InfoLevel : Z := 1.
Definition WarnLevel : Z := 2.
Definition ErrorLevel : Z := 3.
Definition FatalLevel : Z := 4.

(** Where lines end up; a writer the caller gives is a number. *)
Inductive Writer := Stdout | Stderr | TestWriter | File (path : string) | Given (w : nat).

#[export] Instance Writer_eq_dec : EqDecision Writer.
Proof. solve_decision. Defined.

(** The writers of a logger: a file of JSON lines, a [ConsoleWriter], an
    [errorLevelWriter] over one, and one over the [invalidCharChecker]. *)
Inductive Sink :=
  | Lines (w : Writer)
  | Console (w : Writer)
  | ErrorLines (w : Writer)
  | CheckedLines.

(** [panicOnErrorHook]; its [once] is in the state, under [ho_once], and its
    handler a number, [None] for [nil]. *)
Record Hook := MkHook {
  ho_TestName : string;
  ho_Delay : duration;
  ho_Handler : option nat;
  ho_once : nat;
}.

(** An event: its message, and its fields as the caller gave them. *)
Record Event := MkEvent { en_msg : bytes; en_fields : list (bytes * bytes) }.
Definition text_event (msg : bytes) : Event := MkEvent msg [].

(** What zerolog calls for an event. *)
Inductive Callback :=
  | OnHook (h : Hook) (level : Z) (msg : bytes)
  | OnWrite (s : Sink) (level : Z) (line : bytes)
  | OnExit.

(** zerolog, [os.OpenFile] and the environment. *)
Class Zerolog := {
  Logger : Type;
  New_ : list Sink -> Logger;
  Level_ : Z -> Logger -> Logger;
  GetLevel : Logger -> Z;
  AddHook : Hook -> Logger -> Logger;
  Send : Logger -> Z -> Event -> list Callback;
  console : bool -> bytes -> bytes;
  can_open : string -> bool;
  panicOnInvalidChars : bool;
}.

(** A call of [time.AfterFunc]: the handler it runs, and with what. *)
Record Timer := MkTimer { tm_once : nat; tm_delay : duration; tm_handler : option nat; tm_msg : bytes }.

(** The logger and what was done through it: the hooks made and fired, the
    timers started, the lines written; [ls_fixed] is [zerolog.TimestampFunc]
    replaced by the fixed time of the tests. *)
Record LogState `{Zerolog} := MkLogState {
  ls_log : Logger;
  ls_hooks : nat;
  ls_fired : gset nat;
  ls_timers : list Timer;
  ls_written : list (Writer * bytes);
  ls_fixed : bool;
}.

Section log.
Context `{Zerolog}.

Definition set_log (l : Logger) (s : LogState) : LogState :=
  MkLogState _ l (ls_hooks s) (ls_fired s) (ls_timers s) (ls_written s) (ls_fixed s).
Definition add_line (w : Writer) (b : bytes) (s : LogState) : LogState :=
  MkLogState _ (ls_log s) (ls_hooks s) (ls_fired s) (ls_timers s) (ls_written s ++ [(w, b)]) (ls_fixed s).
Definition fix_time (s : LogState) : LogState :=
  MkLogState _ (ls_log s) (ls_hooks s) (ls_fired s) (ls_timers s) (ls_written s) true.

(** ** What zerolog calls back *)

(** [panicOnErrorHook.Run] *)
Definition hook_message (h : Hook) (msg : bytes) : bytes :=
  lit "ERROR found in logs during test " ++ lit (ho_TestName h) ++ lit ": " ++ msg.
Definition start_timer (h : Hook) (msg : bytes) (s : LogState) : LogState :=
  let delay := if (ho_Delay h <=? 0)%Z then second else ho_Delay h in
  MkLogState _ (ls_log s) (ls_hooks s) ({[ho_once h]} ∪ ls_fired s)
    (ls_timers s ++ [MkTimer (ho_once h) delay (ho_Handler h) (hook_message h msg)])
    (ls_written s) (ls_fixed s).
Definition hook_Run (h : Hook) (level : Z) (msg : bytes) : stE LogState unit :=
  s ← get_st;
  if ((ErrorLevel <=? level)%Z && bool_decide (ho_once h ∉ ls_fired s))%bool
  then modify (start_timer h msg) else mret tt.

(** [errorLevelWriter.Write] and [WriteLevel] *)
Definition error_Write (p : bytes) : stE LogState unit := throw [Panic].
Definition error_WriteLevel (w : Writer) (level : Z) (p : bytes) : stE LogState unit :=
  if (level <? WarnLevel)%Z then mret tt else modify (add_line w (console true p)).

(** [bytes.ContainsRune(p, '\uFFFD')]: some part of [p] starts with the bytes
    of U+FFFD. *)
Fixpoint has_replacement (p : bytes) : bool :=
  match p with
  | [] => false
  | _ :: r => bool_decide (take 3 p = [xef; xbf; xbd]) || has_replacement r
  end.

(** [invalidCharChecker.Write] *)
Definition check_chars (p : bytes) : stE LogState unit := throw_if (has_replacement p) [Panic].

Definition callback (c : Callback) : stE LogState unit :=
  match c with
  | OnHook h level msg => hook_Run h level msg
  | OnWrite (Lines w) _ line => modify (add_line w line)
  | OnWrite (Console w) _ line => modify (add_line w (console false line))
  | OnWrite (ErrorLines w) level line => error_WriteLevel w level line
  | OnWrite CheckedLines _ line => check_chars (console false line)
  | OnExit => throw [Exited]
  end.

(** An event of the logger, from [Msg]. *)
Definition send_event (l : Logger) (level : Z) (e : Event) : stE LogState unit :=
  for_each (Send l level e) callback.

(** ** The logger *)

Definition getLogger : stE LogState Logger := gets ls_log.
Definition setLogger (l : Logger) : stE LogState unit := modify (set_log l).

(** [strings.HasSuffix] *)
Definition HasSuffix (s suffix : bytes) : bool :=
  ((length suffix <=? length s)%nat && bool_decide (drop (length s - length suffix) s = suffix))%bool.

(** The first writers of [Init], by the name of the output. *)
Definition output_sinks (output : string) : result (list Sink) :=
  if decide (output = "stdout"%string) then Ok [Console Stdout]
  else if decide (output = "stderr"%string) then Ok [Console Stderr]
  else if decide (output = logTestWriterName) then Ok [Console TestWriter]
  else if can_open output then
    Ok (if HasSuffix (lit output) (lit ".json") then [Lines (File output); Console Stdout]
        else [Console (File output)])
  else Err [Panic].

Definition init_sinks (first : list Sink) (errorOutput : option Writer) : list Sink :=
  first ++ (match errorOutput with Some w => [ErrorLines w] | None => [] end)
    ++ (if panicOnInvalidChars then [CheckedLines] else []).

(** The level of a name. *)
Definition level_of (level : string) : result Z :=
  if decide (level = LogLevelDebug) then Ok DebugLevel
  else if decide (level = LogLevelInfo) then Ok InfoLevel
  else if decide (level = LogLevelWarn) then Ok WarnLevel
  else if decide (level = LogLevelError) then Ok ErrorLevel
  else Err [Panic].

Definition init_message (level output : string) : bytes :=
  lit "logger construction succeeded at level " ++ lit level ++ lit " with output " ++ lit output.

(** [Init] *)
Definition Init (level output : string) (errorOutput : option Writer) : stE LogState unit :=
  first ← lift (output_sinks output);
  let logger := New_ (init_sinks first errorOutput) in
  _ ← (if decide (output = logTestWriterName) then modify fix_time else mret tt);
  lv ← lift (level_of level);
  let logger := Level_ lv logger in
  _ ← setLogger logger;
  send_event logger InfoLevel (text_event (init_message level output)).

(** [Level] *)
Definition Level : stE LogState string :=
  logger ← getLogger;
  let lv := GetLevel logger in
  if decide (lv = DebugLevel) then mret LogLevelDebug
  else if decide (lv = InfoLevel) then mret LogLevelInfo
  else if decide (lv = WarnLevel) then mret LogLevelWarn
  else if decide (lv = ErrorLevel) then mret LogLevelError
  else throw [Panic].

(** The package's [init]: [cmp.Or] takes the first that is not empty. *)
Definition log_init (LOG_LEVEL : string) : stE LogState unit :=
  Init (if decide (LOG_LEVEL = ""%string) then "error"%string else LOG_LEVEL) "stderr" None.

(** ** Sending *)

(** An event of the global logger. *)
Definition log_at (level : Z) (e : Event) : stE LogState unit :=
  logger ← getLogger; send_event logger level e.

(** [Info], [Warn] and [Error], with the text of their arguments. *)
Definition log_Info (msg : bytes) : stE LogState unit := log_at InfoLevel (text_event msg).
Definition log_Warn (msg : bytes) : stE LogState unit := log_at WarnLevel (text_event msg).
Definition log_Error (msg : bytes) : stE LogState unit := log_at ErrorLevel (text_event msg).

(** [Debugf], [Infof], [Warnf] and [Errorf], with the formatted text. *)
Definition log_Debugf (msg : bytes) : stE LogState unit := log_at DebugLevel (text_event msg).
Definition log_Infof (msg : bytes) : stE LogState unit := log_at InfoLevel (text_event msg).
Definition log_Warnf (msg : bytes) : stE LogState unit := log_at WarnLevel (text_event msg).
Definition log_Errorf (msg : bytes) : stE LogState unit := log_at ErrorLevel (text_event msg).

(** [Debugw], [Infow], [Warnw] and [Monitor], with their fields, and [Errorw]. *)
Definition log_Debugw (msg : bytes) (keyvalues : list (bytes * bytes)) : stE LogState unit :=
  log_at DebugLevel (MkEvent msg keyvalues).
Definition log_Infow (msg : bytes) (keyvalues : list (bytes * bytes)) : stE LogState unit :=
  log_at InfoLevel (MkEvent msg keyvalues).
Definition log_Warnw (msg : bytes) (keyvalues : list (bytes * bytes)) : stE LogState unit :=
  log_at WarnLevel (MkEvent msg keyvalues).
Definition log_Errorw (err msg : bytes) : stE LogState unit :=
  log_at ErrorLevel (MkEvent msg [(lit "error", err)]).
Definition Monitor (msg : bytes) (args : list (bytes * bytes)) : stE LogState unit :=
  log_at InfoLevel (MkEvent msg args).

(** [Debug] *)
Definition log_Debug (msg : bytes) : stE LogState unit :=
  logger ← getLogger;
  if (DebugLevel <? GetLevel logger)%Z then mret tt else send_event logger DebugLevel (text_event msg).

(** [Fatal]: the message with the stack; zerolog ends the process. *)
Definition Fatal (stack msg : bytes) : stE LogState unit :=
  _ ← log_at FatalLevel (text_event (msg ++ x0a :: stack));
  throw [Panic].

(** [Fatalf], with the text formatted: the template is followed by the stack. *)
Definition Fatalf (text : bytes) : stE LogState unit := log_at FatalLevel (text_event text).

(** ** Errors that end a test *)

(** [EnablePanicOnErrorWithHandler] and [EnablePanicOnError] *)
Definition EnablePanicOnErrorWithHandler (testName : string) (delay : duration) (handler : option nat) :
    stE LogState Logger :=
  previousLogger ← getLogger;
  s ← get_st;
  let h := MkHook testName delay handler (ls_hooks s) in
  _ ← modify (fun s => MkLogState _ (ls_log s) (S (ls_hooks s)) (ls_fired s) (ls_timers s) (ls_written s) (ls_fixed s));
  _ ← setLogger (AddHook h previousLogger);
  mret previousLogger.
Definition EnablePanicOnError (testName : string) : stE LogState Logger :=
  EnablePanicOnErrorWithHandler testName second None.

(** [RestoreLogger] *)
Definition RestoreLogger (previousLogger : Logger) : stE LogState unit := setLogger previousLogger.
End log.

(** ** zerolog's promises *)

(** An event below the logger's level does nothing; another runs the hooks,
    in the order they were added, then the writers of [MultiLevelWriter], in
    theirs, and ends the process if it is fatal. *)
Class ZerologLaws `{Zerolog} := {
  hooks_of : Logger -> list Hook;
  sinks_of : Logger -> list Sink;
  line_of : Logger -> Z -> Event -> bytes;
  hooks_New l : hooks_of (New_ l) = [];
  hooks_Level n l : hooks_of (Level_ n l) = hooks_of l;
  hooks_Hook h l : hooks_of (AddHook h l) = hooks_of l ++ [h];
  sinks_New l : sinks_of (New_ l) = l;
  sinks_Level n l : sinks_of (Level_ n l) = sinks_of l;
  sinks_Hook h l : sinks_of (AddHook h l) = sinks_of l;
  GetLevel_Level n l : GetLevel (Level_ n l) = n;
  GetLevel_Hook h l : GetLevel (AddHook h l) = GetLevel l;
  Send_runs l lv e : Send l lv e = if (lv <? GetLevel l)%Z then [] else
    ((fun h => OnHook h lv (en_msg e)) <$> hooks_of l)
    ++ ((fun s => OnWrite s lv (line_of l lv e)) <$> sinks_of l)
    ++ (if decide (lv = FatalLevel) then [OnExit] else []);
}.

Section lines.
Context `{ZerologLaws}.

(** The lines the writers of [Init] write of a line at a level. *)
Definition sink_lines (level : Z) (line : bytes) (s : Sink) : list (Writer * bytes) :=
  match s with
  | Lines w => [(w, line)]
  | Console w => [(w, console false line)]
  | ErrorLines w => if (level <? WarnLevel)%Z then [] else [(w, console true line)]
  | CheckedLines => []
  end.

Definition with_lines (l : list (Writer * bytes)) (s : LogState) : LogState :=
  MkLogState _ (ls_log s) (ls_hooks s) (ls_fired s) (ls_timers s) (ls_written s ++ l) (ls_fixed s).

Lemma with_lines_nil s : with_lines [] s = s.
Proof. destruct s. unfold with_lines. cbn. by rewrite app_nil_r. Qed.

Lemma with_lines_app l1 l2 s : with_lines l2 (with_lines l1 s) = with_lines (l1 ++ l2) s.
Proof. unfold with_lines. cbn. by rewrite app_assoc. Qed.

Lemma for_each_app {A} (l1 l2 : list A) (m : A -> stE LogState unit) s :
  for_each (l1 ++ l2) m s = (for_each l1 m ≫= fun _ => for_each l2 m) s.
Proof.
  revert s. induction l1 as [|x l1 IH]; intros s; [done|]. cbn [app for_each].
  unfold mbind, stE_bind in *. destruct (m x s) as [[[]|e] s1]; [|done]. apply IH.
Qed.

(** The writers but the checker take any line. *)
Lemma writes_run level line (l : list Sink) s : Forall (fun k => k <> CheckedLines) l ->
  for_each ((fun k => OnWrite k level line) <$> l) callback s
    = (Ok tt, with_lines (l ≫= sink_lines level line) s).
Proof.
  intros Hl. revert s. induction Hl as [|k l Hk _ IH]; intros s.
  - by rewrite with_lines_nil.
  - cbn [fmap list_fmap for_each mbind list_bind]. unfold mbind, stE_bind.
    assert (callback (OnWrite k level line) s = (Ok tt, with_lines (sink_lines level line k) s)) as ->.
    { destruct k; cbn; try done. unfold error_WriteLevel. destruct (level <? WarnLevel)%Z; [|done].
      by rewrite with_lines_nil. }
    etransitivity; [apply IH|]. by rewrite with_lines_app.
Qed.

(** A logger without hooks writes its lines, then checks them. *)
Lemma send_run l level e plain (checked : bool) s :
  hooks_of l = [] -> sinks_of l = plain ++ (if checked then [CheckedLines] else []) ->
  Forall (fun k => k <> CheckedLines) plain -> level <> FatalLevel ->
  let line := line_of l level e in
  send_event l level e s = if (level <? GetLevel l)%Z then (Ok tt, s) else
    (if (checked && has_replacement (console false line))%bool then Err [Panic] else Ok tt,
     with_lines (plain ≫= sink_lines level line) s).
Proof.
  intros Hh Hs Hp Hl line. unfold send_event. rewrite Send_runs, Hh, Hs, decide_False by done.
  destruct (level <? GetLevel l)%Z; [done|]. rewrite app_nil_r, fmap_app. cbn [fmap list_fmap app].
  rewrite for_each_app. unfold mbind at 1, stE_bind. rewrite writes_run by done.
  destruct checked; [|done]. cbn. unfold check_chars, throw_if. fold line.
  by destruct (has_replacement _).
Qed.

(** The writers of [Init], without the checker. *)
Definition plain_sinks (first : list Sink) (errorOutput : option Writer) : list Sink :=
  first ++ match errorOutput with Some w => [ErrorLines w] | None => [] end.

Lemma plain_sinks_plain output first errorOutput : output_sinks output = Ok first ->
  Forall (fun k => k <> CheckedLines) (plain_sinks first errorOutput).
Proof.
  unfold output_sinks, plain_sinks. intros E. apply Forall_app. split.
  - repeat case_decide; [injection E as <-; by repeat constructor..|].
    destruct (can_open output); [|done]. injection E as <-. by destruct (HasSuffix _ _); repeat constructor.
  - destruct errorOutput; by repeat constructor.
Qed.

Lemma Init_run level output errorOutput s :
  match output_sinks output, level_of level with
  | Ok first, Ok n => exists s1, ls_log s1 = Level_ n (New_ (init_sinks first errorOutput)) /\
      Init level output errorOutput s = send_event (ls_log s1) InfoLevel (text_event (init_message level output)) s1
  | _, _ => exists s', Init level output errorOutput s = (Err [Panic], s') /\ ls_log s' = ls_log s
  end.
Proof.
  unfold Init, mbind, stE_bind, lift. destruct (output_sinks output) as [first|e] eqn:Eo.
  - assert (level_of level = Err [Panic] \/ exists n, level_of level = Ok n) as Hl
      by (unfold level_of; repeat case_decide; eauto).
    destruct Hl as [->|[n ->]].
    + destruct (decide (output = _)); by eexists.
    + destruct (decide (output = _));
        [exists (set_log (Level_ n (New_ (init_sinks first errorOutput))) (fix_time s))
        |exists (set_log (Level_ n (New_ (init_sinks first errorOutput))) s)]; by split.
  - assert (e = [Panic]) as ->; [|by eexists]. unfold output_sinks in Eo. repeat case_decide; try done.
    destruct (can_open output); [done|by injection Eo].
Qed.

(** Sending keeps the logger. *)
Lemma log_kept lev e s : ls_log (log_at lev e s).2 = ls_log s.
Proof.
  change (log_at lev e s) with (send_event (ls_log s) lev e s).
  apply (preserves_for_each (fun s' => ls_log s' = ls_log s)); [|done]. intros c _ s1 <-.
  destruct c as [h lv msg|[w|w|w|] lv line|]; try done; cbn.
  - unfold hook_Run, mbind, stE_bind, get_st. by destruct (_ && _).
  - unfold error_WriteLevel. by destruct (_ <? _)%Z.
  - unfold check_chars, throw_if. by destruct (has_replacement _).
Qed.

Lemma Fatalf_exits text s : (GetLevel (ls_log s) <= FatalLevel)%Z -> is_ok (Fatalf text s).1 = false.
Proof.
  intros Hl. change (Fatalf text s) with (send_event (ls_log s) FatalLevel (text_event text) s).
  unfold send_event. rewrite Send_runs, (proj2 (Z.ltb_ge _ _) Hl).
  destruct (decide (FatalLevel = FatalLevel)); [|done]. rewrite app_assoc, for_each_app. unfold mbind, stE_bind. by destruct (for_each _ callback s) as [[[]|] s1].
Qed.

Lemma Level_ext s s' : ls_log s = ls_log s' -> (Level s).1 = (Level s').1.
Proof. unfold Level, getLogger, gets, mbind, stE_bind. intros ->. by repeat case_decide. Qed.

Lemma level_of_name level n : level_of level = Ok n ->
  (DebugLevel <= n <= ErrorLevel)%Z /\
  forall s, GetLevel (ls_log s) = n -> (Level s).1 = Ok level.
Proof.
  unfold level_of, Level, getLogger, gets, mbind, stE_bind. intros E.
  repeat case_decide; try done; injection E as <-; (split; [done|]); intros s ->; by subst.
Qed.

(** The lines of an enabled event. *)
Definition output_lines (first : list Sink) (errorOutput : option Writer) (level : Z) (line : bytes) :
    list (Writer * bytes) :=
  (first ≫= sink_lines level line)
  ++ match errorOutput with
     | Some w => if (level <? WarnLevel)%Z then [] else [(w, console true line)]
     | None => []
     end.

Lemma plain_sinks_lines first errorOutput level line :
  plain_sinks first errorOutput ≫= sink_lines level line = output_lines first errorOutput level line.
Proof.
  unfold plain_sinks, output_lines. rewrite bind_app. f_equal. destruct errorOutput; [|done].
  cbn. by rewrite app_nil_r.
Qed.
End lines.

(** After an [Init] that returns, the level is the one given. *)
Lemma Init_level `{ZerologLaws} level output errorOutput s s' :
  Init level output errorOutput s = (Ok tt, s') ->
  (Level s').1 = Ok level /\ (GetLevel (ls_log s') <= ErrorLevel)%Z.
Proof.
  intros E. pose proof (Init_run level output errorOutput s) as Hi.
  destruct (output_sinks output), (level_of level) as [n|] eqn:El;
    try (destruct Hi as (s1 & Hi & _); rewrite Hi in E; done).
  destruct Hi as (s1 & Hlog & Hi). rewrite Hi in E.
  pose proof (log_kept InfoLevel (text_event (init_message level output)) s1) as Hk.
  change (log_at _ ?e s1) with (send_event (ls_log s1) InfoLevel e s1) in Hk. rewrite E in Hk. cbn [snd] in Hk.
  destruct (level_of_name level n El) as [Hn HL].
  assert (GetLevel (ls_log s') = n) as HG by (by rewrite Hk, Hlog, GetLevel_Level).
  split; [by apply HL|]. rewrite HG. apply Hn.
Qed.

(** C39: what Init sets up: with a known level and an output it can open it
    leaves a logger at that level, which writes every line from the level on
    to the output and, from warnings on, to the error output, once and in the
    order of the calls, and panics, after it wrote the line, only when told
    to and on a replacement character; otherwise it panics and leaves the
    logger as it was. *)
Theorem log_lines_reach_outputs `{ZerologLaws} level output errorOutput s :
  let '(r, s') := Init level output errorOutput s in
  match output_sinks output, level_of level with
  | Ok first, Ok n =>
      (r = Ok tt \/ r = Err [Panic] /\ panicOnInvalidChars = true) /\ (Level s').1 = Ok level /\
      forall lev e s1, ls_log s1 = ls_log s' -> (DebugLevel <= lev <= ErrorLevel)%Z ->
        let line := line_of (ls_log s1) lev e in
        log_at lev e s1 = if (lev <? n)%Z then (Ok tt, s1) else
          (if (panicOnInvalidChars && has_replacement (console false line))%bool then Err [Panic] else Ok tt,
           with_lines (output_lines first errorOutput lev line) s1)
  | _, _ => r = Err [Panic] /\ ls_log s' = ls_log s
  end.
Proof.
  pose proof (Init_run level output errorOutput s) as Hi.
  destruct (output_sinks output) as [first|] eqn:Eo, (level_of level) as [n|] eqn:El;
    try (destruct Hi as (s' & -> & Hs); done).
  destruct Hi as (s1 & Hlog & ->).
  assert (forall lev e s, lev <> FatalLevel -> ls_log s = ls_log s1 ->
    send_event (ls_log s) lev e s = if (lev <? n)%Z then (Ok tt, s) else
      (if (panicOnInvalidChars && has_replacement (console false (line_of (ls_log s) lev e)))%bool
       then Err [Panic] else Ok tt,
       with_lines (output_lines first errorOutput lev (line_of (ls_log s) lev e)) s)) as Hsend.
  { intros lev e s2 Hlev E2. rewrite <- plain_sinks_lines.
    rewrite (send_run _ _ _ (plain_sinks first errorOutput) panicOnInvalidChars); rewrite ?E2, ?Hlog;
      [by rewrite GetLevel_Level|by rewrite hooks_Level, hooks_New| |by eapply plain_sinks_plain|done].
    rewrite sinks_Level, sinks_New. unfold init_sinks, plain_sinks. by rewrite app_assoc. }
  destruct (level_of_name level n El) as [Hn HL].
  rewrite Hsend by done.
  assert (GetLevel (ls_log s1) = n) as HG by (by rewrite Hlog, GetLevel_Level).
  destruct (InfoLevel <? n)%Z.
  - split_and!; [by left|by apply HL|]. intros lev e s2 E2 Hlev. by apply Hsend; [unfold FatalLevel, ErrorLevel in *; lia|].
  - split_and!; [|by apply HL|].
    + destruct panicOnInvalidChars, (has_replacement _); cbn; auto.
    + intros lev e s2 E2 Hlev. by apply Hsend; [unfold FatalLevel, ErrorLevel in *; lia|].
Qed.
