(* ===== verification/Config.v ===== *)
(** * Election configurations (orchestrator/config.go, orchestrator/snarkjs.go)

    The parsing of an election's configuration into the rules its votes are
    checked against, with the strict parsers of the snarkjs encodings. *)

From S2P Require Import Prelude Errors Bytes Types Records Sdk.
From Stdlib Require Import Strings.Byte.

(** ** Big integers in text *)

(** The UTF-8 encodings of the Unicode white space [strings.TrimSpace] trims. *)
Definition spaces : list bytes :=
  (fun n => [byte_of n]) <$> [9; 10; 11; 12; 13; 32]%N.
Definition wide_spaces : list bytes :=
  [byte_of <$> [194; 133]%N; byte_of <$> [194; 160]%N; byte_of <$> [225; 154; 128]%N]
  ++ ((fun n => byte_of <$> [226; 128; n]%N) <$>
        [128; 129; 130; 131; 132; 133; 134; 135; 136; 137; 138; 168; 169; 175]%N)
  ++ [byte_of <$> [226; 129; 159]%N; byte_of <$> [227; 128; 128]%N].

(** [strings.TrimPrefix]: what follows a prefix, or the string itself. *)
Definition strip_prefix (p s : bytes) : option bytes :=
  if decide (take (length p) s = p) then Some (drop (length p) s) else None.
Definition TrimPrefix (s p : bytes) : bytes := default s (strip_prefix p s).

(** The first of the prefixes [s] starts with, stripped. *)
Fixpoint strip_any (ps : list bytes) (s : bytes) : option bytes :=
  match ps with
  | [] => None
  | p :: ps => match strip_prefix p s with Some r => Some r | None => strip_any ps s end
  end.

Fixpoint trim_left (fuel : nat) (ps : list bytes) (s : bytes) : bytes :=
  match fuel with
  | O => s
  | S fuel => match strip_any ps s with Some r => trim_left fuel ps r | None => s end
  end.

(** [strings.TrimSpace]; each step drops at least a byte. *)
Definition TrimSpace (s : bytes) : bytes :=
  let ps := spaces ++ wide_spaces in
  let l := trim_left (length s) ps s in
  reverse (trim_left (length l) (reverse <$> ps) (reverse l)).

(** [big.Int.SetString(s, base)] for bases 10 and 16: an optional sign, then
    at least one digit. *)
Fixpoint digit_values (base : N) (s : bytes) : option (list N) :=
  match s with
  | [] => Some []
  | c :: r =>
      d ← hex_value c;
      l ← digit_values base r;
      if (d <? base)%N then Some (d :: l) else None
  end.

Definition parse_nat (base : N) (s : bytes) : option N :=
  match s with
  | [] => None
  | _ => of_digits base <$> digit_values base s
  end.

Definition SetString (base : N) (s : bytes) : option Z :=
  match s with
  | c :: r =>
      if decide (c = "-"%byte) then (fun n => (- Z.of_N n)%Z) <$> parse_nat base r
      else if decide (c = "+"%byte) then Z.of_N <$> parse_nat base r
      else Z.of_N <$> parse_nat base s
  | [] => None
  end.

(** [parseHexBig] *)
Definition parseHexBig (s : string) : result Z :=
  let s := TrimPrefix (TrimSpace (lit s)) (lit "0x") in
  if decide (s = []) then Err errorf else of_option (SetString 16 s) errorf.

(** [big.Int.FillBytes] into a buffer of [w] bytes, which panics if the
    absolute value does not fit. *)
Definition FillBytes (w : nat) (v : Z) : result bytes :=
  let n := Z.to_N (Z.abs v) in
  if (n <? 256 ^ N.of_nat w)%N then Ok (fill_bytes w n) else Err [Panic].

(** [parseDecimal] *)
Definition is_digit (c : byte) : bool :=
  let n := Byte.to_N c in ((48 <=? n) && (n <=? 57))%N.

Definition parseDecimal (s : string) (max : Z) : result Z :=
  let s := lit s in
  if decide (s = []) then Err errorf
  else if forallb is_digit s then
    v ← of_option (SetString 10 s) errorf;
    if (max <=? v)%Z then Err errorf else Ok v
  else Err errorf.

(** The decimal text of a non-negative integer. *)
Definition dec_string (v : Z) : string := String.string_of_list_byte (fmt_d (Z.to_N v)).

Section config.
Context `{Sdk}.

(** ** The election configuration *)

(** [encKeyFromRTE] *)
Definition encKeyFromRTE (encX encY : string) : result Point :=
  rx ← parseHexBig encX;
  ry ← parseHexBig encY;
  Ok (SetPoint rx ry).

(** [chainConfigFromElection] *)
Definition chainConfigFromElection (cfg : ElectionConfig) : result ChainConfig :=
  pid ← parseHexBig (ProcessID cfg);
  bm ← parseHexBig (BallotMode cfg);
  cr ← parseHexBig (CensusRoot cfg);
  key ← encKeyFromRTE (EncX cfg) (EncY cfg);
  vkHash ← of_option (BallotVKLeaf (ec_VK cfg)) errorf;
  Ok {| cc_ProcessID := pid; cc_BallotMode := bm; cc_EncKey := key;
        cc_CensusOrigin := CensusOrigin cfg; cc_CensusRoot := cr;
        cc_BallotVKHash := vkHash |}.

(** [checkCensusOrigin] *)
Definition checkCensusOrigin (origin : N) : result unit :=
  if IsMerkle origin then Ok tt
  else if IsCSP origin then Err errorf
  else Err errorf.

(** [unpackBallotMode] *)
Definition field (packed : Z) (shift width : N) : N :=
  Z.to_N (Z.land (Z.shiftr packed (Z.of_N shift)) (Z.shiftl 1 (Z.of_N width) - 1)).

Definition unpacked (packed : Z) : BallotModeT := {|
  bm_NumFields := field packed 0 8;
  bm_GroupSize := field packed 8 8;
  bm_UniqueValues := (field packed 16 1 =? 1)%N;
  bm_CostExponent := field packed 17 8;
  bm_MaxValue := field packed 25 48;
  bm_MinValue := field packed 73 48;
  bm_MaxValueSum := field packed 121 63;
  bm_MinValueSum := field packed 184 63;
|}.

Definition unpackBallotMode (packed : Z) : result BallotModeT :=
  let bm := unpacked packed in
  repacked ← of_option (Pack bm) errorf;
  _ ← guard_err (bool_decide (repacked = packed)) errorf;
  _ ← guard_err (negb ((bm_NumFields bm <? 1)%N || (NumFields <? bm_NumFields bm)%N)) errorf;
  Ok bm.

(** ** snarkjs encodings *)

Definition parseFp (s : string) : result Z := parseDecimal s fp_Modulus.

Definition parseG1 (v : list string) : result G1 :=
  match v with
  | [x; y; z] =>
      if decide (z = "1"%string) then
        px ← parseFp x;
        py ← parseFp y;
        if G1_IsInfinity (px, py) || negb (G1_IsOnCurve (px, py)) then Err errorf
        else Ok (px, py)
      else Err errorf
  | _ => Err errorf
  end.

Definition parseG2 (v : list (list string)) : result G2 :=
  match v with
  | [[x0; x1]; [y0; y1]; [z0; z1]] =>
      if decide (z0 = "1"%string /\ z1 = "0"%string) then
        a0 ← parseFp x0; a1 ← parseFp x1; b0 ← parseFp y0; b1 ← parseFp y1;
        let p := ((a0, a1), (b0, b1)) in
        if G2_IsInfinity p || negb (G2_IsOnCurve p) || negb (G2_IsInSubGroup p)
        then Err errorf else Ok p
      else Err errorf
  | _ => Err errorf
  end.

Definition g1JSON (p : G1) : list string := [dec_string p.1; dec_string p.2; "1"%string].

Definition g2JSON (p : G2) : list (list string) :=
  [[dec_string p.1.1; dec_string p.1.2]; [dec_string p.2.1; dec_string p.2.2];
   ["1"%string; "0"%string]].

(** [parseBallotProof]: the proof and its canonical encoding. *)
Definition parseBallotProof (raw : bytes) : result ((G1 * G2 * G1) * bytes) :=
  sp ← of_option (unmarshal_proof raw) errorf;
  ar ← parseG1 (sp_A sp);
  bs ← parseG2 (sp_B sp);
  krs ← parseG1 (sp_C sp);
  canonical ← of_option (marshal_proof
    {| sp_A := g1JSON ar; sp_B := g2JSON bs; sp_C := g1JSON krs |}) errorf;
  Ok ((ar, bs, krs), canonical).

Definition ballotPublicInputs : nat := 3.

(** [parseBallotVK] *)
Definition parseBallotVK (raw : bytes) : result (VerifyingKey * bytes) :=
  sv ← of_option (unmarshal_vk raw) errorf;
  _ ← guard_err (length (sv_IC sv) =? ballotPublicInputs + 1)%nat errorf;
  alpha ← parseG1 (sv_Alpha sv);
  beta ← parseG2 (sv_Beta sv);
  gamma ← parseG2 (sv_Gamma sv);
  delta ← parseG2 (sv_Delta sv);
  k ← mapM parseG1 (sv_IC sv);
  vk ← of_option (Precompute alpha beta gamma delta k) errorf;
  canonical ← of_option (marshal_vk
    {| sv_Alpha := g1JSON alpha; sv_Beta := g2JSON beta; sv_Gamma := g2JSON gamma;
       sv_Delta := g2JSON delta; sv_IC := g1JSON <$> k |}) errorf;
  Ok (vk, canonical).

(** [parsePublicInputs] *)
Definition parsePublicInputs (pubs : list string) : result (list Z) :=
  _ ← guard_err (length pubs =? ballotPublicInputs)%nat errorf;
  mapM (fun s => parseDecimal s fr_Modulus) pubs.

(** ** The rules of an election *)

(** [voteRules] *)
Record voteRules := {
  vr_cfg : ChainConfig;
  vr_processID : bytes;
  vr_ballotMode : BallotModeT;
  vr_ballotVK : VerifyingKey;
}.

(** [big.Int.BitLen] of a value that fits [8 * w] bits. *)
Definition fits_bytes (w : nat) (v : Z) : bool :=
  (Z.to_N (Z.abs v) <? 256 ^ N.of_nat w)%N.

(** [newVoteRules] *)
Definition newVoteRules (ec : ElectionConfig) : result voteRules :=
  _ ← checkCensusOrigin (CensusOrigin ec);
  cfg ← chainConfigFromElection ec;
  _ ← guard_err (CheckBigIntInField (cc_CensusRoot cfg)) errorf;
  _ ← guard_err (fits_bytes ProcessIDLen (cc_ProcessID cfg)) errorf;
  pid ← FillBytes ProcessIDLen (cc_ProcessID cfg);
  bm ← unpackBallotMode (cc_BallotMode cfg);
  vk ← parseBallotVK (ec_VK ec);
  Ok {| vr_cfg := cfg; vr_processID := pid; vr_ballotMode := bm; vr_ballotVK := vk.1 |}.
End config.

(** ** Concrete runs *)

Example parseHexBig_plain : parseHexBig " 0xFf" = Ok 255%Z.
Proof. by vm_compute. Qed.
Example parseHexBig_sign : parseHexBig "-10" = Ok (-16)%Z.
Proof. by vm_compute. Qed.
Example parseHexBig_empty : parseHexBig "0x" = Err errorf.
Proof. by vm_compute. Qed.
Example parseDecimal_range : parseDecimal "0042" 42 = Err errorf /\ parseDecimal "041" 42 = Ok 41%Z.
Proof. by vm_compute. Qed.
