(* ===== verification/Validate.v ===== *)
(** * Vote validation (orchestrator/census.go, orchestrator/validate.go,
    crypto/helpers.go) *)

From S2P Require Import Prelude Errors Bytes Types Records Sdk Config.
From Stdlib Require Import Strings.Byte.

(** [VoteSubmission] *)
Record VoteSubmission := {
  sub_VoteID : bytes;
  sub_Address : bytes;
  sub_VoteIDKey : N;
  sub_Ballot : bytes;
  sub_Proof : bytes;
  sub_PublicInputs : list string;
  sub_Sig : bytes;
  sub_Census : CensusProof;
}.

Definition AddressLength : nat := 20.
Definition maxCensusDepth : nat := 61.
Definition censusWeightBits : Z := 88.

(** [crypto.PadToSign]: left-padded with zeros to 32 bytes, or the last 32
    bytes. *)
Definition SignatureCircuitVariableLen : nat := 32.

Fixpoint pad_to (fuel : nat) (input : bytes) : bytes :=
  match fuel with
  | O => input
  | S fuel =>
      if (length input <? SignatureCircuitVariableLen)%nat
      then pad_to fuel (x00 :: input) else input
  end.

Definition PadToSign (input : bytes) : bytes :=
  if (length input <? SignatureCircuitVariableLen)%nat
  then pad_to SignatureCircuitVariableLen input
  else if (SignatureCircuitVariableLen <? length input)%nat
  then drop (length input - SignatureCircuitVariableLen) input
  else input.

Section validate.
Context `{Sdk}.

(** ** Census proofs (census.go) *)

(** [parseFr] *)
Definition parseFr (s : string) : result Z :=
  b ← of_option (hex_decode (TrimPrefix (lit s) (lit "0x"))) errorf;
  _ ← guard_err (length b =? 32)%nat errorf;
  let v := Z.of_N (bytes_to_N b) in
  _ ← guard_err (CheckBigIntInField v) errorf;
  Ok v.

(** [frHex] *)
Definition frHex (v : Z) : result string :=
  b ← FillBytes 32 v;
  Ok (String.string_of_list_byte (lit "0x" ++ hex_encode b)).

(** [frLimbs]: [l[i]] is the big-endian [uint64] of bytes [24-8i .. 32-8i]. *)
Definition frLimbs (v : Z) : result (list N) :=
  b ← FillBytes 32 v;
  Ok ((fun i => bytes_to_N (take 8 (drop (24 - 8 * i) b))) <$> [0; 1; 2; 3]%nat).

(** The siblings of a proof, parsed and re-encoded. *)
Fixpoint parse_siblings (l : list string) : result (list Z * list string) :=
  match l with
  | [] => Ok ([], [])
  | s :: l =>
      v ← parseFr s;
      h ← frHex v;
      r ← parse_siblings l;
      Ok (v :: r.1, h :: r.2)
  end.

(** [verifyCensusProof]: the weight the leaf carries and the proof with
    every value re-encoded. *)
Definition verifyCensusProof (censusRoot : Z) (address : bytes) (cp : CensusProof) :
    result (Z * CensusProof) :=
  let depth := length (cs_Siblings cp) in
  _ ← guard_err (depth <=? maxCensusDepth)%nat errorf;
  _ ← guard_err (N.shiftr (cs_Index cp) (N.of_nat depth) =? 0)%N errorf;
  root ← parseFr (cs_Root cp);
  _ ← guard_err (root =? censusRoot)%Z errorf;
  leaf ← parseFr (cs_Leaf cp);
  _ ← guard_err (length address =? AddressLength)%nat errorf;
  limbs ← frLimbs leaf;
  _ ← guard_err (bool_decide (LeafAddress limbs = address)) errorf;
  sib ← parse_siblings (cs_Siblings cp);
  _ ← guard_err (VerifyProofWith root leaf (cs_Index cp) sib.1) errorf;
  rootHex ← frHex root;
  leafHex ← frHex leaf;
  Ok (Z.land leaf (Z.shiftl 1 censusWeightBits - 1)%Z,
      {| cs_Root := rootHex; cs_Leaf := leafHex; cs_Index := cs_Index cp;
         cs_Siblings := sib.2 |}).

(** ** Ballots (validate.go) *)

(** The checks of the ciphertext points of field [i]. *)
Definition check_point (nf i : nat) (p : Z * Z) : bool :=
  if (nf <=? i)%nat then (p.1 =? 0)%Z && (p.2 =? 1)%Z else BJJ_IsOnCurve p.

(** [checkBallot] *)
Definition checkBallot (rules : voteRules) (raw : bytes) : result Ballot :=
  _ ← guard_err (negb (bool_decide (raw = []))) errorf;
  ballot ← of_option (Deserialize (cc_EncKey (vr_cfg rules)) raw) errorf;
  let nf := N.to_nat (bm_NumFields (vr_ballotMode rules)) in
  _ ← guard_err (forallb (fun p => check_point nf p.1 p.2.1 && check_point nf p.1 p.2.2)
                   (imap (fun i ct => (i, ct)) (Ciphertexts ballot))) errorf;
  Ok ballot.

(** A failed check wrapped in the reason of the rejection. *)
Definition reason {A} (s : sentinel) (r : result A) : result A :=
  match r with Ok a => Ok a | Err e => Err (wrap s e) end.

(** [checkVote] *)
Definition checkVote (rules : voteRules) (sub : VoteSubmission) :
    result (Ballot * Z * CensusProof) :=
  _ ← guard_err (length (sub_Address sub) =? AddressLength)%nat [ErrMalformedVote];
  _ ← guard_err (length (sub_VoteID sub) =? 8)%nat [ErrMalformedVote];
  _ ← guard_err (bytes_to_N (sub_VoteID sub) =? sub_VoteIDKey sub)%N [ErrMalformedVote];
  _ ← guard_err (VoteID_Valid (sub_VoteIDKey sub)) [ErrMalformedVote];
  ballot ← reason ErrMalformedVote (checkBallot rules (sub_Ballot sub));
  wc ← reason ErrInvalidCensusProof
    (verifyCensusProof (cc_CensusRoot (vr_cfg rules)) (sub_Address sub) (sub_Census sub));
  Ok (ballot, wc.1, wc.2).

(** [structuralValidator.Validate] *)
Definition structuralValidate (rules : voteRules) (sub : VoteSubmission) :
    result voteProofBundle :=
  _ ← guard_err (negb (bool_decide (sub_Proof sub = []))) [ErrInvalidBallotProof];
  _ ← guard_err (negb (bool_decide (sub_PublicInputs sub = []))) [ErrInvalidBallotProof];
  _ ← guard_err (negb (bool_decide (sub_Sig sub = []))) [ErrInvalidSignature];
  c ← checkVote rules sub;
  Ok {| vb_Proof := sub_Proof sub; vb_PublicInputs := sub_PublicInputs sub;
        vb_Sig := sub_Sig sub; vb_Census := c.2 |}.

(** ** Signatures *)

(** [parseVoteSig] *)
Definition parseVoteSig (raw : bytes) : result ECDSASignature :=
  js ← of_option (unmarshal_sig raw) errorf;
  r ← parseHexBig (js_SignatureR js);
  s ← parseHexBig (js_SignatureS js);
  _ ← guard_err (negb ((r =? 0)%Z || (secp256k1_N <=? r)%Z
                       || (s =? 0)%Z || (secp256k1_N <=? s)%Z)) errorf;
  rb ← FillBytes 32 r;
  sb ← FillBytes 32 s;
  sig ← of_option (Signature_SetBytes (rb ++ sb ++ [byte_of (js_SignatureV js)])) errorf;
  _ ← guard_err (Byte.to_N (nth 64 (Signature_Bytes sig) x00) <=? 1)%N errorf;
  Ok sig.

(** ** Full validation *)

Definition big_bytes (b : bytes) : Z := Z.of_N (bytes_to_N b).

(** The public signals bound to the address and the vote ID. *)
Definition check_signals (sub : VoteSubmission) (pubs : list Z) : bool :=
  (nth 0 pubs (-1) =? big_bytes (sub_Address sub))%Z &&
  (nth 1 pubs (-1) =? Z.of_N (sub_VoteIDKey sub))%Z.

(** [cryptoValidator.Validate] *)
Definition cryptoValidate (rules : voteRules) (sub : VoteSubmission) :
    result voteProofBundle :=
  _ ← guard_err (negb (bool_decide (sub_Proof sub = []))) [ErrInvalidBallotProof];
  _ ← guard_err (negb (bool_decide (sub_Sig sub = []))) [ErrInvalidSignature];
  c ← checkVote rules sub;
  let '(ballot, weight, census) := c in
  pubs ← reason ErrInvalidBallotProof (parsePublicInputs (sub_PublicInputs sub));
  _ ← guard_err (check_signals sub pubs) [ErrInvalidBallotProof];
  inputsHash ← of_option (BallotInputsHash (vr_processID rules) (vr_ballotMode rules)
    (cc_EncKey (vr_cfg rules)) (sub_Address sub) (sub_VoteIDKey sub) ballot weight)
    [ErrInvalidBallotProof];
  _ ← guard_err (nth 2 pubs (-1) =? inputsHash)%Z [ErrInvalidBallotProof];
  sig ← reason ErrInvalidSignature (parseVoteSig (sub_Sig sub));
  pubKey ← of_option (Signature_Verify sig (PadToSign (sub_VoteID sub)) (sub_Address sub))
    [ErrInvalidSignature];
  proof ← reason ErrInvalidBallotProof (parseBallotProof (sub_Proof sub));
  _ ← guard_err (Groth16_Verify proof.1 (vr_ballotVK rules) pubs) [ErrInvalidBallotProof];
  let rsv := Signature_Bytes sig in
  let hex b := String.string_of_list_byte (lit "0x" ++ hex_encode b) in
  sigJSON ← of_option (marshal_sig {|
    ps_PublicKeyX := hex (take 32 (drop 1 pubKey));
    ps_PublicKeyY := hex (take 32 (drop 33 pubKey));
    ps_SignatureR := hex (take 32 rsv);
    ps_SignatureS := hex (take 32 (drop 32 rsv));
    ps_SignatureV := nth 64 rsv x00;
    ps_VoteID := sub_VoteIDKey sub;
    ps_Address := dec_string (big_bytes (sub_Address sub)) |}) errorf;
  Ok {| vb_Proof := proof.2;
        vb_PublicInputs := [dec_string (big_bytes (sub_Address sub));
          dec_string (Z.of_N (sub_VoteIDKey sub)); dec_string (nth 2 pubs 0%Z)];
        vb_Sig := sigJSON; vb_Census := census |}.

(** [checkDecryptionKey] (orchestrator/lifecycle.go) *)
Definition checkDecryptionKey (encKey : Point) (key : Z) : result unit :=
  _ ← guard_err (negb ((key <=? 0)%Z || (Order <=? key)%Z)) [ErrInvalidDecryptionKey];
  guard_err (bool_decide (ScalarBaseMult key = encKey)) [ErrInvalidDecryptionKey].
End validate.
