(* ===== verification/ValidateProps.v ===== *)
(** * What validation guarantees

    The parsers of vote submissions read back what they write, and a vote
    that passes the full validation satisfies every rule the batch guest
    checks. *)

From S2P Require Import Prelude Errors Bytes Types Records Sdk Config Validate.
From Stdlib Require Import Strings.Byte.

(** ** Results *)

Lemma guard_err_Ok b e : guard_err b e = Ok tt <-> b = true.
Proof. by destruct b. Qed.

Lemma reason_Ok {A} s (r : result A) a : reason s r = Ok a <-> r = Ok a.
Proof. by destruct r. Qed.

Lemma Ok_inj {A} (a b : A) : Ok a = Ok b -> a = b.
Proof. by intros [= ->]. Qed.

(** Take a successful run apart. *)
Ltac runs_ok :=
  repeat match goal with
    | H : (_ ≫= _) = Ok _ |- _ => apply result_bind_Ok in H as (? & ? & H)
    | H : guard_err _ _ = Ok ?x |- _ => destruct x; apply guard_err_Ok in H
    | H : reason _ _ = Ok _ |- _ => apply reason_Ok in H
    | H : of_option _ _ = Ok _ |- _ => apply of_option_Ok in H
    end.

(** ** Decimal text *)

Lemma ndigits_bound fuel n :
  (n < 2 ^ N.of_nat fuel)%N -> (n < 10 ^ N.of_nat (ndigits fuel n))%N.
Proof.
  revert n. induction fuel as [|fuel IH]; intros n Hn; cbn [ndigits]; [simpl in *; lia|].
  destruct (N.ltb_spec n 10) as [Hlt|Hge]; [simpl; lia|].
  rewrite Nat2N.inj_succ, N.pow_succ_r' in *.
  assert (n / 10 < 10 ^ N.of_nat (ndigits fuel (n / 10)))%N as Hd.
  { apply IH. apply N.Div0.div_lt_upper_bound. lia. }
  pose proof (N.div_mod n 10 ltac:(lia)). pose proof (N.mod_lt n 10 ltac:(lia)). nia.
Qed.

Lemma dec_digit_value d : (d < 10)%N -> hex_value (dec_digit d) = Some d /\ is_digit (dec_digit d) = true.
Proof.
  intros Hd. unfold hex_value, is_digit, dec_digit. rewrite to_N_byte_of by lia.
  rewrite (proj2 (N.leb_le 48 (48 + d))), (proj2 (N.leb_le (48 + d) 57)) by lia.
  cbn. split; [f_equal; lia|done].
Qed.

Lemma digit_values_dec l :
  Forall (fun d => d < 10)%N l -> digit_values 10 (dec_digit <$> l) = Some l.
Proof.
  induction 1 as [|d l Hd _ IH]; [done|]. csimpl. destruct (dec_digit_value d Hd) as [-> _].
  rewrite IH. cbn. by rewrite (proj2 (N.ltb_lt d 10)).
Qed.

Lemma fmt_d_digits n : exists l, fmt_d n = dec_digit <$> l /\ l <> [] /\
  Forall (fun d => d < 10)%N l /\ of_digits 10 l = n.
Proof.
  unfold fmt_d, fmt_0d. set (w := max 1 _). exists (digits_be 10 w n). split; [done|]. split.
  - intros E. apply (f_equal length) in E. rewrite length_digits_be in E. unfold w in E. simpl in E. lia.
  - split; [apply digits_be_lt; lia|]. rewrite of_digits_be by lia. apply N.mod_small.
    eapply N.lt_le_trans; [apply (ndigits_bound (N.size_nat n)), size_nat_bound|].
    apply N.pow_le_mono_r; [lia|]. unfold w. lia.
Qed.

(** A decimal the engine writes is read back. *)
Lemma parseDecimal_dec_string v max :
  (0 <= v < max)%Z -> parseDecimal (dec_string v) max = Ok v.
Proof.
  intros Hv. unfold parseDecimal, dec_string, lit. rewrite String.list_byte_of_string_of_list_byte.
  destruct (fmt_d_digits (Z.to_N v)) as (l & -> & Hne & Hl & Hval).
  destruct l as [|d l]; [done|]. rewrite decide_False by done.
  assert (forallb is_digit (dec_digit <$> d :: l) = true) as ->.
  { apply forallb_forall. intros x Hx%in_map_iff. destruct Hx as (y & <- & Hy).
    rewrite Forall_forall in Hl. apply dec_digit_value, Hl. by apply list_elem_of_In. }
  pose proof (digit_values_dec (d :: l) Hl) as Hd. csimpl in *.
  apply Forall_cons in Hl as [Hd0 _]. destruct (dec_digit_value d Hd0) as [_ Hdig].
  unfold SetString. rewrite !decide_False by (intros E; by rewrite E in Hdig).
  unfold parse_nat. cbn [fmap list_fmap] in *. rewrite Hd.
  change (Z.of_N <$> (of_digits 10 <$> Some (d :: l))) with (Some (Z.of_N (of_digits 10 (d :: l)))).
  rewrite Hval, Z2N.id by lia. cbn. by rewrite (proj2 (Z.leb_gt max v)) by lia.
Qed.

(** ** Field elements *)

Lemma two256 : (256 ^ N.of_nat 32 = 2 ^ 256)%N.
Proof. by vm_compute. Qed.

Lemma FillBytes_Ok w v b :
  FillBytes w v = Ok b <-> (Z.to_N (Z.abs v) < 256 ^ N.of_nat w)%N /\ b = fill_bytes w (Z.to_N (Z.abs v)).
Proof. unfold FillBytes. destruct (N.ltb_spec (Z.to_N (Z.abs v)) (256 ^ N.of_nat w)); naive_solver lia. Qed.

Lemma TrimPrefix_app p s : TrimPrefix (p ++ s) p = s.
Proof. unfold TrimPrefix, strip_prefix. by rewrite take_app_length, decide_True, drop_app_length. Qed.

Section fields.
Context `{Sdk}.

Lemma parseFr_Ok s v :
  parseFr s = Ok v -> (0 <= v < 2 ^ 256)%Z /\ CheckBigIntInField v = true.
Proof.
  unfold parseFr. intros Hp. runs_ok. injection Hp as <-. split; [|done].
  apply Nat.eqb_eq in H1. pose proof (bytes_to_N_bound x) as Hb. rewrite H1, two256 in Hb. lia.
Qed.

(** A field element written as hex is read back. *)
Lemma parseFr_frHex v s :
  (0 <= v)%Z -> CheckBigIntInField v = true -> frHex v = Ok s -> parseFr s = Ok v.
Proof.
  unfold frHex. intros Hv Hf Hs. runs_ok. apply FillBytes_Ok in H0 as [Hb ->].
  apply Ok_inj in Hs. subst s.
  unfold parseFr, lit. rewrite String.list_byte_of_string_of_list_byte.
  rewrite TrimPrefix_app.
  rewrite hex_decode_encode. cbn [of_option]. unfold mbind, result_bind.
  rewrite length_fill_bytes. cbn [Nat.eqb guard_err]. rewrite bytes_to_N_fill by exact Hb.
  rewrite Z.abs_eq, Z2N.id by lia. by rewrite Hf.
Qed.
End fields.

Lemma bytes_to_N_app a b :
  bytes_to_N (a ++ b) = (bytes_to_N a * 256 ^ N.of_nat (length b) + bytes_to_N b)%N.
Proof.
  unfold bytes_to_N. rewrite fmap_app. unfold of_digits at 1. rewrite foldl_app, foldl_digits.
  by rewrite length_fmap.
Qed.

(** A byte string cut in pieces of eight. *)
Lemma cut8 (b : bytes) k :
  length b = 8 * S k -> b = take 8 b ++ drop 8 b /\ length (take 8 b) = 8 /\ length (drop 8 b) = 8 * k.
Proof. intros Hb. rewrite take_drop, length_take, length_drop, Hb. split; [done|lia]. Qed.

(** The limbs of a field element are its 64-bit words, least significant
    first: they fit and they make up the value. *)
Theorem frLimbs_words v :
  (0 <= v < 2 ^ 256)%Z ->
  exists l0 l1 l2 l3, frLimbs v = Ok [l0; l1; l2; l3] /\
    Forall (fun l => l < two64)%N [l0; l1; l2; l3] /\
    v = Z.of_N (l0 + l1 * 2 ^ 64 + l2 * 2 ^ 128 + l3 * 2 ^ 192).
Proof.
  intros Hv. unfold frLimbs, FillBytes. rewrite Z.abs_eq, two256 by lia.
  rewrite (proj2 (N.ltb_lt _ _)) by lia. cbn [mbind result_bind].
  set (b := fill_bytes 32 (Z.to_N v)).
  assert (length b = 32) as Hl by apply length_fill_bytes.
  assert (bytes_to_N b = Z.to_N v) as Hb by (apply bytes_to_N_fill; rewrite two256; lia).
  clearbody b. destruct (cut8 b 3 Hl) as (E3 & L3 & Hl1). set (b1 := drop 8 b) in *.
  destruct (cut8 b1 2 Hl1) as (E2 & L2 & Hl2). set (b2 := drop 8 b1) in *.
  destruct (cut8 b2 1 Hl2) as (E1 & L1 & Hl3). set (b3 := drop 8 b2) in *.
  exists (bytes_to_N b3), (bytes_to_N (take 8 b2)), (bytes_to_N (take 8 b1)), (bytes_to_N (take 8 b)).
  assert (forall c, length c = 8 -> (bytes_to_N c < two64)%N) as Hw.
  { intros c Hc. pose proof (bytes_to_N_bound c) as Hbd. by rewrite Hc in Hbd. }
  split; [|split; [repeat constructor; by apply Hw|]].
  - cbn [fmap list_fmap Nat.mul Nat.sub]. unfold b3, b2, b1. rewrite !drop_drop, drop_0.
    do 3 f_equal. rewrite take_ge; [done|]. rewrite length_drop. lia.
  - assert (bytes_to_N b = bytes_to_N b3 + bytes_to_N (take 8 b2) * 2 ^ 64
      + bytes_to_N (take 8 b1) * 2 ^ 128 + bytes_to_N (take 8 b) * 2 ^ 192)%N as E.
    { rewrite E3 at 1. rewrite bytes_to_N_app, Hl1. rewrite E2 at 1. rewrite bytes_to_N_app, Hl2.
      rewrite E1 at 1. rewrite bytes_to_N_app, Hl3.
      change (256 ^ N.of_nat (8 * 3))%N with (2 ^ 192)%N.
      change (256 ^ N.of_nat (8 * 2))%N with (2 ^ 128)%N.
      change (256 ^ N.of_nat (8 * 1))%N with (2 ^ 64)%N. lia. }
    rewrite <- E, Hb. lia.
Qed.

(** ** Census proofs *)

Section census.
Context `{Sdk}.

Lemma frHex_Ok v s : frHex v = Ok s -> (Z.to_N (Z.abs v) < 256 ^ N.of_nat 32)%N.
Proof. unfold frHex. intros Hs. runs_ok. by apply FillBytes_Ok in H0 as [? _]. Qed.

(** A parsed value, written and parsed again. *)
Lemma reparse s v h : parseFr s = Ok v -> frHex v = Ok h -> parseFr h = Ok v.
Proof. intros Hp Hh. destruct (parseFr_Ok _ _ Hp) as [Hr Hf]. by apply parseFr_frHex; [lia|..]. Qed.

Lemma parse_siblings_again l vs hs :
  parse_siblings l = Ok (vs, hs) -> parse_siblings hs = Ok (vs, hs) /\ length hs = length l.
Proof.
  revert vs hs. induction l as [|s l IH]; intros vs hs Hp; cbn [parse_siblings] in Hp.
  - by injection Hp as <- <-.
  - runs_ok. destruct x1 as [vs' hs']. injection Hp as <- <-.
    destruct (IH _ _ H2) as [E L]. split; [|simpl; by rewrite L].
    cbn [parse_siblings]. rewrite (reparse _ _ _ H0 H1). unfold mbind, result_bind.
    by rewrite H1, E.
Qed.

(** What a verified census proof says: the root is the election's, and the
    leaf, which carries the address and the weight, is in its tree. *)
Record census_verified (censusRoot : Z) (address : bytes) (cp : CensusProof) (leaf : Z) (sib : list Z) :
    Prop := {
  cv_depth : length (cs_Siblings cp) <= maxCensusDepth;
  cv_index : N.shiftr (cs_Index cp) (N.of_nat (length (cs_Siblings cp))) = 0%N;
  cv_root : parseFr (cs_Root cp) = Ok censusRoot;
  cv_leaf : parseFr (cs_Leaf cp) = Ok leaf;
  cv_address : exists limbs, frLimbs leaf = Ok limbs /\ LeafAddress limbs = address;
  cv_length : length address = AddressLength;
  cv_siblings : exists hs, parse_siblings (cs_Siblings cp) = Ok (sib, hs);
  cv_proof : VerifyProofWith censusRoot leaf (cs_Index cp) sib = true;
}.

Definition leaf_weight (leaf : Z) : Z := Z.land leaf (Z.shiftl 1 censusWeightBits - 1).

Lemma verifyCensusProof_run root address cp weight cp' :
  verifyCensusProof root address cp = Ok (weight, cp') ->
  exists leaf sib, census_verified root address cp leaf sib /\ weight = leaf_weight leaf /\
    census_verified root address cp' leaf sib /\ verifyCensusProof root address cp' = Ok (weight, cp').
Proof.
  unfold verifyCensusProof at 1. intros Hv. runs_ok.
  apply Z.eqb_eq in H3. subst x1. apply Nat.leb_le in H0. apply N.eqb_eq in H1.
  apply Nat.eqb_eq in H5. apply bool_decide_eq_true in H7.
  destruct x7 as [sib hs]. cbn [fst snd] in *. apply Ok_inj in Hv. injection Hv as <- <-.
  destruct (parse_siblings_again _ _ _ H8) as [Hs Hl].
  pose proof (reparse _ _ _ H2 H10) as Hroot. pose proof (reparse _ _ _ H4 H11) as Hleaf.
  exists x3, sib. split; [by split; eauto|]. split; [done|]. split.
  - by split; cbn; rewrite ?Hl; eauto.
  - unfold verifyCensusProof. cbn [cs_Siblings cs_Index cs_Root cs_Leaf]. rewrite Hl.
    rewrite (proj2 (Nat.leb_le _ _) H0), (proj2 (N.eqb_eq _ _) H1), Hroot. cbn [guard_err].
    unfold mbind, result_bind. rewrite Z.eqb_refl, Hleaf. cbn [guard_err].
    rewrite (proj2 (Nat.eqb_eq _ _) H5), H6. cbn [guard_err].
    rewrite bool_decide_true by done. cbn [guard_err]. rewrite Hs. cbn [fst snd].
    rewrite H9. cbn [guard_err]. by rewrite H10, H11.
Qed.
End census.

(** C25: a verified census proof carries the election's root, the voter's
    address in its leaf and an inclusion proof of that leaf; the proof is
    stored in a canonical form that verifies again, with the same weight, to
    itself. *)
Theorem verifyCensusProof_canonical `{Sdk} root address cp weight cp' :
  verifyCensusProof root address cp = Ok (weight, cp') ->
  exists leaf sib, census_verified root address cp leaf sib /\ weight = leaf_weight leaf /\
    census_verified root address cp' leaf sib /\ verifyCensusProof root address cp' = Ok (weight, cp').
Proof. apply verifyCensusProof_run. Qed.

(** ** Ballots and votes *)

Section votes.
Context `{Sdk}.

(** The fields an election has are points of the curve, the others the
    identity. *)
Definition ballot_ok (rules : voteRules) (ballot : Ballot) : Prop :=
  forall i c1 c2, Ciphertexts ballot !! i = Some (c1, c2) ->
    if decide (i < N.to_nat (bm_NumFields (vr_ballotMode rules)))
    then BJJ_IsOnCurve c1 = true /\ BJJ_IsOnCurve c2 = true
    else c1 = (0, 1)%Z /\ c2 = (0, 1)%Z.

Lemma check_point_ok nf i p :
  check_point nf i p = true -> if decide (i < nf) then BJJ_IsOnCurve p = true else p = (0, 1)%Z.
Proof.
  unfold check_point. destruct (Nat.leb_spec nf i) as [Hle|Hlt].
  - rewrite decide_False by lia. intros [E1 E2]%andb_true_iff. destruct p. simpl in *.
    f_equal; by apply Z.eqb_eq.
  - by rewrite decide_True.
Qed.

Lemma checkBallot_Ok rules raw ballot :
  checkBallot rules raw = Ok ballot ->
  Deserialize (cc_EncKey (vr_cfg rules)) raw = Some ballot /\ ballot_ok rules ballot.
Proof.
  unfold checkBallot. intros Hc. runs_ok. apply Ok_inj in Hc as ->. split; [done|].
  intros i c1 c2 Hi. rewrite forallb_forall in H2.
  assert (In (i, (c1, c2)) (imap (fun i ct => (i, ct)) (Ciphertexts ballot))) as Hin.
  { apply list_elem_of_In, list_elem_of_lookup. exists i. by rewrite list_lookup_imap, Hi. }
  specialize (H2 _ Hin). cbn [fst snd] in H2. apply andb_true_iff in H2 as [H3 H4].
  apply check_point_ok in H3, H4. by case_decide.
Qed.

(** What [checkVote] checks. *)
Record vote_checked (rules : voteRules) (sub : VoteSubmission) (ballot : Ballot) (weight : Z)
    (census : CensusProof) : Prop := {
  vc_address : length (sub_Address sub) = AddressLength;
  vc_voteID : length (sub_VoteID sub) = 8;
  vc_key : bytes_to_N (sub_VoteID sub) = sub_VoteIDKey sub;
  vc_valid : VoteID_Valid (sub_VoteIDKey sub) = true;
  vc_ballot : Deserialize (cc_EncKey (vr_cfg rules)) (sub_Ballot sub) = Some ballot;
  vc_fields : ballot_ok rules ballot;
  vc_census : verifyCensusProof (cc_CensusRoot (vr_cfg rules)) (sub_Address sub) (sub_Census sub)
    = Ok (weight, census);
}.

Lemma checkVote_Ok rules sub ballot weight census :
  checkVote rules sub = Ok (ballot, weight, census) -> vote_checked rules sub ballot weight census.
Proof.
  unfold checkVote. intros Hc. runs_ok. destruct x4 as [w c]. cbn [fst snd] in Hc.
  apply Ok_inj in Hc. injection Hc as -> -> ->. apply checkBallot_Ok in H4 as [Hd Hok].
  apply Nat.eqb_eq in H0, H1. apply N.eqb_eq in H2. by split.
Qed.

Lemma parsePublicInputs_Ok l pubs :
  parsePublicInputs l = Ok pubs ->
  length pubs = 3 /\ Forall (fun v => (0 <= v < fr_Modulus)%Z) pubs.
Proof.
  unfold parsePublicInputs. intros Hp. runs_ok. apply Nat.eqb_eq in H0.
  assert (forall pubs l, mapM (fun s => parseDecimal s fr_Modulus) l = Ok pubs ->
    length pubs = length l /\ Forall (fun v => (0 <= v < fr_Modulus)%Z) pubs) as Hm.
  { clear. intros pubs l. revert pubs. induction l as [|s l IH]; intros pubs Hm; cbn [mapM] in Hm.
    - apply Ok_inj in Hm. by subst.
    - runs_ok. apply Ok_inj in Hm. subst pubs. destruct (IH _ H1) as [Hl Hf].
      split; [simpl; by rewrite Hl|]. constructor; [|done].
      unfold parseDecimal in H0. case_decide; [done|]. destruct (forallb is_digit (lit s)) eqn:Hd; [|done].
      runs_ok. destruct (fr_Modulus <=? x1)%Z eqn:Hle; [done|]. apply Ok_inj in H0. subst x1.
      apply Z.leb_gt in Hle. split; [|done]. unfold SetString in H3.
      destruct (lit s) as [|c r]; [done|]. cbn in Hd. apply andb_true_iff in Hd as [Hd _].
      rewrite !decide_False in H3 by (intros ->; done).
      destruct (parse_nat 10 (c :: r)); [|done]. injection H3 as <-. lia. }
  destruct (Hm _ _ Hp) as [Hl Hf]. by rewrite H0 in Hl.
Qed.
End votes.

(** C24: a vote that passes the full validation satisfies what the batch guest
    checks of it: a well-formed vote ID, a ballot on the curve for this election
    and no more fields, a census proof of the voter's address, public signals
    that are the address, the vote ID and the hash of this election's inputs
    with the census weight, a signature over the padded vote ID by that address,
    and a ballot proof of those signals under the election's key.  What is kept
    for the prover parses back to exactly the values verified. *)
Theorem cryptoValidate_sound `{Sdk} rules sub bundle :
  cryptoValidate rules sub = Ok bundle ->
  exists ballot weight inputsHash proof sig pubKey,
    let pubs := [big_bytes (sub_Address sub); Z.of_N (sub_VoteIDKey sub); inputsHash] in
    vote_checked rules sub ballot weight (vb_Census bundle) /\
    parsePublicInputs (sub_PublicInputs sub) = Ok pubs /\
    BallotInputsHash (vr_processID rules) (vr_ballotMode rules) (cc_EncKey (vr_cfg rules))
      (sub_Address sub) (sub_VoteIDKey sub) ballot weight = Some inputsHash /\
    parseVoteSig (sub_Sig sub) = Ok sig /\
    Signature_Verify sig (PadToSign (sub_VoteID sub)) (sub_Address sub) = Some pubKey /\
    parseBallotProof (sub_Proof sub) = Ok (proof, vb_Proof bundle) /\
    Groth16_Verify proof (vr_ballotVK rules) pubs = true /\
    parsePublicInputs (vb_PublicInputs bundle) = Ok pubs.
Proof.
  unfold cryptoValidate. intros Hv. runs_ok. destruct x1 as [[ballot weight] census].
  runs_ok. apply checkVote_Ok in H2. destruct x5 as [proof canonical].
  pose proof (parsePublicInputs_Ok _ _ H3) as [Hl Hr].
  destruct x as [|p0 [|p1 [|p2 [|]]]]; try done. unfold check_signals in H4. cbn [nth fst snd] in *.
  apply andb_true_iff in H4 as [E0 E1]. apply Z.eqb_eq in E0, E1, H6. subst p0 p1 p2.
  apply Ok_inj in Hv. subst bundle. cbn [vb_Census vb_Proof vb_PublicInputs].
  exists ballot, weight, x1, proof, x3, x4. cbv zeta. do 7 (split; [done|]).
  apply Forall_cons in Hr as [R0 Hr]. apply Forall_cons in Hr as [R1 Hr]. apply Forall_cons in Hr as [R2 _].
  unfold parsePublicInputs. cbn [length Nat.eqb guard_err ballotPublicInputs mapM].
  unfold mbind, result_bind. by rewrite !parseDecimal_dec_string.
Qed.

(** ** Padding *)

Lemma pad_to_run fuel input :
  32 - length input <= fuel -> length input <= 32 ->
  pad_to fuel input = replicate (32 - length input) x00 ++ input.
Proof.
  revert input. induction fuel as [|fuel IH]; intros input Hf Hl; cbn [pad_to].
  - by replace (32 - length input) with 0 by lia.
  - unfold SignatureCircuitVariableLen. destruct (Nat.ltb_spec (length input) 32) as [Hlt|Hge].
    + rewrite IH by (simpl; lia). simpl length.
      replace (32 - length input) with (S (32 - S (length input))) by lia.
      rewrite replicate_S_end, <- app_assoc. done.
    + by replace (32 - length input) with 0 by lia.
Qed.

Lemma PadToSign_short input :
  length input <= 32 -> PadToSign input = replicate (32 - length input) x00 ++ input.
Proof.
  intros Hl. unfold PadToSign, SignatureCircuitVariableLen.
  destruct (Nat.ltb_spec (length input) 32) as [Hlt|Hge]; [apply pad_to_run; lia|].
  rewrite (proj2 (Nat.ltb_ge 32 (length input))) by lia.
  by replace (32 - length input) with 0 by lia.
Qed.

Lemma PadToSign_long input : 32 <= length input -> PadToSign input = drop (length input - 32) input.
Proof.
  intros Hl. unfold PadToSign, SignatureCircuitVariableLen. rewrite (proj2 (Nat.ltb_ge _ _)) by lia.
  destruct (Nat.ltb_spec 32 (length input)); [done|]. by replace (length input - 32) with 0 by lia.
Qed.

(** Padding to the signed length always gives 32 bytes: a shorter input
    keeps its value, with zeros in front, a longer one its last 32 bytes; so two
    vote IDs of 8 bytes are signed differently. *)
Theorem PadToSign_pads input :
  length (PadToSign input) = 32 /\
  (length input <= 32 ->
     PadToSign input = replicate (32 - length input) x00 ++ input /\
     bytes_to_N (PadToSign input) = bytes_to_N input) /\
  (32 <= length input -> PadToSign input `suffix_of` input) /\
  (forall input', length input = length input' -> length input <= 32 ->
     PadToSign input = PadToSign input' -> input = input').
Proof.
  assert (forall n, bytes_to_N (replicate n x00) = 0%N) as Hz.
  { induction n as [|n IH]; [done|]. change (replicate (S n) x00) with ([x00] ++ replicate n x00).
    by rewrite bytes_to_N_app, IH. }
  split; [|split; [|split]].
  - destruct (Nat.le_ge_cases (length input) 32) as [Hl|Hl].
    + rewrite PadToSign_short by done. rewrite length_app, length_replicate. lia.
    + rewrite PadToSign_long by done. rewrite length_drop. lia.
  - intros Hl. rewrite PadToSign_short by done. split; [done|]. by rewrite bytes_to_N_app, Hz.
  - intros Hl. rewrite PadToSign_long by done. exists (take (length input - 32) input).
    by rewrite take_drop.
  - intros input' El Hl E. rewrite !PadToSign_short in E by lia. rewrite El in E.
    by apply app_inv_head in E.
Qed.

(** ** Signatures *)

Lemma FillBytes_opp w v : FillBytes w (- v) = FillBytes w v.
Proof. unfold FillBytes. by rewrite Z.abs_opp. Qed.

(** The range check of a signature misses negative values: a negative [r]
    that fits 32 bytes is taken for its absolute value, and one that does not
    makes the handler panic. *)
Theorem parseVoteSig_negative `{Sdk} raw js r s :
  unmarshal_sig raw = Some js ->
  parseHexBig (js_SignatureR js) = Ok (- r)%Z -> parseHexBig (js_SignatureS js) = Ok s ->
  (0 < r)%Z -> (0 < s < secp256k1_N)%Z -> (secp256k1_N <= 2 ^ 256)%Z ->
  if decide (r < 2 ^ 256)%Z then
    forall raw' js', unmarshal_sig raw' = Some js' ->
      parseHexBig (js_SignatureR js') = Ok r -> (r < secp256k1_N)%Z ->
      js_SignatureS js' = js_SignatureS js -> js_SignatureV js' = js_SignatureV js ->
      parseVoteSig raw = parseVoteSig raw'
  else parseVoteSig raw = Err [Panic].
Proof.
  intros Eraw ER ES Hr Hs Hn. unfold parseVoteSig. rewrite Eraw. cbn [of_option mbind result_bind].
  rewrite ER, ES. cbn [mbind result_bind].
  assert ((- r =? 0)%Z || (secp256k1_N <=? - r)%Z || (s =? 0)%Z || (secp256k1_N <=? s)%Z = false) as ->.
  { rewrite !orb_false_iff, !Z.eqb_neq, !Z.leb_gt. lia. }
  cbn [negb guard_err mbind result_bind]. rewrite FillBytes_opp.
  case_decide as Hd.
  - intros raw' js' Eraw' ER' Hrn ES' EV'. rewrite Eraw'. cbn [of_option mbind result_bind].
    rewrite ER', ES', ES, EV'. cbn [mbind result_bind].
    assert ((r =? 0)%Z || (secp256k1_N <=? r)%Z || (s =? 0)%Z || (secp256k1_N <=? s)%Z = false) as ->.
    { rewrite !orb_false_iff, !Z.eqb_neq, !Z.leb_gt. lia. }
    done.
  - assert (FillBytes 32 r = Err [Panic]) as ->; [|done]. unfold FillBytes.
    rewrite (Z.abs_eq r), two256 by lia. assert (2 ^ 256 <= Z.to_N r)%N as Hge by lia.
    by rewrite (proj2 (N.ltb_ge _ _) Hge).
Qed.

(** ** Ballot modes *)

(** The widths of the fields. *)
Record mode_fits (bm : BallotModeT) : Prop := {
  mf_NumFields : (bm_NumFields bm < 2 ^ 8)%N;
  mf_GroupSize : (bm_GroupSize bm < 2 ^ 8)%N;
  mf_CostExponent : (bm_CostExponent bm < 2 ^ 8)%N;
  mf_MaxValue : (bm_MaxValue bm < 2 ^ 48)%N;
  mf_MinValue : (bm_MinValue bm < 2 ^ 48)%N;
  mf_MaxValueSum : (bm_MaxValueSum bm < 2 ^ 63)%N;
  mf_MinValueSum : (bm_MinValueSum bm < 2 ^ 63)%N;
}.

(** The packed layout: each field above the ones before it. *)
Definition layout (bm : BallotModeT) : Z :=
  let z := Z.of_N in
  (z (bm_NumFields bm) + 2 ^ 8 * (z (bm_GroupSize bm) + 2 ^ 8 *
  (Z.b2z (bm_UniqueValues bm) + 2 * (z (bm_CostExponent bm) + 2 ^ 8 *
  (z (bm_MaxValue bm) + 2 ^ 48 * (z (bm_MinValue bm) + 2 ^ 48 *
  (z (bm_MaxValueSum bm) + 2 ^ 63 * z (bm_MinValueSum bm))))))))%Z.

Lemma field_mod packed shift width :
  field packed shift width = Z.to_N ((packed / 2 ^ Z.of_N shift) mod 2 ^ Z.of_N width).
Proof.
  unfold field. rewrite Z.shiftr_div_pow2 by lia. rewrite Z.shiftl_1_l.
  rewrite <- Z.land_ones by lia. by rewrite Z.ones_equiv.
Qed.

Lemma field_bound packed shift width : (field packed shift width < 2 ^ width)%N.
Proof.
  rewrite field_mod. pose proof (Z.mod_pos_bound (packed / 2 ^ Z.of_N shift) (2 ^ Z.of_N width) ltac:(lia)).
  apply N2Z.inj_lt. rewrite Z2N.id by lia. rewrite N2Z.inj_pow. simpl. lia.
Qed.

Lemma unpacked_fits packed : mode_fits (unpacked packed).
Proof. split; apply field_bound. Qed.

Lemma field_low a r w : (a < 2 ^ w)%N -> field (Z.of_N a + 2 ^ Z.of_N w * r) 0 w = a.
Proof.
  intros Ha. rewrite field_mod. change (2 ^ Z.of_N 0)%Z with 1%Z. rewrite Z.div_1_r.
  rewrite Z.mul_comm, Z.mod_add by lia. rewrite Z.mod_small; [apply N2Z.id|].
  split; [lia|]. apply N2Z.inj_lt in Ha. by rewrite N2Z.inj_pow in Ha.
Qed.

Lemma field_high a r w s w' : (a < 2 ^ w)%N ->
  field (Z.of_N a + 2 ^ Z.of_N w * r) (w + s) w' = field r s w'.
Proof.
  intros Ha. rewrite !field_mod. do 2 f_equal.
  rewrite N2Z.inj_add, Z.pow_add_r, <- Z.div_div by lia.
  rewrite (Z.mul_comm _ r), Z.div_add by lia. apply N2Z.inj_lt in Ha. rewrite N2Z.inj_pow in Ha.
  rewrite (Z.div_small (Z.of_N a)); [by rewrite Z.add_0_l|]. split; [lia|done].
Qed.

Lemma flag_fits (b : bool) : (N.b2n b < 2 ^ 1)%N.
Proof. by destruct b. Qed.

Lemma layout_words bm : layout bm = (let z := Z.of_N in
  z (bm_NumFields bm) + 2 ^ z 8%N * (z (bm_GroupSize bm) + 2 ^ z 8%N *
  (z (N.b2n (bm_UniqueValues bm)) + 2 ^ z 1%N * (z (bm_CostExponent bm) + 2 ^ z 8%N *
  (z (bm_MaxValue bm) + 2 ^ z 48%N * (z (bm_MinValue bm) + 2 ^ z 48%N *
  (z (bm_MaxValueSum bm) + 2 ^ z 63%N * (z (bm_MinValueSum bm) + 2 ^ z 63%N * 0))))))))%Z.
Proof. unfold layout. rewrite Z.mul_0_r, Z.add_0_r. by destruct (bm_UniqueValues bm). Qed.

Lemma unpacked_layout bm : mode_fits bm -> unpacked (layout bm) = bm.
Proof.
  intros [H1 H2 H4 H5 H6 H7 H8]. pose proof (flag_fits (bm_UniqueValues bm)) as H3.
  rewrite layout_words. cbv zeta. unfold unpacked.
  change 184%N with (8 + (8 + (1 + (8 + (48 + (48 + (63 + 0)))))))%N.
  change 121%N with (8 + (8 + (1 + (8 + (48 + (48 + 0))))))%N.
  change 73%N with (8 + (8 + (1 + (8 + (48 + 0)))))%N.
  change 25%N with (8 + (8 + (1 + (8 + 0))))%N.
  change 17%N with (8 + (8 + (1 + 0)))%N.
  change 16%N with (8 + (8 + 0))%N.
  change (field ?p 8 8) with (field p (8 + 0) 8).
  rewrite !field_high by done. rewrite !field_low by done.
  destruct bm as [nf gs [] ce mx mn mxs mns]; done.
Qed.

(** [unpackBallotMode] is the inverse of the packed layout: it reads back
    every mode that fits the layout, and accepts no other integer. *)
Theorem unpackBallotMode_inverse `{Sdk} :
  (forall bm, mode_fits bm -> Pack bm = Some (layout bm)) ->
  (forall bm, mode_fits bm -> (1 <= bm_NumFields bm <= NumFields)%N ->
    unpackBallotMode (layout bm) = Ok bm) /\
  (forall packed bm, unpackBallotMode packed = Ok bm ->
    mode_fits bm /\ packed = layout bm /\ (1 <= bm_NumFields bm <= NumFields)%N).
Proof.
  intros Hpack. split.
  - intros bm Hf Hn. unfold unpackBallotMode. rewrite unpacked_layout, Hpack by done.
    cbn [of_option mbind result_bind]. rewrite bool_decide_true by done.
    cbn [guard_err mbind result_bind]. replace (bm_NumFields bm <? 1)%N with false by (symmetry; apply N.ltb_ge; lia).
    replace (NumFields <? bm_NumFields bm)%N with false by (symmetry; apply N.ltb_ge; lia). done.
  - intros packed bm E. unfold unpackBallotMode in E. rewrite Hpack in E by apply unpacked_fits.
    cbn [of_option mbind result_bind] in E. case_bool_decide as Hp; [|done].
    cbn [guard_err mbind result_bind] in E.
    destruct (_ || _) eqn:Hn; [done|]. cbn [negb guard_err mbind result_bind] in E.
    apply Ok_inj in E as <-. apply orb_false_iff in Hn as [H1%N.ltb_ge H2%N.ltb_ge].
    split; [apply unpacked_fits|]. done.
Qed.
