(* ===== verification/Artifacts.v ===== *)
(** * The artifact store

    The interface the storage layer is written against (storage/artifact.go
    and the transactions of the other files): typed reads, atomic batches of
    typed writes, and scans.  Two stores implement it: a finite map
    ([TypedDB], here), which is the specification, and the byte-level layout
    over a key-value database ([ByteDB], in ByteStore.v). *)

From S2P Require Import Prelude Errors Effects Bytes Types Records Keys KV.
From stdpp Require Import sorting.

(** ** Artifacts *)

(** What the namespaces hold. *)
Inductive Artifact :=
  | AElection (e : Election)
  | ABlob (b : bytes)
  | AVoteSeq (seq : N)
  | AVote (v : Vote)
  | AVoteStatus (s : VoteStatus)
  | ABatch (b : BatchInput)
  | AFold (c : FoldCheckpoint)
  | AResults (r : Results)
  | AWorker (w : WorkerRegistration)
  | AAudit (r : AuditRecord)
  | AReservation (timestamp : Z).

#[export] Instance Artifact_eq_dec : EqDecision Artifact.
Proof. solve_decision. Defined.

(** The Go type an artifact is decoded into. *)
Inductive Kind :=
  | KindElection | KindBlob | KindVoteSeq | KindVote | KindVoteStatus | KindBatch
  | KindFold | KindResults | KindWorker | KindAudit | KindReservation.

#[export] Instance Kind_eq_dec : EqDecision Kind.
Proof. solve_decision. Defined.

Definition artifact_kind (a : Artifact) : Kind :=
  match a with
  | AElection _ => KindElection | ABlob _ => KindBlob | AVoteSeq _ => KindVoteSeq
  | AVote _ => KindVote | AVoteStatus _ => KindVoteStatus | ABatch _ => KindBatch
  | AFold _ => KindFold | AResults _ => KindResults | AWorker _ => KindWorker
  | AAudit _ => KindAudit | AReservation _ => KindReservation
  end.

(** The type stored at a key. *)
Definition key_kind (k : Key) : Kind :=
  match k with
  | KElection _ => KindElection
  | KSnapshot _ | KBatchProof _ _ | KFoldProof _ => KindBlob
  | KVoteSeq _ => KindVoteSeq
  | KVote _ _ => KindVote
  | KVoteStatus _ _ => KindVoteStatus
  | KBatch _ _ => KindBatch
  | KFold _ => KindFold
  | KResults _ => KindResults
  | KWorker _ => KindWorker
  | KAudit _ _ => KindAudit
  | KReservation _ _ => KindReservation
  end.

(** The type of the artifacts a scan decodes. *)
Definition scan_kind (s : Scan) : Kind :=
  match s with
  | ScanElections => KindElection | ScanVotes _ => KindVote
  | ScanVoteStatuses _ => KindVoteStatus | ScanBatches _ => KindBatch
  | ScanProofs _ => KindBlob | ScanWorkers => KindWorker
  | ScanAudit => KindAudit | ScanReservations => KindReservation
  end.

Lemma in_scan_kind s k : in_scan s k -> key_kind k = scan_kind s.
Proof. by destruct s, k. Qed.

(** What is read back of an artifact that was written. *)
Definition kept (a : Artifact) : Artifact :=
  match a with
  | AElection e => AElection (kept_Election e)
  | AVote v => AVote (kept_Vote v)
  | ABatch b => ABatch (kept_BatchInput b)
  | AFold c => AFold (kept_FoldCheckpoint c)
  | AResults r => AResults (kept_Results r)
  | AWorker w => AWorker (kept_WorkerRegistration w)
  | AAudit r => AAudit (kept_AuditRecord r)
  | ABlob _ | AVoteSeq _ | AVoteStatus _ | AReservation _ => a
  end.

Lemma kept_kind a : artifact_kind (kept a) = artifact_kind a.
Proof. by destruct a. Qed.

Lemma kept_idemp a : kept (kept a) = kept a.
Proof.
  destruct a; simpl; try done; f_equal;
    unfold kept_Election, kept_Vote, kept_BatchInput, kept_FoldCheckpoint, kept_Results,
      kept_WorkerRegistration, kept_AuditRecord, v_set_log, bi_set_sealed, cp_set_updated,
      rs_set_finalized, wr_set_registered, au_set_timestamp; simpl;
    by rewrite ?whole_seconds_idemp.
Qed.

(** ** The interface *)

(** The writes of one transaction; [WDelUnder s x] deletes the key [x] found
    by a scan. *)
Inductive awrite :=
  | WPut (k : Key) (a : Artifact)
  | WDel (k : Key)
  | WDelUnder (s : Scan) (x : bytes).

Class ADB (D : Type) := {
  (** Load and decode; [ErrNotFound] if absent. *)
  adb_get : Key -> D -> result Artifact;
  (** Encode every artifact, then write them in one transaction. *)
  adb_commit : list awrite -> D -> result unit * D;
  (** The keys (without the prefix) and decoded values under a prefix. *)
  adb_scan : Scan -> D -> result (list (bytes * option Artifact));
}.

(** ** The typed store *)

Record TypedDB := {
  td_map : gmap Key Artifact;
  td_faults : list bool;
  td_readable : bool;
}.

Definition td_write (w : awrite) (m : gmap Key Artifact) : gmap Key Artifact :=
  match w with
  | WPut k a => <[k := kept a]> m
  | WDel k => delete k m
  | WDelUnder s x => filter (fun p => ~ (in_scan s p.1 /\ scan_suffix s p.1 = x)) m
  end.

Definition td_writes (ws : list awrite) (m : gmap Key Artifact) : gmap Key Artifact :=
  foldl (fun m w => td_write w m) m ws.

(** The keys of a scan, in the order of their suffixes. *)
Definition scan_le (s : Scan) (k1 k2 : Key) : Prop :=
  lex_le (scan_suffix s k1) (scan_suffix s k2).

#[export] Instance scan_le_dec s k1 k2 : Decision (scan_le s k1 k2).
Proof. unfold scan_le. apply _. Defined.

#[export] Instance scan_le_total s : Total (scan_le s).
Proof. intros k1 k2. apply lex_le_total. Qed.

#[export] Instance scan_le_trans s : Transitive (scan_le s).
Proof. intros k1 k2 k3. apply lex_le_trans. Qed.

Definition td_scan_keys (s : Scan) (m : gmap Key Artifact) : list Key :=
  merge_sort (scan_le s) (filter (in_scan s) (map_to_list m).*1).

Definition td_scan (s : Scan) (m : gmap Key Artifact) : list (bytes * option Artifact) :=
  (fun k => (scan_suffix s k, m !! k)) <$> td_scan_keys s m.

#[export] Instance TypedADB : ADB TypedDB := {|
  adb_get k d :=
    match td_map d !! k with Some a => Ok a | None => Err [ErrNotFound] end;
  adb_commit ws d :=
    let failed := next_fault (td_faults d) in
    (if failed then Err errorf else Ok tt,
     {| td_map := if failed then td_map d else td_writes ws (td_map d);
        td_faults := tl (td_faults d);
        td_readable := td_readable d |});
  adb_scan s d := if td_readable d then Ok (td_scan s (td_map d)) else Err errorf;
|}.

Definition td_empty : TypedDB := {| td_map := ∅; td_faults := []; td_readable := true |}.

(** Every key holds an artifact of its type, and is a valid key. *)
Definition well_kinded (m : gmap Key Artifact) : Prop :=
  map_Forall (fun k a => artifact_kind a = key_kind k /\ valid_key k) m.

(** A write of a transaction the storage layer makes. *)
Definition write_ok (w : awrite) : Prop :=
  match w with
  | WPut k a => artifact_kind a = key_kind k /\ valid_key k
  | WDel k => valid_key k
  | WDelUnder _ _ => True
  end.

Lemma td_write_well_kinded w m : write_ok w -> well_kinded m -> well_kinded (td_write w m).
Proof.
  intros Hw Hm. destruct w as [k a|k|s x]; simpl in *.
  - apply map_Forall_insert_2; [|done]. by rewrite kept_kind.
  - by apply map_Forall_delete.
  - intros k a [Hk _]%map_lookup_filter_Some. by apply Hm.
Qed.

Lemma td_writes_well_kinded ws m :
  Forall write_ok ws -> well_kinded m -> well_kinded (td_writes ws m).
Proof.
  intros Hws. revert m. induction Hws as [|w ws Hw _ IH]; intros m Hm; [done|].
  simpl. by apply IH, td_write_well_kinded.
Qed.

(** ** What a scan of the typed store returns *)

Lemma elem_of_td_scan_keys s m k :
  k ∈ td_scan_keys s m <-> in_scan s k /\ is_Some (m !! k).
Proof.
  unfold td_scan_keys. rewrite merge_sort_Permutation, list_elem_of_filter.
  rewrite list_elem_of_fmap. split.
  - intros [Hs ([k' a] & -> & Hin)]. split; [done|].
    apply elem_of_map_to_list in Hin. by eexists.
  - intros [Hs [a Ha]]. split; [done|]. exists (k, a).
    split; [done|]. by apply elem_of_map_to_list.
Qed.

Lemma td_scan_keys_sorted s m : Sorted (scan_le s) (td_scan_keys s m).
Proof. apply Sorted_merge_sort. apply _. Qed.

Lemma td_scan_keys_nodup s m : NoDup (td_scan_keys s m).
Proof.
  unfold td_scan_keys. rewrite merge_sort_Permutation.
  apply NoDup_filter, NoDup_fst_map_to_list.
Qed.

#[export] Hint Resolve td_scan_keys_sorted td_scan_keys_nodup : fold.
