(* ===== verification/Storage.v ===== *)
(** * Storage operations (storage/)

    Every operation of the storage layer, once, over the artifact-store
    interface: each reads artifacts, then makes its writes in one
    transaction.  [now] is [time.Now()]. *)

From S2P Require Import Prelude Errors Effects Bytes Types Records Keys Artifacts.

(** [storage.Storage], with the process-wide audit counter. *)
Record Storage (D : Type) := MkStorage {
  s_db : D;
  s_reservationTimeout : duration;
  s_processingAddresses : gset bytes;
  s_processingVoteIDs : gset bytes;
  s_auditSeq : N;
}.
Arguments MkStorage {D}.
Arguments s_db {D}.
Arguments s_reservationTimeout {D}.
Arguments s_processingAddresses {D}.
Arguments s_processingVoteIDs {D}.
Arguments s_auditSeq {D}.

Definition defaultReservationTimeout : duration := (5 * minute)%Z.

Section storage.
Context {D : Type} `{ADB D}.
Implicit Types (s : Storage D) (id : ElectionID).

Definition set_db (d : D) s : Storage D :=
  MkStorage d (s_reservationTimeout s) (s_processingAddresses s)
    (s_processingVoteIDs s) (s_auditSeq s).
Definition set_timeout (t : duration) s : Storage D :=
  MkStorage (s_db s) t (s_processingAddresses s) (s_processingVoteIDs s) (s_auditSeq s).
Definition set_addresses (l : gset bytes) s : Storage D :=
  MkStorage (s_db s) (s_reservationTimeout s) l (s_processingVoteIDs s) (s_auditSeq s).
Definition set_voteIDs (l : gset bytes) s : Storage D :=
  MkStorage (s_db s) (s_reservationTimeout s) (s_processingAddresses s) l (s_auditSeq s).
Definition set_auditSeq (n : N) s : Storage D :=
  MkStorage (s_db s) (s_reservationTimeout s) (s_processingAddresses s)
    (s_processingVoteIDs s) n.

(** ** Artifacts (artifact.go) *)

Definition getArtifact (k : Key) : stE (Storage D) Artifact := fun s =>
  (adb_get k (s_db s), s).

Definition commit (ws : list awrite) : stE (Storage D) unit := fun s =>
  let '(r, d) := adb_commit ws (s_db s) in (r, set_db d s).

Definition setArtifact (k : Key) (a : Artifact) : stE (Storage D) unit :=
  commit [WPut k a].

Definition deleteArtifact (k : Key) : stE (Storage D) unit := commit [WDel k].

Definition iterateArtifacts (p : Scan) : stE (Storage D) (list (bytes * option Artifact)) :=
  fun s => (adb_scan p (s_db s), s).

(** The decoded value of the wanted type, or a decoding error. *)
Definition as_election (a : Artifact) : result Election :=
  match a with AElection e => Ok e | _ => Err errorf end.
Definition as_blob (a : Artifact) : result bytes :=
  match a with ABlob b => Ok b | _ => Err errorf end.
Definition as_voteSeq (a : Artifact) : result N :=
  match a with AVoteSeq n => Ok n | _ => Err errorf end.
Definition as_vote (a : Artifact) : result Vote :=
  match a with AVote v => Ok v | _ => Err errorf end.
Definition as_voteStatus (a : Artifact) : result VoteStatus :=
  match a with AVoteStatus v => Ok v | _ => Err errorf end.
Definition as_batch (a : Artifact) : result BatchInput :=
  match a with ABatch b => Ok b | _ => Err errorf end.
Definition as_fold (a : Artifact) : result FoldCheckpoint :=
  match a with AFold c => Ok c | _ => Err errorf end.
Definition as_results (a : Artifact) : result Results :=
  match a with AResults r => Ok r | _ => Err errorf end.
Definition as_worker (a : Artifact) : result WorkerRegistration :=
  match a with AWorker w => Ok w | _ => Err errorf end.
Definition as_audit (a : Artifact) : result AuditRecord :=
  match a with AAudit r => Ok r | _ => Err errorf end.

Definition load {A} (k : Key) (as_ : Artifact -> result A) : stE (Storage D) A :=
  a ← getArtifact k; lift (as_ a).

(** The entries of an iteration that decode. *)
Definition decoded {A} (as_ : Artifact -> result A)
    (l : list (bytes * option Artifact)) : list A :=
  omap (fun p => a ← p.2; match as_ a with Ok x => Some x | Err _ => None end) l.

Definition list_all {A} (p : Scan) (as_ : Artifact -> result A) : stE (Storage D) (list A) :=
  l ← iterateArtifacts p; mret (decoded as_ l).

(** ** Elections (elections.go) *)

Definition Election_ id : stE (Storage D) Election := load (KElection id) as_election.

Definition CreateElection (now : time) (e : Election) (snapshot : bytes) :
    stE (Storage D) Election :=
  r ← attempt (Election_ (el_ID e));
  _ ← throw_if (is_ok r) [ErrKeyAlreadyExists];
  let e := el_set_created now e in
  _ ← commit [WPut (KElection (el_ID e)) (AElection e); WPut (KSnapshot (el_ID e)) (ABlob snapshot)];
  mret e.

Definition UpdateElection (now : time) id (updateFunc : Election -> result Election) :
    stE (Storage D) unit :=
  e ← Election_ id;
  e ← lift (updateFunc e);
  setArtifact (KElection id) (AElection (el_set_updated now e)).

Definition SetElectionStatus (now : time) id (status : Status) : stE (Storage D) unit :=
  UpdateElection now id (fun e => Ok (el_set_status status e)).

Definition ListElections : stE (Storage D) (list Election) :=
  list_all ScanElections as_election.

(** ** Votes (votes.go) *)

Definition voteSeq id : stE (Storage D) N :=
  r ← attempt (load (KVoteSeq id) as_voteSeq);
  match r with
  | Ok n => mret n
  | Err e => if errors_Is e ErrNotFound then mret 0%N else throw e
  end.

Definition AddVote (now : time) id (v : Vote) : stE (Storage D) Vote :=
  counter ← voteSeq id;
  let counter := u64_succ counter in
  let v := v_set_log counter now v in
  _ ← commit [WPut (KVoteSeq id) (AVoteSeq counter);
              WPut (KVote id (v_ID v)) (AVote v);
              WPut (KVoteStatus id (v_ID v)) (AVoteStatus VoteStatusPending)];
  mret v.

Definition Vote_ id (voteID : VoteID) : stE (Storage D) Vote := load (KVote id voteID) as_vote.

Definition VoteExists id (voteID : VoteID) : stE (Storage D) bool :=
  r ← attempt (Vote_ id voteID); mret (is_ok r).

Definition ListVotes id : stE (Storage D) (list Vote) := list_all (ScanVotes id) as_vote.

Definition VoteStatus_ id (voteID : VoteID) : stE (Storage D) VoteStatus :=
  load (KVoteStatus id voteID) as_voteStatus.

Definition setVoteStatusLocked id (voteID : VoteID) (st : VoteStatus) : stE (Storage D) unit :=
  setArtifact (KVoteStatus id voteID) (AVoteStatus st).

Definition SetVoteStatus id (voteID : VoteID) (st : VoteStatus) : stE (Storage D) unit :=
  cur ← attempt (VoteStatus_ id voteID);
  match cur with
  | Ok cur => if CanMoveTo cur st then setVoteStatusLocked id voteID st else mret tt
  | Err _ => setVoteStatusLocked id voteID st
  end.

Fixpoint votes_of id (ids : list VoteID) : stE (Storage D) (list Vote) :=
  match ids with
  | [] => mret []
  | voteID :: ids =>
      v ← rethrow (fun e => e) (Vote_ id voteID);
      vs ← votes_of id ids;
      mret (v :: vs)
  end.

Definition VotesWithStatus id (st : VoteStatus) : stE (Storage D) (list Vote) :=
  l ← iterateArtifacts (ScanVoteStatuses id);
  let ids := omap (fun p => match p.2 with
                            | Some (AVoteStatus s) => if decide (s = st) then Some p.1 else None
                            | _ => None
                            end) l in
  votes_of id ids.

(** The in-flight marks. *)
Definition addressKey id (address : N) : bytes := ElectionID_String id ++ lit ":" ++ fmt_d address.

Definition LockAddress id (address : N) : stE (Storage D) bool := fun s =>
  let k := addressKey id address in
  if decide (k ∈ s_processingAddresses s) then (Ok false, s)
  else (Ok true, set_addresses ({[k]} ∪ s_processingAddresses s) s).

Definition ReleaseAddress id (address : N) : stE (Storage D) unit :=
  modify (fun s => set_addresses (s_processingAddresses s ∖ {[addressKey id address]}) s).

Definition LockVoteID (voteID : VoteID) : stE (Storage D) bool := fun s =>
  if decide (voteID ∈ s_processingVoteIDs s) then (Ok false, s)
  else (Ok true, set_voteIDs ({[voteID]} ∪ s_processingVoteIDs s) s).

Definition IsVoteIDProcessing (voteID : VoteID) : stE (Storage D) bool :=
  gets (fun s => bool_decide (voteID ∈ s_processingVoteIDs s)).

Definition ReleaseVoteID (voteID : VoteID) : stE (Storage D) unit :=
  modify (fun s => set_voteIDs (s_processingVoteIDs s ∖ {[voteID]}) s).

(** ** Batches (batches.go) *)

Definition stamp_sealed (now : time) (b : BatchInput) : BatchInput :=
  if IsZero (bi_SealedAt b) then bi_set_sealed now b else b.

Definition SetBatchInput (now : time) (b : BatchInput) : stE (Storage D) unit :=
  setArtifact (KBatch (bi_ElectionID b) (bi_Seq b)) (ABatch (stamp_sealed now b)).

(** The status writes of a sealed batch: the votes that may move on. *)
Fixpoint batched_writes id (ids : list VoteID) : stE (Storage D) (list awrite) :=
  match ids with
  | [] => mret []
  | voteID :: ids =>
      cur ← attempt (VoteStatus_ id voteID);
      ws ← batched_writes id ids;
      mret (match cur with
            | Ok cur =>
                if CanMoveTo cur VoteStatusBatched
                then WPut (KVoteStatus id voteID) (AVoteStatus VoteStatusBatched) :: ws
                else ws
            | Err _ => WPut (KVoteStatus id voteID) (AVoteStatus VoteStatusBatched) :: ws
            end)
  end.

Definition SealBatch (now : time) (b : BatchInput) (snapshot : bytes) : stE (Storage D) unit :=
  let b := stamp_sealed now b in
  statuses ← batched_writes (bi_ElectionID b) (bi_VoteIDs b);
  commit (WPut (KBatch (bi_ElectionID b) (bi_Seq b)) (ABatch b)
          :: WPut (KSnapshot (bi_ElectionID b)) (ABlob snapshot) :: statuses).

Definition BatchInput_ id (seq : N) : stE (Storage D) BatchInput := load (KBatch id seq) as_batch.

Definition ListBatchInputs id : stE (Storage D) (list BatchInput) :=
  list_all (ScanBatches id) as_batch.

Definition SetFoldCheckpoint (now : time) (c : FoldCheckpoint) : stE (Storage D) unit :=
  setArtifact (KFold (cp_ElectionID c)) (AFold (cp_set_updated now c)).

Definition FoldCheckpoint_ id : stE (Storage D) FoldCheckpoint := load (KFold id) as_fold.

Definition Snapshot id : stE (Storage D) bytes := load (KSnapshot id) as_blob.

(** ** Reservations (reservation.go) *)

Definition setReservation (now : time) (k : Key) : stE (Storage D) unit :=
  r ← attempt (getArtifact k);
  match r with
  | Ok _ => throw [ErrKeyAlreadyExists]
  | Err e =>
      if errors_Is e ErrNotFound then setArtifact k (AReservation (Unix now))
      else throw [ErrKeyAlreadyExists]
  end.

Definition isReserved (k : Key) : stE (Storage D) bool :=
  r ← attempt (getArtifact k);
  mret (match r with Ok _ => true | Err e => negb (errors_Is e ErrNotFound) end).

Definition deleteReservation (k : Key) : stE (Storage D) unit := commit [WDel k].

Definition ReserveBatch (now : time) id (seq : N) : stE (Storage D) unit :=
  setReservation now (KReservation id seq).
Definition ReleaseBatch id (seq : N) : stE (Storage D) unit :=
  deleteReservation (KReservation id seq).
Definition IsBatchReserved id (seq : N) : stE (Storage D) bool :=
  isReserved (KReservation id seq).

Definition cleanAllReservations : stE (Storage D) unit :=
  l ← iterateArtifacts ScanReservations;
  commit ((fun p => WDelUnder ScanReservations p.1) <$> l).

(** [storage.recover] *)
Definition recover : stE (Storage D) unit := rethrow (fun e => e) cleanAllReservations.

(** Whole seconds of a duration. *)
Definition Seconds (d : duration) : Z := Z.quot d second.

Definition is_stale (now : Z) (maxAge : duration) (a : option Artifact) : bool :=
  match a with
  | Some (AReservation ts) => (Seconds maxAge <? now - ts)%Z
  | _ => true
  end.

Definition releaseStaleInPrefix (now : Z) (maxAge : duration) : stE (Storage D) unit :=
  l ← iterateArtifacts ScanReservations;
  let stale := filter (fun p => is_stale now maxAge p.2 = true) l in
  match stale with
  | [] => mret tt
  | _ => commit ((fun p => WDelUnder ScanReservations p.1) <$> stale)
  end.

Definition releaseStaleReservations (now : time) (maxAge : duration) : stE (Storage D) unit :=
  releaseStaleInPrefix (Unix now) maxAge.

Definition SetReservationTimeout (d : duration) : stE (Storage D) unit :=
  modify (set_timeout d).

(** One run of the stale-reservation monitor. *)
Definition monitorStaleReservations (now : time) : stE (Storage D) unit :=
  d ← gets s_reservationTimeout;
  ignore (releaseStaleReservations now d).

(** ** Proofs (proofs.go) *)

Definition SetBatchProof id (seq : N) (proof : bytes) : stE (Storage D) unit :=
  setArtifact (KBatchProof id seq) (ABlob proof).
Definition DeleteBatchProof id (seq : N) : stE (Storage D) unit :=
  deleteArtifact (KBatchProof id seq).
Definition BatchProof id (seq : N) : stE (Storage D) bytes := load (KBatchProof id seq) as_blob.

Definition ResetBatch (b : BatchInput) : stE (Storage D) unit :=
  commit [WPut (KBatch (bi_ElectionID b) (bi_Seq b)) (ABatch b);
          WDel (KBatchProof (bi_ElectionID b) (bi_Seq b))].

Definition FoldProof id : stE (Storage D) bytes := load (KFoldProof id) as_blob.

Definition CommitFold (now : time) (c : FoldCheckpoint) (proof : bytes) (folded : list N) :
    stE (Storage D) unit :=
  _ ← throw_if (bool_decide (proof = [])) errorf;
  let c := cp_set_updated now c in
  commit (WPut (KFold (cp_ElectionID c)) (AFold c)
          :: WPut (KFoldProof (cp_ElectionID c)) (ABlob proof)
          :: ((fun seq => WDel (KBatchProof (cp_ElectionID c) seq)) <$> folded)).

Definition DeleteProofs id : stE (Storage D) unit :=
  l ← iterateArtifacts (ScanProofs id);
  commit ((fun p => WDelUnder (ScanProofs id) p.1) <$> l).

(** ** Results, workers, audit (results.go, workers.go, audit.go) *)

Definition SetResults (now : time) (r : Results) : stE (Storage D) unit :=
  let r := if IsZero (rs_FinalizedAt r) then rs_set_finalized now r else r in
  setArtifact (KResults (rs_ElectionID r)) (AResults r).

Definition Results_ id : stE (Storage D) Results := load (KResults id) as_results.

Definition SetWorker (now : time) (w : WorkerRegistration) : stE (Storage D) unit :=
  let w := if IsZero (wr_RegisteredAt w) then wr_set_registered now w else w in
  setArtifact (KWorker (wr_Address w)) (AWorker w).

Definition DeleteWorker (address : string) : stE (Storage D) unit :=
  deleteArtifact (KWorker address).

Definition ListWorkers : stE (Storage D) (list WorkerRegistration) :=
  list_all ScanWorkers as_worker.

Definition AppendAudit (now : time) (r : AuditRecord) : stE (Storage D) unit :=
  let r := if IsZero (au_Timestamp r) then au_set_timestamp now r else r in
  _ ← modify (fun s => set_auditSeq (u64_succ (s_auditSeq s)) s);
  seq ← gets s_auditSeq;
  setArtifact (KAudit (UnixNano (au_Timestamp r)) seq) (AAudit r).

Definition ListAudit : stE (Storage D) (list AuditRecord) := list_all ScanAudit as_audit.

(** [storage.New]: clear the reservations a previous run left; a failure is
    logged. *)
Definition New (d : D) : Storage D :=
  (ignore recover (MkStorage d defaultReservationTimeout ∅ ∅ 0%N)).2.
End storage.
