(* ===== verification/ByteStore.v ===== *)
(** * The byte-level store (storage/encode.go, storage/artifact.go)

    Artifacts encoded at their byte keys in a key-value database, and the
    proof that this store behaves as the typed one: reads, transactions and
    scans agree, whatever the database and the encoding, as long as both do
    what they document. *)

From S2P Require Import Prelude Errors Effects Bytes Types Records Keys KV Artifacts Storage.

(** ** The encoding *)

(** [EncodeArtifact] and [DecodeArtifact]: the CBOR library is not part of the
    repository. *)
Class Codec := {
  EncodeArtifact : Artifact -> option bytes;
  DecodeArtifact : Kind -> bytes -> option Artifact;
}.

(** Encoding the records succeeds, and decoding into the same type gives them
    back, with timestamps in whole seconds. *)
Class CodecLaws `{Codec} :=
  decode_encode a : exists b,
    EncodeArtifact a = Some b /\ DecodeArtifact (artifact_kind a) b = Some (kept a).

(** ** The store *)

Record ByteDB (DB : Type) := MkByteDB { byte_db : DB }.
Arguments MkByteDB {DB}.
Arguments byte_db {DB}.

Section byte_store.
Context {DB : Type} `{KV DB} `{Codec}.

Definition encode_write (w : awrite) : option kvop :=
  match w with
  | WPut k a => b ← EncodeArtifact a; Some (KPut (key_bytes k) b)
  | WDel k => Some (KDel (key_bytes k))
  | WDelUnder s x => Some (KDel (scan_prefix s ++ x))
  end.

#[export] Instance ByteADB : ADB (ByteDB DB) := {|
  adb_get k d :=
    match kv_get (byte_db d) (key_bytes k) with
    | None => Err [ErrNotFound]
    | Some b => of_option (DecodeArtifact (key_kind k) b) errorf
    end;
  adb_commit ws d :=
    match mapM encode_write ws with
    | None => (Err errorf, d)
    | Some ops =>
        let '(ok, db) := kv_commit ops (byte_db d) in
        (if ok then Ok tt else Err errorf, MkByteDB db)
    end;
  adb_scan s d :=
    match kv_iter (byte_db d) (scan_prefix s) with
    | None => Err errorf
    | Some l => Ok ((fun p => (p.1, DecodeArtifact (scan_kind s) p.2)) <$> l)
    end;
|}.
End byte_store.

(** ** Representation *)

Section refinement.
Context {DB : Type} `{KVLaws DB} `{CodecLaws}.
Implicit Types (m : gmap Key Artifact) (c : contents).

(** The contents hold exactly the artifacts of [m], encoded. *)
Record represents c m : Prop := {
  rep_kinds : well_kinded m;
  rep_some k a : m !! k = Some a ->
    exists b, c (key_bytes k) = Some b /\ DecodeArtifact (key_kind k) b = Some a;
  rep_only x b : c x = Some b -> exists k, x = key_bytes k /\ is_Some (m !! k);
}.

Lemma rep_valid c m k : represents c m -> is_Some (m !! k) -> valid_key k.
Proof. intros Hr [a Ha]. by destruct (rep_kinds c m Hr k a Ha). Qed.

Lemma rep_none c m k : represents c m -> valid_key k -> m !! k = None -> c (key_bytes k) = None.
Proof.
  intros Hr Hv Hk. destruct (c (key_bytes k)) as [b|] eqn:E; [|done].
  destruct (rep_only c m Hr _ _ E) as (k' & Ek & Hk').
  apply key_bytes_injective in Ek; [|done|by eapply rep_valid].
  subst. rewrite Hk in Hk'. by destruct Hk'.
Qed.

Lemma rep_put c m k a b :
  represents c m -> write_ok (WPut k a) -> EncodeArtifact a = Some b ->
  DecodeArtifact (artifact_kind a) b = Some (kept a) ->
  represents (kv_write (KPut (key_bytes k) b) c) (td_write (WPut k a) m).
Proof.
  intros Hr Hw He Hd. assert (Hw' := Hw). destruct Hw' as [Hk Hv]. split.
  - apply td_write_well_kinded; [done|]. apply Hr.
  - intros k' a' Ha'. simpl in *. apply lookup_insert_Some in Ha' as [[-> <-]|[Hne Ha']].
    + exists b. by rewrite decide_True, <- Hk by done.
    + rewrite decide_False; [by apply Hr|].
      intros E. apply Hne, key_bytes_injective; [done| |done].
      eapply rep_valid; [done|by eexists].
  - intros x b' Hx. simpl in *. case_decide as E.
    + exists k. by rewrite lookup_insert_eq.
    + destruct (rep_only c m Hr x b' Hx) as (k' & -> & Hk').
      exists k'. split; [done|]. rewrite lookup_insert_ne; [done|]. by intros ->.
Qed.

(** Removing a byte key. *)
Lemma rep_del c m m' x :
  represents c m ->
  (forall k a, m' !! k = Some a <-> m !! k = Some a /\ key_bytes k <> x) ->
  represents (kv_write (KDel x) c) m'.
Proof.
  intros Hr Hm'. split.
  - intros k a [Hk _]%Hm'. by apply Hr.
  - intros k a [Hk Hne]%Hm'. simpl. rewrite decide_False by done. by apply Hr.
  - intros y b Hy. simpl in *. case_decide as E; [done|].
    destruct (rep_only c m Hr y b Hy) as (k & -> & [a Ha]).
    exists k. split; [done|]. exists a. apply Hm'. done.
Qed.

Lemma rep_write c m w :
  represents c m -> write_ok w ->
  exists op, encode_write w = Some op /\ represents (kv_write op c) (td_write w m).
Proof.
  intros Hr Hw. destruct w as [k a|k|s x]; simpl encode_write.
  - destruct (decode_encode a) as (b & He & Hd). rewrite He.
    eexists. split; [done|]. by apply rep_put.
  - eexists. split; [done|]. apply (rep_del c m); [done|]. intros k' a. simpl.
    rewrite lookup_delete_Some. split; intros [Hk' Hne]; split; try done.
    + intros E. apply key_bytes_injective in E; [done|by eapply rep_valid|done].
    + by intros ->.
  - eexists. split; [done|]. apply (rep_del c m); [done|]. intros k a. simpl.
    rewrite map_lookup_filter_Some. simpl.
    split; intros [Hk' Hne]; split; try done; intros E; apply Hne.
    + split; [by eapply scan_prefix_local|].
      unfold scan_suffix. by rewrite E, drop_app_length.
    + destruct E as [Hs <-]. by apply in_scan_prefix.
Qed.

Lemma rep_writes c m ws :
  represents c m -> Forall write_ok ws ->
  exists ops, mapM encode_write ws = Some ops /\
    represents (kv_writes ops c) (td_writes ws m).
Proof.
  intros Hr Hws. revert c m Hr.
  induction Hws as [|w ws Hw _ IH]; intros c m Hr; [by exists []|].
  destruct (rep_write c m w Hr Hw) as (op & Eop & Hr').
  destruct (IH _ _ Hr') as (ops & Eops & Hr'').
  exists (op :: ops). split; [|done]. simpl. by rewrite Eop, Eops.
Qed.

Lemma represents_ext c c' m :
  (forall k, c k = c' k) -> represents c m -> represents c' m.
Proof.
  intros Hc Hr. split; [apply Hr| |].
  - intros k a Ha. rewrite <- Hc. by apply Hr.
  - intros x b. rewrite <- Hc. apply Hr.
Qed.

(** ** The two stores side by side *)

Record Rep (d : ByteDB DB) (t : TypedDB) : Prop := {
  Rep_contents : represents (kv_get (byte_db d)) (td_map t);
  Rep_faults : kv_faults (byte_db d) = td_faults t;
  Rep_readable : kv_readable (byte_db d) = td_readable t;
}.

Lemma Rep_get d t k : Rep d t -> valid_key k -> adb_get k d = adb_get k t.
Proof.
  intros [Hr _ _] Hv. simpl. destruct (td_map t !! k) as [a|] eqn:Ek.
  - destruct (rep_some _ _ Hr k a Ek) as (b & -> & Hd). by rewrite Hd.
  - by rewrite (rep_none _ _ k Hr Hv Ek).
Qed.

Lemma Rep_commit d t ws :
  Rep d t -> Forall write_ok ws ->
  (adb_commit ws d).1 = (adb_commit ws t).1 /\ Rep (adb_commit ws d).2 (adb_commit ws t).2.
Proof.
  intros [Hr Hf Ho] Hws. destruct (rep_writes _ _ _ Hr Hws) as (ops & Eops & Hr').
  simpl. rewrite Eops.
  pose proof (kv_commit_outcome (byte_db d) ops) as Hout.
  pose proof (kv_commit_ok (byte_db d) ops) as Hok.
  pose proof (kv_commit_failed (byte_db d) ops) as Hfail.
  pose proof (kv_commit_faults (byte_db d) ops) as Hf'.
  pose proof (kv_commit_readable (byte_db d) ops) as Ho'.
  destruct (kv_commit ops (byte_db d)) as [ok db]. simpl in *.
  rewrite Hf in *. subst ok.
  destruct (next_fault (td_faults t)) eqn:En; simpl.
  - split; [done|]. split; simpl; [|done|congruence].
    eapply represents_ext; [|exact Hr]. intros k. by rewrite Hfail.
  - split; [done|]. split; simpl; [|done|congruence].
    eapply represents_ext; [|exact Hr']. intros k. by rewrite Hok.
Qed.

(** The keys of an iteration are the suffixes of the typed keys. *)
Lemma Rep_scan_keys d t s l :
  Rep d t -> NoDup l.*1 -> Sorted lex_le l.*1 ->
  (forall k v, (k, v) ∈ l <-> kv_get (byte_db d) (scan_prefix s ++ k) = Some v) ->
  l.*1 = scan_suffix s <$> td_scan_keys s (td_map t).
Proof.
  intros [Hr _ _] Hnd Hsort Hl.
  assert (forall k, k ∈ td_scan_keys s (td_map t) ->
            in_scan s k /\ valid_key k /\ is_Some (td_map t !! k)) as Hkeys.
  { intros k [Hs Hk]%elem_of_td_scan_keys. split_and!; [done| |done].
    by eapply rep_valid. }
  apply (Sorted_unique lex_le); [done| |].
  { apply (Sorted_fmap (scan_suffix s) (scan_le s)); [done|]. apply td_scan_keys_sorted. }
  apply NoDup_Permutation; [done| |].
  { apply NoDup_fmap_2_strong; [|apply td_scan_keys_nodup].
    intros k1 k2 (Hs1 & V1 & _)%Hkeys (Hs2 & V2 & _)%Hkeys E.
    apply key_bytes_injective; [done..|].
    by rewrite (in_scan_prefix s k1 Hs1), (in_scan_prefix s k2 Hs2), E. }
  intros x. rewrite !list_elem_of_fmap. split.
  - intros ([x' b] & -> & Hin). apply Hl in Hin. simpl.
    destruct (rep_only _ _ Hr _ _ Hin) as (k & Ek & Hk).
    exists k. symmetry in Ek. split.
    + unfold scan_suffix. by rewrite Ek, drop_app_length.
    + apply elem_of_td_scan_keys. split; [|done]. by eapply scan_prefix_local.
  - intros (k & -> & Hk). destruct (Hkeys k Hk) as (Hs & _ & [a Ha]).
    destruct (rep_some _ _ Hr k a Ha) as (b & Hb & _).
    exists (scan_suffix s k, b). split; [done|]. apply Hl.
    by rewrite <- in_scan_prefix.
Qed.

Lemma Rep_scan d t s : Rep d t -> adb_scan s d = adb_scan s t.
Proof.
  intros HR. assert (HR' := HR). destruct HR' as [Hr Hf Ho]. simpl. rewrite <- Ho.
  destruct (kv_readable (byte_db d)) eqn:Er; [|by rewrite kv_iter_unreadable].
  destruct (kv_iter_readable (byte_db d) (scan_prefix s) Er) as (l & -> & Hnd & Hsort & Hl).
  f_equal. pose proof (Rep_scan_keys d t s l HR Hnd Hsort Hl) as Ekeys.
  unfold td_scan. apply list_eq. intros i.
  rewrite !list_lookup_fmap.
  apply (f_equal (fun ks => ks !! i)) in Ekeys. rewrite !list_lookup_fmap in Ekeys.
  destruct (l !! i) as [[x b]|] eqn:El, (td_scan_keys s (td_map t) !! i) as [k|] eqn:Ek;
    simpl in *; [|done..].
  injection Ekeys as ->. do 2 f_equal.
  apply list_elem_of_lookup_2 in El, Ek.
  apply elem_of_td_scan_keys in Ek as [Hs [a Ha]].
  apply Hl in El. rewrite <- in_scan_prefix in El by done.
  destruct (rep_some _ _ Hr k a Ha) as (b' & Hb' & Hd).
  rewrite Hb' in El. injection El as <-.
  by rewrite Ha, <- Hd, (in_scan_kind s k Hs).
Qed.
End refinement.
