(* ===== verification/StorageRefine.v ===== *)
(** * The byte-level storage refines the typed storage

    Every storage operation run over the byte-level store and over the typed
    store returns the same result and leaves the stores related, write
    failures included. *)

From S2P Require Import Prelude Errors Effects Bytes Types Records Keys KV Artifacts Storage.
From S2P Require Import ByteStore.

Section refinement.
Context {DB : Type} `{KVLaws DB} `{CodecLaws}.
Abbreviation CStorage := (Storage (ByteDB DB)).
Abbreviation TStorage := (Storage TypedDB).

(** The two storages hold the same artifacts and the same process state. *)
Record RepS (c : CStorage) (t : TStorage) : Prop := {
  RepS_db : Rep (s_db c) (s_db t);
  RepS_timeout : s_reservationTimeout c = s_reservationTimeout t;
  RepS_addresses : s_processingAddresses c = s_processingAddresses t;
  RepS_voteIDs : s_processingVoteIDs c = s_processingVoteIDs t;
  RepS_auditSeq : s_auditSeq c = s_auditSeq t;
}.

Definition refines {A} (mc : stE CStorage A) (mt : stE TStorage A) : Prop :=
  forall c t, RepS c t -> (mc c).1 = (mt t).1 /\ RepS (mc c).2 (mt t).2.

(** ** The structural rules *)

Lemma refines_ret {A} (a : A) : refines (mret a) (mret a).
Proof. by intros c t. Qed.

Lemma refines_throw {A} e : refines (throw (A := A) e) (throw e).
Proof. by intros c t. Qed.

Lemma refines_throw_if b e : refines (throw_if b e) (throw_if b e).
Proof. destruct b; by intros c t. Qed.

Lemma refines_lift {A} (r : result A) : refines (lift r) (lift r).
Proof. by intros c t. Qed.

Lemma refines_bind {A B} (mc : stE CStorage A) mt (fc : A -> stE CStorage B) ft :
  refines mc mt -> (forall a, refines (fc a) (ft a)) -> refines (mc ≫= fc) (mt ≫= ft).
Proof.
  intros Hm Hf c t HR. destruct (Hm c t HR) as [E HR']. unfold mbind, stE_bind.
  destruct (mc c) as [rc c'], (mt t) as [rt t']. simpl in *. subst rt.
  destruct rc as [a|e]; [by apply Hf|done].
Qed.

(** The continuation may use what the typed computation returned. *)
Lemma refines_bind_with {A B} (Q : A -> Prop) (mc : stE CStorage A) mt
    (fc : A -> stE CStorage B) ft :
  refines mc mt -> (forall t a t', mt t = (Ok a, t') -> Q a) ->
  (forall a, Q a -> refines (fc a) (ft a)) -> refines (mc ≫= fc) (mt ≫= ft).
Proof.
  intros Hm HQ Hf c t HR. destruct (Hm c t HR) as [E HR']. unfold mbind, stE_bind.
  specialize (HQ t). destruct (mc c) as [rc c'], (mt t) as [rt t']. simpl in *. subst rt.
  destruct rc as [a|e]; [|done]. by apply Hf; [eapply HQ|].
Qed.

Lemma refines_attempt {A} (mc : stE CStorage A) mt :
  refines mc mt -> refines (attempt mc) (attempt mt).
Proof.
  intros Hm c t HR. destruct (Hm c t HR) as [E HR']. unfold attempt.
  destruct (mc c), (mt t). simpl in *. by subst.
Qed.

Lemma refines_ignore {A} (mc : stE CStorage A) mt :
  refines mc mt -> refines (ignore mc) (ignore mt).
Proof. intros Hm c t HR. by destruct (Hm c t HR) as [_ HR']. Qed.

Lemma refines_rethrow {A} f (mc : stE CStorage A) mt :
  refines mc mt -> refines (rethrow f mc) (rethrow f mt).
Proof.
  intros Hm c t HR. destruct (Hm c t HR) as [E HR']. unfold rethrow.
  destruct (mc c) as [[] ?], (mt t) as [[] ?]; simpl in *; naive_solver.
Qed.

(** ** Process state *)

Lemma refines_LockAddress id a : refines (LockAddress id a) (LockAddress id a).
Proof.
  intros c t HR. unfold LockAddress. rewrite (RepS_addresses c t HR).
  case_decide; [done|]. split; [done|]. destruct HR. by split.
Qed.

Lemma refines_ReleaseAddress id a : refines (ReleaseAddress id a) (ReleaseAddress id a).
Proof. intros c t [? ? Ha Hv Hs]. split; [done|]. by split; simpl; rewrite ?Ha, ?Hv, ?Hs. Qed.

Lemma refines_LockVoteID v : refines (LockVoteID v) (LockVoteID v).
Proof.
  intros c t HR. unfold LockVoteID. rewrite (RepS_voteIDs c t HR).
  case_decide; [done|]. split; [done|]. destruct HR. by split.
Qed.

Lemma refines_ReleaseVoteID v : refines (ReleaseVoteID v) (ReleaseVoteID v).
Proof. intros c t [? ? Ha Hv Hs]. split; [done|]. by split; simpl; rewrite ?Ha, ?Hv, ?Hs. Qed.

Lemma refines_IsVoteIDProcessing v : refines (IsVoteIDProcessing v) (IsVoteIDProcessing v).
Proof. intros c t HR. split; [simpl|done]. destruct HR as [? Ht ? Hv Ha]. by rewrite ?Ht, ?Hv, ?Ha. Qed.

Lemma refines_SetReservationTimeout d :
  refines (SetReservationTimeout d) (SetReservationTimeout d).
Proof. intros c t []. split; [done|]. by split. Qed.

Lemma refines_timeout : refines (gets s_reservationTimeout) (gets s_reservationTimeout).
Proof. intros c t HR. split; [simpl|done]. destruct HR as [? Ht ? Hv Ha]. by rewrite ?Ht, ?Hv, ?Ha. Qed.

Lemma refines_auditSeq : refines (gets s_auditSeq) (gets s_auditSeq).
Proof. intros c t HR. split; [simpl|done]. destruct HR as [? Ht ? Hv Ha]. by rewrite ?Ht, ?Hv, ?Ha. Qed.

Lemma refines_bump_audit :
  refines (modify (fun s => set_auditSeq (u64_succ (s_auditSeq s)) s))
          (modify (fun s => set_auditSeq (u64_succ (s_auditSeq s)) s)).
Proof. intros c t [? ? Ha Hv Hs]. split; [done|]. by split; simpl; rewrite ?Ha, ?Hv, ?Hs. Qed.

(** ** The primitive operations *)

Lemma refines_getArtifact k : valid_key k -> refines (getArtifact k) (getArtifact k).
Proof.
  intros Hv c t HR. unfold getArtifact. simpl fst. simpl snd. split; [|done].
  apply (Rep_get _ _ k (RepS_db c t HR) Hv).
Qed.

Lemma refines_commit ws : Forall write_ok ws -> refines (commit ws) (commit ws).
Proof.
  intros Hws c t HR. unfold commit.
  destruct (Rep_commit _ _ ws (RepS_db c t HR) Hws) as [E HR'].
  destruct (adb_commit ws (s_db c)), (adb_commit ws (s_db t)).
  split; [done|]. destruct HR. by split.
Qed.

Lemma refines_iterate p : refines (iterateArtifacts p) (iterateArtifacts p).
Proof.
  intros c t HR. unfold iterateArtifacts. simpl fst. simpl snd. split; [|done].
  apply (Rep_scan _ _ p (RepS_db c t HR)).
Qed.

Lemma refines_load {A} k (as_ : Artifact -> result A) :
  valid_key k -> refines (load k as_) (load k as_).
Proof.
  intros Hv. apply refines_bind; [by apply refines_getArtifact|].
  intros a. apply refines_lift.
Qed.

Lemma refines_list_all {A} p (as_ : Artifact -> result A) :
  refines (list_all p as_) (list_all p as_).
Proof. apply refines_bind; [apply refines_iterate|]. intros l. apply refines_ret. Qed.

Lemma write_ok_delUnder (s : Scan) (l : list (bytes * option Artifact)) :
  Forall write_ok ((fun p => WDelUnder s p.1) <$> l).
Proof. apply Forall_fmap, Forall_true. by intros. Qed.
End refinement.

#[export] Hint Resolve refines_ret refines_throw refines_throw_if refines_lift
  refines_bind refines_attempt refines_ignore refines_rethrow refines_getArtifact
  refines_commit refines_iterate refines_load refines_list_all write_ok_delUnder : refine.

(** One structural rule, or a primitive. *)
Ltac refine_step :=
  first
    [ apply refines_ret | apply refines_throw | apply refines_throw_if
    | apply refines_lift | apply refines_iterate | apply refines_list_all
    | apply refines_load; done | apply refines_getArtifact; done
    | apply refines_commit; first [by apply write_ok_delUnder | by repeat constructor]
    | apply refines_LockAddress | apply refines_ReleaseAddress | apply refines_LockVoteID
    | apply refines_ReleaseVoteID | apply refines_IsVoteIDProcessing
    | apply refines_SetReservationTimeout | apply refines_timeout | apply refines_auditSeq
    | apply refines_bump_audit
    | apply refines_bind; [|intros ?]
    | apply refines_attempt | apply refines_ignore | apply refines_rethrow
    | progress case_match ].
Ltac refine_steps := repeat refine_step.

Section operations.
Context {DB : Type} `{KVLaws DB} `{CodecLaws}.
Abbreviation CStorage := (Storage (ByteDB DB)).
Abbreviation TStorage := (Storage TypedDB).

Implicit Types (id : ElectionID) (voteID : VoteID) (seq : N) (now : time).
Implicit Types (address : string) (d : duration).

(** ** The calls of the storage layer's clients *)

Inductive call : Type -> Type :=
  | CElection id : call Election
  | CCreateElection (now : time) (e : Election) (snapshot : bytes) : call Election
  | CUpdateElection (now : time) id (f : Election -> result Election) : call unit
  | CSetElectionStatus (now : time) id (st : Status) : call unit
  | CListElections : call (list Election)
  | CAddVote (now : time) id (v : Vote) : call Vote
  | CVote id voteID : call Vote
  | CVoteExists id voteID : call bool
  | CListVotes id : call (list Vote)
  | CVotesWithStatus id (st : VoteStatus) : call (list Vote)
  | CVoteStatus id voteID : call VoteStatus
  | CSetVoteStatus id voteID (st : VoteStatus) : call unit
  | CLockAddress id (address : N) : call bool
  | CReleaseAddress id (address : N) : call unit
  | CLockVoteID voteID : call bool
  | CIsVoteIDProcessing voteID : call bool
  | CReleaseVoteID voteID : call unit
  | CSetBatchInput (now : time) (b : BatchInput) : call unit
  | CSealBatch (now : time) (b : BatchInput) (snapshot : bytes) : call unit
  | CBatchInput id seq : call BatchInput
  | CListBatchInputs id : call (list BatchInput)
  | CReserveBatch (now : time) id seq : call unit
  | CReleaseBatch id seq : call unit
  | CIsBatchReserved id seq : call bool
  | CReleaseStale (now : time) : call unit
  | CSetReservationTimeout (d : duration) : call unit
  | CSetFoldCheckpoint (now : time) (c : FoldCheckpoint) : call unit
  | CFoldCheckpoint id : call FoldCheckpoint
  | CSnapshot id : call bytes
  | CSetBatchProof id seq (proof : bytes) : call unit
  | CDeleteBatchProof id seq : call unit
  | CBatchProof id seq : call bytes
  | CResetBatch (b : BatchInput) : call unit
  | CFoldProof id : call bytes
  | CCommitFold (now : time) (c : FoldCheckpoint) (proof : bytes) (folded : list N) : call unit
  | CDeleteProofs id : call unit
  | CSetResults (now : time) (r : Results) : call unit
  | CResults id : call Results
  | CSetWorker (now : time) (w : WorkerRegistration) : call unit
  | CDeleteWorker address : call unit
  | CListWorkers : call (list WorkerRegistration)
  | CAppendAudit (now : time) (r : AuditRecord) : call unit
  | CListAudit : call (list AuditRecord).

Definition run_call {D} `{ADB D} {A} (c : call A) : stE (Storage D) A :=
  match c with
  | CElection id => Election_ id
  | CCreateElection now e snapshot => CreateElection now e snapshot
  | CUpdateElection now id f => UpdateElection now id f
  | CSetElectionStatus now id st => SetElectionStatus now id st
  | CListElections => ListElections
  | CAddVote now id v => AddVote now id v
  | CVote id voteID => Vote_ id voteID
  | CVoteExists id voteID => VoteExists id voteID
  | CListVotes id => ListVotes id
  | CVotesWithStatus id st => VotesWithStatus id st
  | CVoteStatus id voteID => VoteStatus_ id voteID
  | CSetVoteStatus id voteID st => SetVoteStatus id voteID st
  | CLockAddress id address => LockAddress id address
  | CReleaseAddress id address => ReleaseAddress id address
  | CLockVoteID voteID => LockVoteID voteID
  | CIsVoteIDProcessing voteID => IsVoteIDProcessing voteID
  | CReleaseVoteID voteID => ReleaseVoteID voteID
  | CSetBatchInput now b => SetBatchInput now b
  | CSealBatch now b snapshot => SealBatch now b snapshot
  | CBatchInput id seq => BatchInput_ id seq
  | CListBatchInputs id => ListBatchInputs id
  | CReserveBatch now id seq => ReserveBatch now id seq
  | CReleaseBatch id seq => ReleaseBatch id seq
  | CIsBatchReserved id seq => IsBatchReserved id seq
  | CReleaseStale now => monitorStaleReservations now
  | CSetReservationTimeout d => SetReservationTimeout d
  | CSetFoldCheckpoint now c => SetFoldCheckpoint now c
  | CFoldCheckpoint id => FoldCheckpoint_ id
  | CSnapshot id => Snapshot id
  | CSetBatchProof id seq proof => SetBatchProof id seq proof
  | CDeleteBatchProof id seq => DeleteBatchProof id seq
  | CBatchProof id seq => BatchProof id seq
  | CResetBatch b => ResetBatch b
  | CFoldProof id => FoldProof id
  | CCommitFold now c proof folded => CommitFold now c proof folded
  | CDeleteProofs id => DeleteProofs id
  | CSetResults now r => SetResults now r
  | CResults id => Results_ id
  | CSetWorker now w => SetWorker now w
  | CDeleteWorker address => DeleteWorker address
  | CListWorkers => ListWorkers
  | CAppendAudit now r => AppendAudit now r
  | CListAudit => ListAudit
  end.

(** Sequence numbers are [uint64]s and audit timestamps are of this era. *)
Definition call_ok {A} (c : call A) : Prop :=
  match c with
  | CSetBatchInput _ b | CSealBatch _ b _ | CResetBatch b => (bi_Seq b < two64)%N
  | CBatchInput _ seq | CReserveBatch _ _ seq | CReleaseBatch _ seq
  | CIsBatchReserved _ seq | CSetBatchProof _ seq _ | CDeleteBatchProof _ seq
  | CBatchProof _ seq => (seq < two64)%N
  | CCommitFold _ _ _ folded => Forall (fun seq => seq < two64)%N folded
  | CAppendAudit now r =>
      (0 <= UnixNano now < 10 ^ 20)%Z /\
      (IsZero (au_Timestamp r) = false -> 0 <= UnixNano (au_Timestamp r) < 10 ^ 20)%Z
  | _ => True
  end.

Lemma refines_votes_of id ids :
  refines (DB := DB) (votes_of id ids) (votes_of id ids).
Proof. induction ids as [|v ids IH]; simpl; refine_steps; apply IH. Qed.

Lemma refines_batched_writes id ids :
  refines (DB := DB) (batched_writes id ids) (batched_writes id ids).
Proof. induction ids as [|v ids IH]; simpl; refine_steps; apply IH. Qed.

Lemma batched_writes_ok {D} `{ADB D} id ids (s s' : Storage D) ws :
  batched_writes id ids s = (Ok ws, s') -> Forall write_ok ws.
Proof.
  revert s s' ws. induction ids as [|v ids IH]; intros s s' ws; simpl.
  - intros [= <- <-]. constructor.
  - intros E. step_bind E. step_bind E.
    injection E as <- <-. apply IH in Hm0.
    repeat case_match; simplify_eq; try done; by constructor.
Qed.

Lemma refines_SealBatch now b snapshot :
  (bi_Seq b < two64)%N ->
  refines (DB := DB) (SealBatch now b snapshot) (SealBatch now b snapshot).
Proof.
  intros Hseq. unfold SealBatch.
  assert (bi_Seq (stamp_sealed now b) = bi_Seq b) as Es
    by (unfold stamp_sealed; by case_match).
  apply (refines_bind_with (Forall write_ok)).
  - apply refines_batched_writes.
  - intros t a t'. apply batched_writes_ok.
  - intros ws Hws. apply refines_commit.
    constructor; [simpl; rewrite Es; done|]. constructor; [done|done].
Qed.

Lemma refines_AppendAudit now r :
  call_ok (CAppendAudit now r) ->
  refines (DB := DB) (AppendAudit now r) (AppendAudit now r).
Proof.
  intros [Hnow Hr]. unfold AppendAudit.
  apply refines_bind; [apply refines_bump_audit|intros _].
  apply refines_bind; [apply refines_auditSeq|intros seq].
  apply refines_commit. constructor; [|done]. simpl. split; [done|].
  destruct (IsZero (au_Timestamp r)) eqn:E; [done|by apply Hr].
Qed.

Lemma refines_CommitFold now c proof folded :
  Forall (fun seq => seq < two64)%N folded ->
  refines (DB := DB) (CommitFold now c proof folded) (CommitFold now c proof folded).
Proof.
  intros Hf. unfold CommitFold. apply refines_bind; [refine_step|intros _].
  apply refines_commit. do 2 (constructor; [done|]). by apply Forall_fmap.
Qed.

(** Each call refines. *)
Lemma refines_call {A} (c : call A) :
  call_ok c -> refines (DB := DB) (run_call c) (run_call c).
Proof.
  destruct c; simpl; intros Hok;
    try apply refines_votes_of; try (by apply refines_SealBatch);
    try (by apply refines_AppendAudit); try (by apply refines_CommitFold);
    unfold Election_, CreateElection, UpdateElection, SetElectionStatus, ListElections,
      AddVote, voteSeq, Vote_, VoteExists, ListVotes, VotesWithStatus, VoteStatus_,
      SetVoteStatus, setVoteStatusLocked, SetBatchInput, BatchInput_, ListBatchInputs,
      ReserveBatch, setReservation, ReleaseBatch, deleteReservation, IsBatchReserved,
      isReserved, monitorStaleReservations, releaseStaleReservations, releaseStaleInPrefix,
      SetFoldCheckpoint, FoldCheckpoint_, Snapshot, SetBatchProof, DeleteBatchProof,
      BatchProof, ResetBatch, FoldProof, DeleteProofs, SetResults, Results_, SetWorker,
      DeleteWorker, ListWorkers, ListAudit, setArtifact, deleteArtifact in *;
    refine_steps; try apply refines_votes_of.
Qed.
End operations.

(** ** Client programs

    A client of the storage layer: a tree of calls, each continuation free to
    look at the result of the call before it. *)

Inductive program (A : Type) : Type :=
  | Done (a : A)
  | Then {X : Type} (c : call X) (k : result X -> program A).
Arguments Done {A} a.
Arguments Then {A X} c k.

Fixpoint run_program {D} `{ADB D} {A} (p : program A) (s : Storage D) : A * Storage D :=
  match p with
  | Done a => (a, s)
  | Then c k => let '(r, s') := run_call c s in run_program (k r) s'
  end.

(** Every call the program may make is within bounds. *)
Fixpoint program_ok {A} (p : program A) : Prop :=
  match p with
  | Done _ => True
  | Then c k => call_ok c /\ forall r, program_ok (k r)
  end.

Section programs.
Context {DB : Type} `{KVLaws DB} `{CodecLaws}.

Lemma run_program_refines {A} (p : program A) (c : Storage (ByteDB DB)) (t : Storage TypedDB) :
  program_ok p -> RepS c t ->
  (run_program p c).1 = (run_program p t).1 /\
  RepS (run_program p c).2 (run_program p t).2.
Proof.
  revert c t. induction p as [a|X cl k IH]; intros c t Hok HR; simpl in *; [done|].
  destruct Hok as [Hcl Hk].
  destruct (refines_call (DB := DB) cl Hcl c t HR) as [E HR'].
  destruct (run_call cl c) as [rc c'], (run_call cl t) as [rt t']. simpl in *. subst rt.
  by apply IH.
Qed.
End programs.

(** ** A codec

    The laws of the encoding are satisfiable: a codec over byte strings. *)

Definition bits_of (l : list bool) : bytes := (fun b : bool => if b then Byte.x01 else Byte.x00) <$> l.

Fixpoint pos_bits (p : positive) : list bool :=
  match p with xH => [] | xO p => false :: pos_bits p | xI p => true :: pos_bits p end.

Fixpoint bits_pos (b : bytes) : positive :=
  match b with
  | [] => xH
  | x :: b => if decide (x = Byte.x00) then xO (bits_pos b) else xI (bits_pos b)
  end.

Lemma bits_pos_of p : bits_pos (bits_of (pos_bits p)) = p.
Proof. induction p; simpl; by rewrite ?IHp. Qed.

#[export] Instance Artifact_countable : Countable Artifact.
Proof.
  refine (inj_countable'
    (fun a => match a with
      | AElection e => inl (inl (inl (inl e))) | ABlob b => inl (inl (inl (inr b)))
      | AVoteSeq n => inl (inl (inr (inl n))) | AVote v => inl (inl (inr (inr v)))
      | AVoteStatus st => inl (inr (inl (inl st))) | ABatch b => inl (inr (inl (inr b)))
      | AFold c => inl (inr (inr c)) | AResults r => inr (inl (inl r))
      | AWorker w => inr (inl (inr w)) | AAudit r => inr (inr (inl r))
      | AReservation z => inr (inr (inr z))
      end)
    (fun x => match x with
      | inl (inl (inl (inl e))) => AElection e | inl (inl (inl (inr b))) => ABlob b
      | inl (inl (inr (inl n))) => AVoteSeq n | inl (inl (inr (inr v))) => AVote v
      | inl (inr (inl (inl st))) => AVoteStatus st | inl (inr (inl (inr b))) => ABatch b
      | inl (inr (inr c)) => AFold c | inr (inl (inl r)) => AResults r
      | inr (inl (inr w)) => AWorker w | inr (inr (inl r)) => AAudit r
      | inr (inr (inr z)) => AReservation z
      end) _).
  by intros [].
Defined.

Definition bit_codec : Codec := {|
  EncodeArtifact a := Some (bits_of (pos_bits (encode (kept a))));
  DecodeArtifact k b :=
    a ← decode (bits_pos b); if decide (artifact_kind a = k) then Some a else None;
|}.

Lemma bit_codec_laws : @CodecLaws bit_codec.
Proof.
  intros a. eexists. split; [reflexivity|]. simpl.
  rewrite bits_pos_of, countable.decode_encode. simpl. by rewrite decide_True by apply kept_kind.
Qed.

(** Two empty stores are related. *)
Lemma RepS_empty {DB} `{KV DB} `{Codec} (db : DB) fl rd to :
  (forall k, kv_get db k = None) -> kv_faults db = fl -> kv_readable db = rd ->
  RepS (MkStorage (MkByteDB db) to ∅ ∅ 0%N)
       (MkStorage {| td_map := ∅; td_faults := fl; td_readable := rd |} to ∅ ∅ 0%N).
Proof.
  intros Hget Hf Hr. split; try done. split; [split|done..].
  - by intros k a Hk.
  - by intros k a Hk.
  - intros x b Hb. by rewrite Hget in Hb.
Qed.

(** ** Whole runs *)

Section runs.
Context {DB : Type} `{KVLaws DB} `{CodecLaws}.

Lemma refines_recover : refines (DB := DB) recover recover.
Proof.
  unfold recover, releaseStaleReservations, releaseStaleInPrefix. refine_steps.
Qed.

Lemma RepS_New (d : ByteDB DB) (t : TypedDB) : Rep d t -> RepS (New d) (New t).
Proof.
  intros HR. unfold New. apply (refines_ignore _ _ refines_recover). by split.
Qed.

(** C18: the storage layer over a byte-keyed database behaves as the one over
    a typed map: opened on databases that represent the same artifacts, every
    client gets the same results from both, and the databases still represent
    the same artifacts when it is done. *)
Theorem byte_store_refines (d : ByteDB DB) (t : TypedDB) {A} (p : program A) :
  Rep d t -> program_ok p ->
  (run_program p (New d)).1 = (run_program p (New t)).1 /\
  Rep (s_db (run_program p (New d)).2) (s_db (run_program p (New t)).2).
Proof.
  intros HR Hok. destruct (run_program_refines p _ _ Hok (RepS_New d t HR)) as [E HR'].
  split; [exact E|]. apply HR'.
Qed.
End runs.
