(* ===== verification/StorageSpec.v ===== *)
(** * What the storage calls write

    The transaction each storage call makes, as a function of the store it
    reads, and the guarantees that follow for every call: a call leaves the
    store as it was or makes exactly its transaction. *)

From S2P Require Import Prelude Errors Effects Bytes Types Records KV Keys Artifacts Storage.
From S2P Require Import StorageRefine.

Abbreviation TStorage := (Storage TypedDB).
Abbreviation store := (gmap Key Artifact).

(** The artifacts of a storage. *)
Definition tmap (s : TStorage) : store := td_map (s_db s).

(** ** Typed lookups *)

Definition election_at (m : store) (id : ElectionID) : option Election :=
  match m !! KElection id with Some (AElection e) => Some e | _ => None end.
Definition snapshot_at (m : store) (id : ElectionID) : option bytes :=
  match m !! KSnapshot id with Some (ABlob b) => Some b | _ => None end.
Definition vote_at (m : store) (id : ElectionID) (v : VoteID) : option Vote :=
  match m !! KVote id v with Some (AVote x) => Some x | _ => None end.
Definition status_at (m : store) (id : ElectionID) (v : VoteID) : option VoteStatus :=
  match m !! KVoteStatus id v with Some (AVoteStatus x) => Some x | _ => None end.
Definition batch_at (m : store) (id : ElectionID) (seq : N) : option BatchInput :=
  match m !! KBatch id seq with Some (ABatch b) => Some b | _ => None end.
Definition checkpoint_at (m : store) (id : ElectionID) : option FoldCheckpoint :=
  match m !! KFold id with Some (AFold c) => Some c | _ => None end.
Definition fold_proof_at (m : store) (id : ElectionID) : option bytes :=
  match m !! KFoldProof id with Some (ABlob b) => Some b | _ => None end.
Definition batch_proof_at (m : store) (id : ElectionID) (seq : N) : option bytes :=
  match m !! KBatchProof id seq with Some (ABlob b) => Some b | _ => None end.

(** The vote counter of an election; a missing one is zero. *)
Definition counter_at (m : store) (id : ElectionID) : option N :=
  match m !! KVoteSeq id with
  | None => Some 0%N
  | Some (AVoteSeq n) => Some n
  | Some _ => None
  end.

(** ** The transactions *)

(** The status writes of sealing a batch. *)
Definition batched_of (m : store) (id : ElectionID) (ids : list VoteID) : list awrite :=
  omap (fun v =>
    let w := WPut (KVoteStatus id v) (AVoteStatus VoteStatusBatched) in
    match status_at m id v with
    | Some cur => if CanMoveTo cur VoteStatusBatched then Some w else None
    | None => Some w
    end) ids.

Definition scanned (m : store) (sc : Scan) : list awrite :=
  (fun p => WDelUnder sc p.1) <$> td_scan sc m.

(** The transaction of each call; a call that only reads has none. *)
Definition call_writes {A} (c : call A) (m : store) (ws : list awrite) : Prop :=
  match c with
  | CCreateElection now e snap =>
      election_at m (el_ID e) = None /\
      ws = [WPut (KElection (el_ID e)) (AElection (el_set_created now e));
            WPut (KSnapshot (el_ID e)) (ABlob snap)]
  | CUpdateElection now id f =>
      exists e e', election_at m id = Some e /\ f e = Ok e' /\
      ws = [WPut (KElection id) (AElection (el_set_updated now e'))]
  | CSetElectionStatus now id st =>
      exists e, election_at m id = Some e /\
      ws = [WPut (KElection id) (AElection (el_set_updated now (el_set_status st e)))]
  | CAddVote now id v =>
      exists n, counter_at m id = Some n /\
      ws = [WPut (KVoteSeq id) (AVoteSeq (u64_succ n));
            WPut (KVote id (v_ID v)) (AVote (v_set_log (u64_succ n) now v));
            WPut (KVoteStatus id (v_ID v)) (AVoteStatus VoteStatusPending)]
  | CSetVoteStatus id v st =>
      (forall cur, status_at m id v = Some cur -> CanMoveTo cur st = true) /\
      ws = [WPut (KVoteStatus id v) (AVoteStatus st)]
  | CSetBatchInput now b =>
      ws = [WPut (KBatch (bi_ElectionID b) (bi_Seq b)) (ABatch (stamp_sealed now b))]
  | CSealBatch now b snap =>
      ws = WPut (KBatch (bi_ElectionID b) (bi_Seq b)) (ABatch (stamp_sealed now b))
           :: WPut (KSnapshot (bi_ElectionID b)) (ABlob snap)
           :: batched_of m (bi_ElectionID b) (bi_VoteIDs b)
  | CReserveBatch now id seq =>
      m !! KReservation id seq = None /\
      ws = [WPut (KReservation id seq) (AReservation (Unix now))]
  | CReleaseBatch id seq => ws = [WDel (KReservation id seq)]
  | CReleaseStale now =>
      exists d, ws = (fun p => WDelUnder ScanReservations p.1)
        <$> filter (fun p => is_stale (Unix now) d p.2 = true) (td_scan ScanReservations m)
  | CSetFoldCheckpoint now c => ws = [WPut (KFold (cp_ElectionID c)) (AFold (cp_set_updated now c))]
  | CSetBatchProof id seq proof => ws = [WPut (KBatchProof id seq) (ABlob proof)]
  | CDeleteBatchProof id seq => ws = [WDel (KBatchProof id seq)]
  | CResetBatch b =>
      ws = [WPut (KBatch (bi_ElectionID b) (bi_Seq b)) (ABatch b);
            WDel (KBatchProof (bi_ElectionID b) (bi_Seq b))]
  | CCommitFold now c proof folded =>
      proof <> [] /\
      ws = WPut (KFold (cp_ElectionID c)) (AFold (cp_set_updated now c))
           :: WPut (KFoldProof (cp_ElectionID c)) (ABlob proof)
           :: ((fun seq => WDel (KBatchProof (cp_ElectionID c) seq)) <$> folded)
  | CDeleteProofs id => ws = scanned m (ScanProofs id)
  | CSetResults now r =>
      ws = [WPut (KResults (rs_ElectionID r))
              (AResults (if IsZero (rs_FinalizedAt r) then rs_set_finalized now r else r))]
  | CSetWorker now w =>
      ws = [WPut (KWorker (wr_Address w))
              (AWorker (if IsZero (wr_RegisteredAt w) then wr_set_registered now w else w))]
  | CDeleteWorker a => ws = [WDel (KWorker a)]
  | CAppendAudit now r =>
      exists seq, ws = [WPut (KAudit (UnixNano (au_Timestamp
          (if IsZero (au_Timestamp r) then au_set_timestamp now r else r))) seq)
        (AAudit (if IsZero (au_Timestamp r) then au_set_timestamp now r else r))]
  | _ => False
  end.

(** The calls that return without an error and without a transaction: the
    reads, a refused move of a vote, and a monitor run with nothing to do. *)
Definition call_skips {A} (c : call A) (m : store) : Prop :=
  match c with
  | CElection _ | CListElections | CVote _ _ | CVoteExists _ _ | CListVotes _
  | CVotesWithStatus _ _ | CVoteStatus _ _ | CLockAddress _ _ | CReleaseAddress _ _
  | CLockVoteID _ | CIsVoteIDProcessing _ | CReleaseVoteID _ | CBatchInput _ _
  | CListBatchInputs _ | CIsBatchReserved _ _ | CReleaseStale _ | CSetReservationTimeout _
  | CFoldCheckpoint _ | CSnapshot _ | CBatchProof _ _ | CFoldProof _ | CResults _
  | CListWorkers | CListAudit => True
  | CSetVoteStatus id v st => exists cur, status_at m id v = Some cur /\ CanMoveTo cur st = false
  | _ => False
  end.

(** ** Calls that only read *)

Lemma getArtifact_run k (s : TStorage) :
  getArtifact k s = (match tmap s !! k with Some a => Ok a | None => Err [ErrNotFound] end, s).
Proof. done. Qed.

Lemma load_state {A} k (as_ : Artifact -> result A) (s : TStorage) : (load k as_ s).2 = s.
Proof. unfold load, mbind, stE_bind. rewrite getArtifact_run. by destruct (tmap s !! k). Qed.

(** A load: the value of the right type, [ErrNotFound], or a decoding error. *)
Lemma load_run {A} k (as_ : Artifact -> result A) (s : TStorage) :
  load k as_ s = (match tmap s !! k with Some a => as_ a | None => Err [ErrNotFound] end, s).
Proof.
  unfold load, mbind, stE_bind. rewrite getArtifact_run. by destruct (tmap s !! k).
Qed.

Lemma iterate_run sc (s : TStorage) :
  iterateArtifacts sc s =
    (if td_readable (s_db s) then Ok (td_scan sc (tmap s)) else Err errorf, s).
Proof. done. Qed.

Lemma votes_of_state id ids (s : TStorage) : (votes_of id ids s).2 = s.
Proof.
  revert s. induction ids as [|v ids IH]; intros s; [done|].
  cbn [votes_of]. unfold mbind, stE_bind, rethrow, Vote_. rewrite load_run.
  destruct (tmap s !! KVote id v) as [a|]; [|done]. destruct (as_vote a); [|done].
  specialize (IH s). by destruct (votes_of id ids s) as [[] ?].
Qed.

(** A status as [SetVoteStatus] and [SealBatch] read it. *)
Lemma VoteStatus_status id v (s : TStorage) :
  match (VoteStatus_ id v s).1 with Ok x => Some x | Err _ => None end = status_at (tmap s) id v.
Proof.
  unfold VoteStatus_. rewrite load_run. unfold status_at. simpl.
  destruct (tmap s !! KVoteStatus id v) as [[]|]; done.
Qed.

Lemma Election_election id (s : TStorage) :
  match (Election_ id s).1 with Ok x => Some x | Err _ => None end = election_at (tmap s) id.
Proof.
  unfold Election_. rewrite load_run. unfold election_at. simpl.
  destruct (tmap s !! KElection id) as [[]|]; done.
Qed.

Lemma Election_run id (s : TStorage) :
  exists e, Election_ id s =
    (match election_at (tmap s) id with Some x => Ok x | None => Err e end, s).
Proof.
  unfold Election_. rewrite load_run. unfold election_at.
  destruct (tmap s !! KElection id) as [a|]; [|by eexists].
  destruct a; try (exists errorf; reflexivity); by eexists.
Qed.

Lemma batched_writes_run id ids (s : TStorage) :
  batched_writes id ids s = (Ok (batched_of (tmap s) id ids), s).
Proof.
  induction ids as [|v ids IH]; [done|].
  cbn [batched_writes]. unfold mbind, stE_bind, attempt at 1. cbn.
  pose proof (VoteStatus_status id v s) as Es.
  destruct (VoteStatus_ id v s) as [r s'] eqn:E.
  assert (s' = s) as -> by (pose proof (load_state (KVoteStatus id v) as_voteStatus s) as H;
    unfold VoteStatus_ in E; by rewrite E in H).
  rewrite IH. simpl in Es. rewrite <- Es. by destruct r; simpl; repeat case_match.
Qed.

(** ** A commit *)

Lemma commit_run ws (s : TStorage) :
  exists s', commit ws s =
    (if next_fault (td_faults (s_db s)) then Err errorf else Ok tt, s') /\
    tmap s' = (if next_fault (td_faults (s_db s)) then tmap s else td_writes ws (tmap s)) /\
    td_faults (s_db s') = tl (td_faults (s_db s)) /\
    td_readable (s_db s') = td_readable (s_db s) /\
    s_reservationTimeout s' = s_reservationTimeout s /\
    s_processingAddresses s' = s_processingAddresses s /\
    s_processingVoteIDs s' = s_processingVoteIDs s /\
    s_auditSeq s' = s_auditSeq s.
Proof. eexists. split; [reflexivity|]. done. Qed.

(** ** The effect of a call *)

(** An error and the store untouched, the call's transaction, or nothing. *)
Definition effect {A} (c : call A) (m : store) (p : result A * TStorage) : Prop :=
  match p.1 with
  | Err _ => tmap p.2 = m
  | Ok _ =>
      (exists ws, call_writes c m ws /\ tmap p.2 = td_writes ws m) \/
      (call_skips c m /\ tmap p.2 = m)
  end.

Lemma effect_read {A} (c : call A) (s : TStorage) p :
  call_skips c (tmap s) -> tmap p.2 = tmap s -> effect c (tmap s) p.
Proof. intros Hs Hm. unfold effect. destruct (p.1); eauto. Qed.

Lemma effect_commit (c : call unit) ws (s : TStorage) m :
  tmap s = m -> call_writes c m ws -> effect c m (commit ws s).
Proof.
  intros Hm Hw. destruct (commit_run ws s) as (s' & -> & Hs' & _). unfold effect. simpl.
  rewrite Hm in Hs'. destruct (next_fault _); simpl; eauto.
Qed.

Lemma effect_commit_ret {A} (c : call A) ws (a : A) (s : TStorage) m :
  tmap s = m -> call_writes c m ws -> effect c m ((commit ws ≫= fun _ => mret a) s).
Proof.
  intros Hm Hw. unfold mbind, stE_bind.
  destruct (commit_run ws s) as (s' & -> & Hs' & _). unfold effect.
  rewrite Hm in Hs'. destruct (next_fault _); simpl; eauto.
Qed.

(** A handler that reads first. *)
Lemma effect_load {A B} (c : call A) k (as_ : Artifact -> result B) f (s : TStorage) :
  (forall b, match tmap s !! k with Some a => as_ a | None => Err [ErrNotFound] end = Ok b ->
     effect c (tmap s) (f b s)) ->
  effect c (tmap s) ((load k as_ ≫= f) s).
Proof.
  intros Hf. unfold mbind, stE_bind. rewrite load_run.
  destruct (match tmap s !! k with Some a => _ | None => _ end) as [b|e]; [by apply Hf|done].
Qed.

Lemma effect_iterate {A} (c : call A) sc f (s : TStorage) :
  effect c (tmap s) (f (td_scan sc (tmap s)) s) ->
  effect c (tmap s) ((iterateArtifacts sc ≫= f) s).
Proof.
  intros Hf. unfold mbind, stE_bind. rewrite iterate_run. by destruct (td_readable (s_db s)).
Qed.

(** ** Each call has its effect *)

Lemma UpdateElection_effect A (c : call A) now id f (s : TStorage) (E : A = unit) :
  (forall e e' : Election, election_at (tmap s) id = Some e -> f e = Ok e' ->
     call_writes c (tmap s) [WPut (KElection id) (AElection (el_set_updated now e'))]) ->
  effect c (tmap s) (eq_rect_r (fun T => result T * TStorage)%type
    (UpdateElection now id f s) E).
Proof.
  subst A. intros Hw. cbn. unfold UpdateElection, Election_. apply effect_load. intros e He.
  unfold mbind at 1, stE_bind at 1, lift. destruct (f e) as [e'|err] eqn:Ef; [|done].
  apply effect_commit; [done|]. eapply Hw; [|done].
  unfold election_at. destruct (tmap s !! KElection id) as [[]|]; by simplify_eq/=.
Qed.

Lemma CreateElection_effect now e snap (s : TStorage) :
  effect (CCreateElection now e snap) (tmap s) (CreateElection now e snap s).
Proof.
  unfold CreateElection. unfold mbind at 1, stE_bind at 1, attempt.
  pose proof (Election_election (el_ID e) s) as Ee.
  pose proof (load_state (KElection (el_ID e)) as_election s) as Hs. fold (Election_ (D := TypedDB) (el_ID e)) in Hs.
  destruct (Election_ (el_ID e) s) as [[e0|err] s']; simpl in Ee, Hs; subst s'; [done|].
  apply effect_commit_ret; [done|]. by split.
Qed.

Lemma voteSeq_run id (s : TStorage) :
  voteSeq id s = (of_option (counter_at (tmap s) id) errorf, s).
Proof.
  unfold voteSeq, mbind, stE_bind, attempt. rewrite load_run. unfold counter_at.
  by destruct (tmap s !! KVoteSeq id) as [[]|].
Qed.

Lemma AddVote_effect now id v (s : TStorage) :
  effect (CAddVote now id v) (tmap s) (AddVote now id v s).
Proof.
  unfold AddVote. unfold mbind at 1, stE_bind at 1. rewrite voteSeq_run.
  destruct (counter_at (tmap s) id) as [n|] eqn:En; [|done].
  cbn [of_option]. apply effect_commit_ret; [done|]. by exists n.
Qed.

Lemma SetVoteStatus_effect id v st (s : TStorage) :
  effect (CSetVoteStatus id v st) (tmap s) (SetVoteStatus id v st s).
Proof.
  unfold SetVoteStatus. unfold mbind at 1, stE_bind at 1, attempt.
  pose proof (VoteStatus_status id v s) as Es.
  pose proof (load_state (KVoteStatus id v) as_voteStatus s) as Hs.
  fold (VoteStatus_ (D := TypedDB) id v) in Hs.
  destruct (VoteStatus_ id v s) as [[cur|err] s']; simpl in Es, Hs; subst s'.
  - destruct (CanMoveTo cur st) eqn:Ec.
    + apply effect_commit; [done|]. split; [|done]. by intros ? [= <-]%(eq_trans Es).
    + right. split; [|done]. by exists cur.
  - apply effect_commit; [done|]. split; [|done]. intros cur Hc. by rewrite Hc in Es.
Qed.

Lemma SealBatch_effect now b snap (s : TStorage) :
  effect (CSealBatch now b snap) (tmap s) (SealBatch now b snap s).
Proof.
  unfold SealBatch, mbind, stE_bind. rewrite batched_writes_run.
  apply effect_commit; [done|]. cbn [call_writes].
  assert (bi_ElectionID (stamp_sealed now b) = bi_ElectionID b) as ->
    by (unfold stamp_sealed; by case_match).
  assert (bi_Seq (stamp_sealed now b) = bi_Seq b) as -> by (unfold stamp_sealed; by case_match).
  assert (bi_VoteIDs (stamp_sealed now b) = bi_VoteIDs b) as ->
    by (unfold stamp_sealed; by case_match).
  done.
Qed.

Lemma ReserveBatch_effect now id seq (s : TStorage) :
  effect (CReserveBatch now id seq) (tmap s) (ReserveBatch now id seq s).
Proof.
  unfold ReserveBatch, setReservation, mbind, stE_bind, attempt. rewrite getArtifact_run.
  destruct (tmap s !! KReservation id seq) as [a|] eqn:E; [done|]. simpl.
  by apply effect_commit.
Qed.

Lemma monitor_effect now (s : TStorage) :
  effect (CReleaseStale now) (tmap s) (monitorStaleReservations now s).
Proof.
  unfold monitorStaleReservations, releaseStaleReservations, releaseStaleInPrefix.
  unfold mbind at 1, stE_bind at 1, gets, ignore. unfold effect. cbn [fst].
  unfold mbind, stE_bind. rewrite iterate_run.
  destruct (td_readable (s_db s)); [|by right].
  destruct (filter _ _) as [|p l] eqn:El; [by right|].
  destruct (commit_run ((fun p => WDelUnder ScanReservations p.1) <$> (p :: l)) s)
    as (s' & -> & Hs' & _). simpl. rewrite Hs'. destruct (next_fault _); [by right|].
  left. eexists. split; [|done]. exists (s_reservationTimeout s). by rewrite El.
Qed.

Lemma list_all_state {A} sc (as_ : Artifact -> result A) (s : TStorage) :
  (list_all sc as_ s).2 = s.
Proof.
  unfold list_all, mbind, stE_bind. rewrite iterate_run. by destruct (td_readable (s_db s)).
Qed.

Lemma VotesWithStatus_state id st (s : TStorage) : (VotesWithStatus id st s).2 = s.
Proof.
  unfold VotesWithStatus. unfold mbind at 1, stE_bind at 1. rewrite iterate_run.
  destruct (td_readable (s_db s)); [|done]. apply votes_of_state.
Qed.

Lemma attempt_load_state {A B} k (as_ : Artifact -> result A) (f : result A -> B) (s : TStorage) :
  ((attempt (load k as_) ≫= fun r => mret (f r)) s).2 = s.
Proof. unfold mbind, stE_bind, attempt. by rewrite load_run. Qed.

Lemma LockAddress_map id a (s : TStorage) : tmap (LockAddress id a s).2 = tmap s.
Proof. unfold LockAddress. by case_decide. Qed.

Lemma LockVoteID_map v (s : TStorage) : tmap (LockVoteID v s).2 = tmap s.
Proof. unfold LockVoteID. by case_decide. Qed.

Lemma CommitFold_effect now c proof folded (s : TStorage) :
  effect (CCommitFold now c proof folded) (tmap s) (CommitFold now c proof folded s).
Proof.
  unfold CommitFold, mbind, stE_bind, throw_if.
  case_bool_decide as Hp; [done|]. by apply effect_commit.
Qed.

Lemma DeleteProofs_effect id (s : TStorage) :
  effect (CDeleteProofs id) (tmap s) (DeleteProofs id s).
Proof. apply effect_iterate. by apply effect_commit. Qed.

Lemma AppendAudit_effect now r (s : TStorage) :
  effect (CAppendAudit now r) (tmap s) (AppendAudit now r s).
Proof. apply effect_commit; [done|]. by eexists. Qed.

Lemma SetResults_effect now r (s : TStorage) :
  effect (CSetResults now r) (tmap s) (SetResults now r s).
Proof.
  unfold SetResults, setArtifact. apply effect_commit; [done|]. cbn [call_writes].
  by destruct (IsZero (rs_FinalizedAt r)).
Qed.

Lemma SetWorker_effect now w (s : TStorage) :
  effect (CSetWorker now w) (tmap s) (SetWorker now w s).
Proof.
  unfold SetWorker, setArtifact. apply effect_commit; [done|]. cbn [call_writes].
  by destruct (IsZero (wr_RegisteredAt w)).
Qed.

Lemma SetBatchInput_effect now b (s : TStorage) :
  effect (CSetBatchInput now b) (tmap s) (SetBatchInput now b s).
Proof. by apply effect_commit. Qed.

(** A call that reads one artifact, or scans. *)
Ltac read_effect :=
  unfold VoteExists, IsBatchReserved, isReserved, Election_, Vote_, VoteStatus_, BatchInput_,
    FoldCheckpoint_, Snapshot, BatchProof, FoldProof, Results_, ListElections, ListVotes,
    ListBatchInputs, ListWorkers, ListAudit;
  apply effect_read; [done|];
  first [ reflexivity | rewrite load_state; reflexivity | rewrite list_all_state; reflexivity
        | rewrite VotesWithStatus_state; reflexivity | rewrite attempt_load_state; reflexivity ].

(** Whatever the call, and whatever the outcome of its commit. *)
Lemma call_effect {A} (c : call A) (s : TStorage) : effect c (tmap s) (run_call c s).
Proof.
  destruct c; cbn [run_call];
    lazymatch goal with
    | |- effect (CCreateElection _ _ _) _ _ => apply CreateElection_effect
    | |- effect (CUpdateElection _ _ _) _ _ =>
        apply (UpdateElection_effect unit _ _ _ _ s eq_refl); cbn [call_writes]; by eauto
    | |- effect (CSetElectionStatus _ _ _) _ _ =>
        apply (UpdateElection_effect unit _ _ _ _ s eq_refl); cbn [call_writes];
        intros e e' He [= <-]; by eauto
    | |- effect (CAddVote _ _ _) _ _ => apply AddVote_effect
    | |- effect (CSetVoteStatus _ _ _) _ _ => apply SetVoteStatus_effect
    | |- effect (CSealBatch _ _ _) _ _ => apply SealBatch_effect
    | |- effect (CReserveBatch _ _ _) _ _ => apply ReserveBatch_effect
    | |- effect (CReleaseStale _) _ _ => apply monitor_effect
    | |- effect (CCommitFold _ _ _ _) _ _ => apply CommitFold_effect
    | |- effect (CDeleteProofs _) _ _ => apply DeleteProofs_effect
    | |- effect (CAppendAudit _ _) _ _ => apply AppendAudit_effect
    | |- effect (CSetResults _ _) _ _ => apply SetResults_effect
    | |- effect (CSetWorker _ _) _ _ => apply SetWorker_effect
    | |- effect (CSetBatchInput _ _) _ _ => apply SetBatchInput_effect
    | |- effect (CLockAddress _ _) _ _ => apply effect_read; [done|apply LockAddress_map]
    | |- effect (CLockVoteID _) _ _ => apply effect_read; [done|apply LockVoteID_map]
    | |- effect (CReleaseBatch _ _) _ _ => apply effect_commit; done
    | |- effect (CSetFoldCheckpoint _ _) _ _ => apply effect_commit; done
    | |- effect (CSetBatchProof _ _ _) _ _ => apply effect_commit; done
    | |- effect (CDeleteBatchProof _ _) _ _ => apply effect_commit; done
    | |- effect (CResetBatch _) _ _ => apply effect_commit; done
    | |- effect (CDeleteWorker _) _ _ => apply effect_commit; done
    | |- _ => read_effect
    end.
Qed.
