(* ===== verification/StorageProps.v ===== *)
(** * Guarantees of the storage layer

    What every client of the storage layer may rely on: transactions are all
    or nothing, votes only move forward and are never lost, the vote log and
    the batches are ordered, and reservations exclude one another. *)

From S2P Require Import Prelude Errors Effects Bytes Types Records KV Keys Artifacts Storage.
From S2P Require Import ByteStore StorageRefine StorageSpec.

(** ** Writes that leave a key alone *)

Definition touches (w : awrite) (k : Key) : Prop :=
  match w with
  | WPut k' _ | WDel k' => k' = k
  | WDelUnder sc x => in_scan sc k /\ scan_suffix sc k = x
  end.

Lemma td_write_untouched w (m : store) k : ~ touches w k -> td_write w m !! k = m !! k.
Proof.
  destruct w as [k' a|k'|sc x]; simpl; intros Hn.
  - by rewrite lookup_insert_ne.
  - by rewrite lookup_delete_ne.
  - destruct (m !! k) as [a|] eqn:E.
    + by apply map_lookup_filter_Some.
    + apply map_lookup_filter_None. by left.
Qed.

Lemma td_writes_untouched ws (m : store) k :
  Forall (fun w => ~ touches w k) ws -> td_writes ws m !! k = m !! k.
Proof.
  intros Hws. revert m. induction Hws as [|w ws Hw _ IH]; intros m; [done|].
  simpl. by rewrite IH, td_write_untouched.
Qed.

Lemma td_writes_cons w ws (m : store) : td_writes (w :: ws) m = td_writes ws (td_write w m).
Proof. done. Qed.

Lemma scanned_untouched (m : store) sc k : ~ in_scan sc k -> Forall (fun w => ~ touches w k) (scanned m sc).
Proof. intros Hn. apply Forall_fmap, Forall_true. by intros p [Hs _]. Qed.

(** A key of no scan that is deleted, decided by the constructor of the write. *)
Ltac untouched :=
  repeat first
    [ apply Forall_nil_2 | apply Forall_cons_2; [simpl; naive_solver|]
    | apply scanned_untouched; done
    | apply Forall_fmap, Forall_true; simpl; naive_solver ].

(** ** Client programs run as sequences of transactions *)

Definition tx (m m' : store) : Prop :=
  exists A (c : call A) ws, call_writes c m ws /\ m' = td_writes ws m.

(** A property of the store that every transaction keeps, kept by a call. *)
Lemma call_preserves {A} (P : store -> Prop) (c : call A) (s : TStorage) :
  (forall ws, call_writes c (tmap s) ws -> P (tmap s) -> P (td_writes ws (tmap s))) ->
  P (tmap s) -> P (tmap (run_call c s).2).
Proof.
  intros Htx HP. pose proof (call_effect c s) as He. unfold effect in He.
  destruct (run_call c s).1.
  - destruct He as [(ws & Hw & ->)|[_ ->]]; [by apply Htx|done].
  - by rewrite He.
Qed.

(** The calls of a program all satisfy [Q]. *)
Fixpoint program_all (Q : forall X, call X -> Prop) {A} (p : program A) : Prop :=
  match p with
  | Done _ => True
  | @Then _ X c k => Q X c /\ forall r, program_all Q (k r)
  end.

Lemma program_preserves (P : store -> Prop) (Q : forall X, call X -> Prop) {A} (p : program A)
    (s : TStorage) :
  (forall X (c : call X) m ws, Q X c -> call_writes c m ws -> P m -> P (td_writes ws m)) ->
  program_all Q p -> P (tmap s) -> P (tmap (run_program p s).2).
Proof.
  intros Htx. revert s. induction p as [a|X c k IH]; intros s HQ HP; [done|].
  destruct HQ as [Hc Hk]. simpl.
  pose proof (call_preserves P c s (fun ws Hw => Htx X c (tmap s) ws Hc Hw) HP) as HP'.
  destruct (run_call c s) as [r s']. simpl in HP'. by apply IH.
Qed.

(** ** Sealing *)

Definition moves_to_batched (m : store) (id : ElectionID) (v : VoteID) : bool :=
  match status_at m id v with
  | Some cur => CanMoveTo cur VoteStatusBatched
  | None => true
  end.

Lemma batched_of_cons m id v ids :
  batched_of m id (v :: ids) =
    (if moves_to_batched m id v
     then [WPut (KVoteStatus id v) (AVoteStatus VoteStatusBatched)] else [])
    ++ batched_of m id ids.
Proof.
  unfold batched_of, moves_to_batched. csimpl.
  destruct (status_at m id v) as [cur|]; [|done]. by destruct (CanMoveTo cur VoteStatusBatched).
Qed.

Lemma batched_untouched m id ids k :
  (forall v, k = KVoteStatus id v -> v ∈ ids -> moves_to_batched m id v = false) ->
  Forall (fun w => ~ touches w k) (batched_of m id ids).
Proof.
  intros Hk. induction ids as [|v ids IH]; [constructor|].
  rewrite batched_of_cons. apply Forall_app. split; [|apply IH; set_solver].
  destruct (moves_to_batched m id v) eqn:E; [|constructor].
  constructor; [|constructor]. simpl. intros <-.
  rewrite (Hk v) in E; [done|done|set_solver].
Qed.

Lemma batched_touched m id ids v m' :
  v ∈ ids -> moves_to_batched m id v = true ->
  td_writes (batched_of m id ids) m' !! KVoteStatus id v = Some (AVoteStatus VoteStatusBatched).
Proof.
  intros Hv Hm. revert m'. induction ids as [|u ids IH]; intros m'; [set_solver|].
  rewrite batched_of_cons. destruct (decide (v ∈ ids)) as [Hin|Hin].
  - unfold td_writes. rewrite foldl_app. by apply IH.
  - assert (v = u) as <- by set_solver. rewrite Hm. simpl app. rewrite td_writes_cons.
    rewrite td_writes_untouched; [simpl; by rewrite lookup_insert_eq|].
    apply batched_untouched. naive_solver.
Qed.

(** The store after a batch is sealed. *)
Lemma seal_writes_lookup m now b snap k :
  td_writes (WPut (KBatch (bi_ElectionID b) (bi_Seq b)) (ABatch (stamp_sealed now b))
             :: WPut (KSnapshot (bi_ElectionID b)) (ABlob snap)
             :: batched_of m (bi_ElectionID b) (bi_VoteIDs b)) m !! k =
  match k with
  | KBatch id seq =>
      if decide (id = bi_ElectionID b /\ seq = bi_Seq b)
      then Some (ABatch (kept_BatchInput (stamp_sealed now b))) else m !! k
  | KSnapshot id => if decide (id = bi_ElectionID b) then Some (ABlob snap) else m !! k
  | KVoteStatus id v =>
      if decide (id = bi_ElectionID b /\ v ∈ bi_VoteIDs b /\ moves_to_batched m id v = true)
      then Some (AVoteStatus VoteStatusBatched) else m !! k
  | _ => m !! k
  end.
Proof.
  rewrite !td_writes_cons.
  destruct k; try (rewrite td_writes_untouched by (by apply batched_untouched); simpl;
    rewrite ?lookup_insert_ne by done; done).
  - rewrite td_writes_untouched by (by apply batched_untouched). simpl. case_decide as Hd.
    + subst. by rewrite lookup_insert_eq.
    + rewrite !lookup_insert_ne; [done|done|naive_solver].
  - case_decide as Hd.
    + destruct Hd as (-> & Hv & Hm). by apply batched_touched.
    + rewrite td_writes_untouched.
      * simpl. by rewrite !lookup_insert_ne by done.
      * apply batched_untouched. intros v [= -> ->] Hv.
        apply not_true_iff_false. naive_solver.
  - rewrite td_writes_untouched by (by apply batched_untouched). simpl.
    rewrite lookup_insert_ne by done. case_decide as Hd.
    + destruct Hd as [-> ->]. by rewrite lookup_insert_eq.
    + rewrite lookup_insert_ne; [done|]. naive_solver.
Qed.

(** ** Votes *)

(** The call accepts the vote [v] of election [id]. *)
Definition adds_vote (id : ElectionID) (v : VoteID) {A} (c : call A) : Prop :=
  match c with CAddVote _ id' x => id' = id /\ v_ID x = v | _ => False end.

(** A stored vote, and a status it reached or passed. *)
Definition vote_reached (id : ElectionID) (v : VoteID) (x : option Vote) (st : VoteStatus)
    (m : store) : Prop :=
  vote_at m id v = x /\ exists st', status_at m id v = Some st' /\ vs_le st st'.

Lemma vote_reached_lookup id v x st (m m' : store) :
  m' !! KVote id v = m !! KVote id v ->
  (m' !! KVoteStatus id v = m !! KVoteStatus id v \/
   exists st', m' !! KVoteStatus id v = Some (AVoteStatus st') /\
     forall cur, status_at m id v = Some cur -> vs_le cur st') ->
  vote_reached id v x st m -> vote_reached id v x st m'.
Proof.
  intros Hv Hs [Hx (st1 & H1 & Hle)]. split; [unfold vote_at in *; by rewrite Hv|].
  unfold status_at. destruct Hs as [->|(st' & -> & Hcur)]; [by exists st1|].
  exists st'. split; [done|]. trans st1; auto.
Qed.

Lemma call_keeps_vote id v x st {A} (c : call A) (m : store) ws :
  ~ adds_vote id v c -> call_writes c m ws ->
  vote_reached id v x st m -> vote_reached id v x st (td_writes ws m).
Proof.
  intros Ha Hw. apply vote_reached_lookup.
  - destruct c; cbn [call_writes] in Hw; break; subst; try done;
      try (apply td_writes_untouched; by untouched).
    by rewrite seal_writes_lookup.
  - destruct c; cbn [call_writes] in Hw; break; subst; try done;
      try (left; apply td_writes_untouched; by untouched).
    + destruct (decide (KVoteStatus id0 voteID = KVoteStatus id v)) as [[= -> ->]|Hne].
      * right. eexists. simpl. rewrite lookup_insert_eq. split; [done|]. right. auto.
      * left. simpl. by rewrite lookup_insert_ne.
    + rewrite seal_writes_lookup. case_decide as Hd; [|by left].
      right. eexists. split; [done|]. destruct Hd as (_ & _ & Hm). unfold moves_to_batched in Hm.
      intros cur Hc. rewrite Hc in Hm. by right.
Qed.

(** C23: a stored vote is never lost or changed, and its status only moves
    forward (pending, batched, folded, then settled or error, which are
    final), whatever the clients of the storage layer do and whichever of
    their writes fail, short of accepting a vote with that very ID again. *)
Theorem votes_kept_statuses_forward {A} (p : program A) (s : TStorage) id v x st :
  program_all (fun X c => ~ adds_vote id v c) p ->
  vote_at (tmap s) id v = Some x -> status_at (tmap s) id v = Some st ->
  let m' := tmap (run_program p s).2 in
  vote_at m' id v = Some x /\
  exists st', status_at m' id v = Some st' /\ vs_le st st' /\ (Final st = true -> st' = st).
Proof.
  intros Hp Hx Hst m'.
  assert (vote_reached id v (Some x) st m') as [Hx' (st' & Hst' & Hle)].
  { apply (program_preserves _ (fun X c => ~ adds_vote id v c)); [|done|].
    - intros X c m ws. apply call_keeps_vote.
    - split; [done|]. by exists st. }
  split; [done|]. exists st'. split; [done|]. split; [done|].
  intros HF. symmetry. by apply Final_max.
Qed.

Lemma tmap_commit ws (s : TStorage) :
  next_fault (td_faults (s_db s)) = false ->
  (commit ws s).1 = Ok tt /\ tmap (commit ws s).2 = td_writes ws (tmap s).
Proof. intros Hf. destruct (commit_run ws s) as (s' & -> & E & _). simpl. by rewrite E, Hf. Qed.

Lemma tmap_commit_failed ws (s : TStorage) :
  next_fault (td_faults (s_db s)) = true ->
  (commit ws s).1 = Err errorf /\ tmap (commit ws s).2 = tmap s.
Proof. intros Hf. destruct (commit_run ws s) as (s' & -> & E & _). simpl. by rewrite E, Hf. Qed.

Lemma SealBatch_run now b snap (s : TStorage) :
  SealBatch now b snap s = commit
    (WPut (KBatch (bi_ElectionID b) (bi_Seq b)) (ABatch (stamp_sealed now b))
     :: WPut (KSnapshot (bi_ElectionID b)) (ABlob snap)
     :: batched_of (tmap s) (bi_ElectionID b) (bi_VoteIDs b)) s.
Proof.
  unfold SealBatch, mbind, stE_bind. rewrite batched_writes_run.
  unfold stamp_sealed. by destruct (IsZero (bi_SealedAt b)).
Qed.

(** Sealing a batch is one transaction: if the write fails nothing has
    changed; otherwise the batch, the state snapshot after it and the batched
    status of each of its votes that was not past it are all there, and
    nothing else has changed. *)
Theorem SealBatch_atomic now b snap (s : TStorage) :
  let id := bi_ElectionID b in
  let m := tmap s in
  let '(r, s') := SealBatch now b snap s in
  if next_fault (td_faults (s_db s)) then is_ok r = false /\ tmap s' = m
  else
    r = Ok tt /\
    batch_at (tmap s') id (bi_Seq b) = Some (kept_BatchInput (stamp_sealed now b)) /\
    snapshot_at (tmap s') id = Some snap /\
    (forall v, v ∈ bi_VoteIDs b -> status_at (tmap s') id v =
       Some (match status_at m id v with
             | Some cur => if CanMoveTo cur VoteStatusBatched then VoteStatusBatched else cur
             | None => VoteStatusBatched
             end)) /\
    (forall k, k <> KBatch id (bi_Seq b) -> k <> KSnapshot id ->
       (forall v, v ∈ bi_VoteIDs b -> k <> KVoteStatus id v) -> tmap s' !! k = m !! k).
Proof.
  cbv zeta. set (id := bi_ElectionID b).
  rewrite SealBatch_run. fold id.
  set (ws := WPut _ _ :: _).
  destruct (commit ws s) as [r s'] eqn:E.
  destruct (next_fault (td_faults (s_db s))) eqn:Hf.
  { destruct (tmap_commit_failed ws s Hf) as [H1 H2]. rewrite E in H1, H2. simpl in *. by subst. }
  destruct (tmap_commit ws s Hf) as [H1 H2]. rewrite E in H1, H2. cbn [fst snd] in H1, H2.
  assert (forall k, tmap s' !! k = _) as Hk
    by (intros k; rewrite H2; apply seal_writes_lookup).
  repeat split; [done|..].
  - unfold batch_at. rewrite Hk. by rewrite decide_True.
  - unfold snapshot_at. rewrite Hk. by rewrite decide_True.
  - intros v Hv. unfold status_at at 1. rewrite Hk. case_decide as Hd.
    + destruct Hd as (_ & _ & Hm). unfold moves_to_batched in Hm.
      destruct (status_at _ _ _); by rewrite ?Hm.
    + assert (moves_to_batched (tmap s) id v = false) as Hm
        by (apply not_true_iff_false; naive_solver).
      unfold moves_to_batched, status_at in *. case_match; [|done].
      case_match; try done. by rewrite Hm.
  - intros k Hb Hs Hv. rewrite Hk. destruct k; try done; case_decide; naive_solver.
Qed.

(** The store after the proofs of some batches are deleted. *)
Lemma delete_proofs_lookup id l (m : store) k :
  td_writes ((fun seq => WDel (KBatchProof id seq)) <$> l) m !! k =
  match k with
  | KBatchProof id' seq => if decide (id' = id /\ seq ∈ l) then None else m !! k
  | _ => m !! k
  end.
Proof.
  revert m. induction l as [|q l IH]; intros m.
  - destruct k; try done. simpl. rewrite decide_False; set_solver.
  - rewrite fmap_cons, td_writes_cons, IH. simpl.
    destruct k as [| | | | | | | |id0 seq| | | |]; try (by rewrite lookup_delete_ne).
    destruct (decide (id0 = id /\ seq ∈ l)); [rewrite decide_True; set_solver|].
    destruct (decide (id0 = id /\ seq = q)) as [[-> ->]|Hne].
    + rewrite lookup_delete_eq, decide_True; set_solver.
    + rewrite lookup_delete_ne by naive_solver. rewrite decide_False; set_solver.
Qed.

(** Committing a fold is one transaction: an empty proof is refused and a
    failed write changes nothing; otherwise the checkpoint and the fold's proof
    replace the previous ones, the proofs of the folded batches are gone, and
    nothing else has changed. *)
Theorem CommitFold_atomic now c proof folded (s : TStorage) :
  let id := cp_ElectionID c in
  let m := tmap s in
  let '(r, s') := CommitFold now c proof folded s in
  if bool_decide (proof = []) || next_fault (td_faults (s_db s))
  then is_ok r = false /\ tmap s' = m
  else
    r = Ok tt /\
    checkpoint_at (tmap s') id = Some (kept_FoldCheckpoint (cp_set_updated now c)) /\
    fold_proof_at (tmap s') id = Some proof /\
    (forall seq, batch_proof_at (tmap s') id seq =
       if bool_decide (seq ∈ folded) then None else batch_proof_at m id seq) /\
    (forall k, k <> KFold id -> k <> KFoldProof id ->
       (forall seq, seq ∈ folded -> k <> KBatchProof id seq) -> tmap s' !! k = m !! k).
Proof.
  cbv zeta. set (id := cp_ElectionID c).
  unfold CommitFold, mbind, stE_bind, throw_if.
  case_bool_decide as Hp; [done|]. cbn [orb].
  set (ws := WPut _ _ :: _). cbn [mret stE_ret].
  destruct (commit ws s) as [r s'] eqn:E.
  destruct (next_fault (td_faults (s_db s))) eqn:Hf.
  { destruct (tmap_commit_failed ws s Hf) as [H1 H2]. rewrite E in H1, H2. simpl in *. by subst. }
  destruct (tmap_commit ws s Hf) as [H1 H2]. rewrite E in H1, H2. cbn [fst snd] in H1, H2.
  unfold ws in H2. rewrite !td_writes_cons in H2. simpl td_write in H2.
  repeat split; [done|..].
  - unfold checkpoint_at. rewrite H2, delete_proofs_lookup. rewrite lookup_insert_ne by done.
    by rewrite lookup_insert_eq.
  - unfold fold_proof_at. rewrite H2, delete_proofs_lookup. by rewrite lookup_insert_eq.
  - intros seq. unfold batch_proof_at. rewrite H2, delete_proofs_lookup.
    repeat case_decide; case_bool_decide; try naive_solver.
    by rewrite !lookup_insert_ne.
  - intros k H3 H4 H5. rewrite H2, delete_proofs_lookup.
    assert (<[KFoldProof id:=ABlob proof]> (<[KFold id:=AFold
      (kept_FoldCheckpoint (cp_set_updated now c))]> (tmap s)) !! k = tmap s !! k) as Hk
      by (rewrite !lookup_insert_ne; congruence).
    destruct k; try done. case_decide as Hd; [|done]. destruct Hd as [-> Hq]. by destruct (H5 seq).
Qed.

(** ** The vote log *)

(** The votes of an election carry distinct sequence numbers up to the
    counter. *)
Record log_ok (id : ElectionID) (m : store) : Prop := {
  log_counter : exists n, counter_at m id = Some n /\ (n < two64)%N /\
    forall v x, vote_at m id v = Some x -> (1 <= v_Seq x <= n)%N;
  log_ids v x : vote_at m id v = Some x -> v_ID x = v;
  log_distinct v1 v2 x1 x2 :
    vote_at m id v1 = Some x1 -> vote_at m id v2 = Some x2 -> v_Seq x1 = v_Seq x2 -> v1 = v2;
}.

Lemma log_ok_ext id (m m' : store) :
  m' !! KVoteSeq id = m !! KVoteSeq id -> (forall v, m' !! KVote id v = m !! KVote id v) ->
  log_ok id m -> log_ok id m'.
Proof.
  intros Hc Hv [(n & Hn & Hb & Hle) Hids Hd].
  assert (forall v, vote_at m' id v = vote_at m id v) as Ev
    by (intros v; unfold vote_at; by rewrite Hv).
  split.
  - exists n. unfold counter_at. rewrite Hc. split; [done|]. split; [done|].
    intros v x. rewrite Ev. apply Hle.
  - intros v x. rewrite Ev. apply Hids.
  - intros v1 v2 x1 x2. rewrite !Ev. apply Hd.
Qed.

(** What accepting a vote leaves in the log. *)
Lemma add_writes_lookup now id n v (m : store) :
  let m' := td_writes [WPut (KVoteSeq id) (AVoteSeq n);
    WPut (KVote id (v_ID v)) (AVote (v_set_log n now v));
    WPut (KVoteStatus id (v_ID v)) (AVoteStatus VoteStatusPending)] m in
  counter_at m' id = Some n /\
  (forall u, vote_at m' id u =
     if decide (u = v_ID v) then Some (kept_Vote (v_set_log n now v)) else vote_at m id u) /\
  (forall u, status_at m' id u =
     if decide (u = v_ID v) then Some VoteStatusPending else status_at m id u).
Proof.
  cbn. split; [|split].
  - unfold counter_at. by rewrite !lookup_insert_ne, lookup_insert_eq by done.
  - intros u. unfold vote_at. rewrite lookup_insert_ne by done. case_decide as Hd.
    + subst. by rewrite lookup_insert_eq.
    + by rewrite !lookup_insert_ne by congruence.
  - intros u. unfold status_at. case_decide as Hd.
    + subst. by rewrite lookup_insert_eq.
    + by rewrite !lookup_insert_ne by congruence.
Qed.

Lemma add_log_ok now id n v (m : store) :
  counter_at m id = Some n -> (n + 1 < two64)%N -> log_ok id m ->
  log_ok id (td_writes [WPut (KVoteSeq id) (AVoteSeq (u64_succ n));
    WPut (KVote id (v_ID v)) (AVote (v_set_log (u64_succ n) now v));
    WPut (KVoteStatus id (v_ID v)) (AVoteStatus VoteStatusPending)] m).
Proof.
  intros Hn Hb [(n' & Hn' & _ & Hle) Hids Hd]. rewrite Hn in Hn'. injection Hn' as <-.
  unfold u64_succ. rewrite u64_small by done.
  destruct (add_writes_lookup now id (n + 1)%N v m) as (Hc & Hv & _).
  set (m' := td_writes _ m) in *.
  split.
  - exists (n + 1)%N. split; [done|]. split; [done|]. intros u x. rewrite Hv.
    case_decide; [intros [= <-]; simpl; lia|]. intros Hx. apply Hle in Hx. lia.
  - intros u x. rewrite Hv. case_decide; [by intros [= <-]|apply Hids].
  - intros u1 u2 x1 x2. rewrite !Hv. intros H1 H2 E.
    destruct (decide (u1 = v_ID v)) as [E1|E1], (decide (u2 = v_ID v)) as [E2|E2];
      [congruence| | |by eapply Hd].
    + injection H1 as <-. apply Hle in H2. simpl in E. lia.
    + injection H2 as <-. apply Hle in H1. simpl in E. lia.
Qed.

(** The votes of an election carry pairwise distinct sequence numbers that
    never exceed its counter, whatever storage call is made, until the 64-bit
    counter is exhausted. *)
Theorem vote_log_preserved id {A} (c : call A) (s : TStorage) :
  (forall n, counter_at (tmap s) id = Some n -> (n + 1 < two64)%N) ->
  log_ok id (tmap s) -> log_ok id (tmap (run_call c s).2).
Proof.
  intros Hb. apply call_preserves. intros ws Hw Hok.
  destruct c; cbn [call_writes] in Hw; break; subst; try done;
    try (apply (log_ok_ext id (tmap s)); [| |done]; [|intros u];
         apply td_writes_untouched; by untouched).
  - destruct (decide (id0 = id)) as [->|Hne].
    + apply add_log_ok; [done|by apply Hb|done].
    + apply (log_ok_ext id (tmap s)); [| |done]; [|intros u];
        apply td_writes_untouched; untouched.
  - apply (log_ok_ext id (tmap s)); [| |done]; [|intros u]; by rewrite seal_writes_lookup.
Qed.

(** Every pending vote is in the log: [AddVote] writes its record and its status
    in one transaction, and no call deletes a vote. *)
Definition pending_stored (id : ElectionID) (m : store) : Prop :=
  forall u, status_at m id u = Some VoteStatusPending -> exists v, vote_at m id u = Some v /\ v_ID v = u.

Lemma pending_stored_ext id (m m' : store) :
  (forall u, vote_at m' id u = vote_at m id u) ->
  (forall u, status_at m' id u = Some VoteStatusPending -> status_at m id u = Some VoteStatusPending) ->
  pending_stored id m -> pending_stored id m'.
Proof. intros Hv Hs Hm u Hu%Hs. rewrite Hv. by apply Hm. Qed.

Theorem pending_stored_preserved id {A} (c : call A) (s : TStorage) :
  (match c with CSetVoteStatus _ _ st => st <> VoteStatusPending | _ => True end) ->
  pending_stored id (tmap s) -> pending_stored id (tmap (run_call c s).2).
Proof.
  intros Hc. apply call_preserves. intros ws Hw Hok.
  destruct c; cbn [call_writes] in Hw; break; subst; try done;
    try (apply (pending_stored_ext id (tmap s)); [intros u|intros u|done];
         unfold vote_at, status_at; by rewrite td_writes_untouched by untouched).
  - destruct (decide (id0 = id)) as [->|Hne].
    + rename select (counter_at _ _ = _) into Hn.
      match goal with |- pending_stored _ (td_writes [WPut (KVoteSeq _) (AVoteSeq ?n); WPut _ (AVote (v_set_log _ ?now ?v)); _] _) =>
        destruct (add_writes_lookup now id n v (tmap s)) as (_ & Hv & Hs) end.
      intros u. rewrite Hs, Hv. case_decide as Hd; [|apply Hok]. intros _. eexists. split; [done|]. by subst.
    + apply (pending_stored_ext id (tmap s)); [intros u|intros u|done];
        unfold vote_at, status_at; rewrite td_writes_untouched; try done; untouched.
  - apply (pending_stored_ext id (tmap s)); [intros u; unfold vote_at; cbn; by rewrite lookup_insert_ne| |done].
    intros u. unfold status_at. cbn.
    match goal with |- context [<[?k := _]> _ !! _] => destruct (decide (k = KVoteStatus id u)) as [->|Hne] end.
    + rewrite lookup_insert_eq. cbn. by intros [= ->].
    + by rewrite lookup_insert_ne.
  - apply (pending_stored_ext id (tmap s)); [intros u; unfold vote_at; by rewrite seal_writes_lookup| |done].
    intros u. unfold status_at. rewrite seal_writes_lookup. by case_decide.
Qed.

(** ** Batches *)

(** Every batch is stored under its own election and sequence number. *)
Definition batches_keyed (m : store) : Prop :=
  well_kinded m /\
  forall id seq b, batch_at m id seq = Some b -> bi_ElectionID b = id /\ bi_Seq b = seq.

Lemma omap_batches m id (keys : list Key) :
  (forall k, k ∈ keys -> exists seq b, k = KBatch id seq /\ batch_at m id seq = Some b /\
     bi_Seq b = seq) ->
  exists l, decoded as_batch ((fun k => (scan_suffix (ScanBatches id) k, m !! k)) <$> keys) = l /\
    KBatch id <$> (bi_Seq <$> l) = keys /\
    Forall (fun b => batch_at m id (bi_Seq b) = Some b) l.
Proof.
  intros Hk. eexists. split; [reflexivity|].
  induction keys as [|k keys IH]; [by split|].
  destruct (Hk k) as (seq & b & -> & Hb & Hseq); [set_solver|].
  destruct IH as [IH1 IH2]; [set_solver|].
  unfold decoded in *. csimpl. unfold batch_at in Hb.
  destruct (m !! KBatch id seq) as [[]|] eqn:E; simplify_eq/=.
  split; [by rewrite IH1|]. constructor; [|done]. unfold batch_at. by rewrite E.
Qed.

Lemma batch_keys_sorted (m : store) id seqs :
  well_kinded m -> td_scan_keys (ScanBatches id) m = KBatch id <$> seqs ->
  StronglySorted N.lt seqs.
Proof.
  intros Hwk E.
  pose proof (td_scan_keys_sorted (ScanBatches id) m) as Hs.
  pose proof (td_scan_keys_nodup (ScanBatches id) m) as Hnd.
  assert (forall k, k ∈ td_scan_keys (ScanBatches id) m -> valid_key k) as Hv.
  { intros k [_ [a Ha]]%elem_of_td_scan_keys. by destruct (Hwk k a Ha). }
  rewrite E in Hs, Hnd, Hv. clear E. apply Sorted_StronglySorted in Hs; [|apply _].
  apply NoDup_fmap_1 in Hnd.
  induction seqs as [|q seqs IH]; [constructor|].
  rewrite fmap_cons in Hs. apply StronglySorted_inv in Hs as [Hs' Hq].
  apply NoDup_cons in Hnd as [Hn Hnd'].
  constructor; [apply IH; set_solver|].
  apply Forall_forall. intros r Hr. rewrite Forall_forall in Hq.
  assert (scan_le (ScanBatches id) (KBatch id q) (KBatch id r)) as Hle
    by (apply Hq; set_solver).
  apply batch_scan_order in Hle; [|apply Hv; set_solver..].
  apply N.le_lteq in Hle as [?| ->]; [done|set_solver].
Qed.

Lemma ListBatchInputs_run id (s : TStorage) :
  batches_keyed (tmap s) -> td_readable (s_db s) = true ->
  exists l, ListBatchInputs id s = (Ok l, s) /\
    StronglySorted N.lt (bi_Seq <$> l) /\
    (forall b, b ∈ l <-> batch_at (tmap s) id (bi_Seq b) = Some b).
Proof.
  intros [Hwk Hkey] Hr. unfold ListBatchInputs, list_all, mbind, stE_bind.
  rewrite iterate_run, Hr.
  destruct (omap_batches (tmap s) id (td_scan_keys (ScanBatches id) (tmap s)))
    as (l & El & Ekeys & Hall).
  { intros k [Hin [a Ha]]%elem_of_td_scan_keys.
    destruct (Hwk k a Ha) as [Hkind _]. destruct k; simpl in Hin; try done. subst.
    destruct a as [| | | | |b| | | | |]; try done. exists seq, b.
    assert (batch_at (tmap s) id seq = Some b) as Hb by (unfold batch_at; by rewrite Ha).
    by destruct (Hkey _ _ _ Hb). }
  exists l. split; [by rewrite <- El|]. split; [by eapply batch_keys_sorted|].
  intros b. rewrite Forall_forall in Hall. split; [apply Hall|]. intros Hb.
  assert (KBatch id (bi_Seq b) ∈ KBatch id <$> (bi_Seq <$> l)) as Hin.
  { rewrite Ekeys. apply elem_of_td_scan_keys. split; [done|].
    unfold batch_at in Hb. by case_match. }
  apply list_elem_of_fmap in Hin as (q & [= Eq] & Hin).
  apply list_elem_of_fmap in Hin as (b' & Eb & Hb'). specialize (Hall b' Hb').
  rewrite <- Eb, <- Eq, Hb in Hall. by injection Hall as ->.
Qed.

(** Listing the batches of an election returns exactly the stored ones,
    ordered by sequence number, each once. *)
Theorem ListBatchInputs_ordered id (s : TStorage) :
  batches_keyed (tmap s) -> td_readable (s_db s) = true ->
  exists l, ListBatchInputs id s = (Ok l, s) /\
    StronglySorted N.lt (bi_Seq <$> l) /\
    (forall b, b ∈ l <-> batch_at (tmap s) id (bi_Seq b) = Some b).
Proof. apply ListBatchInputs_run. Qed.

(** The storage calls keep batches under their keys. *)
Lemma kept_stamp_keys now b :
  bi_ElectionID (kept_BatchInput (stamp_sealed now b)) = bi_ElectionID b /\
  bi_Seq (kept_BatchInput (stamp_sealed now b)) = bi_Seq b.
Proof. unfold stamp_sealed. by destruct (IsZero (bi_SealedAt b)). Qed.

Lemma call_writes_ok {A} (c : call A) m ws :
  call_ok c -> call_writes c m ws -> Forall write_ok ws.
Proof.
  destruct c; cbn [call_writes call_ok]; intros Hok Hw; break; subst; try done;
    try (by repeat constructor);
    try (by apply write_ok_delUnder).
  - constructor; [by split|]. constructor; [by split|].
    unfold batched_of. apply Forall_forall. intros w (v & Hv & Hw)%list_elem_of_omap.
    repeat case_match; by simplify_eq/=.
  - do 2 (constructor; [by split|]). by apply Forall_fmap.
  - constructor; [|done]. split; [done|]. simpl.
    destruct (IsZero (au_Timestamp r)) eqn:E; [done|auto].
Qed.

(** Batches under their own keys, without the kinds. *)
Definition keyed_at (m : store) : Prop :=
  forall id seq b, batch_at m id seq = Some b -> bi_ElectionID b = id /\ bi_Seq b = seq.

Lemma keyed_at_ext (m m' : store) :
  (forall id seq, m' !! KBatch id seq = m !! KBatch id seq) -> keyed_at m -> keyed_at m'.
Proof. intros E Hm id seq b. unfold batch_at. rewrite E. apply Hm. Qed.

Lemma keyed_at_put b b' (m m' : store) :
  bi_ElectionID b' = bi_ElectionID b -> bi_Seq b' = bi_Seq b ->
  (forall id seq, m' !! KBatch id seq =
     if decide (id = bi_ElectionID b /\ seq = bi_Seq b) then Some (ABatch b')
     else m !! KBatch id seq) ->
  keyed_at m -> keyed_at m'.
Proof.
  intros E1 E2 Em Hm id seq x. unfold batch_at. rewrite Em. case_decide as Hd; [|apply Hm].
  destruct Hd as [-> ->]. by intros [= <-].
Qed.

Lemma insert_batch_lookup (m : store) id seq a id' seq' :
  <[KBatch id seq := a]> m !! KBatch id' seq' =
    if decide (id' = id /\ seq' = seq) then Some a else m !! KBatch id' seq'.
Proof.
  case_decide as Hd; [destruct Hd as [-> ->]; apply lookup_insert_eq|].
  rewrite lookup_insert_ne; [done|]. intros [= -> ->]. by apply Hd.
Qed.

(** Every storage call with in-range sequence numbers keeps each batch
    stored under its own election and sequence number, and each key holding
    an artifact of its type. *)
Theorem batches_keyed_preserved {A} (c : call A) (s : TStorage) :
  call_ok c -> batches_keyed (tmap s) -> batches_keyed (tmap (run_call c s).2).
Proof.
  intros Hok. apply call_preserves. intros ws Hw [Hwk Hkey].
  split; [apply td_writes_well_kinded; [by eapply call_writes_ok|done]|].
  fold (keyed_at (tmap s)) in Hkey. fold (keyed_at (td_writes ws (tmap s))).
  destruct c; cbn [call_writes] in Hw; break; subst; try done;
    try (apply (keyed_at_ext (tmap s)); [|done]; intros;
         apply td_writes_untouched; by untouched).
  - destruct (kept_stamp_keys now b) as [E1 E2].
    apply (keyed_at_put b _ (tmap s) _ E1 E2); [|done]. intros. apply insert_batch_lookup.
  - destruct (kept_stamp_keys now b) as [E1 E2].
    apply (keyed_at_put b _ (tmap s) _ E1 E2); [|done]. intros. by rewrite seal_writes_lookup.
  - apply (keyed_at_put b (kept_BatchInput b) (tmap s)); [done..| |done]. intros. simpl.
    rewrite lookup_delete_ne by done. apply insert_batch_lookup.
Qed.

(** ** Reservations *)

Definition reserved (m : store) (id : ElectionID) (seq : N) : Prop :=
  is_Some (m !! KReservation id seq).

(** The calls that may free the reservation of a batch. *)
Definition frees (id : ElectionID) (seq : N) {A} (c : call A) : Prop :=
  match c with
  | CReleaseBatch id' seq' => id' = id /\ seq' = seq
  | CReleaseStale _ => True
  | _ => False
  end.

Lemma call_keeps_reserved id seq {A} (c : call A) (m : store) ws :
  ~ frees id seq c -> call_writes c m ws -> reserved m id seq -> reserved (td_writes ws m) id seq.
Proof.
  intros Hf Hw Hr. unfold reserved in *.
  destruct c; cbn [call_writes] in Hw; break; subst; try done;
    try (rewrite td_writes_untouched by (by untouched); done).
  - by rewrite seal_writes_lookup.
  - simpl. destruct (decide (KReservation id0 seq0 = KReservation id seq)) as [->|?].
    + rewrite lookup_insert_eq. by eexists.
    + by rewrite lookup_insert_ne.
Qed.

(** A reservation excludes: once a batch is reserved, every attempt to
    reserve it fails with [ErrKeyAlreadyExists] and leaves the store alone,
    through any client activity that neither releases it nor runs the stale
    monitor. *)
Theorem ReserveBatch_exclusive {A} now now' id seq (s s' : TStorage) (p : program A) :
  ReserveBatch now id seq s = (Ok tt, s') ->
  program_all (fun X c => ~ frees id seq c) p ->
  let s2 := (run_program p s').2 in
  ReserveBatch now' id seq s2 = (Err [ErrKeyAlreadyExists], s2).
Proof.
  intros E Hp s2. assert (reserved (tmap s2) id seq) as [a Ha].
  { change (reserved (tmap s2) id seq).
    apply (program_preserves (fun m => reserved m id seq) (fun X c => ~ frees id seq c));
      [|done|].
    - intros X c m ws. apply call_keeps_reserved.
    - pose proof (ReserveBatch_effect now id seq s) as He. rewrite E in He.
      destruct He as [(ws & [_ ->] & Hm)|[[] _]]. simpl in Hm. unfold reserved.
      rewrite Hm, lookup_insert_eq. by eexists. }
  unfold ReserveBatch, setReservation, mbind, stE_bind, attempt.
  by rewrite getArtifact_run, Ha.
Qed.

(** ** Deletions found by a scan *)

Lemma scan_suffix_inj sc k1 k2 :
  in_scan sc k1 -> in_scan sc k2 -> valid_key k1 -> valid_key k2 ->
  scan_suffix sc k1 = scan_suffix sc k2 -> k1 = k2.
Proof.
  intros H1%in_scan_prefix H2%in_scan_prefix V1 V2 E.
  apply key_bytes_injective; [done..|]. by rewrite H1, H2, E.
Qed.

Lemma del_under_lookup sc (l : list (bytes * option Artifact)) (m : store) k :
  td_writes ((fun p => WDelUnder sc p.1) <$> l) m !! k =
    if decide (in_scan sc k /\ scan_suffix sc k ∈ l.*1) then None else m !! k.
Proof.
  revert m. induction l as [|p l IH]; intros m.
  - simpl. rewrite decide_False; [done|]. set_solver.
  - rewrite !fmap_cons, td_writes_cons, IH. clear IH.
    destruct (decide (in_scan sc k /\ scan_suffix sc k ∈ l.*1)) as [Hd|Hd].
    + rewrite decide_True; [done|]. set_solver.
    + destruct (decide (in_scan sc k /\ scan_suffix sc k = p.1)) as [Hp|Hp].
      * rewrite decide_True by set_solver. simpl. apply map_lookup_filter_None. right.
        intros x Hx Hn. by apply Hn.
      * rewrite decide_False by set_solver. apply td_write_untouched. done.
Qed.

(** Deleting the scanned artifacts that satisfy a predicate. *)
Lemma del_scanned_lookup sc (Q : option Artifact -> Prop) `{!forall a, Decision (Q a)} (m : store) k :
  well_kinded m ->
  td_writes ((fun p => WDelUnder sc p.1) <$> filter (fun p => Q p.2) (td_scan sc m)) m !! k =
    if decide (in_scan sc k /\ Q (m !! k)) then None else m !! k.
Proof.
  intros Hwk. rewrite del_under_lookup.
  destruct (m !! k) as [a|] eqn:Ek; [|by repeat case_decide].
  assert (in_scan sc k -> scan_suffix sc k ∈ (filter (fun p => Q p.2) (td_scan sc m)).*1 <-> Q (Some a)) as Hiff.
  { intros Hin. split.
    - intros ([x o] & Ex & [HQ Hin']%list_elem_of_filter)%list_elem_of_fmap.
      apply list_elem_of_fmap in Hin' as (k' & [= -> ->] & [Hk' [a' Ha']]%elem_of_td_scan_keys).
      apply scan_suffix_inj in Ex as <-; [|done..|by apply (Hwk k a)|by apply (Hwk k' a')].
      simpl in HQ. by rewrite Ek in HQ.
    - intros HQ. apply list_elem_of_fmap. exists (scan_suffix sc k, m !! k). split; [done|].
      apply list_elem_of_filter. split; [by rewrite Ek|].
      apply list_elem_of_fmap. exists k. split; [done|]. apply elem_of_td_scan_keys.
      split; [done|]. by eexists. }
  repeat case_decide; naive_solver.
Qed.

(** A run of the monitor frees exactly the reservations older than the
    timeout, in whole seconds, and touches nothing else. *)
Theorem monitor_frees_stale now (s : TStorage) :
  well_kinded (tmap s) ->
  td_readable (s_db s) = true -> next_fault (td_faults (s_db s)) = false ->
  let s' := (monitorStaleReservations now s).2 in
  (forall id seq ts, tmap s !! KReservation id seq = Some (AReservation ts) ->
     tmap s' !! KReservation id seq =
       if (Seconds (s_reservationTimeout s) <? Unix now - ts)%Z
       then None else Some (AReservation ts)) /\
  (forall k, ~ in_scan ScanReservations k -> tmap s' !! k = tmap s !! k).
Proof.
  intros Hwk Hr Hf s'.
  set (stale := fun a => is_stale (Unix now) (s_reservationTimeout s) a = true).
  assert (forall k, tmap s' !! k =
    if decide (in_scan ScanReservations k /\ stale (tmap s !! k)) then None else tmap s !! k) as E.
  { intros k. etrans; [|exact (del_scanned_lookup ScanReservations stale (tmap s) k Hwk)].
    subst s' stale. unfold monitorStaleReservations, releaseStaleReservations,
      releaseStaleInPrefix, mbind at 1, stE_bind at 1, gets, ignore.
    unfold mbind, stE_bind. rewrite iterate_run, Hr.
    set (l := filter _ (td_scan _ _)). change (filter _ (td_scan _ _)) with l.
    destruct l as [|p l']; [done|]. destruct (tmap_commit ((fun p => WDelUnder ScanReservations p.1)
      <$> (p :: l')) s Hf) as [H1 H2].
    exact (f_equal (lookup k) H2). }
  split.
  - intros id seq ts Hts. rewrite E, Hts. unfold stale. simpl.
    destruct (_ <? _)%Z; case_decide; naive_solver.
  - intros k Hk. rewrite E. case_decide; naive_solver.
Qed.

(** Opening the store drops every reservation a previous run left and
    keeps everything else. *)
Theorem New_clears_reservations (d : TypedDB) :
  well_kinded (td_map d) -> td_readable d = true -> next_fault (td_faults d) = false ->
  forall k, tmap (New d) !! k = if decide (in_scan ScanReservations k) then None else td_map d !! k.
Proof.
  intros Hwk Hr Hf k. unfold New, ignore, recover, rethrow, cleanAllReservations.
  unfold mbind, stE_bind. rewrite iterate_run. unfold tmap at 1. cbn [s_db]. rewrite Hr.
  set (s0 := MkStorage d defaultReservationTimeout ∅ ∅ 0%N).
  destruct (tmap_commit ((fun p => WDelUnder ScanReservations p.1) <$>
    td_scan ScanReservations (tmap s0)) s0 Hf) as [H1 H2].
  transitivity (td_writes ((fun p => WDelUnder ScanReservations p.1) <$>
    td_scan ScanReservations (tmap s0)) (tmap s0) !! k).
  { rewrite <- H2. cbn [snd]. f_equal. change (tmap s0) with (td_map d).
    by destruct (commit _ s0) as [[] ?]. }
  pose proof (del_scanned_lookup ScanReservations (fun _ => True) (td_map d) k Hwk) as Hl.
  rewrite list_filter_id in Hl by (by apply Forall_true). etrans; [exact Hl|].
  repeat case_decide; naive_solver.
Qed.

(** ** Moving a vote's status *)

(** Whether a stored status lets the vote move to [st]. *)
Definition may_move (m : store) (id : ElectionID) (v : VoteID) (st : VoteStatus) : bool :=
  match status_at m id v with Some cur => CanMoveTo cur st | None => true end.

Lemma SetVoteStatus_run id v st (t : TStorage) :
  SetVoteStatus id v st t =
    if may_move (tmap t) id v st
    then commit [WPut (KVoteStatus id v) (AVoteStatus st)] t else (Ok tt, t).
Proof.
  unfold SetVoteStatus. unfold mbind at 1, stE_bind at 1, attempt, may_move, VoteStatus_.
  rewrite load_run. unfold status_at, as_voteStatus.
  destruct (tmap t !! KVoteStatus id v) as [[]|]; try done.
  by destruct (CanMoveTo s st).
Qed.

(** The commits from one storage to the next, by whether they failed. *)
Definition commits (used : list bool) (t t' : TStorage) : Prop :=
  td_faults (s_db t) = used ++ td_faults (s_db t').

(** A write failed on the way. *)
Definition failed_write (t t' : TStorage) : Prop := exists used, commits used t t' /\ true ∈ used.

(** Two storages that agree on everything but their artifacts. *)
Record proc_same (t t' : TStorage) : Prop := {
  ps_commits : exists used, commits used t t';
  ps_readable : td_readable (s_db t') = td_readable (s_db t);
  ps_timeout : s_reservationTimeout t' = s_reservationTimeout t;
  ps_addresses : s_processingAddresses t' = s_processingAddresses t;
  ps_voteIDs : s_processingVoteIDs t' = s_processingVoteIDs t;
}.

#[export] Instance proc_same_refl : Reflexive proc_same.
Proof. intros t. split; try done. by exists []. Qed.

#[export] Instance proc_same_trans : Transitive proc_same.
Proof.
  intros t1 t2 t3 [(u1 & E1)] [(u2 & E2)]. split; [|congruence..].
  exists (u1 ++ u2). unfold commits in *. by rewrite E1, E2, (assoc_L _).
Qed.

Lemma ps_faults t t' : proc_same t t' -> td_faults (s_db t) = [] -> td_faults (s_db t') = [].
Proof. intros [(u & E)] Hf. unfold commits in E. rewrite Hf in E. by apply eq_sym, app_eq_nil in E as [_ ->]. Qed.

Lemma failed_faults t t' : td_faults (s_db t) = [] -> ~ failed_write t t'.
Proof.
  intros Hf (u & E & Hu). unfold commits in E. rewrite Hf in E. apply eq_sym, app_eq_nil in E as [-> _].
  by apply not_elem_of_nil in Hu.
Qed.

Lemma failed_before t1 t2 t3 : failed_write t1 t2 -> proc_same t2 t3 -> failed_write t1 t3.
Proof.
  intros (u1 & E1 & Hu) [(u2 & E2)]. exists (u1 ++ u2). unfold commits in *. rewrite E1, E2, (assoc_L _).
  split; [done|set_solver].
Qed.
Lemma failed_after t1 t2 t3 : proc_same t1 t2 -> failed_write t2 t3 -> failed_write t1 t3.
Proof.
  intros [(u1 & E1)] (u2 & E2 & Hu). exists (u1 ++ u2). unfold commits in *. rewrite E1, E2, (assoc_L _).
  split; [done|set_solver].
Qed.

Lemma commit_proc ws (t : TStorage) : proc_same t (commit ws t).2.
Proof.
  destruct (commit_run ws t) as (t' & -> & _ & Hf & Hr & Ht & Ha & Hv & _). simpl.
  split; try done. unfold commits. rewrite Hf. destruct (td_faults (s_db t)) as [|f l]; [by exists []|by exists [f]].
Qed.

Lemma commit_failed ws (t : TStorage) : next_fault (td_faults (s_db t)) = true -> failed_write t (commit ws t).2.
Proof.
  destruct (commit_run ws t) as (t' & -> & _ & Hf & _). simpl. intros Hn. unfold failed_write, commits. rewrite Hf.
  destruct (td_faults (s_db t)) as [|f l]; [done|]. exists [f]. cbn in Hn. subst f. split; [done|by left].
Qed.

(** The state after [SetVoteStatus]: the write is made unless the move is
    refused or the commit fails. *)
Lemma SetVoteStatus_state id v st (t : TStorage) :
  let t' := (SetVoteStatus id v st t).2 in
  let wrote := may_move (tmap t) id v st && negb (next_fault (td_faults (s_db t))) in
  tmap t' = (if wrote then <[KVoteStatus id v := AVoteStatus st]> (tmap t) else tmap t) /\
  (may_move (tmap t) id v st = true -> wrote = false -> failed_write t t') /\ proc_same t t'.
Proof.
  cbv zeta. rewrite SetVoteStatus_run. destruct (may_move (tmap t) id v st); [|done].
  split_and!; [| |apply commit_proc].
  2:{ intros _ Hw. apply commit_failed. by destruct (next_fault _). }
  destruct (commit_run [WPut (KVoteStatus id v) (AVoteStatus st)] t) as (t' & -> & Hm & _).
  cbn [snd]. rewrite Hm. by destruct (next_fault _).
Qed.

(** [AppendAudit] adds an audit record, or nothing. *)
Lemma AppendAudit_state now r (t : TStorage) :
  let t' := (AppendAudit now r t).2 in
  (forall k, ~ in_scan ScanAudit k -> tmap t' !! k = tmap t !! k) /\ proc_same t t'.
Proof.
  cbv zeta. unfold AppendAudit. set (r' := if IsZero _ then _ else _).
  unfold mbind at 1, stE_bind at 1, modify. unfold mbind, stE_bind, gets, setArtifact.
  set (t1 := set_auditSeq _ t). set (ws := [WPut _ _]).
  assert (proc_same t t1) as H1 by (split; try done; by exists []).
  split; [|by trans t1; [|apply commit_proc]]. intros k Hk.
  destruct (commit_run ws t1) as (t' & -> & Hm & _). cbn [snd]. rewrite Hm.
  destruct (next_fault _); [done|]. rewrite td_writes_untouched; [done|].
  constructor; [|constructor]. simpl. by intros <-.
Qed.
