(* ===== verification/Seal.v ===== *)
(** * Sealing batches (orchestrator/seal.go)

    The live runtime of an election and the operations that move its pending
    votes into sealed batches.  The state is the engine's environment (the
    storage, the counter of state-tree calls and the scheduler's triggers) with
    the runtime; the caller holds the runtime's mutex throughout. *)

From S2P Require Import Prelude Errors Effects Bytes Types Records Keys Artifacts Storage Sdk.
From S2P Require Import Config.

(** ** Choosing a batch *)

(** The loop of [nextBatch]; [n] is the length of the batch so far. *)
Fixpoint nextBatch_loop (size : Z) (slots : gset N) (n : Z) (pending : list Vote) :
    list Vote * list Vote :=
  match pending with
  | [] => ([], [])
  | v :: r =>
      if bool_decide (v_Slot v ∈ slots) || (n =? size)%Z then
        let '(batch, rest) := nextBatch_loop size slots n r in (batch, v :: rest)
      else
        let '(batch, rest) := nextBatch_loop size ({[v_Slot v]} ∪ slots) (n + 1) r in
        (v :: batch, rest)
  end.

(** [nextBatch] *)
Definition nextBatch (pending : list Vote) (size : Z) : list Vote * list Vote :=
  nextBatch_loop size ∅ 0 pending.

Section seal.
Context {D : Type} `{ADB D} `{Chain}.

(** ** State *)

(** What the engine's components share: [dispatchers] is the scheduler's map,
    [None] in ingest-only mode, with each election's pending trigger. *)
Record Env := MkEnv {
  env_store : Storage D;
  env_calls : nat;
  env_dispatchers : option (gmap ElectionID bool);
  env_stopping : bool;
}.

(** [electionRuntime] *)
Record Runtime := MkRuntime {
  rt_id : ElectionID;
  rt_rules : voteRules;
  rt_state : ChainState;
  rt_dirty : bool;
  rt_pending : list Vote;
  rt_batchSeq : N;
  rt_batchSize : Z;
}.
Definition rt_cfg (rt : Runtime) : ChainConfig := vr_cfg (rt_rules rt).

Record SW := MkSW { sw_env : Env; sw_rt : Runtime }.

Definition set_store (s : Storage D) (e : Env) : Env :=
  MkEnv s (env_calls e) (env_dispatchers e) (env_stopping e).
Definition set_calls (n : nat) (e : Env) : Env :=
  MkEnv (env_store e) n (env_dispatchers e) (env_stopping e).
Definition set_dispatchers (d : option (gmap ElectionID bool)) (e : Env) : Env :=
  MkEnv (env_store e) (env_calls e) d (env_stopping e).

Definition set_chain (st : ChainState) (dirty : bool) (rt : Runtime) : Runtime :=
  MkRuntime (rt_id rt) (rt_rules rt) st dirty (rt_pending rt) (rt_batchSeq rt) (rt_batchSize rt).
Definition set_pending (l : list Vote) (rt : Runtime) : Runtime :=
  MkRuntime (rt_id rt) (rt_rules rt) (rt_state rt) (rt_dirty rt) l (rt_batchSeq rt) (rt_batchSize rt).
Definition set_sealed (l : list Vote) (rt : Runtime) : Runtime :=
  MkRuntime (rt_id rt) (rt_rules rt) (rt_state rt) false l (u64_succ (rt_batchSeq rt))
    (rt_batchSize rt).

Definition on_rt (f : Runtime -> Runtime) : stE SW unit :=
  modify (fun s => MkSW (sw_env s) (f (sw_rt s))).
Definition rt_get {A} (f : Runtime -> A) : stE SW A := gets (fun s => f (sw_rt s)).

(** A storage call. *)
Definition in_store {A} (m : stE (Storage D) A) : stE SW A :=
  zoom (fun s => env_store (sw_env s))
       (fun st s => MkSW (set_store st (sw_env s)) (sw_rt s)) m.

(** [Scheduler.Notify], on the environment (orchestrator/dispatch.go). *)
Definition Notify_env (id : ElectionID) (e : Env) : Env :=
  match env_dispatchers e with
  | Some d => if env_stopping e then e else set_dispatchers (Some (<[id := true]> d)) e
  | None => e
  end.
Definition Notify (id : ElectionID) : stE SW unit :=
  modify (fun s => MkSW (Notify_env id (sw_env s)) (sw_rt s)).

(** [Engine.audit]: a failure is logged. *)
Definition audit_record (now : time) (subject role action : string) (id : ElectionID) :
    AuditRecord :=
  {| au_Subject := subject; au_Role := role; au_Action := action;
     au_ElectionID := id; au_Timestamp := now |}.
Definition audit (now : time) (subject role action : string) (id : ElectionID) : stE SW unit :=
  in_store (ignore (AppendAudit now (audit_record now subject role action id))).

(** ** State changes *)

(** [rt.state.ApplyBatch], which leaves the runtime dirty. *)
Definition apply_call (vs : list ChainVote) :
    stE SW (option (StateTransitionData * ReencryptionData)) := fun s =>
  let rt := sw_rt s in
  let '(r, st) := ApplyBatch (rt_state rt) (env_calls (sw_env s)) vs in
  (Ok r, MkSW (set_calls (S (env_calls (sw_env s))) (sw_env s)) (set_chain st true rt)).

(** [Engine.restoreState] *)
Definition restoreState : stE SW unit :=
  id ← rt_get rt_id;
  blob ← in_store (Snapshot id);
  cfg ← rt_get rt_cfg;
  st ← lift (of_option (RestoreState cfg blob) errorf);
  on_rt (set_chain st false).

(** [Engine.dropVote]; [p == v] compares pointers, and two pending votes
    never share their sequence number. *)
Definition dropVote (v : Vote) : stE SW unit :=
  id ← rt_get rt_id;
  _ ← on_rt (fun rt => set_pending (filter (fun p => p <> v) (rt_pending rt)) rt);
  in_store (ignore (SetVoteStatus id (v_ID v) VoteStatusError)).

(** ** [applyBatch] *)

(** The binary search for the shortest failing prefix: [batch[:hi]] fails. *)
Fixpoint bisect (fuel : nat) (batch : list ChainVote) (lo hi : nat) : stE SW nat :=
  match fuel with
  | O => mret hi
  | S fuel =>
      if (lo <? hi)%nat then
        let mid := ((lo + hi) / 2)%nat in
        p ← apply_call (take mid batch);
        _ ← restoreState;
        match p with
        | None => bisect fuel batch lo mid
        | Some _ => bisect fuel batch (mid + 1) hi
        end
      else mret hi
  end.

(** The loop over the positions still in the batch.  Its fuel is the number
    of votes: each round without success refuses one. *)
Fixpoint applyBatch_loop (fuel : nat) (votes : list ChainVote) (idx : list nat)
    (refused : gset nat) :
    stE SW (option (StateTransitionData * ReencryptionData) * gset nat) :=
  match fuel, idx with
  | S fuel, _ :: _ =>
      let batch := omap (fun j => votes !! j) idx in
      r ← apply_call batch;
      match r with
      | Some d => mret (Some d, refused)
      | None =>
          _ ← restoreState;
          hi ← bisect (length batch) batch 1 (length batch);
          applyBatch_loop fuel votes (delete (hi - 1)%nat idx)
            (list_to_set (option_list (idx !! (hi - 1)%nat)) ∪ refused)
      end
  | _, _ => mret (None, refused)
  end.

Definition applyBatch (votes : list ChainVote) :
    stE SW (option (StateTransitionData * ReencryptionData) * gset nat) :=
  applyBatch_loop (length votes) votes (seq 0 (length votes)) ∅.

(** ** [sealLocked] *)

(** A vote of the batch, decoded. *)
Definition Decoded : Type := Vote * ChainVote * voteProofBundle.

Fixpoint decode_batch (batch : list Vote) : stE SW (list Decoded) :=
  match batch with
  | [] => mret []
  | v :: r =>
      cfg ← rt_get rt_cfg;
      match Deserialize (cc_EncKey cfg) (v_Ballot v), unmarshal_bundle (v_Payload v) with
      | Some ballot, Some bundle =>
          l ← decode_batch r;
          mret ((v, MkChainVote _ (v_Slot v) (v_VoteIDKey v) ballot, bundle) :: l)
      | _, _ =>
          _ ← dropVote v;
          decode_batch r
      end
  end.

(** The votes the state refused are dropped, the others kept, by position. *)
Fixpoint drop_refused (refused : gset nat) (i : nat) (l : list Decoded) :
    stE SW (list Decoded) :=
  match l with
  | [] => mret []
  | d :: r =>
      if decide (i ∈ refused) then
        _ ← dropVote d.1.1;
        drop_refused refused (S i) r
      else
        k ← drop_refused refused (S i) r;
        mret (d :: k)
  end.

Definition prove_request (vk : bytes) (data : StateTransitionData * ReencryptionData)
    (bundles : list voteProofBundle) : ProveRequest StateTransitionData ReencryptionData :=
  {| pr_VK := vk; pr_Output := "stark"; pr_State := data.1; pr_Reencryption := data.2;
     pr_Proofs := vb_Proof <$> bundles; pr_PublicInputs := vb_PublicInputs <$> bundles;
     pr_Sigs := vb_Sig <$> bundles; pr_CensusProofs := vb_Census <$> bundles |}.

Definition batch_input (now : time) (rt : Runtime) (req : bytes) (ids : list VoteID) : BatchInput :=
  {| bi_ElectionID := rt_id rt; bi_Seq := rt_batchSeq rt; bi_ProveRequest := req;
     bi_NewStateRoot := State_Root (rt_state rt); bi_VoteIDs := ids;
     bi_Worker := ""; bi_JobID := ""; bi_ImportedID := ""; bi_FoldWorker := "";
     bi_SealedAt := now |}.

(** The writes of a sealed batch: the prove request, the snapshot, the batch
    and the new pending buffer. *)
Definition persist_batch (now : time) (vk : bytes)
    (data : StateTransitionData * ReencryptionData) (sealed : list Decoded)
    (rest : list Vote) : stE SW unit :=
  req ← lift (of_option (marshal_request (prove_request vk data (snd <$> sealed))) errorf);
  rt ← rt_get (fun rt => rt);
  snapshot ← lift (of_option (State_Snapshot (rt_state rt)) errorf);
  _ ← in_store (SealBatch now
    (batch_input now rt req ((fun d => v_ID d.1.1) <$> sealed)) snapshot);
  _ ← on_rt (set_sealed rest);
  _ ← audit now "system" "system" "seal_batch" (rt_id rt);
  Notify (rt_id rt).

(** A seal that failed after changing the state left it ahead of the
    persisted snapshot. *)
Definition restore_if_dirty : stE SW unit :=
  rt ← rt_get (fun rt => rt);
  if rt_dirty rt then restoreState else mret tt.

(** [Engine.sealLocked] *)
Definition sealLocked (now : time) : stE SW unit :=
  _ ← restore_if_dirty;
  rt ← rt_get (fun rt => rt);
  let '(batch, rest) := nextBatch (rt_pending rt) (rt_batchSize rt) in
  match batch with
  | [] => mret tt
  | _ =>
      el ← in_store (Election_ (rt_id rt));
      decoded ← decode_batch batch;
      ar ← applyBatch (d ← decoded; [d.1.2]);
      sealed ← drop_refused ar.2 0 decoded;
      match ar.1, sealed with
      | Some data, _ :: _ => persist_batch now (ec_VK (el_Config el)) data sealed rest
      | _, _ => on_rt (set_pending rest)
      end
  end.

(** [Engine.sealFullLocked]: seal while a whole batch is pending.  The fuel
    bounds the rounds: each takes a vote out of the buffer. *)
Fixpoint sealFull_loop (fuel : nat) (now : time) : stE SW unit :=
  match fuel with
  | O => mret tt
  | S fuel =>
      rt ← rt_get (fun rt => rt);
      let '(batch, _) := nextBatch (rt_pending rt) (rt_batchSize rt) in
      if (Z.of_nat (length batch) <? rt_batchSize rt)%Z then mret tt
      else _ ← sealLocked now; sealFull_loop fuel now
  end.

Definition sealFullLocked (now : time) : stE SW unit :=
  rt ← rt_get (fun rt => rt);
  sealFull_loop (S (length (rt_pending rt))) now.

(** [Engine.sealAllLocked] (orchestrator/lifecycle.go) *)
Fixpoint sealAll_loop (fuel : nat) (now : time) : stE SW unit :=
  match fuel with
  | O => mret tt
  | S fuel =>
      rt ← rt_get (fun rt => rt);
      match rt_pending rt with
      | [] => mret tt
      | _ => _ ← sealLocked now; sealAll_loop fuel now
      end
  end.

Definition sealAllLocked (now : time) : stE SW unit :=
  rt ← rt_get (fun rt => rt);
  sealAll_loop (S (length (rt_pending rt))) now.

(** [Engine.sealIfStale] (orchestrator/engine.go): seal partial batches while
    the oldest pending vote is older than the window; a failure is logged and
    ends the loop. *)
Fixpoint sealIfStale_loop (fuel : nat) (now : time) (window : duration) : stE SW unit :=
  match fuel with
  | O => mret tt
  | S fuel =>
      rt ← rt_get (fun rt => rt);
      match rt_pending rt with
      | v :: _ =>
          if (window <=? now - v_SubmittedAt v)%Z then
            _ ← sealLocked now; sealIfStale_loop fuel now window
          else mret tt
      | [] => mret tt
      end
  end.

Definition sealIfStale (now : time) (window : duration) : stE SW unit :=
  rt ← rt_get (fun rt => rt);
  ignore (sealIfStale_loop (S (length (rt_pending rt))) now window).
End seal.
Arguments Env : clear implicits.
Arguments SW D {_ _}.
