(* ===== verification/SealProps.v ===== *)
(** * Correctness of sealing

    The batch chosen, the votes the state refuses, and what a seal leaves in
    the runtime and the store. *)

From S2P Require Import Prelude Errors Effects Bytes Types Records KV Keys Artifacts Storage.
From S2P Require Import StorageRefine StorageSpec StorageProps Sdk Config Seal.

(** ** The batch chosen *)

Section next_batch.
Variable size : Z.
Implicit Types (slots : gset N) (pending : list Vote).

Lemma nextBatch_loop_cons slots n v pending :
  nextBatch_loop size slots n (v :: pending) =
    if bool_decide (v_Slot v ∈ slots) || (n =? size)%Z then
      ((nextBatch_loop size slots n pending).1, v :: (nextBatch_loop size slots n pending).2)
    else
      (v :: (nextBatch_loop size ({[v_Slot v]} ∪ slots) (n + 1) pending).1,
       (nextBatch_loop size ({[v_Slot v]} ∪ slots) (n + 1) pending).2).
Proof.
  cbn [nextBatch_loop]. destruct (_ || _); [by destruct (nextBatch_loop _ slots n pending)|].
  by destruct (nextBatch_loop _ _ (n + 1) pending).
Qed.

Lemma nextBatch_loop_perm slots n pending :
  (nextBatch_loop size slots n pending).1 ++ (nextBatch_loop size slots n pending).2 ≡ₚ pending.
Proof.
  revert slots n. induction pending as [|v pending IH]; intros slots n; [done|].
  rewrite nextBatch_loop_cons. destruct (_ || _); simpl; [|by rewrite IH].
  rewrite <- Permutation_middle. by rewrite IH.
Qed.

Lemma nextBatch_loop_sublist slots n pending :
  (nextBatch_loop size slots n pending).1 `sublist_of` pending /\
  (nextBatch_loop size slots n pending).2 `sublist_of` pending.
Proof.
  revert slots n. induction pending as [|v pending IH]; intros slots n; [done|].
  rewrite nextBatch_loop_cons. destruct (_ || _); simpl; split;
    by (apply sublist_skip || apply sublist_cons); apply IH.
Qed.

Lemma nextBatch_loop_slots slots n pending :
  NoDup (v_Slot <$> (nextBatch_loop size slots n pending).1) /\
  forall v, v ∈ (nextBatch_loop size slots n pending).1 -> v_Slot v ∉ slots.
Proof.
  revert slots n. induction pending as [|v pending IH]; intros slots n.
  { split; [constructor|]. intros v Hv. by apply not_elem_of_nil in Hv. }
  rewrite nextBatch_loop_cons. destruct (_ || _) eqn:E; simpl; [apply IH|].
  apply orb_false_iff in E as [E%bool_decide_eq_false _].
  destruct (IH ({[v_Slot v]} ∪ slots) (n + 1)%Z) as [Hnd Hin]. split.
  - constructor; [|done]. intros (w & Ew & Hw)%list_elem_of_fmap.
    apply (Hin w Hw). rewrite <- Ew. set_solver.
  - intros w [-> |Hw]%elem_of_cons; [done|]. specialize (Hin w Hw). set_solver.
Qed.

Lemma nextBatch_loop_length slots n pending :
  (n <= size)%Z -> (n + Z.of_nat (length (nextBatch_loop size slots n pending).1) <= size)%Z.
Proof.
  revert slots n. induction pending as [|v pending IH]; intros slots n Hn; [simpl; lia|].
  rewrite nextBatch_loop_cons. destruct (_ || _) eqn:E; simpl; [by apply IH|].
  apply orb_false_iff in E as [_ E%Z.eqb_neq].
  specialize (IH ({[v_Slot v]} ∪ slots) (n + 1)%Z). lia.
Qed.

(** A batch below the size leaves only votes whose slot it holds. *)
Lemma nextBatch_loop_maximal slots n pending :
  (n <= size)%Z ->
  (n + Z.of_nat (length (nextBatch_loop size slots n pending).1) < size)%Z ->
  forall v, v ∈ (nextBatch_loop size slots n pending).2 ->
    v_Slot v ∈ slots \/ v_Slot v ∈ v_Slot <$> (nextBatch_loop size slots n pending).1.
Proof.
  revert slots n. induction pending as [|v pending IH]; intros slots n Hn Hlt w Hw;
    [by apply not_elem_of_nil in Hw|].
  rewrite nextBatch_loop_cons in *. destruct (_ || _) eqn:E; cbn [fst snd length] in *.
  - apply elem_of_cons in Hw as [-> |Hw]; [|by apply IH].
    apply orb_true_iff in E as [E%bool_decide_eq_true|E%Z.eqb_eq]; [by left|].
    pose proof (nextBatch_loop_length slots n pending Hn). lia.
  - apply orb_false_iff in E as [_ E%Z.eqb_neq].
    rewrite Nat2Z.inj_succ in Hlt.
    destruct (IH ({[v_Slot v]} ∪ slots) (n + 1)%Z) with w as [Hs|Hs]; [lia|lia|done|..];
      set_solver.
Qed.

(** The votes of one slot: the earliest goes into the batch. *)
Lemma nextBatch_loop_order slots n pending slot :
  let on := filter (fun v => v_Slot v = slot) in
  let r := nextBatch_loop size slots n pending in
  on r.1 ++ on r.2 = on pending /\ (slot ∈ slots -> on r.1 = []).
Proof.
  cbv zeta. revert slots n. induction pending as [|v pending IH]; intros slots n; [done|].
  rewrite nextBatch_loop_cons. destruct (_ || _) eqn:E; cbn [fst snd].
  - destruct (IH slots n) as [IH1 IH2]. split; [|done].
    destruct (decide (v_Slot v = slot)) as [Hs|Hs];
      [|by rewrite !(filter_cons_False _ v), IH1].
    rewrite !(filter_cons_True _ v) by done.
    apply orb_true_iff in E as [E%bool_decide_eq_true|E%Z.eqb_eq].
    + subst slot. rewrite IH2 in IH1 |- * by done. simpl in *. by rewrite IH1.
    + (* the batch is full: nothing more is taken *)
      assert (forall l slots', (nextBatch_loop size slots' n l).1 = []) as Hnil.
      { induction l as [|u l IHl]; intros slots'; [done|].
        rewrite nextBatch_loop_cons. rewrite (proj2 (Z.eqb_eq n size) E), orb_true_r. apply IHl. }
      rewrite Hnil in *. by rewrite <- IH1.
  - apply orb_false_iff in E as [E%bool_decide_eq_false _].
    destruct (IH ({[v_Slot v]} ∪ slots) (n + 1)%Z) as [IH1 IH2]. split.
    + destruct (decide (v_Slot v = slot)) as [Hs|Hs];
        [|by rewrite !(filter_cons_False _ v)].
      rewrite !(filter_cons_True _ v) by done. simpl. by rewrite IH1.
    + intros Hs. destruct (decide (v_Slot v = slot)) as [<-|Hne]; [done|].
      rewrite filter_cons_False by done. apply IH2. set_solver.
Qed.
End next_batch.

(** [nextBatch] splits the pending votes: the batch holds at most [size]
    votes, no two on one slot; per slot, the votes keep their submission order
    and the batch takes the first; and the batch is as large as that allows,
    so a batch below [size] leaves only votes whose slot it already writes. *)
Theorem nextBatch_spec (pending : list Vote) (size : Z) :
  (0 <= size)%Z ->
  let '(batch, rest) := nextBatch pending size in
  batch ++ rest ≡ₚ pending /\
  batch `sublist_of` pending /\ rest `sublist_of` pending /\
  NoDup (v_Slot <$> batch) /\
  (Z.of_nat (length batch) <= size)%Z /\
  (forall slot, filter (fun v => v_Slot v = slot) batch ++ filter (fun v => v_Slot v = slot) rest
     = filter (fun v => v_Slot v = slot) pending) /\
  ((Z.of_nat (length batch) < size)%Z ->
     forall v, v ∈ rest -> v_Slot v ∈ v_Slot <$> batch).
Proof.
  intros Hs. unfold nextBatch.
  pose proof (nextBatch_loop_perm size ∅ 0 pending) as H1.
  pose proof (nextBatch_loop_sublist size ∅ 0 pending) as [H2 H3].
  pose proof (nextBatch_loop_slots size ∅ 0 pending) as [H4 _].
  pose proof (nextBatch_loop_length size ∅ 0 pending Hs) as H5.
  pose proof (fun slot => proj1 (nextBatch_loop_order size ∅ 0 pending slot)) as H6.
  pose proof (nextBatch_loop_maximal size ∅ 0 pending Hs) as H7.
  destruct (nextBatch_loop size ∅ 0 pending) as [batch rest]. simpl in *.
  repeat split; try done. intros Hlt v Hv. destruct (H7 ltac:(lia) v Hv); [set_solver|done].
Qed.

(** With room for a vote, a pending vote is taken. *)
Lemma nextBatch_progress v pending size :
  (0 < size)%Z -> exists batch rest, nextBatch (v :: pending) size = (v :: batch, rest).
Proof.
  intros Hs. unfold nextBatch. rewrite nextBatch_loop_cons.
  rewrite bool_decide_eq_false_2 by set_solver.
  rewrite (proj2 (Z.eqb_neq 0 size)) by lia. simpl. by eexists _, _.
Qed.

(** ** The votes the state refuses *)

Section apply.
Context `{ChainLaws}.
Abbreviation TSW := (SW TypedDB).

(** The votes at some positions. *)
Definition votes_at (votes : list ChainVote) (idx : list nat) : list ChainVote :=
  omap (fun j => votes !! j) idx.

(** The reference: take the votes in order, skipping each one the state
    refuses on top of those taken. *)
Fixpoint greedy (st0 : ChainState) (votes : list ChainVote) (kept idx : list nat) : list nat :=
  match idx with
  | [] => kept
  | j :: r =>
      if applies st0 0 (votes_at votes (kept ++ [j])) then greedy st0 votes (kept ++ [j]) r
      else greedy st0 votes kept r
  end.

Section state.
Variable st0 : ChainState.
Variable votes : list ChainVote.
Notation ok idx := (applies st0 0 (votes_at votes idx)).

Lemma ok_prefix p q : ok (p ++ q) = true -> ok p = true.
Proof. unfold votes_at. rewrite omap_app. apply applies_prefix. Qed.

Lemma greedy_taken kept p r :
  p = [] \/ ok (kept ++ p) = true -> greedy st0 votes kept (p ++ r) = greedy st0 votes (kept ++ p) r.
Proof.
  revert kept. induction p as [|j p IH]; intros kept Hp; [by rewrite app_nil_r|].
  destruct Hp as [?|Hok]; [done|]. simpl.
  replace (kept ++ j :: p) with ((kept ++ [j]) ++ p) in Hok |- * by (by rewrite <- app_assoc).
  rewrite (ok_prefix _ _ Hok). apply IH. by right.
Qed.

(** Leaving out the vote that makes a prefix fail changes nothing. *)
Lemma greedy_delete idx h :
  1 <= h <= length idx -> ok (take h idx) = false ->
  h = 1 \/ ok (take (h - 1) idx) = true ->
  greedy st0 votes [] (delete (h - 1) idx) = greedy st0 votes [] idx.
Proof.
  intros Hh Hf Ht. destruct h as [|h]; [lia|]. replace (S h - 1) with h in * by lia.
  destruct (lookup_lt_is_Some_2 idx h) as [j Hj]; [lia|].
  rewrite delete_take_drop. rewrite (take_S_r _ _ _ Hj) in Hf.
  rewrite <- (take_drop_middle idx h j Hj) at 3.
  assert (take h idx = [] \/ ok ([] ++ take h idx) = true) as Hp
    by (destruct Ht as [Ht|Ht]; [left; by replace h with 0 by lia|by right]).
  rewrite !greedy_taken by done. simpl. simpl app in Hf. by rewrite Hf.
Qed.

Lemma greedy_all idx : ok idx = true -> greedy st0 votes [] idx = idx.
Proof.
  intros Hok. rewrite <- (app_nil_r idx) at 1. rewrite greedy_taken by (by right). done.
Qed.

Lemma greedy_subset kept idx j :
  j ∈ greedy st0 votes kept idx -> j ∈ kept \/ j ∈ idx.
Proof.
  revert kept. induction idx as [|i idx IH]; intros kept Hj; simpl in *; [by left|].
  destruct (applies _ _ _); apply IH in Hj; set_solver.
Qed.

Lemma greedy_ok kept idx :
  kept = [] \/ ok kept = true ->
  greedy st0 votes kept idx = [] \/ ok (greedy st0 votes kept idx) = true.
Proof.
  revert kept. induction idx as [|i idx IH]; intros kept Hk; simpl; [done|].
  destruct (applies st0 0 (votes_at votes (kept ++ [i]))) eqn:E; apply IH; auto.
Qed.
End state.

(** The persisted snapshot of the runtime's election restores to [st0]. *)
Definition restorable (st0 : ChainState) (s : TSW) : Prop :=
  exists blob, snapshot_at (tmap (env_store (sw_env s))) (rt_id (sw_rt s)) = Some blob /\
    RestoreState (rt_cfg (sw_rt s)) blob = Some st0.

(** A state that has not moved from the snapshot applies what it applies. *)
Definition clean (st0 : ChainState) (s : TSW) : Prop :=
  restorable st0 s /\ rt_dirty (sw_rt s) = false /\
  forall n vs, applies (rt_state (sw_rt s)) n vs = applies st0 n vs.

Definition bump (k : nat) (s : TSW) : TSW :=
  MkSW (set_calls (k + env_calls (sw_env s)) (sw_env s)) (sw_rt s).

Lemma bump_bump j k s : bump j (bump k s) = bump (j + k) s.
Proof. unfold bump, set_calls. simpl. do 2 f_equal. lia. Qed.

Lemma bump_0 s : bump 0 s = s.
Proof. by destruct s as [[] ]. Qed.

Lemma restorable_bump st0 k s : restorable st0 (bump k s) <-> restorable st0 s.
Proof. done. Qed.

Lemma Snapshot_run id (t : TStorage) blob :
  snapshot_at (tmap t) id = Some blob -> Snapshot id t = (Ok blob, t).
Proof.
  unfold snapshot_at, Snapshot. rewrite load_run. intros Hs.
  by destruct (tmap t !! KSnapshot id) as [[]|]; simplify_eq/=.
Qed.

Lemma restoreState_run st0 s :
  restorable st0 s ->
  restoreState s = (Ok tt, MkSW (sw_env s) (set_chain st0 false (sw_rt s))).
Proof.
  intros (blob & Hblob & Hrest). unfold restoreState, mbind, stE_bind, rt_get, gets, in_store, zoom.
  rewrite (Snapshot_run _ _ _ Hblob). cbn. rewrite Hrest. cbn.
  by destruct s as [[] ].
Qed.

(** A trial: a batch applied, then the state restored. *)
Lemma trial_run st0 vs s :
  clean st0 s -> rt_state (sw_rt s) = st0 ->
  exists p s1, apply_call vs s = (Ok p, s1) /\
    (p = None <-> applies st0 0 vs = false) /\ restoreState s1 = (Ok tt, bump 1 s).
Proof.
  intros (Hr & Hd & Hst) Heq. unfold apply_call.
  destruct (ApplyBatch (rt_state (sw_rt s)) (env_calls (sw_env s)) vs) as [p st] eqn:E.
  eexists _, _. split; [reflexivity|]. split.
  - rewrite <- Hst, (applies_call _ 0 (env_calls (sw_env s))). unfold applies. rewrite E.
    by destruct p.
  - rewrite (restoreState_run st0) by done. unfold bump. simpl. do 2 f_equal.
    destruct s as [e rt]; destruct rt; simpl in *. subst. done.
Qed.

Lemma bisect_run st0 s batch fuel lo hi :
  clean st0 s -> rt_state (sw_rt s) = st0 ->
  hi - lo <= fuel -> 1 <= lo <= hi -> applies st0 0 (take hi batch) = false ->
  lo = 1 \/ applies st0 0 (take (lo - 1) batch) = true ->
  exists h k, bisect fuel batch lo hi s = (Ok h, bump k s) /\ 1 <= h <= hi /\
    applies st0 0 (take h batch) = false /\
    (h = 1 \/ applies st0 0 (take (h - 1) batch) = true).
Proof.
  revert s lo hi. induction fuel as [|fuel IH]; intros s lo hi Hc Hst Hf Hlh Hhi Hlo.
  { exists hi, 0. rewrite bump_0. assert (lo = hi) as -> by lia.
    split; [done|]. split; [lia|]. done. }
  cbn [bisect]. destruct (Nat.ltb_spec lo hi) as [Hlt|Hge].
  2: { exists hi, 0. rewrite bump_0. assert (lo = hi) as -> by lia. split; [done|].
       split; [lia|]. done. }
  set (mid := (lo + hi) / 2). cbv zeta.
  assert (lo <= mid < hi) as Hmid.
  { unfold mid. split; [apply Nat.div_le_lower_bound; lia|apply Nat.Div0.div_lt_upper_bound; lia]. }
  destruct (trial_run st0 (take mid batch) s Hc Hst) as (p & s1 & E1 & Hp & E2).
  unfold mbind at 1, stE_bind at 1. rewrite E1. unfold mbind at 1, stE_bind at 1. rewrite E2.
  destruct p as [d|].
  - destruct (IH (bump 1 s) (mid + 1) hi Hc Hst ltac:(lia) ltac:(lia) Hhi) as (h & k & E & Hh & ? & ?).
    { right. replace (mid + 1 - 1) with mid by lia.
      apply not_false_iff_true. intros Hx. by apply Hp in Hx. }
    exists h, (k + 1). rewrite E, bump_bump. auto.
  - destruct (IH (bump 1 s) lo mid Hc Hst ltac:(lia) ltac:(lia)) as (h & k & E & Hh & ? & ?);
      [by apply Hp|done|].
    exists h, (k + 1). rewrite E, bump_bump. split; [done|]. split; [lia|]. done.
Qed.

Lemma set_chain_same rt : set_chain (rt_state rt) (rt_dirty rt) rt = rt.
Proof. by destruct rt. Qed.

Lemma length_votes_at votes idx :
  Forall (fun j => j < length votes) idx -> length (votes_at votes idx) = length idx.
Proof.
  unfold votes_at. induction 1 as [|j idx Hj _ IH]; [done|]. csimpl.
  destruct (lookup_lt_is_Some_2 votes j Hj) as [v ->]. simpl. by rewrite IH.
Qed.

Lemma votes_at_take votes idx h :
  Forall (fun j => j < length votes) idx ->
  take h (votes_at votes idx) = votes_at votes (take h idx).
Proof.
  intros Hv. revert h. unfold votes_at.
  induction Hv as [|j idx Hj _ IH]; intros [|h]; [done..|].
  csimpl. destruct (lookup_lt_is_Some_2 votes j Hj) as [v ->]. simpl. by rewrite IH.
Qed.

Lemma elem_of_delete_NoDup {A} (l : list A) i x y :
  NoDup l -> l !! i = Some x -> y ∈ delete i l <-> y ∈ l /\ y <> x.
Proof.
  intros Hnd Hi. rewrite delete_take_drop.
  rewrite <- (take_drop_middle l i x Hi) in Hnd |- * at 3.
  apply NoDup_app in Hnd as (_ & Hn1 & [Hn2 _]%NoDup_cons).
  set_solver.
Qed.

Lemma NoDup_delete {A} (l : list A) i : NoDup l -> NoDup (delete i l).
Proof.
  intros Hnd. rewrite delete_take_drop.
  destruct (l !! i) as [x|] eqn:Hi.
  - rewrite <- (take_drop_middle l i x Hi) in Hnd.
    apply NoDup_app in Hnd as (Hn1 & Hn2 & [Hn3 Hn4]%NoDup_cons).
    apply NoDup_app. split; [done|]. split; [|done]. set_solver.
  - apply lookup_ge_None in Hi. rewrite take_ge, drop_ge by lia. by rewrite app_nil_r.
Qed.

Lemma applyBatch_loop_S fuel votes idx refused :
  idx <> [] ->
  applyBatch_loop (D := TypedDB) (S fuel) votes idx refused =
    (r ← apply_call (votes_at votes idx);
     match r with
     | Some d => mret (Some d, refused)
     | None =>
         _ ← restoreState;
         hi ← bisect (length (votes_at votes idx)) (votes_at votes idx) 1
                (length (votes_at votes idx));
         applyBatch_loop fuel votes (delete (hi - 1) idx)
           (list_to_set (option_list (idx !! (hi - 1))) ∪ refused)
     end).
Proof. by destruct idx. Qed.

(** What [applyBatch] returns and leaves, given the votes kept. *)
Definition applied (st0 : ChainState) (s : TSW) (votes : list ChainVote) (kept : list nat)
    (data : option (StateTransitionData * ReencryptionData)) (s' : TSW) : Prop :=
  exists c st,
    s' = MkSW (set_calls c (sw_env s))
           (set_chain st (match data with Some _ => true | None => false end) (sw_rt s)) /\
    match data with
    | None => kept = [] /\ forall n vs, applies st n vs = applies st0 n vs
    | Some d => kept <> [] /\ exists stx n,
        (forall m vs, applies stx m vs = applies st0 m vs) /\
        ApplyBatch stx n (votes_at votes kept) = (Some d, st)
    end.

Lemma applyBatch_loop_run st0 votes fuel idx refused s :
  clean st0 s -> length idx <= fuel -> Forall (fun j => j < length votes) idx -> NoDup idx ->
  exists data refused' s',
    applyBatch_loop fuel votes idx refused s = (Ok (data, refused'), s') /\
    applied st0 s votes (greedy st0 votes [] idx) data s' /\
    forall j, j ∈ refused' <-> j ∈ refused \/ (j ∈ idx /\ j ∉ greedy st0 votes [] idx).
Proof.
  revert idx refused s. induction fuel as [|fuel IH]; intros idx refused s Hc Hf Hv Hnd.
  { destruct idx; [|simpl in Hf; lia]. exists None, refused, s. split; [done|]. split.
    - exists (env_calls (sw_env s)), (rt_state (sw_rt s)). destruct Hc as (_ & Hd & Hst).
      rewrite <- Hd, set_chain_same. split; [by destruct s as [[] ]|done].
    - set_solver. }
  destruct (decide (idx = [])) as [->|Hne].
  { exists None, refused, s. split; [done|]. split.
    - exists (env_calls (sw_env s)), (rt_state (sw_rt s)). destruct Hc as (_ & Hd & Hst).
      rewrite <- Hd, set_chain_same. split; [by destruct s as [[] ]|done].
    - set_solver. }
  assert (0 < length idx) as Hlen0 by (destruct idx; [done|simpl; lia]).
  rewrite applyBatch_loop_S by done.
  unfold mbind at 1, stE_bind at 1. unfold apply_call.
  destruct (ApplyBatch (rt_state (sw_rt s)) (env_calls (sw_env s)) (votes_at votes idx))
    as [[d|] st] eqn:E.
  - (* the whole batch applies *)
    assert (applies st0 0 (votes_at votes idx) = true) as Hok.
    { destruct Hc as (_ & _ & Hst). rewrite <- Hst, (applies_call _ 0 (env_calls (sw_env s))).
      unfold applies. by rewrite E. }
    exists (Some d), refused. eexists. split; [reflexivity|]. rewrite greedy_all by done.
    split; [|set_solver]. eexists _, st. split; [reflexivity|]. split; [done|].
    exists (rt_state (sw_rt s)), (env_calls (sw_env s)). split; [apply Hc|done].
  - (* one vote is refused *)
    assert (applies st0 0 (votes_at votes idx) = false) as Hno.
    { destruct Hc as (_ & _ & Hst). rewrite <- Hst, (applies_call _ 0 (env_calls (sw_env s))).
      unfold applies. by rewrite E. }
    set (s1 := MkSW _ _). unfold mbind at 1, stE_bind at 1.
    rewrite (restoreState_run st0 s1) by apply Hc.
    set (s2 := MkSW _ _).
    assert (clean st0 s2) as Hc2 by (split; [apply Hc|done]).
    assert (length (votes_at votes idx) = length idx) as Hlen by by apply length_votes_at.
    destruct (bisect_run st0 s2 (votes_at votes idx) (length (votes_at votes idx)) 1
      (length (votes_at votes idx))) as (h & k & Eb & Hh & Hfail & Hpre);
      [done..|lia|lia|by rewrite take_ge by lia|by left|].
    unfold mbind at 1, stE_bind at 1. rewrite Eb.
    rewrite !votes_at_take in Hfail, Hpre by done. rewrite Hlen in Hh.
    destruct (lookup_lt_is_Some_2 idx (h - 1)) as [j Hj]; [lia|].
    destruct (IH (delete (h - 1) idx) (list_to_set (option_list (idx !! (h - 1))) ∪ refused)
      (bump k s2)) as (data & refused' & s' & El & Ha & Hr).
    { done. }
    { rewrite length_delete by eauto. lia. }
    { rewrite Forall_forall in Hv |- *. intros x Hx. apply Hv.
      by apply (elem_of_delete_NoDup _ _ _ _ Hnd Hj) in Hx as [? _]. }
    { by apply NoDup_delete. }
    rewrite greedy_delete in Ha, Hr by done.
    exists data, refused', s'. split; [done|]. split.
    + destruct Ha as (c & st' & -> & Hd). exists c, st'. split; [|done].
      subst s2 s1. unfold bump, set_calls, set_chain. done.
    + intros x. rewrite Hr, Hj, (elem_of_delete_NoDup _ _ _ _ Hnd Hj). simpl.
      rewrite elem_of_union, union_empty_r_L, elem_of_singleton.
      assert (j ∉ greedy st0 votes [] idx) as Hjg.
      { rewrite <- (greedy_delete st0 votes idx h) by done. intros Hin.
        apply greedy_subset in Hin as [Hin|Hin]; [by apply not_elem_of_nil in Hin|].
        by apply (elem_of_delete_NoDup _ _ _ _ Hnd Hj) in Hin as [_ ?]. }
      assert (j ∈ idx) by (by eapply list_elem_of_lookup_2).
      destruct (decide (x = j)) as [->|]; naive_solver.
Qed.
End apply.

(** The refused positions are those the reference skips. *)
Lemma applyBatch_run `{ChainLaws} st0 votes (s : SW TypedDB) :
  clean st0 s ->
  let kept := greedy st0 votes [] (seq 0 (length votes)) in
  exists data refused s',
    applyBatch votes s = (Ok (data, refused), s') /\
    applied st0 s votes kept data s' /\
    forall j, j ∈ refused <-> j < length votes /\ j ∉ kept.
Proof.
  intros Hc kept.
  destruct (applyBatch_loop_run st0 votes (length votes) (seq 0 (length votes)) ∅ s Hc)
    as (data & refused & s' & E & Ha & Hr).
  - by rewrite length_seq.
  - apply Forall_forall. intros j [_ Hj]%elem_of_seq. lia.
  - apply NoDup_seq.
  - exists data, refused, s'. split; [done|]. split; [done|].
    intros j. rewrite Hr, elem_of_seq. split; [intros [Hj|Hj]|intros [Hj ?]; right].
    + by apply elem_of_empty in Hj.
    + split; [lia|apply Hj].
    + split; [lia|done].
Qed.

(** ** The votes of a sealed batch *)

Section sealed.
Context `{ChainLaws}.
Abbreviation TSW := (SW TypedDB).

Definition decode_vote (cfg : ChainConfig) (v : Vote) : option Decoded :=
  match Deserialize (cc_EncKey cfg) (v_Ballot v), unmarshal_bundle (v_Payload v) with
  | Some ballot, Some bundle =>
      Some (v, MkChainVote _ (v_Slot v) (v_VoteIDKey v) ballot, bundle)
  | _, _ => None
  end.

(** The decoded votes the state takes, in order. *)
Fixpoint accept (st0 : ChainState) (kept l : list Decoded) : list Decoded :=
  match l with
  | [] => kept
  | d :: r =>
      if applies st0 0 ((fun d : Decoded => d.1.2) <$> (kept ++ [d]))
      then accept st0 (kept ++ [d]) r else accept st0 kept r
  end.

(** The votes a batch seals, in order. *)
Definition sealed_of (cfg : ChainConfig) (st0 : ChainState) (batch : list Vote) : list Decoded :=
  accept st0 [] (omap (decode_vote cfg) batch).

(** The votes it drops. *)
Definition dropped_of (cfg : ChainConfig) (st0 : ChainState) (batch : list Vote) : list Vote :=
  filter (fun v => v ∉ (fun d : Decoded => d.1.1) <$> sealed_of cfg st0 batch) batch.

(** Votes marked as error in the store: their status moves to error unless
    the write fails; nothing else changes. *)
Record marks (id : ElectionID) (l : list Vote) (t t' : TStorage) : Prop := {
  marks_other k :
    (forall v, v ∈ l -> k <> KVoteStatus id (v_ID v)) -> tmap t' !! k = tmap t !! k;
  marks_status u :
    status_at (tmap t') id u = status_at (tmap t) id u \/
    (status_at (tmap t') id u = Some VoteStatusError /\ u ∈ v_ID <$> l /\
     may_move (tmap t) id u VoteStatusError = true);
  marks_moved v : v ∈ l -> may_move (tmap t) id (v_ID v) VoteStatusError = true ->
    status_at (tmap t') id (v_ID v) = Some VoteStatusError \/ failed_write t t';
  marks_proc : proc_same t t';
}.

Lemma marks_refl id t : marks id [] t t.
Proof.
  split; try done; [by left|]. intros v Hv. by apply not_elem_of_nil in Hv.
Qed.

Lemma error_stays (m : store) id u :
  status_at m id u = Some VoteStatusError -> may_move m id u VoteStatusError = false.
Proof. unfold may_move. by intros ->. Qed.

Lemma may_move_ext (m m' : store) id u st :
  status_at m' id u = status_at m id u -> may_move m' id u st = may_move m id u st.
Proof. unfold may_move. by intros ->. Qed.

Lemma marks_app id l1 l2 t t1 t2 :
  marks id l1 t t1 -> marks id l2 t1 t2 -> marks id (l1 ++ l2) t t2.
Proof.
  intros [A1 A2 A3 A4] [B1 B2 B3 B4]. split; [| | |by trans t1].
  - intros k Hk. rewrite B1, A1; [done|set_solver..].
  - intros u. destruct (A2 u) as [Ea|(Ea & Hu & Hm)], (B2 u) as [Eb|(Eb & Hu' & Hm')].
    + left. congruence.
    + right. split; [done|]. split; [set_solver|]. by rewrite <- (may_move_ext _ _ _ _ _ Ea).
    + right. split; [congruence|]. split; [set_solver|done].
    + right. split; [done|]. split; [set_solver|done].
  - intros v Hv Hm.
    destruct (B2 (v_ID v)) as [Eb|(Eb & _)]; [rewrite Eb|by left].
    destruct (A2 (v_ID v)) as [Ea|(Ea & _)]; [|by left].
    apply elem_of_app in Hv as [Hv|Hv].
    + destruct (A3 v Hv Hm); [by left|right]. by eapply failed_before.
    + rewrite <- Eb. destruct (B3 v Hv) as [|Hf]; [by rewrite (may_move_ext _ _ _ _ _ Ea)|by left|right].
      by eapply failed_after.
Qed.

Lemma marks_ext id l l' t t' :
  (forall v, v ∈ l <-> v ∈ l') -> marks id l t t' -> marks id l' t t'.
Proof.
  intros E [A1 A2 A3 A4]. split; try done.
  - intros k Hk. apply A1. intros v Hv. by apply Hk, E.
  - intros u. destruct (A2 u) as [?|(? & Hu & ?)]; [by left|right].
    split; [done|]. split; [|done]. apply list_elem_of_fmap in Hu as (v & -> & Hv).
    apply list_elem_of_fmap. exists v. by rewrite <- E.
  - intros v Hv. apply A3. by apply E.
Qed.

Lemma SetVoteStatus_marks id v (t : TStorage) :
  marks id [v] t (SetVoteStatus id (v_ID v) VoteStatusError t).2.
Proof.
  pose proof (SetVoteStatus_state id (v_ID v) VoteStatusError t)
    as (Hm & Hf & Hp).
  set (t' := (SetVoteStatus _ _ _ _).2) in *.
  assert (forall u, status_at (tmap t') id u = status_at (tmap t) id u \/
    (u = v_ID v /\ status_at (tmap t') id u = Some VoteStatusError /\
     may_move (tmap t) id u VoteStatusError = true)) as Hst.
  { intros u. rewrite Hm. destruct (may_move _ id (v_ID v) VoteStatusError && _) eqn:E; [|by left].
    apply andb_true_iff in E as [E _]. unfold status_at at 1 3.
    destruct (decide (u = v_ID v)) as [->|Hne].
    - right. by rewrite lookup_insert_eq.
    - left. by rewrite lookup_insert_ne by congruence. }
  split; try done.
  - intros k Hk. rewrite Hm. destruct (_ && _); [|done].
    rewrite lookup_insert_ne; [done|]. intros <-. apply (Hk v); [set_solver|done].
  - intros u. destruct (Hst u) as [?|(-> & ? & ?)]; [by left|right].
    split; [done|]. split; [simpl; set_solver|done].
  - intros w ->%list_elem_of_singleton Hmv. rewrite Hm, Hmv in *. cbn [andb] in *.
    destruct (next_fault _); cbn [negb] in *; [right; by apply Hf|left].
    unfold status_at. by rewrite lookup_insert_eq.
Qed.

(** A series of dropped votes: they leave the pending buffer and are marked. *)
Record drops (s : TSW) (l : list Vote) (s' : TSW) : Prop := {
  drops_rt : sw_rt s' =
    set_pending (filter (fun p => p ∉ l) (rt_pending (sw_rt s))) (sw_rt s);
  drops_env : sw_env s' = set_store (env_store (sw_env s')) (sw_env s);
  drops_marks : marks (rt_id (sw_rt s)) l (env_store (sw_env s)) (env_store (sw_env s'));
}.

Lemma set_pending_same rt : set_pending (rt_pending rt) rt = rt.
Proof. by destruct rt. Qed.

Lemma drops_nil s : drops s [] s.
Proof.
  split; [|by destruct s as [[] ]|apply marks_refl].
  rewrite list_filter_id by (apply Forall_true; set_solver). by rewrite set_pending_same.
Qed.

Lemma drops_app s l1 s1 l2 s2 : drops s l1 s1 -> drops s1 l2 s2 -> drops s (l1 ++ l2) s2.
Proof.
  intros [A1 A2 A3] [B1 B2 B3].
  assert (rt_id (sw_rt s1) = rt_id (sw_rt s)) as Eid by by rewrite A1.
  rewrite Eid in B3. split.
  - rewrite B1, A1. unfold set_pending. simpl. f_equal. rewrite list_filter_filter.
    apply list_filter_iff. set_solver.
  - rewrite B2, A2. done.
  - by eapply marks_app.
Qed.

Lemma dropVote_run v (s : TSW) : exists s', dropVote v s = (Ok tt, s') /\ drops s [v] s'.
Proof.
  unfold dropVote, mbind, stE_bind, rt_get, gets, on_rt, modify, in_store, zoom, ignore.
  cbn [sw_env sw_rt]. eexists. split; [reflexivity|].
  split; cbn [sw_env sw_rt env_store]; [|done|apply SetVoteStatus_marks].
  f_equal. apply list_filter_iff. set_solver.
Qed.

Lemma drops_cfg s l s' : drops s l s' -> rt_cfg (sw_rt s') = rt_cfg (sw_rt s).
Proof. intros Hd. by rewrite (drops_rt _ _ _ Hd). Qed.

Lemma decode_batch_run batch (s : TSW) :
  exists s', decode_batch batch s =
      (Ok (omap (decode_vote (rt_cfg (sw_rt s))) batch), s') /\
    drops s (filter (fun v => decode_vote (rt_cfg (sw_rt s)) v = None) batch) s'.
Proof.
  revert s. induction batch as [|v batch IH]; intros s; [exists s; split; [done|apply drops_nil]|].
  cbn [decode_batch]. unfold mbind at 1, stE_bind at 1, rt_get, gets.
  assert (forall l : list Vote, filter (fun v => decode_vote (rt_cfg (sw_rt s)) v = None) (v :: l) =
    match decode_vote (rt_cfg (sw_rt s)) v with Some _ => [] | None => [v] end ++
    filter (fun v => decode_vote (rt_cfg (sw_rt s)) v = None) l) as Ef.
  { intros l. destruct (decode_vote (rt_cfg (sw_rt s)) v) eqn:E.
    - by rewrite filter_cons_False by (rewrite E; done).
    - by rewrite filter_cons_True by done. }
  rewrite Ef. clear Ef. csimpl. unfold decode_vote at 1 4.
  destruct (IH s) as (s1 & E1 & H1').
  destruct (dropVote_run v s) as (s2 & E2 & Hd2). destruct (IH s2) as (s3 & E3 & Hd3).
  rewrite (drops_cfg _ _ _ Hd2) in E3, Hd3.
  destruct (Deserialize _ _) as [ballot|]; [destruct (unmarshal_bundle _) as [bundle|]|].
  - unfold mbind, stE_bind. rewrite E1. by exists s1.
  - unfold mbind, stE_bind. rewrite E2. exists s3. rewrite E3. split; [done|].
    by eapply drops_app.
  - unfold mbind, stE_bind. rewrite E2. exists s3. rewrite E3. split; [done|].
    by eapply drops_app.
Qed.

(** The decoded votes by position, kept and refused. *)
Fixpoint split_refused (refused : gset nat) (i : nat) (l : list Decoded) :
    list Decoded * list Decoded :=
  match l with
  | [] => ([], [])
  | d :: r =>
      let p := split_refused refused (S i) r in
      if decide (i ∈ refused) then (p.1, d :: p.2) else (d :: p.1, p.2)
  end.

Lemma drop_refused_run refused i l (s : TSW) :
  exists s', drop_refused refused i l s = (Ok (split_refused refused i l).1, s') /\
    drops s ((fun d : Decoded => d.1.1) <$> (split_refused refused i l).2) s'.
Proof.
  revert i s. induction l as [|d l IH]; intros i s; [exists s; split; [done|apply drops_nil]|].
  cbn [drop_refused split_refused]. case_decide as Hi.
  - destruct (dropVote_run d.1.1 s) as (s1 & E1 & Hd1). destruct (IH (S i) s1) as (s2 & E2 & Hd2).
    unfold mbind at 1, stE_bind at 1. rewrite E1. exists s2. split; [done|].
    by apply (drops_app s [d.1.1] s1).
  - destruct (IH (S i) s) as (s2 & E2 & Hd2).
    unfold mbind at 1, stE_bind at 1. rewrite E2. by exists s2.
Qed.

(** ** Positions and votes *)

Lemma omap_lookup_fmap {A B} (f : A -> B) (l : list A) (idx : list nat) :
  omap (fun j => (f <$> l) !! j) idx = f <$> omap (fun j => l !! j) idx.
Proof.
  induction idx as [|j idx IH]; [done|]. csimpl. rewrite list_lookup_fmap.
  destruct (l !! j); simpl; by rewrite IH.
Qed.

Lemma greedy_accept st0 (l r : list Decoded) k kept :
  drop k l = r ->
  omap (fun j => l !! j) (greedy st0 ((fun d : Decoded => d.1.2) <$> l) kept (seq k (length r))) =
    accept st0 (omap (fun j => l !! j) kept) r.
Proof.
  revert k kept. induction r as [|d r IH]; intros k kept Hr; [done|].
  assert (l !! k = Some d) as Hk.
  { rewrite <- (Nat.add_0_r k), <- lookup_drop, Hr. done. }
  assert (drop (S k) l = r) as Hr'
    by (replace (S k) with (k + 1) by lia; rewrite <- drop_drop, Hr; done).
  cbn [length seq greedy accept].
  unfold votes_at. rewrite omap_lookup_fmap, omap_app. csimpl. rewrite Hk.
  destruct (applies _ _ _); rewrite IH by done; [|done].
  rewrite omap_app. csimpl. by rewrite Hk.
Qed.

Lemma greedy_filter st0 votes kept idx :
  NoDup (kept ++ idx) ->
  greedy st0 votes kept idx =
    kept ++ filter (fun j => j ∈ greedy st0 votes kept idx) idx.
Proof.
  revert kept. induction idx as [|j idx IH]; intros kept Hnd; [by rewrite app_nil_r|].
  cbn [greedy]. destruct (applies st0 0 (votes_at votes (kept ++ [j]))) eqn:E.
  - assert (NoDup ((kept ++ [j]) ++ idx)) as Hnd' by (by rewrite <- app_assoc).
    specialize (IH _ Hnd'). rewrite filter_cons_True.
    + rewrite IH at 1. by rewrite <- app_assoc.
    + rewrite IH. set_solver.
  - assert (NoDup (kept ++ idx)) as Hnd'.
    { apply NoDup_app in Hnd as (Hn1 & Hn2 & [Hn3 Hn4]%NoDup_cons).
      apply NoDup_app. split; [done|]. split; [set_solver|done]. }
    specialize (IH _ Hnd'). rewrite filter_cons_False; [done|].
    intros Hj. apply greedy_subset in Hj. apply NoDup_app in Hnd as (_ & Hn2 & [Hn3 _]%NoDup_cons).
    set_solver.
Qed.

Lemma split_refused_positions refused i l :
  (split_refused refused i l).1 =
    omap (fun j => l !! (j - i)) (filter (fun j => j ∉ refused) (seq i (length l))).
Proof.
  revert i. induction l as [|d l IH]; intros i; [done|].
  cbn [split_refused length seq].
  assert (omap (fun j => (d :: l) !! (j - i)) (filter (fun j => j ∉ refused) (seq (S i) (length l)))
    = omap (fun j => l !! (j - S i)) (filter (fun j => j ∉ refused) (seq (S i) (length l)))) as E.
  { apply omap_ext_in. intros j [_ [Hj _]%elem_of_seq]%list_elem_of_filter.
    replace (j - i) with (S (j - S i)) by lia. done. }
  case_decide as Hi; cbn [fst].
  - rewrite filter_cons_False by (by intros ?). by rewrite E, IH.
  - rewrite filter_cons_True by done. csimpl. rewrite E, Nat.sub_diag, <- IH. done.
Qed.

(** The decoded votes kept are those the reference takes. *)
Lemma split_refused_accept st0 refused (l : list Decoded) :
  (forall j, j ∈ refused <-> j < length l /\
     j ∉ greedy st0 ((fun d : Decoded => d.1.2) <$> l) [] (seq 0 (length l))) ->
  (split_refused refused 0 l).1 = accept st0 [] l.
Proof.
  intros Hr. rewrite split_refused_positions.
  assert (filter (fun j => j ∉ refused) (seq 0 (length l)) =
    greedy st0 ((fun d : Decoded => d.1.2) <$> l) [] (seq 0 (length l))) as ->.
  { rewrite greedy_filter by apply NoDup_seq. simpl. apply list_filter_ext_in.
    intros j [_ Hj]%elem_of_seq. rewrite Hr.
    destruct (decide (j ∈ greedy st0 ((fun d : Decoded => d.1.2) <$> l) [] (seq 0 (length l))));
      naive_solver lia. }
  etrans; [|exact (greedy_accept st0 l l 0 [] eq_refl)].
  apply omap_ext_in. intros j _. by rewrite Nat.sub_0_r.
Qed.

Lemma split_refused_perm refused i l :
  (split_refused refused i l).1 ++ (split_refused refused i l).2 ≡ₚ l.
Proof.
  revert i. induction l as [|d l IH]; intros i; [done|]. cbn [split_refused].
  case_decide; simpl; [rewrite <- Permutation_middle|]; by rewrite IH.
Qed.

(** ** What a seal leaves *)

(** The snapshot restores to [st0], and an undirtied state agrees with it. *)
Definition sound (st0 : ChainState) (s : TSW) : Prop :=
  restorable st0 s /\
  (rt_dirty (sw_rt s) = false -> forall n vs, applies (rt_state (sw_rt s)) n vs = applies st0 n vs).

(** Nothing sealed: votes may have been dropped, and the state moved. *)
Record unsealed (s : TSW) (l : list Vote) (s' : TSW) : Prop := {
  un_rt : exists st d, sw_rt s' = set_chain st d
    (set_pending (filter (fun p => p ∉ l) (rt_pending (sw_rt s))) (sw_rt s));
  un_env : exists t c, sw_env s' = set_calls c (set_store t (sw_env s));
  un_marks : marks (rt_id (sw_rt s)) l (env_store (sw_env s)) (env_store (sw_env s'));
}.

Lemma drops_unsealed s l s' : drops s l s' -> unsealed s l s'.
Proof.
  intros [A1 A2 A3]. split; [|by exists (env_store (sw_env s')), (env_calls (sw_env s))|done].
  exists (rt_state (sw_rt s)), (rt_dirty (sw_rt s)). by rewrite A1.
Qed.

(** A change of the state only. *)
Lemma chain_unsealed s st d c :
  unsealed s [] (MkSW (set_calls c (sw_env s)) (set_chain st d (sw_rt s))).
Proof.
  split; simpl; [|by exists (env_store (sw_env s)), c|apply marks_refl].
  exists st, d. rewrite list_filter_id by (apply Forall_true; set_solver).
  by rewrite set_pending_same.
Qed.

Lemma unsealed_app s l1 s1 l2 s2 :
  unsealed s l1 s1 -> unsealed s1 l2 s2 -> unsealed s (l1 ++ l2) s2.
Proof.
  intros [(st1 & d1 & A1) (t1 & c1 & A2) A3] [(st2 & d2 & B1) (t2 & c2 & B2) B3].
  assert (rt_id (sw_rt s1) = rt_id (sw_rt s)) as Eid by by rewrite A1.
  rewrite Eid in B3. split.
  - exists st2, d2. rewrite B1, A1. unfold set_chain, set_pending. simpl. f_equal.
    rewrite list_filter_filter. apply list_filter_iff. set_solver.
  - exists t2, c2. by rewrite B2, A2.
  - by eapply marks_app.
Qed.

Lemma unsealed_ext s l l' s' :
  (forall v, v ∈ l <-> v ∈ l') -> unsealed s l s' -> unsealed s l' s'.
Proof.
  intros E [(st & d & A1) A2 A3]. split; [|done|by eapply marks_ext].
  exists st, d. rewrite A1. unfold set_pending. do 2 f_equal. apply list_filter_iff.
  intros v. by rewrite E.
Qed.

Lemma unsealed_restorable st0 s l s' : unsealed s l s' -> restorable st0 s -> restorable st0 s'.
Proof.
  intros [(st & d & A1) _ A3] (blob & Hb & Hr). exists blob.
  unfold rt_cfg. rewrite A1. simpl. split; [|done]. unfold snapshot_at in *.
  by rewrite (marks_other _ _ _ _ A3).
Qed.

Lemma restore_if_dirty_run st0 s :
  sound st0 s -> exists s', restore_if_dirty s = (Ok tt, s') /\ clean st0 s' /\
    unsealed s [] s' /\ sw_env s' = sw_env s /\
    exists st, sw_rt s' = set_chain st false (sw_rt s).
Proof.
  intros [Hr Hd]. unfold restore_if_dirty, mbind, stE_bind, rt_get, gets.
  destruct (rt_dirty (sw_rt s)) eqn:E.
  - rewrite (restoreState_run st0) by done. eexists. split; [done|]. split; [done|].
    split; [|split; [done|by eexists]].
    pose proof (chain_unsealed s st0 false (env_calls (sw_env s))) as Hu.
    by replace (set_calls (env_calls (sw_env s)) (sw_env s)) with (sw_env s) in Hu
      by (by destruct s as [[] ]).
  - exists s. split; [done|]. split; [split; [done|split; [done|by apply Hd]]|].
    split; [apply drops_unsealed, drops_nil|]. split; [done|].
    exists (rt_state (sw_rt s)). rewrite <- E. by rewrite set_chain_same.
Qed.

Lemma drops_clean st0 s l s' : drops s l s' -> clean st0 s -> clean st0 s'.
Proof.
  intros Hd (Hr & Hdirty & Hst). split; [by eapply unsealed_restorable; [apply drops_unsealed|]|].
  rewrite (drops_rt _ _ _ Hd). done.
Qed.

(** The votes of a batch are sealed or dropped, when no vote is in it twice. *)
Lemma accept_subset st0 kept l d : d ∈ accept st0 kept l -> d ∈ kept \/ d ∈ l.
Proof.
  revert kept. induction l as [|x l IH]; intros kept Hd; simpl in *; [by left|].
  destruct (applies _ _ _); apply IH in Hd; set_solver.
Qed.

Lemma decode_vote_vote cfg v d : decode_vote cfg v = Some d -> d.1.1 = v.
Proof. unfold decode_vote. intros E. repeat case_match; by simplify_eq/=. Qed.

Lemma dropped_votes cfg st0 refused batch :
  NoDup batch ->
  (split_refused refused 0 (omap (decode_vote cfg) batch)).1 = sealed_of cfg st0 batch ->
  forall v, v ∈ filter (fun v => decode_vote cfg v = None) batch ++
      ((fun d : Decoded => d.1.1) <$> (split_refused refused 0 (omap (decode_vote cfg) batch)).2)
    <-> v ∈ dropped_of cfg st0 batch.
Proof.
  intros Hnd E v. unfold dropped_of.
  set (dec := omap (decode_vote cfg) batch) in *.
  pose proof (split_refused_perm refused 0 dec) as HP. rewrite E in HP.
  assert (forall d, d ∈ dec -> d.1.1 ∈ batch /\ decode_vote cfg d.1.1 = Some d) as Hdec.
  { intros d (w & Hw & Ew)%list_elem_of_omap. by rewrite (decode_vote_vote _ _ _ Ew). }
  assert (NoDup ((fun d : Decoded => d.1.1) <$> dec)) as Hndd.
  { clear E HP Hdec. subst dec. induction Hnd as [|w l Hw Hl IH]; [constructor|]. csimpl.
    destruct (decode_vote cfg w) as [d|] eqn:Ew; simpl; [|done]. constructor; [|done].
    intros (d' & Ed & Hd')%list_elem_of_fmap. apply list_elem_of_omap in Hd' as (w' & Hw' & Ew').
    rewrite (decode_vote_vote _ _ _ Ew), (decode_vote_vote _ _ _ Ew') in Ed. by subst. }
  rewrite <- HP, fmap_app in Hndd. apply NoDup_app in Hndd as (_ & Hdisj & _).
  rewrite elem_of_app, !list_elem_of_filter, !list_elem_of_fmap. split.
  - intros [[Hn Hv]|(d & -> & Hd)].
    + split; [|done]. intros (d & -> & Hd).
      apply accept_subset in Hd as [Hd|Hd]; [by apply not_elem_of_nil in Hd|].
      apply Hdec in Hd as [_ Hd]. by rewrite Hn in Hd.
    + assert (d ∈ dec) as Hdd by (rewrite <- HP; set_solver).
      split; [|by apply Hdec]. intros Hin%list_elem_of_fmap. apply (Hdisj _ Hin).
      apply list_elem_of_fmap. by exists d.
  - intros [Hns Hv]. destruct (decode_vote cfg v) as [d|] eqn:Ev; [|by left].
    right. exists d. split; [by rewrite (decode_vote_vote _ _ _ Ev)|].
    assert (d ∈ dec) as Hd by (apply list_elem_of_omap; eauto).
    rewrite <- HP in Hd. apply elem_of_app in Hd as [Hd|Hd]; [|done].
    exfalso. apply Hns. exists d.
    by rewrite (decode_vote_vote _ _ _ Ev).
Qed.

(** The store after a batch is sealed: the batch, the snapshot, the statuses
    of its votes and of the dropped ones; audit records aside, nothing else
    changed. *)
Record seal_store (id : ElectionID) (b : BatchInput) (snap : bytes) (dropped : list Vote)
    (t t' : TStorage) : Prop := {
  ss_batch : batch_at (tmap t') id (bi_Seq b) = Some (kept_BatchInput b);
  ss_snapshot : snapshot_at (tmap t') id = Some snap;
  ss_sealed u : u ∈ bi_VoteIDs b -> may_move (tmap t) id u VoteStatusBatched = true ->
    (forall v, v ∈ dropped -> v_ID v <> u) -> status_at (tmap t') id u = Some VoteStatusBatched;
  ss_status u : status_at (tmap t') id u = status_at (tmap t) id u \/
    (status_at (tmap t') id u = Some VoteStatusBatched /\ u ∈ bi_VoteIDs b) \/
    (status_at (tmap t') id u = Some VoteStatusError /\ u ∈ v_ID <$> dropped);
  ss_dropped v : v ∈ dropped -> may_move (tmap t) id (v_ID v) VoteStatusError = true ->
    v_ID v ∉ bi_VoteIDs b -> status_at (tmap t') id (v_ID v) = Some VoteStatusError \/ failed_write t t';
  ss_other k : k <> KBatch id (bi_Seq b) -> k <> KSnapshot id ->
    (forall u, u ∈ bi_VoteIDs b \/ u ∈ v_ID <$> dropped -> k <> KVoteStatus id u) ->
    ~ in_scan ScanAudit k -> tmap t' !! k = tmap t !! k;
  ss_proc : proc_same t t';
}.

(** The outcomes of sealing the votes of [batch], which leaves [rest]. *)
Inductive outcome (now : time) (st0 : ChainState) (s : TSW) (batch rest : list Vote) :
    result unit -> TSW -> Prop :=
  | SealIdle s' :
      batch = [] -> unsealed s [] s' -> sound st0 s' ->
      outcome now st0 s batch rest (Ok tt) s'
  | SealFailed e l s' :
      l = [] \/ l = dropped_of (rt_cfg (sw_rt s)) st0 batch ->
      unsealed s l s' -> sound st0 s' ->
      outcome now st0 s batch rest (Err e) s'
  | SealEmpty s1 s' :
      batch <> [] -> sealed_of (rt_cfg (sw_rt s)) st0 batch = [] ->
      unsealed s (dropped_of (rt_cfg (sw_rt s)) st0 batch) s1 -> sound st0 s1 ->
      s' = MkSW (sw_env s1) (set_pending rest (sw_rt s1)) ->
      outcome now st0 s batch rest (Ok tt) s'
  | SealDone data st stx n b snap req vk t c s' :
      sealed_of (rt_cfg (sw_rt s)) st0 batch <> [] ->
      (forall m vs, applies stx m vs = applies st0 m vs) ->
      ApplyBatch stx n ((fun d : Decoded => d.1.2) <$> sealed_of (rt_cfg (sw_rt s)) st0 batch)
        = (Some data, st) ->
      marshal_request (prove_request vk data (snd <$> sealed_of (rt_cfg (sw_rt s)) st0 batch))
        = Some req ->
      State_Snapshot st = Some snap ->
      b = stamp_sealed now (batch_input now (set_chain st true (sw_rt s)) req
            ((fun d : Decoded => v_ID d.1.1) <$> sealed_of (rt_cfg (sw_rt s)) st0 batch)) ->
      seal_store (rt_id (sw_rt s)) b snap (dropped_of (rt_cfg (sw_rt s)) st0 batch)
        (env_store (sw_env s)) t ->
      s' = MkSW (Notify_env (rt_id (sw_rt s)) (set_calls c (set_store t (sw_env s))))
                (set_sealed rest (set_chain st false (sw_rt s))) ->
      outcome now st0 s batch rest (Ok tt) s'.

Lemma audit_run now subject role action id (s : TSW) :
  exists t, audit now subject role action id s =
      (Ok tt, MkSW (set_store t (sw_env s)) (sw_rt s)) /\
    (forall k, ~ in_scan ScanAudit k -> tmap t !! k = tmap (env_store (sw_env s)) !! k) /\
    proc_same (env_store (sw_env s)) t.
Proof.
  unfold audit, in_store, zoom, ignore. eexists. split; [reflexivity|].
  apply AppendAudit_state.
Qed.

Lemma stamp_batch_input now rt req ids :
  let b := stamp_sealed now (batch_input now rt req ids) in
  bi_ElectionID b = rt_id rt /\ bi_Seq b = rt_batchSeq rt /\ bi_VoteIDs b = ids /\
  bi_ProveRequest b = req /\ bi_NewStateRoot b = State_Root (rt_state rt).
Proof. unfold stamp_sealed. cbv zeta. by case_match. Qed.

(** The store after the transaction and the audit record of a seal. *)
Lemma seal_store_intro id now b snap dropped t t1 t2 t3 :
  bi_ElectionID b = id -> marks id dropped t t1 ->
  tmap t2 = td_writes (WPut (KBatch (bi_ElectionID b) (bi_Seq b)) (ABatch (stamp_sealed now b))
           :: WPut (KSnapshot (bi_ElectionID b)) (ABlob snap)
           :: batched_of (tmap t1) (bi_ElectionID b) (bi_VoteIDs b)) (tmap t1) ->
  proc_same t1 t2 ->
  (forall k, ~ in_scan ScanAudit k -> tmap t3 !! k = tmap t2 !! k) -> proc_same t2 t3 ->
  seal_store id (stamp_sealed now b) snap dropped t t3.
Proof.
  intros Hid [A1 A2 A3 A4] E2 P2 E3 P3.
  assert (bi_Seq (stamp_sealed now b) = bi_Seq b) as Eseq by (unfold stamp_sealed; by case_match).
  assert (bi_VoteIDs (stamp_sealed now b) = bi_VoteIDs b) as Eids
    by (unfold stamp_sealed; by case_match).
  assert (forall k, ~ in_scan ScanAudit k -> tmap t3 !! k = _) as E
    by (intros k Hk; rewrite E3, E2 by done; apply seal_writes_lookup).
  rewrite Hid in E.
  assert (forall u, status_at (tmap t3) id u =
    if decide (u ∈ bi_VoteIDs b /\ moves_to_batched (tmap t1) id u = true)
    then Some VoteStatusBatched else status_at (tmap t1) id u) as Es.
  { intros u. unfold status_at at 1. rewrite E by (intros []).
    repeat case_decide; try naive_solver. }
  split; rewrite ?Eseq, ?Eids.
  - unfold batch_at. rewrite E by (intros []). by rewrite decide_True.
  - unfold snapshot_at. rewrite E by (intros []). by rewrite decide_True.
  - intros u Hu Hm Hd. rewrite Es. rewrite decide_True; [done|]. split; [done|].
    destruct (A2 u) as [Eu|(_ & Hin & _)].
    + unfold moves_to_batched. rewrite Eu. done.
    + apply list_elem_of_fmap in Hin as (v & -> & Hv). by destruct (Hd v).
  - intros u. rewrite Es. case_decide as Hd; [right; left; naive_solver|].
    destruct (A2 u) as [?|(? & ? & _)]; [by left|right; right; done].
  - intros v Hv Hm Hn. rewrite Es. rewrite decide_False by naive_solver. destruct (A3 v Hv Hm) as [|Hf]; [by left|right].
    eapply failed_before; [done|by trans t2].
  - intros k H1' H2' H3' H4'. rewrite E by done.
    assert (tmap t1 !! k = tmap t !! k) as Ek.
    { apply A1. intros v Hv. apply H3'. right. apply list_elem_of_fmap. by exists v. }
    destruct k; try done; case_decide as Hd; try done.
    + by destruct Hd; subst.
    + destruct Hd as (-> & Hv & _). by destruct (H3' voteID (or_introl Hv)).
    + by destruct Hd; subst.
  - by trans t1; [|trans t2].
Qed.

Lemma in_store_read {A} (m : stE TStorage A) (s : TSW) :
  (m (env_store (sw_env s))).2 = env_store (sw_env s) ->
  in_store m s = ((m (env_store (sw_env s))).1, s).
Proof.
  unfold in_store, zoom. destruct (m _) as [r t]. simpl. intros ->. by destruct s as [[] ].
Qed.

Lemma marks_same id t t' : tmap t' = tmap t -> proc_same t t' -> marks id [] t t'.
Proof.
  intros E P. split; [by rewrite E|left; by rewrite E| |done].
  intros v Hv. by apply not_elem_of_nil in Hv.
Qed.

Lemma unsealed_store s t :
  tmap t = tmap (env_store (sw_env s)) -> proc_same (env_store (sw_env s)) t ->
  unsealed s [] (MkSW (set_store t (sw_env s)) (sw_rt s)).
Proof.
  intros E P. split; simpl; [| |by apply marks_same].
  - exists (rt_state (sw_rt s)), (rt_dirty (sw_rt s)).
    rewrite list_filter_id by (apply Forall_true; set_solver).
    by rewrite set_pending_same, set_chain_same.
  - by exists t, (env_calls (sw_env s)).
Qed.

(** The last steps of a seal, from a state that took the batch. *)
Lemma persist_batch_outcome now st0 s s4 batch rest vk data st stx n :
  let sealed := sealed_of (rt_cfg (sw_rt s)) st0 batch in
  let dropped := dropped_of (rt_cfg (sw_rt s)) st0 batch in
  sealed <> [] -> unsealed s dropped s4 -> restorable st0 s4 ->
  rt_state (sw_rt s4) = st -> rt_dirty (sw_rt s4) = true ->
  (forall m vs, applies stx m vs = applies st0 m vs) ->
  ApplyBatch stx n ((fun d : Decoded => d.1.2) <$> sealed) = (Some data, st) ->
  let '(r, s') := persist_batch now vk data sealed rest s4 in
  outcome now st0 s batch rest r s'.
Proof.
  intros sealed dropped Hne Hun Hres Hst Hdirty Hx Happ.
  assert (sound st0 s4) as Hs4 by (split; [done|by rewrite Hdirty]).
  unfold persist_batch. unfold mbind at 1, stE_bind at 1, lift.
  destruct (marshal_request _) as [req|] eqn:Ereq; cbn [of_option];
    [|by apply (SealFailed _ _ _ _ _ _ dropped); [right|..]].
  unfold mbind at 1, stE_bind at 1, rt_get, gets. rewrite Hst.
  unfold mbind at 1, stE_bind at 1.
  destruct (State_Snapshot st) as [snap|] eqn:Esnap; cbn [of_option];
    [|by apply (SealFailed _ _ _ _ _ _ dropped); [right|..]].
  unfold mbind at 1, stE_bind at 1, in_store at 1, zoom. rewrite SealBatch_run.
  set (b := batch_input now (sw_rt s4) req _).
  set (ws := WPut _ _ :: _). pose proof (commit_proc ws (env_store (sw_env s4))) as Hp2.
  destruct (commit_run ws (env_store (sw_env s4))) as (t2 & E2 & Hm2 & _).
  rewrite E2 in *. cbn [snd] in Hp2.
  destruct (next_fault (td_faults (s_db (env_store (sw_env s4))))).
  { apply (SealFailed _ _ _ _ _ _ (dropped ++ [])); [right; by rewrite app_nil_r|..].
    - eapply unsealed_app; [done|]. by apply unsealed_store.
    - split; [|simpl; by rewrite Hdirty].
      eapply unsealed_restorable; [|done]. by apply unsealed_store. }
  destruct Hun as [(st' & d' & Ert) (t' & c & Eenv) Hmarks].
  assert (st' = st /\ d' = true) as [-> ->] by (by rewrite Ert in Hst, Hdirty; simpl in *).
  unfold mbind at 1, stE_bind at 1, on_rt, modify. cbn [sw_env sw_rt].
  unfold mbind at 1, stE_bind at 1.
  destruct (audit_run now "system" "system" "seal_batch" (rt_id (sw_rt s4))
    (MkSW (set_store t2 (sw_env s4)) (set_sealed rest (sw_rt s4)))) as (t3 & E3 & Hm3 & Hp3).
  rewrite E3. cbn [sw_env sw_rt].
  assert (rt_id (sw_rt s4) = rt_id (sw_rt s)) as Eid by by rewrite Ert.
  eapply (SealDone _ _ _ _ _ data st stx n (stamp_sealed now b) snap req vk t3 c);
    [done..| | |].
  - unfold b. rewrite Ert. done.
  - eapply (seal_store_intro _ now b snap dropped _ _ t2);
      [by unfold b|exact Hmarks|done..].
  - unfold Notify, modify. cbn. rewrite Eid, Eenv, Ert. done.
Qed.

Lemma sealLocked_outcome now st0 (s : TSW) :
  sound st0 s ->
  let p := nextBatch (rt_pending (sw_rt s)) (rt_batchSize (sw_rt s)) in
  let q := sealLocked now s in
  outcome now st0 s p.1 p.2 q.1 q.2.
Proof.
  intros Hs. cbv zeta. remember (sealLocked now s) as q eqn:Eq.
  destruct (restore_if_dirty_run st0 s Hs) as (s1 & E1 & Hc1 & Hu1 & Henv1 & st1 & Hrt1).
  assert (NoDup (nextBatch (rt_pending (sw_rt s)) (rt_batchSize (sw_rt s))).1) as Hnd.
  { eapply NoDup_fmap_1. apply nextBatch_loop_slots. }
  unfold sealLocked in Eq. unfold mbind at 1, stE_bind at 1 in Eq. rewrite E1 in Eq.
  unfold mbind at 1, stE_bind at 1, rt_get, gets in Eq.
  assert (rt_pending (sw_rt s1) = rt_pending (sw_rt s)) as Epd by by rewrite Hrt1.
  assert (rt_batchSize (sw_rt s1) = rt_batchSize (sw_rt s)) as Ebs by by rewrite Hrt1.
  assert (rt_cfg (sw_rt s1) = rt_cfg (sw_rt s)) as Ecfg by by rewrite Hrt1.
  rewrite Epd, Ebs in Eq.
  destruct (nextBatch _ _) as [batch rest]. cbn [fst snd] in *.
  assert (sound st0 s1) as Hs1 by (destruct Hc1 as (? & ? & ?); by split).
  destruct batch as [|v0 batch0]; [subst q; exact (SealIdle now st0 s [] rest s1 eq_refl Hu1 Hs1)|].
  set (batch := v0 :: batch0) in *.
  unfold mbind at 1, stE_bind at 1 in Eq.
  rewrite in_store_read in Eq by (unfold Election_; by rewrite load_state).
  destruct (Election_ _ _).1 as [el|e]; cbn [fst snd] in Eq;
    [|subst q; by apply (SealFailed _ _ _ _ _ _ []); [left|..]].
  destruct (decode_batch_run batch s1) as (s2 & E2 & Hd2).
  unfold mbind at 1, stE_bind at 1 in Eq. rewrite E2 in Eq. rewrite Ecfg in *.
  set (dec := omap (decode_vote _) batch) in *.
  assert ((d ← dec; [d.1.2]) = (fun d : Decoded => d.1.2) <$> dec) as Edec
    by (clear; induction dec as [|d l IH]; [done|]; csimpl; by rewrite IH).
  rewrite Edec in Eq.
  destruct (applyBatch_run st0 ((fun d : Decoded => d.1.2) <$> dec) s2)
    as (data & refused & s3 & E3 & Ha & Hr); [by eapply drops_clean|].
  unfold mbind at 1, stE_bind at 1 in Eq. rewrite E3 in Eq. cbn [fst snd] in Eq.
  destruct (drop_refused_run refused 0 dec s3) as (s4 & E4 & Hd4).
  unfold mbind at 1, stE_bind at 1 in Eq. rewrite E4 in Eq.
  rewrite length_fmap in Hr. pose proof (split_refused_accept st0 refused dec Hr
    : _ = sealed_of (rt_cfg (sw_rt s)) st0 batch) as Esp.
  rewrite length_fmap in Ha.
  pose proof (dropped_votes (rt_cfg (sw_rt s)) st0 refused batch Hnd Esp) as Hdrop.
  fold dec in Hdrop. rewrite Esp in Eq.
  pose proof (greedy_accept st0 dec dec 0 [] eq_refl
    : _ = sealed_of (rt_cfg (sw_rt s)) st0 batch) as Ega.
  destruct Ha as (c & st & -> & Hdata).
  assert (unsealed s (dropped_of (rt_cfg (sw_rt s)) st0 batch) s4) as Hun.
  { apply (unsealed_ext _ _ _ _ Hdrop). apply (unsealed_app s [] s1); [done|].
    eapply unsealed_app; [by apply drops_unsealed|].
    eapply (unsealed_app _ []); [apply chain_unsealed|by apply drops_unsealed]. }
  assert (restorable st0 s4) as Hres.
  { eapply unsealed_restorable; [apply Hun|apply Hs]. }
  assert (rt_state (sw_rt s4) = st /\
    rt_dirty (sw_rt s4) = match data with Some _ => true | None => false end) as [Est Edr]
    by by rewrite (drops_rt _ _ _ Hd4).
  destruct data as [d|].
  - destruct Hdata as (Hk & stx & n & Hx & Happ).
    assert (sealed_of (rt_cfg (sw_rt s)) st0 batch <> []) as Hne.
    { intros E. apply Hk. rewrite E in Ega.
      destruct (greedy st0 _ [] _) as [|j g] eqn:Eg; [done|]. exfalso.
      assert (j < length dec) as Hj.
      { assert (j ∈ greedy st0 ((fun d : Decoded => d.1.2) <$> dec) [] (seq 0 (length dec))) as Hin
          by (rewrite Eg; set_solver).
        apply greedy_subset in Hin as [Hin|[_ Hin]%elem_of_seq]; [|lia].
        by apply not_elem_of_nil in Hin. }
      destruct (lookup_lt_is_Some_2 dec j Hj) as [x Hx']. csimpl in Ega.
      by rewrite Hx' in Ega. }
    pose proof (persist_batch_outcome now st0 s s4 batch rest (ec_VK (el_Config el)) d st stx n
      Hne Hun Hres Est Edr Hx) as Hpo.
    destruct (sealed_of (rt_cfg (sw_rt s)) st0 batch) as [|x xs] eqn:Esd; [done|].
    rewrite <- Eq in Hpo. destruct q as [r s'].
    apply Hpo. rewrite <- Happ. f_equal. unfold votes_at.
    by rewrite omap_lookup_fmap, Ega.
  - destruct Hdata as [Hk Hx].
    assert (sealed_of (rt_cfg (sw_rt s)) st0 batch = []) as Hnil.
    { by rewrite Hk in Ega. }
    subst q. eapply (SealEmpty _ _ _ _ _ s4);
      [done|exact Hnil|exact Hun|split; [exact Hres|by rewrite Est]|done].
Qed.
End sealed.
