(* ===== verification/SealInv.v ===== *)
(** * The sealing invariant

    The relation between an election's live runtime and the store that every
    seal keeps, whatever fails: no vote is sealed twice, the buffer holds
    stored pending votes in submission order, and the batches are numbered
    without gaps.  And the account of every pending vote across a seal. *)

From S2P Require Import Prelude Errors Effects Bytes Types Records KV Keys Artifacts Storage.
From S2P Require Import StorageRefine StorageSpec StorageProps Sdk Config Seal SealProps.

Section invariant.
Context `{ChainLaws}.
Abbreviation TSW := (SW TypedDB).

(** Submission order. *)
Definition before (p q : Vote) : Prop := (v_Seq p < v_Seq q)%N.

(** What the store says of the votes and batches of an election. *)
Record votes_inv (m : store) (id : ElectionID) (pending : list Vote) (batchSeq : N) : Prop := {
  vi_pending : Forall (fun p =>
    vote_at m id (v_ID p) = Some (kept_Vote p) /\
    status_at m id (v_ID p) = Some VoteStatusPending) pending;
  vi_nodup : NoDup (v_ID <$> pending);
  vi_order : StronglySorted before pending;
  vi_batches seq : is_Some (batch_at m id seq) <-> (seq < batchSeq)%N;
  vi_sealed seq b u : batch_at m id seq = Some b -> u ∈ bi_VoteIDs b ->
    exists st, status_at m id u = Some st /\ st <> VoteStatusPending;
  vi_distinct seq b : batch_at m id seq = Some b -> NoDup (bi_VoteIDs b);
  vi_once seq1 seq2 b1 b2 u :
    batch_at m id seq1 = Some b1 -> batch_at m id seq2 = Some b2 ->
    u ∈ bi_VoteIDs b1 -> u ∈ bi_VoteIDs b2 -> seq1 = seq2;
  vi_stored seq b u : batch_at m id seq = Some b -> u ∈ bi_VoteIDs b -> is_Some (vote_at m id u);
}.

(** The invariant of a runtime: its votes and batches, and its state. *)
Record rt_inv (s : TSW) : Prop := {
  ri_sound : exists st0, sound st0 s;
  ri_votes : votes_inv (tmap (env_store (sw_env s))) (rt_id (sw_rt s))
               (rt_pending (sw_rt s)) (rt_batchSeq (sw_rt s));
  ri_size : (0 < rt_batchSize (sw_rt s))%Z;
}.

(** ** Removing votes from the buffer *)

Lemma before_trans : Transitive before.
Proof. intros a b c. unfold before. lia. Qed.

Lemma sublist_Forall {A} (P : A -> Prop) (l1 l2 : list A) :
  l1 `sublist_of` l2 -> Forall P l2 -> Forall P l1.
Proof.
  intros Hs Hf. rewrite Forall_forall in Hf |- *. intros x Hx. apply Hf.
  by eapply elem_of_submseteq; [|apply sublist_submseteq].
Qed.

Lemma sublist_sorted {A} (R : relation A) (l1 l2 : list A) :
  l1 `sublist_of` l2 -> StronglySorted R l2 -> StronglySorted R l1.
Proof.
  induction 1 as [|x l1 l2 Hs IH|x l1 l2 Hs IH]; intros Ho; [done|..];
    apply StronglySorted_inv in Ho as [Ho Hx]; [|by apply IH].
  constructor; [by apply IH|]. by eapply sublist_Forall.
Qed.

Lemma sublist_nodup {A} (l1 l2 : list A) : l1 `sublist_of` l2 -> NoDup l2 -> NoDup l1.
Proof.
  induction 1 as [|x l1 l2 Hs IH|x l1 l2 Hs IH]; intros Hn; [done|..];
    apply NoDup_cons in Hn as [Hx Hn]; [|by apply IH].
  constructor; [|by apply IH]. intros Hin. apply Hx.
  by eapply elem_of_submseteq; [|apply sublist_submseteq].
Qed.

Lemma sublist_fmap {A B} (f : A -> B) (l1 l2 : list A) :
  l1 `sublist_of` l2 -> f <$> l1 `sublist_of` f <$> l2.
Proof. induction 1; csimpl; by constructor. Qed.

Lemma filter_sublist {A} (P : A -> Prop) `{!forall x, Decision (P x)} (l : list A) :
  filter P l `sublist_of` l.
Proof.
  induction l as [|x l IH]; [done|]. destruct (decide (P x)).
  - rewrite filter_cons_True by done. by apply sublist_skip.
  - rewrite filter_cons_False by done. by apply sublist_cons.
Qed.

Lemma same_vote pending p q :
  NoDup (v_ID <$> pending) -> p ∈ pending -> q ∈ pending -> v_ID p = v_ID q -> p = q.
Proof.
  intros Hnd Hp Hq E. apply list_elem_of_lookup in Hp as [i Hi].
  apply list_elem_of_lookup in Hq as [j Hj].
  assert (i = j) as ->.
  { eapply NoDup_lookup; [done|rewrite list_lookup_fmap, Hi; done|].
    by rewrite list_lookup_fmap, Hj, E. }
  by simplify_eq.
Qed.

(** The buffer shrinks to votes whose records and statuses did not change. *)
Lemma votes_inv_shrink m m' id pending pending' n :
  pending' `sublist_of` pending ->
  (forall u, vote_at m' id u = vote_at m id u) ->
  (forall p, p ∈ pending' -> status_at m' id (v_ID p) = status_at m id (v_ID p)) ->
  (forall seq, bi_VoteIDs <$> batch_at m' id seq = bi_VoteIDs <$> batch_at m id seq) ->
  (forall u st, status_at m id u = Some st -> st <> VoteStatusPending ->
     exists st', status_at m' id u = Some st' /\ st' <> VoteStatusPending) ->
  votes_inv m id pending n -> votes_inv m' id pending' n.
Proof.
  intros Hsub Hv Hsame Hb Hst [I1 I2 I3 I4 I5 I6 I7 I8].
  assert (forall seq b, batch_at m' id seq = Some b ->
    exists b0, batch_at m id seq = Some b0 /\ bi_VoteIDs b0 = bi_VoteIDs b) as Hb'.
  { intros seq b Hbs. specialize (Hb seq). rewrite Hbs in Hb.
    destruct (batch_at m id seq) as [b0|]; [|done]. exists b0. split; [done|]. by injection Hb. }
  split.
  - apply (sublist_Forall _ _ _ Hsub) in I1. rewrite Forall_forall in I1 |- *.
    intros p Hp. destruct (I1 p Hp) as [Iv Is]. by rewrite Hv, (Hsame p Hp).
  - eapply sublist_nodup; [|exact I2]. by apply sublist_fmap.
  - by eapply sublist_sorted.
  - intros seq. by rewrite <- I4, <- (fmap_is_Some bi_VoteIDs), Hb, fmap_is_Some.
  - intros seq b u (b0 & Hb0 & <-)%Hb' Hu. destruct (I5 _ _ _ Hb0 Hu) as (st & ? & ?). eauto.
  - intros seq b (b0 & Hb0 & <-)%Hb'. by eapply I6.
  - intros seq1 seq2 b1 b2 u (c1 & Hc1 & <-)%Hb' (c2 & Hc2 & <-)%Hb'. by eapply I7.
  - intros seq b u (b0 & Hb0 & <-)%Hb' Hu. rewrite Hv. by eapply I8.
Qed.

Lemma votes_inv_marks t t' id l pending n :
  (forall v, v ∈ l -> v ∈ pending) -> marks id l t t' ->
  votes_inv (tmap t) id pending n ->
  votes_inv (tmap t') id (filter (fun p => p ∉ l) pending) n.
Proof.
  intros Hl Hm Hinv. eapply votes_inv_shrink; [apply filter_sublist|..|exact Hinv].
  - intros u. unfold vote_at. by rewrite (marks_other _ _ _ _ Hm).
  - intros p [Hn Hp]%list_elem_of_filter. destruct (marks_status _ _ _ _ Hm (v_ID p)) as [?|(_ & Hin & _)]; [done|].
    exfalso. apply list_elem_of_fmap in Hin as (v & Ev & Hv). apply Hn.
    by rewrite (same_vote pending p v (vi_nodup _ _ _ _ Hinv) Hp (Hl v Hv) Ev).
  - intros seq. unfold batch_at. by rewrite (marks_other _ _ _ _ Hm).
  - intros u st Hst Hne. destruct (marks_status _ _ _ _ Hm u) as [->|(-> & _)]; eauto.
Qed.

Lemma unsealed_inv st0 s l s' :
  (forall v, v ∈ l -> v ∈ rt_pending (sw_rt s)) ->
  unsealed s l s' -> sound st0 s' -> rt_inv s -> rt_inv s'.
Proof.
  intros Hl [(st & d & Ert) Henv Hm] Hs [_ Hv Hsz]. split; [by exists st0| |by rewrite Ert].
  rewrite Ert. simpl. by apply (votes_inv_marks (env_store (sw_env s))).
Qed.

(** ** The sealed votes are a part of the batch *)

Lemma accept_sublist st0 kept l :
  exists k, accept st0 kept l = kept ++ k /\ k `sublist_of` l.
Proof.
  revert kept. induction l as [|d l IH]; intros kept; simpl.
  { exists []. by rewrite app_nil_r. }
  destruct (applies _ _ _).
  - destruct (IH (kept ++ [d])) as (k & E & Hk). exists (d :: k).
    split; [by rewrite E, <- app_assoc|by apply sublist_skip].
  - destruct (IH kept) as (k & E & Hk). exists k. split; [done|by apply sublist_cons].
Qed.

Lemma sealed_sublist cfg st0 batch :
  ((fun d : Decoded => d.1.1) <$> sealed_of cfg st0 batch) `sublist_of` batch.
Proof.
  unfold sealed_of. destruct (accept_sublist st0 [] (omap (decode_vote cfg) batch)) as (k & -> & Hk).
  simpl. trans ((fun d : Decoded => d.1.1) <$> omap (decode_vote cfg) batch); [by apply sublist_fmap|].
  clear k Hk. induction batch as [|v batch IH]; [done|]. csimpl.
  destruct (decode_vote cfg v) as [d|] eqn:E; simpl; [|by apply sublist_cons].
  rewrite (decode_vote_vote _ _ _ E). by apply sublist_skip.
Qed.

Definition sealed_ids (cfg : ChainConfig) (st0 : ChainState) (batch : list Vote) : list VoteID :=
  (fun d : Decoded => v_ID d.1.1) <$> sealed_of cfg st0 batch.

Lemma elem_of_sealed_ids cfg st0 batch u :
  u ∈ sealed_ids cfg st0 batch <->
  exists v, v_ID v = u /\ v ∈ batch /\ v ∈ (fun d : Decoded => d.1.1) <$> sealed_of cfg st0 batch.
Proof.
  unfold sealed_ids. rewrite list_elem_of_fmap. split.
  - intros (d & -> & Hd). exists d.1.1. split; [done|].
    assert (d.1.1 ∈ (fun d : Decoded => d.1.1) <$> sealed_of cfg st0 batch) as Hin
      by (apply list_elem_of_fmap; by exists d).
    split; [|done]. eapply elem_of_submseteq; [done|]. apply sublist_submseteq, sealed_sublist.
  - intros (v & <- & _ & (d & -> & Hd)%list_elem_of_fmap). by exists d.
Qed.

Lemma sealed_ids_nodup cfg st0 batch : NoDup (v_ID <$> batch) -> NoDup (sealed_ids cfg st0 batch).
Proof.
  intros Hnd. unfold sealed_ids.
  replace ((fun d : Decoded => v_ID d.1.1) <$> sealed_of cfg st0 batch)
    with (v_ID <$> ((fun d : Decoded => d.1.1) <$> sealed_of cfg st0 batch))
    by by rewrite <- list_fmap_compose.
  eapply sublist_nodup; [|done]. apply sublist_fmap, sealed_sublist.
Qed.

Lemma dropped_subset cfg st0 batch v : v ∈ dropped_of cfg st0 batch -> v ∈ batch.
Proof. unfold dropped_of. by intros [_ ?]%list_elem_of_filter. Qed.

(** ** A sealed batch keeps the invariant *)

Lemma votes_inv_seal id b snap dropped t t' batch rest pending n :
  seal_store id b snap dropped t t' ->
  bi_Seq b = n -> (n + 1 < two64)%N ->
  batch ++ rest ≡ₚ pending -> rest `sublist_of` pending ->
  NoDup (bi_VoteIDs b) ->
  (forall u, u ∈ bi_VoteIDs b -> exists v, v_ID v = u /\ v ∈ batch /\ v ∉ dropped) ->
  (forall v, v ∈ dropped -> v ∈ batch) ->
  votes_inv (tmap t) id pending n ->
  votes_inv (tmap t') id rest (n + 1).
Proof.
  intros [S1 S2 S3 S4 _ S6 _] Hseq Hn HP Hsub Hndb Hids Hdr Hinv.
  destruct Hinv as [I1 I2 I3 I4 I5 I6 I7 I8].
  assert (forall v, v ∈ batch -> v ∈ pending) as Hbp by (intros v Hv; rewrite <- HP; set_solver).
  assert (forall seq, seq <> n -> batch_at (tmap t') id seq = batch_at (tmap t) id seq) as Hbo.
  { intros seq Hne. unfold batch_at. rewrite S6; [done| |done..|by intros []].
    rewrite Hseq. congruence. }
  assert (forall u, vote_at (tmap t') id u = vote_at (tmap t) id u) as Hvo.
  { intros u. unfold vote_at. by rewrite S6 by (done || by intros []). }
  assert (forall v p, v ∈ batch -> p ∈ rest -> v_ID v <> v_ID p) as Hdisj.
  { intros v p Hv Hp E. rewrite <- HP, fmap_app in I2. apply NoDup_app in I2 as (_ & Hd & _).
    apply (Hd (v_ID v)); [by apply list_elem_of_fmap_2|].
    rewrite E. by apply list_elem_of_fmap_2. }
  assert (forall u, u ∈ bi_VoteIDs b -> status_at (tmap t) id u = Some VoteStatusPending) as Hpend.
  { intros u Hu. destruct (Hids u Hu) as (v & <- & Hv & _). rewrite Forall_forall in I1.
    apply (I1 v). by apply Hbp. }
  assert (forall u, u ∈ bi_VoteIDs b -> status_at (tmap t') id u = Some VoteStatusBatched) as Hbat.
  { intros u Hu. apply S3; [done| |].
    - unfold may_move. by rewrite (Hpend u Hu).
    - intros v Hv E. destruct (Hids u Hu) as (w & Ew & Hw & Hnw). apply Hnw.
      rewrite (same_vote pending w v); [done|done|by apply Hbp|by apply Hbp, Hdr|congruence]. }
  split.
  - rewrite Forall_forall in I1 |- *. intros p Hp.
    assert (p ∈ pending) as Hpp by (rewrite <- HP; set_solver).
    destruct (I1 p Hpp) as [Iv Is]. split.
    + by rewrite Hvo.
    + destruct (S4 (v_ID p)) as [->|[[_ Hin]|[_ Hin]]]; [done|exfalso..].
      * destruct (Hids _ Hin) as (v & Ev & Hv & _). by apply (Hdisj v p).
      * apply list_elem_of_fmap in Hin as (v & Ev & Hv). by apply (Hdisj v p); [apply Hdr|..].
  - eapply sublist_nodup; [by apply sublist_fmap|done].
  - by eapply sublist_sorted.
  - intros seq. destruct (decide (seq = n)) as [->|Hne].
    + rewrite <- Hseq, S1 at 1. split; [lia|by eexists].
    + rewrite Hbo by done. rewrite I4. lia.
  - intros seq c u Hc Hu. destruct (decide (seq = n)) as [->|Hne].
    + rewrite <- Hseq, S1 in Hc. injection Hc as <-. simpl in Hu. rewrite Hbat by done. eauto.
    + rewrite Hbo in Hc by done. destruct (I5 _ _ _ Hc Hu) as (st & Hst & Hne').
      destruct (S4 u) as [->|[[-> _]|[-> _]]]; eauto.
  - intros seq c Hc. destruct (decide (seq = n)) as [->|Hne].
    + rewrite <- Hseq, S1 in Hc. by injection Hc as <-.
    + rewrite Hbo in Hc by done. by eapply I6.
  - assert (forall seq c u, seq <> n -> batch_at (tmap t') id seq = Some c ->
      u ∈ bi_VoteIDs c -> u ∈ bi_VoteIDs b -> False) as Hno.
    { intros seq c u Hne Hc Hu Hub. rewrite Hbo in Hc by done.
      destruct (I5 _ _ _ Hc Hu) as (st & Hst & Hp). rewrite Hpend in Hst by done. congruence. }
    intros seq1 seq2 b1 b2 u H1' H2' U1 U2.
    destruct (decide (seq1 = n)) as [->|Hn1], (decide (seq2 = n)) as [->|Hn2]; [done|..].
    + rewrite <- Hseq, S1 in H1'. injection H1' as <-. exfalso. by eapply Hno.
    + rewrite <- Hseq, S1 in H2'. injection H2' as <-. exfalso. by eapply (Hno seq1).
    + rewrite Hbo in H1', H2' by done. by eapply I7.
  - intros seq c u Hc Hu. rewrite Hvo. destruct (decide (seq = n)) as [->|Hne].
    + rewrite <- Hseq, S1 in Hc. injection Hc as <-. simpl in Hu.
      destruct (Hids u Hu) as (v & <- & Hv & _). rewrite Forall_forall in I1.
      rewrite (proj1 (I1 v (Hbp v Hv))). by eexists.
    + rewrite Hbo in Hc by done. by eapply I8.
Qed.

Lemma env_store_Notify id (e : Env TypedDB) : env_store (Notify_env id e) = env_store e.
Proof. unfold Notify_env. destruct (env_dispatchers e); [|done]. by destruct (env_stopping e). Qed.

Lemma outcome_inv now st0 s r s' batch rest :
  rt_inv s -> (batch <> [] -> rt_batchSeq (sw_rt s) + 1 < two64)%N ->
  nextBatch (rt_pending (sw_rt s)) (rt_batchSize (sw_rt s)) = (batch, rest) ->
  outcome now st0 s batch rest r s' -> rt_inv s'.
Proof.
  intros Hinv Hn Enb Ho.
  pose proof (nextBatch_loop_perm (rt_batchSize (sw_rt s)) ∅ 0 (rt_pending (sw_rt s))) as HP.
  pose proof (nextBatch_loop_sublist (rt_batchSize (sw_rt s)) ∅ 0 (rt_pending (sw_rt s))) as [_ Hsub].
  unfold nextBatch in Enb. rewrite Enb in HP, Hsub. cbn [fst snd] in HP, Hsub. clear Enb.
  assert (forall v, v ∈ dropped_of (rt_cfg (sw_rt s)) st0 batch -> v ∈ batch) as Hdr
    by (intros v; apply dropped_subset).
  assert (forall v, v ∈ batch -> v ∈ rt_pending (sw_rt s)) as Hbp
    by (intros v Hv; rewrite <- HP; set_solver).
  destruct Hinv as [Hs Hv Hsz] eqn:EI. clear EI.
  destruct Ho as [s' _ Hun Hso|e l s' Hl Hun Hso|s1 s' _ Hnil Hun Hso ->
                 |data st stx n b snap req vk t c s' Hne Hx Happ Hreq Hsnap Eb Hst ->].
  - eapply unsealed_inv; [|done..]. intros v Hv'. by apply not_elem_of_nil in Hv'.
  - eapply unsealed_inv; [|done..]. intros v Hv'. destruct Hl as [-> | ->]; [by apply not_elem_of_nil in Hv'|auto].
  - destruct Hun as [(st & d & Ert) Henv Hm]. split; [exists st0; apply Hso| |by rewrite Ert].
    cbn [sw_env sw_rt]. rewrite Ert. cbn.
    eapply (votes_inv_shrink (tmap (env_store (sw_env s)))); [done|..|done].
    + intros u. unfold vote_at. by rewrite (marks_other _ _ _ _ Hm).
    + intros p Hp. destruct (marks_status _ _ _ _ Hm (v_ID p)) as [?|(_ & Hin & _)]; [done|exfalso].
      apply list_elem_of_fmap in Hin as (v & Ev & Hvd). pose proof (vi_nodup _ _ _ _ Hv) as Hnd.
      rewrite <- HP, fmap_app in Hnd. apply NoDup_app in Hnd as (_ & Hd & _).
      apply (Hd (v_ID v)); [apply list_elem_of_fmap_2; auto|rewrite <- Ev; by apply list_elem_of_fmap_2].
    + intros seq. unfold batch_at. by rewrite (marks_other _ _ _ _ Hm).
    + intros u st' Hst Hne. destruct (marks_status _ _ _ _ Hm u) as [->|(-> & _)]; eauto.
  - assert (rt_batchSeq (sw_rt s) + 1 < two64)%N as Hn'
      by (apply Hn; intros ->; by destruct Hne).
    destruct (stamp_batch_input now (set_chain st true (sw_rt s)) req
      (sealed_ids (rt_cfg (sw_rt s)) st0 batch)) as (Eid & Eseq & Eids & _).
    unfold sealed_ids in Eid, Eseq, Eids. rewrite <- Eb in Eid, Eseq, Eids.
    fold (sealed_ids (rt_cfg (sw_rt s)) st0 batch) in Eids.
    change (rt_batchSeq (set_chain st true (sw_rt s))) with (rt_batchSeq (sw_rt s)) in Eseq.
    split; [| |done].
    + destruct (restore_snapshot (rt_cfg (sw_rt s)) st snap Hsnap) as (st' & Hr & _ & Heq).
      exists st'. split; [|by intros _ m vs]. exists snap. cbn [sw_env sw_rt].
      rewrite env_store_Notify. split; [by apply (ss_snapshot _ _ _ _ _ _ Hst)|done].
    + cbn [sw_env sw_rt]. rewrite env_store_Notify. cbn.
      unfold u64_succ. rewrite u64_small by done.
      eapply (votes_inv_seal _ b snap _ (env_store (sw_env s)) t batch rest);
        [exact Hst|done..| | |exact Hdr|done].
      * rewrite Eids. apply sealed_ids_nodup. pose proof (vi_nodup _ _ _ _ Hv) as Hnd.
        rewrite <- HP, fmap_app in Hnd. by apply NoDup_app in Hnd as [? _].
      * intros u. rewrite Eids. intros (v & <- & Hvb & Hvs)%elem_of_sealed_ids.
        exists v. split; [done|]. split; [done|]. unfold dropped_of.
        intros [Hnd _]%list_elem_of_filter. done.
Qed.

(** What a seal changes in the buffer and the numbering. *)
Definition room (s : TSW) : N := (rt_batchSeq (sw_rt s) + N.of_nat (length (rt_pending (sw_rt s))))%N.

Lemma sublist_length {A} (l1 l2 : list A) : l1 `sublist_of` l2 -> length l1 <= length l2.
Proof. induction 1; simpl; lia. Qed.

Lemma unsealed_room s l s' :
  unsealed s l s' ->
  rt_batchSeq (sw_rt s') = rt_batchSeq (sw_rt s) /\
  rt_batchSize (sw_rt s') = rt_batchSize (sw_rt s) /\
  rt_id (sw_rt s') = rt_id (sw_rt s) /\
  rt_pending (sw_rt s') `sublist_of` rt_pending (sw_rt s).
Proof.
  intros [(st & d & ->) _ _]. simpl. repeat split; try done. apply filter_sublist.
Qed.

Lemma sealLocked_step now (s : TSW) :
  rt_inv s -> (room s < two64)%N ->
  let q := sealLocked now s in
  rt_inv q.2 /\ (room q.2 <= room s)%N /\
  rt_id (sw_rt q.2) = rt_id (sw_rt s) /\
  rt_batchSize (sw_rt q.2) = rt_batchSize (sw_rt s) /\
  rt_pending (sw_rt q.2) `sublist_of` rt_pending (sw_rt s) /\
  (q.1 = Ok tt -> rt_pending (sw_rt s) <> [] ->
     length (rt_pending (sw_rt q.2)) < length (rt_pending (sw_rt s))).
Proof.
  intros Hinv Hroom. cbv zeta. destruct (ri_sound _ Hinv) as [st0 Hs].
  pose proof (sealLocked_outcome now st0 s Hs) as Ho. cbv zeta in Ho.
  destruct (nextBatch (rt_pending (sw_rt s)) (rt_batchSize (sw_rt s))) as [batch rest] eqn:Enb.
  cbn [fst snd] in Ho.
  pose proof (nextBatch_loop_perm (rt_batchSize (sw_rt s)) ∅ 0 (rt_pending (sw_rt s))) as HP.
  pose proof (nextBatch_loop_sublist (rt_batchSize (sw_rt s)) ∅ 0 (rt_pending (sw_rt s))) as [_ Hsub].
  unfold nextBatch in Enb. rewrite Enb in HP, Hsub. cbn [fst snd] in HP, Hsub.
  apply Permutation_length in HP. rewrite length_app in HP.
  assert (rt_pending (sw_rt s) <> [] -> batch <> []) as Hne.
  { intros Hp ->. destruct (rt_pending (sw_rt s)) as [|v l]; [done|].
    destruct (nextBatch_progress v l _ (ri_size _ Hinv)) as (b & r & E).
    unfold nextBatch in E. rewrite Enb in E. done. }
  assert (batch <> [] -> rt_batchSeq (sw_rt s) + 1 < two64)%N as Hseq.
  { intros Hb. unfold room in Hroom. destruct batch; [done|]. simpl in HP. lia. }
  set (q := sealLocked now s) in *. split; [by eapply outcome_inv|].
  unfold room in *.
  assert (length rest < length (rt_pending (sw_rt s)) \/ batch = []) as Hlen
    by (destruct batch; [by right|left; simpl in HP; lia]).
  destruct Ho as [s' Hb Hun Hso|e l s' Hl Hun Hso|s1 s' Hb Hnil Hun Hso ->
                 |data st stx n b snap req vk t c s' Hb Hx Happ Hreq Hsnap Eb Hst ->].
  - destruct (unsealed_room _ _ _ Hun) as (-> & -> & -> & Hsl).
    pose proof (sublist_length _ _ Hsl). repeat split; [lia|done|].
    intros _ Hp. by destruct (Hne Hp).
  - destruct (unsealed_room _ _ _ Hun) as (-> & -> & -> & Hsl).
    pose proof (sublist_length _ _ Hsl). repeat split; [lia|done|done].
  - destruct (unsealed_room _ _ _ Hun) as (E1 & E2 & E3 & _).
    cbn. rewrite E1, E2, E3. destruct Hlen; [|done]. repeat split; [lia|done|lia].
  - cbn. destruct Hlen; [|subst batch; by destruct Hb].
    unfold u64_succ. rewrite u64_small by (apply Hseq; intros ->; by destruct Hb).
    repeat split; [lia|done|lia].
Qed.

(** ** The loops *)

(** The sealing loops, by the condition they run under. *)
Fixpoint seal_while (go : Runtime -> bool) (fuel : nat) (now : time) : stE TSW unit :=
  match fuel with
  | O => mret tt
  | S fuel =>
      rt ← rt_get (fun rt => rt);
      if go rt then _ ← sealLocked now; seal_while go fuel now else mret tt
  end.

Lemma seal_while_S go fuel now (s : TSW) :
  seal_while go (S fuel) now s =
    if go (sw_rt s) then (sealLocked now ≫= fun _ => seal_while go fuel now) s else (Ok tt, s).
Proof.
  cbn [seal_while]. unfold mbind at 1, stE_bind at 1, rt_get, gets. by destruct (go (sw_rt s)).
Qed.

(** With a round per pending vote, the loop ends with its condition false
    unless a seal failed; the invariant holds, and more fuel changes nothing. *)
Lemma seal_while_run go now fuel (s : TSW) :
  (forall s, rt_inv s -> go (sw_rt s) = true -> rt_pending (sw_rt s) <> []) ->
  rt_inv s -> (room s < two64)%N -> length (rt_pending (sw_rt s)) < fuel ->
  let q := seal_while go fuel now s in
  rt_inv q.2 /\ (room q.2 <= room s)%N /\ rt_id (sw_rt q.2) = rt_id (sw_rt s) /\
  rt_pending (sw_rt q.2) `sublist_of` rt_pending (sw_rt s) /\
  (q.1 = Ok tt -> go (sw_rt q.2) = false) /\
  forall fuel', fuel <= fuel' -> seal_while go fuel' now s = q.
Proof.
  intros Hgo. revert s. induction fuel as [|fuel IH]; intros s Hinv Hroom Hf; [lia|]. cbv zeta.
  assert (forall f', S fuel <= f' -> exists f, f' = S f /\ fuel <= f) as Hpred
    by (intros [|f] ?; [lia|exists f; split; [done|lia]]).
  rewrite seal_while_S. destruct (go (sw_rt s)) eqn:Eg.
  2: { cbn [fst snd]. split_and!; try done.
       intros f' (f & -> & _)%Hpred. by rewrite seal_while_S, Eg. }
  destruct (sealLocked_step now s Hinv Hroom) as (Hi & Hr & Hid & _ & Hsub & Hlt).
  unfold mbind, stE_bind.
  destruct (sealLocked now s) as [[[]|e] s1] eqn:E1; cbn [fst snd] in *.
  - specialize (Hlt eq_refl (Hgo s Hinv Eg)).
    destruct (IH s1) as (Hi' & Hr' & Hid' & Hsub' & Hok & Hfuel); [done|lia|lia|].
    split_and!; [done|lia|congruence|by etrans|done|]. intros f' (f & -> & Hle)%Hpred.
    rewrite seal_while_S, Eg. unfold mbind, stE_bind. rewrite E1. by apply Hfuel.
  - split_and!; try done. intros f' (f & -> & Hle)%Hpred.
    rewrite seal_while_S, Eg. unfold mbind, stE_bind. by rewrite E1.
Qed.

(** The three loops of the engine. *)
Definition some_pending (rt : Runtime) : bool :=
  match rt_pending rt with [] => false | _ => true end.
Definition full_batch (rt : Runtime) : bool :=
  negb (Z.of_nat (length (nextBatch (rt_pending rt) (rt_batchSize rt)).1) <? rt_batchSize rt)%Z.
Definition stale (now : time) (window : duration) (rt : Runtime) : bool :=
  match rt_pending rt with [] => false | v :: _ => (window <=? now - v_SubmittedAt v)%Z end.

Lemma some_pending_ok (s : TSW) : rt_inv s -> some_pending (sw_rt s) = true -> rt_pending (sw_rt s) <> [].
Proof. unfold some_pending. intros _. by destruct (rt_pending (sw_rt s)). Qed.

Lemma stale_ok now window (s : TSW) :
  rt_inv s -> stale now window (sw_rt s) = true -> rt_pending (sw_rt s) <> [].
Proof. unfold stale. intros _. by destruct (rt_pending (sw_rt s)). Qed.

Lemma full_batch_ok (s : TSW) : rt_inv s -> full_batch (sw_rt s) = true -> rt_pending (sw_rt s) <> [].
Proof.
  unfold full_batch. intros Hinv Hf E. rewrite E in Hf. simpl in Hf.
  pose proof (ri_size _ Hinv). apply negb_true_iff, Z.ltb_ge in Hf. lia.
Qed.

Lemma sealAll_while fuel now (s : TSW) :
  sealAll_loop fuel now s = seal_while some_pending fuel now s.
Proof.
  revert s. induction fuel as [|fuel IH]; intros s; [done|].
  rewrite seal_while_S. cbn [sealAll_loop].
  unfold mbind at 1, stE_bind at 1, rt_get, gets, some_pending.
  destruct (rt_pending (sw_rt s)); [done|]. unfold mbind, stE_bind.
  destruct (sealLocked now s) as [[] ?]; [apply IH|done].
Qed.

Lemma sealFull_while fuel now (s : TSW) :
  sealFull_loop fuel now s = seal_while full_batch fuel now s.
Proof.
  revert s. induction fuel as [|fuel IH]; intros s; [done|].
  rewrite seal_while_S. cbn [sealFull_loop].
  unfold mbind at 1, stE_bind at 1, rt_get, gets, full_batch.
  destruct (nextBatch (rt_pending (sw_rt s)) _) as [batch rest]. cbn [fst].
  destruct (_ <? _)%Z; [done|]. simpl negb. unfold mbind, stE_bind.
  destruct (sealLocked now s) as [[] ?]; [apply IH|done].
Qed.

Lemma sealIfStale_while fuel now window (s : TSW) :
  sealIfStale_loop fuel now window s = seal_while (stale now window) fuel now s.
Proof.
  revert s. induction fuel as [|fuel IH]; intros s; [done|].
  rewrite seal_while_S. cbn [sealIfStale_loop].
  unfold mbind at 1, stE_bind at 1, rt_get, gets, stale.
  destruct (rt_pending (sw_rt s)) as [|v l]; [done|].
  destruct (_ <=? _)%Z; [|done]. unfold mbind, stE_bind.
  destruct (sealLocked now s) as [[] ?]; [apply IH|done].
Qed.

Lemma sealFull_run now (s : TSW) :
  rt_inv s -> (room s < two64)%N ->
  let s' := (sealFullLocked now s).2 in
  rt_inv s' /\ rt_id (sw_rt s') = rt_id (sw_rt s) /\
  rt_pending (sw_rt s') `sublist_of` rt_pending (sw_rt s).
Proof.
  intros Hinv Hroom. unfold sealFullLocked, mbind, stE_bind. cbn [rt_get gets snd].
  rewrite sealFull_while.
  destruct (seal_while_run full_batch now (S (length (rt_pending (sw_rt s)))) s)
    as (I & _ & E & Hsub & _); [apply full_batch_ok|done..|lia|]. done.
Qed.
End invariant.

#[export] Hint Resolve some_pending_ok stale_ok full_batch_ok : fold.

(** C7: sealing keeps the invariant of an election's runtime, whatever the
    state refuses and whichever read, encoding or write fails: the buffer
    holds stored pending votes in submission order, the batches are numbered
    from zero without gaps, and no vote is in two batches. *)
Theorem sealLocked_invariant `{ChainLaws} now (s : SW TypedDB) :
  rt_inv s -> (room s < two64)%N -> rt_inv (sealLocked now s).2.
Proof. intros Hinv Hroom. by apply sealLocked_step. Qed.

(** C6: a seal takes the next batch of pending votes, drops the ones that do
    not decode or that the state refuses on top of those before them, and
    stores the others, in order, as the next batch, with the snapshot and the
    root of the state after them and their status batched; the votes not taken
    stay pending.  If it fails, no batch is stored and only dropped votes leave
    the buffer. *)
Theorem sealLocked_seals `{ChainLaws} now st0 (s : SW TypedDB) :
  rt_inv s -> (room s < two64)%N -> sound st0 s ->
  let rt := sw_rt s in
  let '(batch, rest) := nextBatch (rt_pending rt) (rt_batchSize rt) in
  let sealed := sealed_of (rt_cfg rt) st0 batch in
  let dropped := dropped_of (rt_cfg rt) st0 batch in
  let '(r, s') := sealLocked now s in
  let m' := tmap (env_store (sw_env s')) in
  match r with
  | Ok _ =>
      rt_pending (sw_rt s') = (if decide (batch = []) then rt_pending rt else rest) /\
      if decide (sealed = []) then rt_batchSeq (sw_rt s') = rt_batchSeq rt
      else
        rt_batchSeq (sw_rt s') = (rt_batchSeq rt + 1)%N /\
        exists b data stx st n,
          batch_at m' (rt_id rt) (rt_batchSeq rt) = Some b /\
          bi_VoteIDs b = (fun d : Decoded => v_ID d.1.1) <$> sealed /\
          (forall i vs, applies stx i vs = applies st0 i vs) /\
          ApplyBatch stx n ((fun d : Decoded => d.1.2) <$> sealed) = (Some data, st) /\
          bi_NewStateRoot b = State_Root st /\
          snapshot_at m' (rt_id rt) = State_Snapshot st /\
          forall u, u ∈ bi_VoteIDs b -> status_at m' (rt_id rt) u = Some VoteStatusBatched
  | Err _ =>
      rt_batchSeq (sw_rt s') = rt_batchSeq rt /\
      (forall seq, batch_at m' (rt_id rt) seq = batch_at (tmap (env_store (sw_env s))) (rt_id rt) seq) /\
      forall v, v ∈ rt_pending rt -> v ∉ dropped -> v ∈ rt_pending (sw_rt s')
  end.
Proof.
  intros Hinv Hroom Hs rt.
  pose proof (sealLocked_outcome now st0 s Hs) as Ho. cbv zeta in Ho. fold rt in Ho.
  pose proof (nextBatch_loop_perm (rt_batchSize rt) ∅ 0 (rt_pending rt)) as HP.
  unfold nextBatch in *. destruct (nextBatch_loop _ _ _ _) as [batch rest] eqn:Enb.
  cbn [fst snd] in Ho, HP.
  destruct (sealLocked now s) as [r s']. cbn [fst snd] in Ho. cbv zeta.
  destruct Ho as [s' -> Hun Hso|e l s' Hl Hun Hso|s1 s' Hb Hnil Hun Hso ->
                 |data st stx n b snap req vk t c s' Hb Hx Happ Hreq Hsnap Eb Hst ->].
  - destruct (unsealed_room _ _ _ Hun) as (-> & _ & _ & _).
    destruct Hun as [(st & d & ->) _ _]. simpl. split.
    + apply list_filter_id, Forall_true. set_solver.
    + done.
  - destruct (unsealed_room _ _ _ Hun) as (-> & _ & _ & _). split; [done|]. split.
    + intros seq. unfold batch_at. by rewrite (marks_other _ _ _ _ (un_marks _ _ _ Hun)).
    + intros v Hv Hd. destruct Hun as [(st & d & ->) _ _]. simpl. apply list_elem_of_filter.
      split; [|done]. destruct Hl as [-> | ->]; [set_solver|done].
  - destruct (unsealed_room _ _ _ Hun) as (E & _ & _ & _). cbn. rewrite decide_False by done.
    split; [done|]. by rewrite decide_True.
  - assert (batch <> []) as Hne by (intros ->; by destruct Hb).
    cbn. rewrite !decide_False by done. split; [done|].
    assert (rt_batchSeq rt + 1 < two64)%N as Hn.
    { unfold room in Hroom. fold rt in Hroom. apply Permutation_length in HP.
      rewrite length_app in HP. destruct batch; [done|]. simpl in HP. lia. }
    split; [unfold u64_succ; by rewrite u64_small|].
    rewrite env_store_Notify. cbn [env_store set_calls set_store].
    destruct (stamp_batch_input now (set_chain st true rt) req
      ((fun d : Decoded => v_ID d.1.1) <$> sealed_of (rt_cfg rt) st0 batch))
      as (_ & Eseq & Eids & _ & Eroot).
    fold rt in Eb. rewrite <- Eb in Eseq, Eids, Eroot.
    exists (kept_BatchInput b), data, stx, st, n.
    assert (batch_at (tmap t) (rt_id rt) (rt_batchSeq rt) = Some (kept_BatchInput b)) as Hbatch.
    { pose proof (ss_batch _ _ _ _ _ _ Hst) as Hbt. by rewrite Eseq in Hbt. }
    split_and!; try done.
    + etrans; [exact (ss_snapshot _ _ _ _ _ _ Hst)|done].
    + intros u Hu. cbn in Hu.
      apply (ss_sealed _ _ _ _ _ _ Hst); [done| |].
      * rewrite Eids in Hu. apply elem_of_sealed_ids in Hu as (v & <- & Hv & _).
        pose proof (vi_pending _ _ _ _ (ri_votes _ Hinv)) as Hp. fold rt in Hp.
        rewrite Forall_forall in Hp. unfold may_move. change (sw_rt s) with rt.
        by rewrite (proj2 (Hp v ltac:(rewrite <- HP; set_solver))).
      * intros v Hv E. rewrite Eids in Hu. apply elem_of_sealed_ids in Hu as (w & Ew & Hw & Hws).
        unfold dropped_of in Hv. apply list_elem_of_filter in Hv as [Hvn Hvb]. apply Hvn.
        rewrite (same_vote (rt_pending rt) v w); [done|apply Hinv|..|congruence];
          rewrite <- HP; set_solver.
Qed.

(** C26: the sealing loops end, with the invariant kept.  A round per pending
    vote is enough whatever the number of rounds allowed; when no seal fails,
    sealing everything empties the buffer, and sealing full batches leaves less
    than a batch that could be formed. *)
Theorem sealing_loops_end `{ChainLaws} now (s : SW TypedDB) :
  rt_inv s -> (room s < two64)%N ->
  let '(r, s1) := sealAllLocked now s in
  let '(r', s2) := sealFullLocked now s in
  let rt := sw_rt s2 in
  rt_inv s1 /\ (r = Ok tt -> rt_pending (sw_rt s1) = []) /\
  rt_inv s2 /\ (r' = Ok tt ->
    (Z.of_nat (length (nextBatch (rt_pending rt) (rt_batchSize rt)).1) < rt_batchSize rt)%Z) /\
  forall fuel, length (rt_pending (sw_rt s)) < fuel ->
    sealAll_loop fuel now s = (r, s1) /\ sealFull_loop fuel now s = (r', s2).
Proof.
  intros Hinv Hroom.
  destruct (seal_while_run some_pending now (S (length (rt_pending (sw_rt s)))) s)
    as (I1 & _ & _ & _ & Ok1 & F1); [apply some_pending_ok|done..|lia|].
  destruct (seal_while_run full_batch now (S (length (rt_pending (sw_rt s)))) s)
    as (I2 & _ & _ & _ & Ok2 & F2); [apply full_batch_ok|done..|lia|].
  unfold sealAllLocked, sealFullLocked. unfold mbind, stE_bind. cbn [rt_get gets].
  rewrite sealAll_while, sealFull_while.
  destruct (seal_while some_pending _ now s) as [r s1].
  destruct (seal_while full_batch _ now s) as [r' s2]. cbn [fst snd] in *.
  split; [done|]. split.
  { intros E%Ok1. unfold some_pending in E. by destruct (rt_pending (sw_rt s1)). }
  split; [done|]. split.
  { intros E%Ok2. by apply negb_false_iff, Z.ltb_lt in E. }
  intros fuel Hf. by rewrite sealAll_while, sealFull_while, F1, F2 by lia.
Qed.
