(* ===== verification/SealAccount.v ===== *)
(** * The votes across a seal

    Where every vote of an election is, before and after sealing: in the
    buffer, in a stored batch, or refused. *)

From S2P Require Import Prelude Errors Effects Bytes Types Records KV Keys Artifacts Storage.
From S2P Require Import StorageRefine StorageSpec StorageProps Sdk Config Seal SealProps SealInv.

Section accounts.
Context `{ChainLaws}.
Abbreviation TSW := (SW TypedDB).

(** A vote that is buffered, sealed, or refused. *)
Definition accounted (s : TSW) (u : VoteID) : Prop :=
  let m := tmap (env_store (sw_env s)) in let id := rt_id (sw_rt s) in
  u ∈ v_ID <$> rt_pending (sw_rt s) \/
  (exists seq b, batch_at m id seq = Some b /\ u ∈ bi_VoteIDs b) \/
  status_at m id u = Some VoteStatusError.

(** A vote whose refusal could not be recorded: it is stored and still pending,
    so that a restart buffers it again. *)
Definition unmarked (s : TSW) (u : VoteID) : Prop :=
  is_Some (vote_at (tmap (env_store (sw_env s))) (rt_id (sw_rt s)) u) /\
  status_at (tmap (env_store (sw_env s))) (rt_id (sw_rt s)) u = Some VoteStatusPending.

(** Between the two states a write of the store failed. *)
Definition write_failed (s s' : TSW) : Prop := failed_write (env_store (sw_env s)) (env_store (sw_env s')).

Definition accounted_or_failed (s s' : TSW) (u : VoteID) : Prop :=
  accounted s' u \/ write_failed s s' /\ unmarked s' u.

Lemma pending_may_move (s : TSW) v st :
  rt_inv s -> v ∈ rt_pending (sw_rt s) -> CanMoveTo VoteStatusPending st = true ->
  may_move (tmap (env_store (sw_env s))) (rt_id (sw_rt s)) (v_ID v) st = true.
Proof.
  intros Hinv Hv Hc. pose proof (vi_pending _ _ _ _ (ri_votes _ Hinv)) as Hp.
  rewrite Forall_forall in Hp. unfold may_move. by rewrite (proj2 (Hp v Hv)).
Qed.

Lemma pending_unmarked (s : TSW) v : rt_inv s -> v ∈ rt_pending (sw_rt s) -> unmarked s (v_ID v).
Proof.
  intros Hinv Hv. pose proof (vi_pending _ _ _ _ (ri_votes _ Hinv)) as Hp. rewrite Forall_forall in Hp.
  destruct (Hp v Hv) as [Ev Es]. split; [by rewrite Ev|done].
Qed.

(** *** A series of dropped votes *)

Lemma accounted_unsealed s l s' u :
  rt_inv s -> (forall v, v ∈ l -> v ∈ rt_pending (sw_rt s)) -> unsealed s l s' ->
  proc_same (env_store (sw_env s)) (env_store (sw_env s')) /\
  (accounted s u -> accounted_or_failed s s' u) /\ (unmarked s u -> accounted s' u \/ unmarked s' u).
Proof.
  intros Hinv Hl [(st & d & Ert) _ Hm]. split; [apply (marks_proc _ _ _ _ Hm)|].
  assert (unmarked s u -> status_at (tmap (env_store (sw_env s'))) (rt_id (sw_rt s)) u = Some VoteStatusError \/
    unmarked s' u) as Hkeep.
  { intros [Hv Hs]. destruct (marks_status _ _ _ _ Hm u) as [Eu|(Eu & _)]; [right|by left].
    unfold unmarked. rewrite Ert. cbn. rewrite Eu. split; [|done]. unfold vote_at in *.
    by rewrite (marks_other _ _ _ _ Hm). }
  split; [|intros Hu%Hkeep; destruct Hu as [Hu|Hu]; [left; right; right; by rewrite Ert|by right]].
  intros [Hu|[(seq & b & Hb & Hu)|He]].
  - apply list_elem_of_fmap in Hu as (v & -> & Hv). destruct (decide (v ∈ l)) as [Hd|Hd].
    + destruct (marks_moved _ _ _ _ Hm v Hd) as [He|Hf].
      * by apply pending_may_move.
      * left. right. right. by rewrite Ert.
      * destruct (Hkeep (pending_unmarked s v Hinv Hv)) as [He|Hu]; [left; right; right; by rewrite Ert|by right].
    + left. left. rewrite Ert. cbn. apply list_elem_of_fmap_2. by apply list_elem_of_filter.
  - left. right. left. exists seq, b. split; [|done]. rewrite Ert. cbn. unfold batch_at in *.
    by rewrite (marks_other _ _ _ _ Hm).
  - left. right. right. rewrite Ert. cbn. destruct (marks_status _ _ _ _ Hm u) as [->|(-> & _)]; done.
Qed.

Lemma accounted_sealed (s s' : TSW) st0 batch rest b snap u :
  rt_inv s -> batch ++ rest ≡ₚ rt_pending (sw_rt s) ->
  bi_Seq b = rt_batchSeq (sw_rt s) ->
  bi_VoteIDs b = sealed_ids (rt_cfg (sw_rt s)) st0 batch ->
  seal_store (rt_id (sw_rt s)) b snap (dropped_of (rt_cfg (sw_rt s)) st0 batch)
    (env_store (sw_env s)) (env_store (sw_env s')) ->
  rt_id (sw_rt s') = rt_id (sw_rt s) -> rt_pending (sw_rt s') = rest ->
  (accounted s u -> accounted_or_failed s s' u) /\ (unmarked s u -> accounted s' u \/ unmarked s' u).
Proof.
  intros Hinv HP Eseq Eids [S1 _ _ S4 S5 S6 _] Eid Ep.
  assert (batch_at (tmap (env_store (sw_env s'))) (rt_id (sw_rt s)) (bi_Seq b)
    = Some (kept_BatchInput b)) as Hb by done.
  assert (u ∈ bi_VoteIDs b -> accounted s' u) as Hinb.
  { intros Hin. right. left. exists (bi_Seq b), (kept_BatchInput b). by rewrite Eid. }
  assert (unmarked s u -> accounted s' u \/ unmarked s' u) as Hkeep.
  { intros [Hv Hs]. destruct (S4 u) as [Eu|[[_ Hu]|[Eu _]]]; [right|left; auto|left; right; right; by rewrite Eid].
    unfold unmarked. rewrite Eid, Eu. split; [|done]. unfold vote_at in *. rewrite S6; [done|done..|by intros []]. }
  split; [|done]. intros [Hu|[(seq & b' & Hb' & Hu)|He]].
  - apply list_elem_of_fmap in Hu as (v & -> & Hv). pose proof Hv as Hv'.
    rewrite <- HP in Hv'. apply elem_of_app in Hv' as [Hvb|Hvr];
      [|left; left; rewrite Ep; by apply list_elem_of_fmap_2].
    destruct (decide (v_ID v ∈ bi_VoteIDs b)) as [Hin|Hin]; [left; auto|].
    destruct (S5 v) as [He|Hf].
    + unfold dropped_of. apply list_elem_of_filter. split; [|done].
      intros Hs. apply Hin. rewrite Eids. apply elem_of_sealed_ids. by exists v.
    + by apply pending_may_move.
    + done.
    + left. right. right. by rewrite Eid.
    + destruct (Hkeep (pending_unmarked s v Hinv Hv)); [by left|by right].
  - left. right. left. exists seq, b'. split; [|done]. rewrite Eid. unfold batch_at in *.
    rewrite S6; [done| |done..|by intros []].
    assert (seq < rt_batchSeq (sw_rt s))%N as Hlt
      by (apply (vi_batches _ _ _ _ (ri_votes _ Hinv)); by exists b').
    rewrite Eseq. intros [= ->]. lia.
  - left. destruct (S4 u) as [Eu|[[_ Hu]|[Eu _]]]; [|auto|]; right; right; by rewrite Eid, Eu.
Qed.

(** *** One round *)

Lemma sealLocked_accounted now s u :
  rt_inv s -> let s' := (sealLocked now s).2 in
  proc_same (env_store (sw_env s)) (env_store (sw_env s')) /\
  (accounted s u -> accounted_or_failed s s' u) /\ (unmarked s u -> accounted s' u \/ unmarked s' u).
Proof.
  intros Hinv. cbv zeta. destruct (ri_sound _ Hinv) as [st0 Hs].
  pose proof (sealLocked_outcome now st0 s Hs) as Ho. cbv zeta in Ho.
  pose proof (nextBatch_loop_perm (rt_batchSize (sw_rt s)) ∅ 0 (rt_pending (sw_rt s))) as HP.
  destruct (nextBatch (rt_pending (sw_rt s)) (rt_batchSize (sw_rt s))) as [batch rest] eqn:Enb.
  unfold nextBatch in Enb. rewrite Enb in HP. cbn [fst snd] in Ho, HP.
  assert (forall v, v ∈ batch -> v ∈ rt_pending (sw_rt s)) as Hbp
    by (intros v Hv; rewrite <- HP; set_solver).
  set (q := sealLocked now s) in *.
  assert (forall l, l = [] \/ l = dropped_of (rt_cfg (sw_rt s)) st0 batch -> forall v, v ∈ l -> v ∈ rt_pending (sw_rt s))
    as Hl' by (intros l [-> | ->] v Hv; [by apply not_elem_of_nil in Hv|by eapply Hbp, dropped_subset]).
  destruct Ho as [s' _ Hun _|e l s' Hl Hun _|s1 s' Hb Hnil Hun _ ->
                 |data st stx n b snap req vk t c s' Hb Hx Happ Hreq Hsnap Eb Hst ->].
  - apply (accounted_unsealed s [] s'); [done|by apply Hl'; left|done].
  - apply (accounted_unsealed s l s'); [done|by apply Hl'|done].
  - destruct (accounted_unsealed s _ s1 u Hinv (Hl' _ (or_intror eq_refl)) Hun) as (Hp & Ha & Hu).
    assert (accounted s1 u -> accounted (MkSW (sw_env s1) (set_pending rest (sw_rt s1))) u) as Hset.
    { destruct Hun as [(st & d & Ert) _ _]. intros [Hin|Hin]; [left|by right]. cbn. rewrite Ert in Hin. cbn in Hin.
      apply list_elem_of_fmap in Hin as (v & -> & [Hnd Hv]%list_elem_of_filter).
      apply list_elem_of_fmap_2. rewrite <- HP in Hv. apply elem_of_app in Hv as [Hv|Hv]; [|done].
      exfalso. apply Hnd. unfold dropped_of. apply list_elem_of_filter. split; [|done].
      rewrite Hnil. apply not_elem_of_nil. }
    split; [done|]. split; [intros [Hin|Hin]%Ha; [left; auto|by right]|intros [Hin|Hin]%Hu; [left; auto|by right]].
  - destruct (stamp_batch_input now (set_chain st true (sw_rt s)) req
      (sealed_ids (rt_cfg (sw_rt s)) st0 batch)) as (_ & Eseq & Eids & _).
    unfold sealed_ids in Eseq, Eids. rewrite <- Eb in Eseq, Eids.
    cbn [snd sw_env]. rewrite env_store_Notify. split; [by apply Hst|].
    apply (accounted_sealed s _ st0 batch rest b snap); try done. cbn. by rewrite env_store_Notify.
Qed.

Lemma seal_while_accounted go now fuel (s : TSW) u :
  rt_inv s -> (room s < two64)%N ->
  let s' := (seal_while go fuel now s).2 in
  proc_same (env_store (sw_env s)) (env_store (sw_env s')) /\
  (accounted s u -> accounted_or_failed s s' u) /\ (unmarked s u -> accounted s' u \/ unmarked s' u).
Proof.
  cbv zeta. revert s. induction fuel as [|fuel IH]; intros s Hinv Hroom;
    [split; [done|split; [by left|by right]]|].
  rewrite seal_while_S. destruct (go (sw_rt s)); [|split; [done|split; [by left|by right]]].
  destruct (sealLocked_step now s Hinv Hroom) as (Hi & Hr & _).
  destruct (sealLocked_accounted now s u Hinv) as (Hp & Ha & Hu).
  unfold mbind, stE_bind. destruct (sealLocked now s) as [[[]|e] s1]; cbn [snd] in *; [|done].
  destruct (IH s1 Hi ltac:(lia)) as (Hp' & Ha' & Hu'). set (s2 := (seal_while go fuel now s1).2) in *.
  split; [by trans (env_store (sw_env s1))|]. split.
  - intros [Hin|[Hf Hin]]%Ha.
    + destruct (Ha' Hin) as [?|[Hf ?]]; [by left|right]. split; [by eapply failed_after|done].
    + destruct (Hu' Hin); [by left|right]. split; [by eapply failed_before|done].
  - intros [Hin|Hin]%Hu; [|auto]. destruct (Ha' Hin) as [?|[_ ?]]; [by left|by right].
Qed.

Lemma sealFullLocked_accounted now (s : TSW) u :
  rt_inv s -> (room s < two64)%N -> accounted s u -> accounted_or_failed s (sealFullLocked now s).2 u.
Proof.
  intros Hi Hr. unfold sealFullLocked, mbind, stE_bind. cbn [rt_get gets snd].
  rewrite sealFull_while. by apply seal_while_accounted.
Qed.

(** With writes that succeed. *)
Lemma accounted_faultless (s s' : TSW) u :
  td_faults (s_db (env_store (sw_env s))) = [] -> accounted_or_failed s s' u -> accounted s' u.
Proof. intros Hf [Ha|[Hw _]]; [done|]. by apply failed_faults in Hw. Qed.
End accounts.

(** C8: no seal loses a vote.  A vote that is in the buffer, in a stored batch or
    refused before a round of sealing (one batch, the full batches, all of them,
    or the stale ones) still is after it, however the round ends, with one
    exception: when a write of the store failed during the round, a vote the
    round refused can be left stored and pending instead of refused, so that the
    next start buffers it again. *)
Theorem sealing_accounts_for_votes `{ChainLaws} now window (s : SW TypedDB) u :
  rt_inv s -> (room s < two64)%N -> accounted s u ->
  accounted_or_failed s (sealLocked now s).2 u /\ accounted_or_failed s (sealFullLocked now s).2 u /\
  accounted_or_failed s (sealAllLocked now s).2 u /\ accounted_or_failed s (sealIfStale now window s).2 u.
Proof.
  intros Hinv Hroom Ha.
  assert (forall go fuel, accounted_or_failed s (seal_while go fuel now s).2 u) as Hw
    by (intros; by apply seal_while_accounted).
  split; [by apply sealLocked_accounted|].
  unfold sealFullLocked, sealAllLocked, sealIfStale, ignore, mbind, stE_bind. cbn [rt_get gets snd].
  rewrite sealFull_while, sealAll_while, sealIfStale_while. auto.
Qed.
