(* ===== verification/Frame.v ===== *)
(** * What sealing leaves alone

    Sealing writes batches, snapshots, statuses and audit records only: the
    elections, the votes and their counters, the fold data and the in-flight
    locks are the same after it, on every path. *)

From S2P Require Import Prelude Errors Effects Bytes Types Records KV Keys Artifacts Storage.
From S2P Require Import StorageRefine StorageSpec StorageProps Sdk Config Seal.

(** The kinds of artifacts sealing writes. *)
Definition seal_key (k : Key) : bool :=
  match k with
  | KBatch _ _ | KSnapshot _ | KVoteStatus _ _ | KAudit _ _ => true
  | _ => false
  end.

(** Equal storages but for these artifacts. *)
Record frame (t t' : TStorage) : Prop := {
  fr_other k : seal_key k = false -> tmap t' !! k = tmap t !! k;
  fr_proc : proc_same t t';
}.

#[export] Instance frame_refl : Reflexive frame.
Proof. by intros t. Qed.

#[export] Instance frame_trans : Transitive frame.
Proof. intros t1 t2 t3 [A1 A2] [B1 B2]. split; [|by trans t2]. intros k Hk. by rewrite B1, A1. Qed.

Lemma frame_vote t t' id u : frame t t' -> vote_at (tmap t') id u = vote_at (tmap t) id u.
Proof. intros Hf. unfold vote_at. by rewrite (fr_other _ _ Hf). Qed.

Lemma frame_log id t t' : frame t t' -> log_ok id (tmap t) -> log_ok id (tmap t').
Proof. intros Hf. apply log_ok_ext; [|intros v]; by apply Hf. Qed.

(** A transaction on these artifacts. *)
Lemma commit_frame ws t :
  Forall (fun w => forall k, touches w k -> seal_key k = true) ws -> frame t (commit ws t).2.
Proof.
  intros Hws. split; [|apply commit_proc].
  destruct (commit_run ws t) as (t' & -> & Hm & _). simpl. intros k Hk. rewrite Hm. destruct (next_fault _); [done|].
  apply td_writes_untouched. eapply Forall_impl; [exact Hws|].
  intros w Hw Ht%Hw. congruence.
Qed.

Lemma SetVoteStatus_frame id v st t : frame t (SetVoteStatus id v st t).2.
Proof.
  rewrite SetVoteStatus_run. destruct (may_move _ _ _ _); [|done].
  apply commit_frame. constructor; [|done]. by intros k <-.
Qed.

Lemma SealBatch_frame now b snap t : frame t (SealBatch now b snap t).2.
Proof.
  rewrite SealBatch_run. apply commit_frame. constructor; [by intros k <-|].
  constructor; [by intros k <-|]. unfold batched_of. apply Forall_forall.
  intros w (v & Hv & Hw)%list_elem_of_omap k Hk. repeat case_match; simplify_eq/=; by subst.
Qed.

Lemma AppendAudit_frame now r t : frame t (AppendAudit now r t).2.
Proof.
  destruct (AppendAudit_state now r t) as [Hk Hp]. split; [|done].
  intros k Hf. apply Hk. intros Hs. by destruct k.
Qed.

Section frames.
Context `{Chain}.
Abbreviation TSW := (SW TypedDB).

Definition framed (t : TStorage) (s : TSW) : Prop := frame t (env_store (sw_env s)).

Lemma in_store_framed {A} (m : stE TStorage A) t :
  (forall t', frame t' (m t').2) -> preserves (framed t) (in_store m).
Proof.
  intros Hm s Hs. unfold in_store, zoom, framed. specialize (Hm (env_store (sw_env s))).
  destruct (m _) as [r t']. simpl in *. by etrans.
Qed.

Lemma read_framed {A} (m : stE TStorage A) t :
  (forall t', (m t').2 = t') -> preserves (framed t) (in_store m).
Proof. intros Hm. apply in_store_framed. intros t'. by rewrite Hm. Qed.

Lemma on_rt_framed f t : preserves (framed t) (on_rt f).
Proof. by intros s. Qed.

Lemma rt_get_framed {A} (f : Runtime -> A) t : preserves (framed t) (rt_get f).
Proof. by intros s. Qed.

Lemma apply_call_framed vs t : preserves (framed t) (apply_call vs).
Proof. intros s Hs. unfold apply_call. by destruct (ApplyBatch _ _ _). Qed.

Lemma audit_framed now subject role action id t :
  preserves (framed t) (audit now subject role action id).
Proof. apply in_store_framed. intros t'. apply AppendAudit_frame. Qed.

Lemma Notify_framed id t : preserves (framed t) (Notify id).
Proof.
  intros s Hs. unfold Notify, modify, framed, Notify_env. simpl.
  by repeat (case_match; simpl).
Qed.

Lemma restoreState_framed t : preserves (framed t) restoreState.
Proof.
  unfold restoreState. preserve; auto using rt_get_framed, on_rt_framed.
  apply read_framed. intros t'. unfold Snapshot. by rewrite load_state.
Qed.

Lemma dropVote_framed v t : preserves (framed t) (dropVote v).
Proof.
  unfold dropVote. preserve; auto using rt_get_framed, on_rt_framed.
  apply in_store_framed. intros t'. apply SetVoteStatus_frame.
Qed.

Create HintDb framed.
#[local] Hint Resolve on_rt_framed rt_get_framed apply_call_framed audit_framed Notify_framed
  restoreState_framed dropVote_framed : framed.

Ltac framed := repeat first
  [ solve [auto with framed] | preserve_step
  | case_match ].

Lemma bisect_framed fuel batch lo hi t : preserves (framed t) (bisect fuel batch lo hi).
Proof. revert lo hi. induction fuel; intros lo hi; simpl; framed. Qed.
#[local] Hint Resolve bisect_framed : framed.

Lemma applyBatch_framed votes t : preserves (framed t) (applyBatch votes).
Proof.
  unfold applyBatch. generalize (length votes) at 1, (seq 0 (length votes)), (∅ : gset nat).
  intros fuel. induction fuel as [|fuel IH]; intros idx refused; simpl; [framed|].
  framed.
Qed.

Lemma decode_batch_framed batch t : preserves (framed t) (decode_batch batch).
Proof. induction batch; simpl; framed. Qed.

Lemma drop_refused_framed refused i l t : preserves (framed t) (drop_refused refused i l).
Proof. revert i. induction l; intros i; simpl; framed. Qed.

Lemma persist_batch_framed now vk data sealed rest t :
  preserves (framed t) (persist_batch now vk data sealed rest).
Proof.
  unfold persist_batch. framed. apply in_store_framed. intros t'. apply SealBatch_frame.
Qed.
#[local] Hint Resolve applyBatch_framed decode_batch_framed drop_refused_framed persist_batch_framed : framed.

Lemma sealLocked_framed now t : preserves (framed t) (sealLocked now).
Proof.
  unfold sealLocked, restore_if_dirty. framed. apply read_framed.
  intros t'. unfold Election_. by rewrite load_state.
Qed.
#[local] Hint Resolve sealLocked_framed : framed.

Lemma sealFullLocked_framed now t : preserves (framed t) (sealFullLocked now).
Proof.
  unfold sealFullLocked. framed. generalize (S (length (rt_pending a))).
  intros fuel. induction fuel; simpl; framed.
Qed.

Lemma sealAllLocked_framed now t : preserves (framed t) (sealAllLocked now).
Proof.
  unfold sealAllLocked. framed. generalize (S (length (rt_pending a))).
  intros fuel. induction fuel; simpl; framed.
Qed.

Lemma sealIfStale_framed now window t : preserves (framed t) (sealIfStale now window).
Proof.
  unfold sealIfStale. framed. generalize (S (length (rt_pending a))).
  intros fuel. induction fuel; simpl; framed.
Qed.
End frames.
