(* ===== verification/Chains.v ===== *)
(** * The scheduler's state (orchestrator/scheduler.go, orchestrator/scatter.go)

    The fold chains of the elections and the proves of a pass.  Chains and
    batches are objects the code shares by pointer: they live on heaps, and a
    pointer is a number. *)

From S2P Require Import Prelude Bytes Types Records Errors.

Definition maxJobAttempts : nat := 3.
Definition defaultJobTimeout : duration := (30 * minute)%Z.
Definition defaultJobPoll : duration := (5 * second)%Z.
Definition maxPollErrs : nat := 5.
Definition reservationMargin : duration := (5 * minute)%Z.
Definition maxFoldFailures : nat := 3.

(** [foldChain] *)
Record foldChain := MkChain {
  fc_pin : string;
  fc_synced : bool;
  fc_resync : bool;
  fc_aggVK : string;
  fc_batchVK : string;
  fc_lastFold : string;
  fc_lastFoldOn : string;
  fc_foldCount : N;
  fc_batchesFolded : N;
  fc_stateRoot : string;
  fc_pending : list nat;
  fc_foldEvery : Z;
  fc_foldFailures : nat;
  fc_reproved : bool;
  fc_headSuspect : bool;
  fc_avoid : gmap N (list string);
}.

(** ** Field updates *)

Definition fc_set_pin (a : string) (c : foldChain) : foldChain :=
  MkChain a (fc_synced c) (fc_resync c) (fc_aggVK c) (fc_batchVK c) (fc_lastFold c)
    (fc_lastFoldOn c) (fc_foldCount c) (fc_batchesFolded c) (fc_stateRoot c) (fc_pending c)
    (fc_foldEvery c) (fc_foldFailures c) (fc_reproved c) (fc_headSuspect c) (fc_avoid c).
Definition fc_set_sync (synced resync : bool) (c : foldChain) : foldChain :=
  MkChain (fc_pin c) synced resync (fc_aggVK c) (fc_batchVK c) (fc_lastFold c)
    (fc_lastFoldOn c) (fc_foldCount c) (fc_batchesFolded c) (fc_stateRoot c) (fc_pending c)
    (fc_foldEvery c) (fc_foldFailures c) (fc_reproved c) (fc_headSuspect c) (fc_avoid c).
Definition fc_set_vks (agg batch : string) (c : foldChain) : foldChain :=
  MkChain (fc_pin c) (fc_synced c) (fc_resync c) agg batch (fc_lastFold c)
    (fc_lastFoldOn c) (fc_foldCount c) (fc_batchesFolded c) (fc_stateRoot c) (fc_pending c)
    (fc_foldEvery c) (fc_foldFailures c) (fc_reproved c) (fc_headSuspect c) (fc_avoid c).
(** The head of the chain. *)
Definition fc_set_head (job on : string) (count folded : N) (root : string) (c : foldChain) :
    foldChain :=
  MkChain (fc_pin c) (fc_synced c) (fc_resync c) (fc_aggVK c) (fc_batchVK c) job on count folded
    root (fc_pending c) (fc_foldEvery c) (fc_foldFailures c) (fc_reproved c) (fc_headSuspect c)
    (fc_avoid c).
Definition fc_set_pending (l : list nat) (c : foldChain) : foldChain :=
  MkChain (fc_pin c) (fc_synced c) (fc_resync c) (fc_aggVK c) (fc_batchVK c) (fc_lastFold c)
    (fc_lastFoldOn c) (fc_foldCount c) (fc_batchesFolded c) (fc_stateRoot c) l
    (fc_foldEvery c) (fc_foldFailures c) (fc_reproved c) (fc_headSuspect c) (fc_avoid c).
(** The escalation of failing folds. *)
Definition fc_set_failing (failures : nat) (reproved suspect : bool) (avoid : gmap N (list string))
    (c : foldChain) : foldChain :=
  MkChain (fc_pin c) (fc_synced c) (fc_resync c) (fc_aggVK c) (fc_batchVK c) (fc_lastFold c)
    (fc_lastFoldOn c) (fc_foldCount c) (fc_batchesFolded c) (fc_stateRoot c) (fc_pending c)
    (fc_foldEvery c) failures reproved suspect avoid.

(** [foldChain.next] *)
Definition fc_next (c : foldChain) : N := u64 (fc_batchesFolded c + N.of_nat (length (fc_pending c))).

(** [foldChain.checkpoint] *)
Definition checkpoint (id : ElectionID) (c : foldChain) : FoldCheckpoint :=
  {| cp_ElectionID := id; cp_FoldCount := fc_foldCount c; cp_LastFoldJob := fc_lastFold c;
     cp_FoldWorker := fc_lastFoldOn c; cp_StateRoot := fc_stateRoot c;
     cp_BatchesFolded := fc_batchesFolded c; cp_AggVK := fc_aggVK c; cp_BatchVK := fc_batchVK c;
     cp_UpdatedAt := zero_time; cp_Version := FoldCheckpointVersion |}.

(** ** The proves of a pass *)

(** [proveTask]: done, or on its goroutine, with what it read of the chain. *)
Inductive proveTask :=
  | TaskDone (r : result bytes)
  | TaskRunning (bi : nat) (held : option nat) (avoid : list string) (wantVK : string).

(** [scatter] *)
Record scatter := MkScatter { s_batches : list nat; s_tasks : gmap N proveTask }.

(** ** [Scheduler] *)

(** Where a chain object is: the heap of the chains has a region for each
    election. *)
Abbreviation chain_loc := (ElectionID * nat)%type.

(** [sc_fcs] and [sc_objects] are the heaps of the chains and of the batches,
    [sc_passes] holds the scatter of the pass under each election's drive lock,
    [sc_tick] numbers the moments at which other goroutines run and provers
    answer, and [sc_now] is the clock. *)
Record Scheduler := MkScheduler {
  sc_timeout : duration;
  sc_poll : duration;
  sc_foldEvery : Z;
  sc_fcs : gmap chain_loc foldChain;
  sc_chains : gmap ElectionID chain_loc;
  sc_objects : gmap nat BatchInput;
  sc_passes : gmap ElectionID scatter;
  sc_tick : nat;
  sc_now : time;
}.

Definition sc_set_fcs (m : gmap chain_loc foldChain) (s : Scheduler) : Scheduler :=
  MkScheduler (sc_timeout s) (sc_poll s) (sc_foldEvery s) m (sc_chains s) (sc_objects s)
    (sc_passes s) (sc_tick s) (sc_now s).
Definition sc_set_chains (m : gmap ElectionID chain_loc) (s : Scheduler) : Scheduler :=
  MkScheduler (sc_timeout s) (sc_poll s) (sc_foldEvery s) (sc_fcs s) m (sc_objects s)
    (sc_passes s) (sc_tick s) (sc_now s).
Definition sc_set_objects (m : gmap nat BatchInput) (s : Scheduler) : Scheduler :=
  MkScheduler (sc_timeout s) (sc_poll s) (sc_foldEvery s) (sc_fcs s) (sc_chains s) m
    (sc_passes s) (sc_tick s) (sc_now s).
Definition sc_set_passes (m : gmap ElectionID scatter) (s : Scheduler) : Scheduler :=
  MkScheduler (sc_timeout s) (sc_poll s) (sc_foldEvery s) (sc_fcs s) (sc_chains s) (sc_objects s)
    m (sc_tick s) (sc_now s).
Definition sc_set_clock (tick : nat) (now : time) (s : Scheduler) : Scheduler :=
  MkScheduler (sc_timeout s) (sc_poll s) (sc_foldEvery s) (sc_fcs s) (sc_chains s) (sc_objects s)
    (sc_passes s) tick now.

(** What other goroutines left in the scheduler: its options never change. *)
Definition sc_keep (s s' : Scheduler) : Scheduler :=
  MkScheduler (sc_timeout s) (sc_poll s) (sc_foldEvery s) (sc_fcs s') (sc_chains s') (sc_objects s')
    (sc_passes s') (sc_tick s) (sc_now s).

(** [NewScheduler] *)
Definition newScheduler (foldEvery : Z) (timeout poll : duration) (now : time) : Scheduler := {|
  sc_timeout := if (timeout <=? 0)%Z then defaultJobTimeout else timeout;
  sc_poll := if (poll <=? 0)%Z then defaultJobPoll else poll;
  sc_foldEvery := if (foldEvery <=? 0)%Z then 1%Z else foldEvery;
  sc_fcs := ∅; sc_chains := ∅; sc_objects := ∅; sc_passes := ∅; sc_tick := 0; sc_now := now;
|}.

(** The age at which the monitor frees the reservation of a batch. *)
Definition reservation_age (s : Scheduler) : duration :=
  (Z.of_nat maxJobAttempts * sc_timeout s + reservationMargin)%Z.

(** The place of a new chain object of an election. *)
Definition next_loc (id : ElectionID) (m : gmap chain_loc foldChain) : chain_loc :=
  (id, fresh (set_map (D := gset nat) snd (dom m))).

Lemma next_loc_fresh id m : m !! next_loc id m = None.
Proof.
  apply not_elem_of_dom. intros Hin. apply (is_fresh (set_map (D := gset nat) snd (dom m))).
  by apply (elem_of_map_2 (D := gset nat) snd) in Hin.
Qed.
