(* ===== verification/Engine.v ===== *)
(** * The engine (orchestrator/engine.go)

    The orchestrator's state, the creation and the restoration of elections,
    the registration of workers, and the lifecycle monitor's sweep up to the
    status changes (Lifecycle.v). *)

From S2P Require Import Prelude Errors Effects Bytes Types Records Keys Artifacts Storage Retries.
From S2P Require Import Workers Sdk Config Seal Chains.
From stdpp Require Import sorting.

Definition minBatchSize : Z := 2.
Definition defaultBatchSize : Z := 64.
Definition defaultFoldEvery : Z := 1.
Definition defaultBatchTimeWindow : duration := (30 * second)%Z.

(** The options of the engine that outlive its construction. *)
Record Options := MkOptions {
  o_batchSize : Z;
  o_foldEvery : Z;
  o_window : duration;
  o_jobTimeout : duration;
  o_jobPoll : duration;
}.

(** [NewEngine]'s defaults. *)
Definition with_option_defaults (o : Options) : Options :=
  {| o_batchSize := if (o_batchSize o <=? 0)%Z then defaultBatchSize else o_batchSize o;
     o_foldEvery := if (o_foldEvery o <=? 0)%Z then defaultFoldEvery else o_foldEvery o;
     o_window := if (o_window o <=? 0)%Z then defaultBatchTimeWindow else o_window o;
     o_jobTimeout := o_jobTimeout o; o_jobPoll := o_jobPoll o |}.

(** The background goroutines the engine starts. *)
Inductive Background :=
  | BgDrain (rt : nat)
  | BgFinalize (id : ElectionID) (key : Z).

Section engine.
Context {D : Type} `{ADB D} `{Chain}.

(** [Engine]: the runtimes are pointers, and the maps keyed by [id.String()]
    are keyed by the ID, which its hex determines. *)
Record World := MkWorld {
  w_env : Env D;
  w_heap : gmap nat Runtime;
  w_runtimes : gmap ElectionID nat;
  w_retries : retries;
  w_draining : gset ElectionID;
  w_finalizing : gset ElectionID;
  w_pool : option WorkerManager;
  w_sched : Scheduler;
  w_opts : Options;
  w_background : list Background;
  w_bgStopped : bool;
}.

Definition w_set_env (e : Env D) (w : World) : World :=
  MkWorld e (w_heap w) (w_runtimes w) (w_retries w) (w_draining w) (w_finalizing w)
    (w_pool w) (w_sched w) (w_opts w) (w_background w) (w_bgStopped w).
Definition w_set_heap (h : gmap nat Runtime) (w : World) : World :=
  MkWorld (w_env w) h (w_runtimes w) (w_retries w) (w_draining w) (w_finalizing w)
    (w_pool w) (w_sched w) (w_opts w) (w_background w) (w_bgStopped w).
Definition w_set_runtimes (m : gmap ElectionID nat) (w : World) : World :=
  MkWorld (w_env w) (w_heap w) m (w_retries w) (w_draining w) (w_finalizing w)
    (w_pool w) (w_sched w) (w_opts w) (w_background w) (w_bgStopped w).
Definition w_set_retries (r : retries) (w : World) : World :=
  MkWorld (w_env w) (w_heap w) (w_runtimes w) r (w_draining w) (w_finalizing w)
    (w_pool w) (w_sched w) (w_opts w) (w_background w) (w_bgStopped w).
Definition w_set_draining (s : gset ElectionID) (w : World) : World :=
  MkWorld (w_env w) (w_heap w) (w_runtimes w) (w_retries w) s (w_finalizing w)
    (w_pool w) (w_sched w) (w_opts w) (w_background w) (w_bgStopped w).
Definition w_set_finalizing (s : gset ElectionID) (w : World) : World :=
  MkWorld (w_env w) (w_heap w) (w_runtimes w) (w_retries w) (w_draining w) s
    (w_pool w) (w_sched w) (w_opts w) (w_background w) (w_bgStopped w).
Definition w_set_pool (p : option WorkerManager) (w : World) : World :=
  MkWorld (w_env w) (w_heap w) (w_runtimes w) (w_retries w) (w_draining w) (w_finalizing w)
    p (w_sched w) (w_opts w) (w_background w) (w_bgStopped w).
Definition w_set_sched (c : Scheduler) (w : World) : World :=
  MkWorld (w_env w) (w_heap w) (w_runtimes w) (w_retries w) (w_draining w) (w_finalizing w)
    (w_pool w) c (w_opts w) (w_background w) (w_bgStopped w).
Definition w_set_background (l : list Background) (stopped : bool) (w : World) : World :=
  MkWorld (w_env w) (w_heap w) (w_runtimes w) (w_retries w) (w_draining w) (w_finalizing w)
    (w_pool w) (w_sched w) (w_opts w) l stopped.

Definition w_store (w : World) : Storage D := env_store (w_env w).

(** A storage call. *)
Definition on_store {A} (m : stE (Storage D) A) : stE World A :=
  zoom w_store (fun s w => w_set_env (set_store s (w_env w)) w) m.

(** Work on a runtime, under its mutex. *)
Definition with_rt {A} (l : nat) (m : stE (SW D) A) : stE World A := fun w =>
  match w_heap w !! l with
  | None => (Err [Panic], w)
  | Some rt =>
      let '(r, s) := m (MkSW (w_env w) rt) in
      (r, w_set_heap (<[l := sw_rt s]> (w_heap w)) (w_set_env (sw_env s) w))
  end.

(** [Engine.runtime] *)
Definition runtime (id : ElectionID) : stE World (option nat) :=
  gets (fun w => w_runtimes w !! id).

(** A new runtime object, registered. *)
Definition add_runtime (rt : Runtime) : stE World unit :=
  modify (fun w =>
    let l := fresh (dom (w_heap w)) in
    w_set_runtimes (<[rt_id rt := l]> (w_runtimes w)) (w_set_heap (<[l := rt]> (w_heap w)) w)).

Definition w_audit (now : time) (subject role action : string) (id : ElectionID) :
    stE World unit :=
  on_store (ignore (AppendAudit now (audit_record now subject role action id))).

Definition w_Notify (id : ElectionID) : stE World unit :=
  modify (fun w => w_set_env (Notify_env id (w_env w)) w).

(** [Engine.goBackground]: whether the goroutine was started. *)
Definition goBackground (b : Background) : stE World bool := fun w =>
  if w_bgStopped w then (Ok false, w)
  else (Ok true, w_set_background (w_background w ++ [b]) false w).

(** ** Restoring (NewEngine, restore) *)

(** [Engine.unsealedVotes] *)
Definition seq_le (a b : Vote) : Prop := (v_Seq a <= v_Seq b)%N.
#[export] Instance seq_le_dec a b : Decision (seq_le a b).
Proof. unfold seq_le. apply _. Defined.

Definition sealed_set (batches : list BatchInput) : gset VoteID :=
  list_to_set (batches ≫= bi_VoteIDs).

Definition unsealedVotes (id : ElectionID) (batches : list BatchInput) :
    stE (Storage D) (list Vote) :=
  votes ← VotesWithStatus id VoteStatusPending;
  mret (merge_sort seq_le (filter (fun v => v_ID v ∉ sealed_set batches) votes)).

(** [Engine.runtimeFromStorage] *)
Definition runtimeFromStorage (batchSize : Z) (el : Election) : stE (Storage D) Runtime :=
  rules ← lift (newVoteRules (el_Config el));
  blob ← Snapshot (el_ID el);
  state ← lift (of_option (RestoreState (vr_cfg rules) blob) errorf);
  batches ← ListBatchInputs (el_ID el);
  pending ← unsealedVotes (el_ID el) batches;
  mret {| rt_id := el_ID el; rt_rules := rules; rt_state := state; rt_dirty := false;
          rt_pending := pending; rt_batchSeq := N.of_nat (length batches);
          rt_batchSize := if (el_BatchSize el <=? 0)%Z then batchSize else el_BatchSize el |}.

(** [Engine.deleteProofs] *)
Definition deleteProofs (id : ElectionID) : stE World unit := on_store (ignore (DeleteProofs id)).

Definition errFinalizeInterruptedText : string :=
  "finalize interrupted".

(** A finalize died with the previous process. *)
Definition reset_finalize (now : time) (id : ElectionID) : stE World unit :=
  on_store (ignore (UpdateElection now id (fun stored =>
    Ok (el_set_finalize_error errFinalizeInterruptedText (el_set_status StatusDecrypting stored))))).

(** The body of [Engine.restore]'s loop. *)
Definition restore_election (now : time) (el : Election) : stE World unit :=
  if decide (el_Status el = StatusCanceled \/ el_Status el = StatusResults) then
    deleteProofs (el_ID el)
  else
    _ ← (if decide (el_Status el = StatusFinalizing) then reset_finalize now (el_ID el)
         else mret tt);
    let el := if decide (el_Status el = StatusFinalizing)
              then el_set_status StatusDecrypting el else el in
    opts ← gets w_opts;
    r ← attempt (on_store (runtimeFromStorage (o_batchSize opts) el));
    match r with
    | Err _ => mret tt
    | Ok rt =>
        _ ← add_runtime rt;
        if decide (el_Status el = StatusEnded) then mret tt
        else modify (fun w => w_set_retries (schedule (el_ID el) taskDispatch (w_retries w)) w)
    end.

(** [Engine.restore] *)
Definition restore (now : time) : stE World unit :=
  elections ← on_store ListElections;
  for_each elections (restore_election now).

Definition on_pool (f : WorkerManager -> WorkerManager) : stE World unit :=
  modify (fun w => w_set_pool (f <$> w_pool w) w).

(** [Engine.restoreWorkers] *)
Definition restoreWorkers : stE World unit :=
  regs ← on_store ListWorkers;
  for_each regs (fun r => on_pool (fun p => (AddWorker (wr_Address r) (wr_Name r) p).2)).

(** The engine before anything is restored; with a pool it has a scheduler,
    whose jobs fit the reservations of the batches (NewScheduler). *)
Definition new_world (now : time) (s : Storage D) (opts : Options) (pool : option WorkerManager) :
    World :=
  let opts := with_option_defaults opts in
  let sched := newScheduler (o_foldEvery opts) (o_jobTimeout opts) (o_jobPoll opts) now in
  let s := match pool with
           | Some _ => (SetReservationTimeout (reservation_age sched) s).2
           | None => s
           end in
  {| w_env := MkEnv s 0 (match pool with Some _ => Some ∅ | None => None end) false;
     w_heap := ∅; w_runtimes := ∅; w_retries := newRetries; w_draining := ∅;
     w_finalizing := ∅; w_pool := pool; w_sched := sched; w_opts := opts;
     w_background := []; w_bgStopped := false |}.

(** [NewEngine] over a storage, with or without a worker pool. *)
Definition NewEngine (now : time) (s : Storage D) (opts : Options) (pool : option WorkerManager) :
    result World :=
  match ((match pool with Some _ => restoreWorkers | None => mret tt end)
         ≫= fun _ => restore now) (new_world now s opts pool) with
  | (Ok _, w) => Ok w
  | (Err e, _) => Err e
  end.

(** ** Creating elections *)

Definition default_vk (vk : bytes) : bytes :=
  if decide (vk = [] \/ vk = lit "null") then CircomVerificationKey else vk.

Definition config_with_vk (vk : bytes) (c : ElectionConfig) : ElectionConfig :=
  {| ProcessID := ProcessID c; BallotMode := BallotMode c; EncX := EncX c; EncY := EncY c;
     CensusOrigin := CensusOrigin c; CensusRoot := CensusRoot c; ec_VK := vk |}.

(** [Engine.CreateElection]: the election as stored. *)
Definition CreateElection (now : time) (subject : string) (el : Election) : stE World Election :=
  vk ← lift (parseBallotVK (default_vk (ec_VK (el_Config el))));
  rules ← lift (newVoteRules (config_with_vk vk.2 (el_Config el)));
  state ← lift (of_option (NewState (vr_cfg rules)) errorf);
  snapshot ← lift (of_option (State_Snapshot state) errorf);
  opts ← gets w_opts;
  let size := if (el_BatchSize el <=? 0)%Z then o_batchSize opts else el_BatchSize el in
  let every := if (el_FoldEvery el <=? 0)%Z then o_foldEvery opts else el_FoldEvery el in
  _ ← throw_if (size <? minBatchSize)%Z errorf;
  _ ← throw_if (MaxBatchSize <? size)%Z errorf;
  el ← on_store (Storage.CreateElection now (el_set_params size every StatusActive vk.2 el) snapshot);
  _ ← add_runtime {| rt_id := el_ID el; rt_rules := rules; rt_state := state; rt_dirty := false;
                     rt_pending := []; rt_batchSeq := 0; rt_batchSize := size |};
  _ ← w_audit now subject "admin" "create_election" (el_ID el);
  mret el.

(** ** Reading elections *)

(** [Engine.withDefaults] *)
Definition el_set_fold_every (every : Z) (e : Election) : Election :=
  {| el_ID := el_ID e; el_Status := el_Status e; el_Config := el_Config e;
     el_BatchSize := el_BatchSize e; el_FoldEvery := every; el_EndTime := el_EndTime e;
     el_CreatedAt := el_CreatedAt e; el_UpdatedAt := el_UpdatedAt e;
     el_FoldWorker := el_FoldWorker e; el_FinalizeError := el_FinalizeError e |}.
Definition withDefaults (opts : Options) (e : Election) : Election :=
  if (el_FoldEvery e <=? 0)%Z then el_set_fold_every (o_foldEvery opts) e else e.

(** [Engine.Election] and [Engine.ListElections] *)
Definition Engine_Election (id : ElectionID) : stE World Election :=
  el ← on_store (Election_ id);
  opts ← gets w_opts;
  mret (withDefaults opts el).
Definition Engine_ListElections : stE World (list Election) :=
  els ← on_store ListElections;
  opts ← gets w_opts;
  mret (withDefaults opts <$> els).

(** ** Workers *)

(** [Engine.RegisterWorker] *)
Definition RegisterWorker (now : time) (subject address name : string) : stE World nat :=
  w ← get_st;
  match w_pool w with
  | None => throw errorf
  | Some p =>
      let known := GetWorker address p in
      let '(l, p') := AddWorker address name p in
      _ ← modify (w_set_pool (Some p'));
      match wm_objects p' !! l with
      | None => throw [Panic]
      | Some o =>
          r ← attempt (on_store (SetWorker now {| wr_Address := w_Address o; wr_Name := w_Name o;
                                              wr_RegisteredAt := zero_time |}));
          match r with
          | Err e =>
              _ ← (match known with
                   | None => on_pool (Workers.RemoveWorker address)
                   | Some _ => mret tt
                   end);
              throw e
          | Ok _ =>
              _ ← w_audit now subject "admin" ("register_worker:" +:+ address) [];
              mret l
          end
      end
  end.

(** [Engine.moveFoldChains] *)
Definition moveFoldChains (address : string) : stE World unit :=
  w ← get_st;
  let ids := omap (fun p => rt_id <$> (w_heap w !! p.2)) (map_to_list (w_runtimes w)) in
  for_each ids (fun id =>
    r ← attempt (on_store (Election_ id));
    match r with
    | Ok el => if decide (el_FoldWorker el = address) then w_Notify id else mret tt
    | Err _ => mret tt
    end).

(** [WorkerByID]: the registered worker whose identifier, a hash of its
    address, is [id]. *)
Definition WorkerByID (WorkerID : string -> string) (id : string) (p : WorkerManager) :
    option Worker :=
  (fun x => x.2.2) <$> list_find (fun x => WorkerID (w_Address x.2) = id) (registered p).

(** [Engine.RemoveWorker] *)
Definition RemoveWorker (WorkerID : string -> string) (now : time) (subject workerID : string) :
    stE World unit :=
  w ← get_st;
  match w_pool w ≫= WorkerByID WorkerID workerID with
  | None => throw [ErrWorkerNotFound]
  | Some o =>
      _ ← on_store (DeleteWorker (w_Address o));
      _ ← on_pool (Workers.RemoveWorker (w_Address o));
      _ ← w_audit now subject "admin" ("remove_worker:" +:+ w_Address o) [];
      moveFoldChains (w_Address o)
  end.

(** [Engine.retryDispatch] *)
Definition retryDispatch (now : time) (id : ElectionID) : stE World unit :=
  w ← get_st;
  match env_dispatchers (w_env w) with
  | None => mret tt
  | Some _ =>
      let '(taken, r) := take_task now id taskDispatch (w_retries w) in
      _ ← modify (w_set_retries r);
      if taken : bool then w_Notify id else mret tt
  end.

(** [Engine.Stop]: the goroutines see their context canceled. *)
Definition Stop : stE World unit :=
  modify (fun w =>
    let e := w_env w in
    w_set_background (w_background w) true
      (w_set_env (MkEnv (env_store e) (env_calls e) (env_dispatchers e) true) w)).
End engine.
Arguments World : clear implicits.
Arguments World D {_ _}.
