(* ===== verification/Finalize.v ===== *)
(** * Finalizing (orchestrator/finalize.go)

    The public summary of a failed finalize, and the checks of the final
    proof's digest against the local state. *)

From S2P Require Import Prelude Errors Bytes Types Records Sdk Config.

(** ** Summaries *)

(** The messages of the finalize failure reasons. *)
Definition reason_text (s : sentinel) : string :=
  match s with
  | errProverUnavailable => "prover unavailable"
  | errFinalizeInterrupted => "finalize interrupted"
  | errNothingToFinalize => "nothing to finalize"
  | errFinalFoldFailed => "fold failed"
  | errDecryptionFailed => "decryption failed"
  | errFinalProofFailed => "final proof failed"
  | errVerificationFailed => "final proof verification failed"
  | _ => "internal error"
  end.

(** The reasons tried in order. *)
Definition step_reasons : list sentinel :=
  [errNothingToFinalize; errFinalFoldFailed; errDecryptionFailed; errFinalProofFailed;
   errVerificationFailed].

Definition finalize_reason (err : error) : sentinel :=
  if errors_Is err errNoWorker || errors_Is err ErrWorkerRemoved || errors_Is err errProverUnavailable
  then errProverUnavailable
  else if errors_Is err Canceled || errors_Is err errFinalizeInterrupted
  then errFinalizeInterrupted
  else match list_find (fun r => errors_Is err r) step_reasons with
       | Some (_, r) => r
       | None => errFinalizeInternal
       end.

(** [finalizeSummary] *)
Definition finalizeSummary (err : error) : string := reason_text (finalize_reason err).

(** ** The digest of the final proof *)

(** [chain.CircuitRelease]: the vks of the pinned release, if one is set. *)
Record Release := MkRelease { rel_AggVK : string; rel_BatchVK : string }.

(** [chain.Digest] is the library's: the code reads these of its fields, its
    root and its binding to the verification keys. *)
Class FinalizeSdk `{Chain} := {
  Digest : Type;
  d_Mode : Digest -> N;
  d_StepCount : Digest -> N;
  d_TotalVoters : Digest -> N;
  d_TotalOverwrites : Digest -> N;
  d_Results : Digest -> list N;
  d_ConfigCommitment : Digest -> bytes;
  ModeFinalize : N;
  StateRootHex : Digest -> string;
  VerifyBinding : Digest -> string -> string -> result unit;
  VKWords : string -> option (list N);
  ConfigCommitment : ChainState -> list N -> list N -> option bytes;
  Voters : ChainState -> N * N;
  CircuitRelease : option Release;
  Release_Verify : Release -> string -> string -> result unit;
}.

Section digest.
Context `{FinalizeSdk}.

(** [for i, r := range results { d.Results[i] ... }] *)
Fixpoint check_results (results got : list N) : result unit :=
  match results, got with
  | [], _ => Ok tt
  | _ :: _, [] => Err [Panic]
  | r :: results, g :: got => if (g =? r)%N then check_results results got else Err errorf
  end.

(** [sameVK] (orchestrator/scheduler.go): equality up to the prefix and the
    case of hexadecimal, which is ASCII. *)
Definition lower_byte (c : byte) : byte :=
  let n := Byte.to_N c in if (65 <=? n)%N && (n <=? 90)%N then byte_of (n + 32) else c.
Definition sameVK (a b : string) : bool :=
  bool_decide (lower_byte <$> TrimPrefix (lit a) (lit "0x")
             = lower_byte <$> TrimPrefix (lit b) (lit "0x")).

(** [verifyFinalDigest] *)
Definition verifyFinalDigest (d : Digest) (programVK : bytes) (state : ChainState)
    (foldCount : N) (batchVK aggVK : string) (results : list N) : result unit :=
  _ ← guard_err (bool_decide (d_Mode d = ModeFinalize)) errorf;
  _ ← guard_err (bool_decide (StateRootHex d = State_Root state)) errorf;
  _ ← guard_err (bool_decide (d_StepCount d = foldCount)) errorf;
  _ ← guard_err (bool_decide (d_TotalVoters d = (Voters state).1) &&
                 bool_decide (d_TotalOverwrites d = (Voters state).2)) errorf;
  let proofVK := ("0x" +:+ String.string_of_list_byte (hex_encode programVK)) in
  _ ← VerifyBinding d proofVK batchVK;
  _ ← check_results results (d_Results d);
  batchWords ← of_option (VKWords batchVK) errorf;
  aggWords ← of_option (VKWords aggVK) errorf;
  wantCommit ← of_option (ConfigCommitment state batchWords aggWords) errorf;
  _ ← guard_err (bool_decide (d_ConfigCommitment d = wantCommit)) errorf;
  match CircuitRelease with
  | None => Ok tt
  | Some rel =>
      _ ← guard_err (sameVK proofVK (rel_AggVK rel)) errorf;
      Release_Verify rel aggVK batchVK
  end.
End digest.

(** ** What the summary reveals *)

(** The sentinels the summary looks for. *)
Definition summary_causes : list sentinel :=
  [errNoWorker; ErrWorkerRemoved; errProverUnavailable; Canceled; errFinalizeInterrupted]
  ++ step_reasons.

(** The summaries that can be published. *)
Definition public_summaries : list string :=
  ["prover unavailable"; "finalize interrupted"; "nothing to finalize"; "fold failed";
   "decryption failed"; "final proof failed"; "final proof verification failed";
   "internal error"]%string.

(** A finalize failure is published as one of eight fixed texts, which
    depends on the recognised causes alone: no other part of the error chain
    reaches it.  A lost prover wins over an interruption, and both over the
    step that failed. *)
Theorem finalizeSummary_public err :
  finalizeSummary err ∈ public_summaries /\
  (forall err', Forall (fun s => errors_Is err s = errors_Is err' s) summary_causes ->
    finalizeSummary err = finalizeSummary err') /\
  (forall step, step ∈ step_reasons -> errors_Is err errNoWorker = true ->
    finalizeSummary (wrap step err) = "prover unavailable"%string) /\
  (forall step, step ∈ step_reasons ->
    Forall (fun s => errors_Is err s = false) [errNoWorker; ErrWorkerRemoved; errProverUnavailable] ->
    errors_Is err Canceled = true ->
    finalizeSummary (wrap step err) = "finalize interrupted"%string).
Proof.
  assert (forall s, reason_text s ∈ public_summaries) as Htext
    by (intros []; vm_compute; repeat constructor).
  split_and!.
  - apply Htext.
  - intros err' Hs. unfold summary_causes, step_reasons in Hs. cbn [app] in Hs.
    repeat match goal with Hf : Forall _ (_ :: _) |- _ => inversion_clear Hf end.
    unfold finalizeSummary, finalize_reason. cbn [list_find step_reasons].
    f_equal. by repeat match goal with E : errors_Is err _ = _ |- _ => rewrite E; clear E end.
  - intros step _ Hw. unfold finalizeSummary, finalize_reason.
    by rewrite errors_Is_wrap, Hw, orb_true_r.
  - intros step Hstep Hs Hc. unfold finalizeSummary, finalize_reason.
    repeat match goal with Hf : Forall _ (_ :: _) |- _ => inversion_clear Hf end.
    unfold step_reasons in Hstep. rewrite !errors_Is_wrap.
    repeat match goal with E : errors_Is err _ = _ |- _ => rewrite E; clear E end.
    repeat (apply elem_of_cons in Hstep as [->|Hstep]; [reflexivity|]).
    by apply elem_of_nil in Hstep.
Qed.

(** ** What an accepted digest pins *)

Section digest_props.
Context `{FinalizeSdk}.

Lemma check_results_Ok results got :
  check_results results got = Ok tt <-> take (length results) got = results /\
    (length results <= length got)%nat.
Proof.
  revert got. induction results as [|r results IH]; intros [|g got]; cbn.
  - by split; [intros _; split; [done|lia]|].
  - by split; [intros _; split; [done|lia]|].
  - split; [done|]. intros [_ Hl]. lia.
  - destruct (g =? r)%N eqn:Eg.
    + apply N.eqb_eq in Eg as ->. rewrite IH. split; intros [E ?]; (split; [|lia]); congruence.
    + apply N.eqb_neq in Eg. split; [done|]. intros [[=] _]. done.
Qed.

(** What the checks ask of a digest and of the vk of its proof. *)
Record digest_of (d : Digest) (programVK : bytes) (state : ChainState) (foldCount : N)
    (batchVK aggVK : string) (results : list N) : Prop := {
  do_mode : d_Mode d = ModeFinalize;
  do_root : StateRootHex d = State_Root state;
  do_steps : d_StepCount d = foldCount;
  do_voters : (d_TotalVoters d, d_TotalOverwrites d) = Voters state;
  do_binding : VerifyBinding d ("0x" +:+ String.string_of_list_byte (hex_encode programVK)) batchVK = Ok tt;
  do_results : exists rest, d_Results d = results ++ rest;
  do_commit : exists bw aw, VKWords batchVK = Some bw /\ VKWords aggVK = Some aw /\
    ConfigCommitment state bw aw = Some (d_ConfigCommitment d);
  do_release rel : CircuitRelease = Some rel -> Release_Verify rel aggVK batchVK = Ok tt /\
    sameVK ("0x" +:+ String.string_of_list_byte (hex_encode programVK)) (rel_AggVK rel) = true;
}.

Lemma verifyFinalDigest_digest_of d programVK state foldCount batchVK aggVK results :
  verifyFinalDigest d programVK state foldCount batchVK aggVK results = Ok tt ->
  digest_of d programVK state foldCount batchVK aggVK results.
Proof.
  unfold verifyFinalDigest. intros E.
  repeat (apply result_bind_Ok in E as ([] & ?%guard_err_tt & E)).
  apply result_bind_Ok in E as ([] & Hbind & E).
  apply result_bind_Ok in E as ([] & [Hr Hl]%check_results_Ok & E).
  apply result_bind_Ok in E as (bw & Hbw%of_option_Ok & E).
  apply result_bind_Ok in E as (aw & Haw%of_option_Ok & E).
  apply result_bind_Ok in E as (want & Hwant%of_option_Ok & E).
  apply result_bind_Ok in E as ([] & Hc%guard_err_tt & E).
  repeat match goal with
    | Hb : bool_decide _ && _ = true |- _ => apply andb_true_iff in Hb as [? ?]
    | Hb : bool_decide _ = true |- _ => apply bool_decide_eq_true in Hb
    end.
  split; [done..| |done| | |].
  - destruct (Voters state). cbn in *. congruence.
  - exists (drop (length results) (d_Results d)). rewrite <- Hr at 1. by rewrite take_drop.
  - exists bw, aw. by rewrite Hwant, Hc.
  - intros rel Hrel. rewrite Hrel in E. by apply result_bind_Ok in E as ([] & ?%guard_err_tt & E).
Qed.

Lemma digest_of_accepted d programVK state foldCount batchVK aggVK results :
  digest_of d programVK state foldCount batchVK aggVK results ->
  verifyFinalDigest d programVK state foldCount batchVK aggVK results = Ok tt.
Proof.
  intros [Hm Hr Hs Hv Hb [rest Hres] (bw & aw & Hbw & Haw & Hc) Hrel]. unfold verifyFinalDigest.
  rewrite Hm, Hr, Hs, <- Hv, Hb, !bool_decide_true by done. cbn [guard_err mbind result_bind andb].
  assert (check_results results (d_Results d) = Ok tt) as ->.
  { apply check_results_Ok. rewrite Hres, take_app_length, length_app. split; [done|lia]. }
  rewrite Hbw, Haw. cbn [of_option]. cbn. rewrite Hc. cbn. rewrite bool_decide_true by done. cbn.
  destruct CircuitRelease as [rel|]; [|done]. destruct (Hrel rel eq_refl) as [Hv' Hsame]. by rewrite Hsame.
Qed.

(** C27: the final digest is checked, and pins what it is accepted for.  A
    digest is accepted exactly when its mode is finalize, its root, fold count
    and voter counts are those of the sealed state, it is bound to the proof's
    vk and the batch vk, its results start with the decrypted ones, its
    configuration commitment is the one recomputed from the state and both vks,
    and, with a pinned release, the vks are the release's.  So one digest cannot
    be accepted for two states with other roots or voter counts, for another
    number of folds, or for other results of the same length; and two digests
    accepted for the same arguments agree on all of that and on the
    commitment. *)
Theorem verifyFinalDigest_pins d d' vk vk' state state' n n' batchVK aggVK results results' :
  (verifyFinalDigest d vk state n batchVK aggVK results = Ok tt <->
     digest_of d vk state n batchVK aggVK results) /\
  (verifyFinalDigest d vk state n batchVK aggVK results = Ok tt ->
     (verifyFinalDigest d vk' state' n' batchVK aggVK results' = Ok tt ->
        State_Root state = State_Root state' /\ n = n' /\ Voters state = Voters state' /\
        (length results = length results' -> results = results')) /\
     (verifyFinalDigest d' vk' state n batchVK aggVK results = Ok tt ->
        StateRootHex d = StateRootHex d' /\ d_StepCount d = d_StepCount d' /\
        (d_TotalVoters d, d_TotalOverwrites d) = (d_TotalVoters d', d_TotalOverwrites d') /\
        take (length results) (d_Results d) = take (length results) (d_Results d') /\
        d_ConfigCommitment d = d_ConfigCommitment d')).
Proof.
  split; [split; [apply verifyFinalDigest_digest_of|apply digest_of_accepted]|].
  intros [_ Hr Hs Hv _ [r Hres] (bw & aw & Hbw & Haw & Hc) _]%verifyFinalDigest_digest_of. split.
  - intros [_ Hr' Hs' Hv' _ [r' Hres'] _ _]%verifyFinalDigest_digest_of.
    split_and!; [congruence..|]. intros Hl. rewrite Hres in Hres'. by apply app_inj_1 in Hres' as [? _].
  - intros [_ Hr' Hs' Hv' _ [r' Hres'] (bw' & aw' & Hbw' & Haw' & Hc') _]%verifyFinalDigest_digest_of.
    split_and!; [congruence..| |congruence]. by rewrite Hres, Hres', !take_app_length.
Qed.
End digest_props.
