(* ===== verification/Lifecycle.v ===== *)
(** * Election lifecycle (orchestrator/lifecycle.go, tick of engine.go)

    The status changes of an election: what organizers, the end time and the
    keywarden cause, the drain and the finalize.  The scheduler's part of
    the drain and of the finalize is used through its interface. *)

From S2P Require Import Prelude Errors Effects Bytes Types Records Keys Artifacts Storage Retries.
From S2P Require Import Workers Sdk Config Validate Seal Engine Finalize.

(** [statusChanges] *)
Definition statusChanges (from : Status) : list Status :=
  match from with
  | StatusActive => [StatusPaused; StatusEnded; StatusCanceled]
  | StatusPaused => [StatusActive; StatusEnded; StatusCanceled]
  | _ => []
  end.

(** [statusActions] *)
Definition statusActions (to : Status) : string :=
  match to with
  | StatusActive => "resume_election"
  | StatusPaused => "pause_election"
  | StatusEnded => "end_election"
  | StatusCanceled => "cancel_election"
  | _ => ""
  end.

(** What the engine uses of the scheduler (orchestrator/scheduler.go and
    finalize.go). *)
Class SchedulerOps (D : Type) `{Chain} := {
  Drain : ElectionID -> stE (World D) unit;
  Finalize : ElectionID -> Z -> stE (World D) Results;
  Forget : ElectionID -> stE (World D) unit;
}.

Section lifecycle.
Context {D : Type} `{ADB D} `{Chain} `{!SchedulerOps D}.

(** Whether the engine has a scheduler, that is a worker pool. *)
Definition has_scheduler : stE (World D) bool :=
  gets (fun w => match env_dispatchers (w_env w) with Some _ => true | None => false end).

(** ** Status changes *)

(** A status change in one [UpdateElection], which checks the status it
    starts from. *)
Definition move_status (from to : Status) (stored : Election) : result Election :=
  if decide (el_Status stored = from) then Ok (el_set_status to stored)
  else Err [ErrInvalidTransition].

(** [Engine.setVotesStatus] *)
Definition setVotesStatus (id : ElectionID) (st : VoteStatus) : stE (World D) unit :=
  r ← attempt (on_store (ListVotes id));
  match r with
  | Err _ => mret tt
  | Ok votes => for_each votes (fun v => on_store (ignore (SetVoteStatus id (v_ID v) st)))
  end.

(** The part of [Engine.changeStatus] that works on the runtime. *)
Definition change_locked (now : time) (to : Status) : stE (SW D) unit :=
  id ← rt_get rt_id;
  r ← attempt (in_store (Election_ id));
  match r with
  | Err _ => throw [ErrElectionNotFound]
  | Ok el =>
      let from := el_Status el in
      _ ← throw_if (bool_decide (to ∉ statusChanges from)) [ErrInvalidTransition];
      _ ← match to with
          | StatusEnded => ignore (sealAllLocked now)
          | StatusCanceled => on_rt (set_pending [])
          | _ => mret tt
          end;
      in_store (UpdateElection now id (move_status from to))
  end.

(** What a cancel does once the status is stored. *)
Definition after_cancel (id : ElectionID) : stE (World D) unit :=
  _ ← modify (fun w => w_set_runtimes (delete id (w_runtimes w)) w);
  _ ← setVotesStatus id VoteStatusError;
  _ ← deleteProofs id;
  has ← has_scheduler;
  if has : bool then Forget id else mret tt.

(** [Engine.changeStatus] of the runtime [l] of election [id]. *)
Definition changeStatus (now : time) (id : ElectionID) (l : nat) (subject role : string)
    (to : Status) : stE (World D) unit :=
  _ ← with_rt l (change_locked now to);
  _ ← (if decide (to = StatusCanceled) then after_cancel id else mret tt);
  w_audit now subject role (statusActions to) id.

(** [Engine.SetStatus] *)
Definition SetStatus (now : time) (subject : string) (id : ElectionID) (to : Status) :
    stE (World D) unit :=
  r ← attempt (on_store (Election_ id));
  match r with
  | Err _ => throw [ErrElectionNotFound]
  | Ok el =>
      rt ← runtime id;
      match rt with
      | None =>
          throw (match statusChanges (el_Status el) with [] => [ErrInvalidTransition] | _ => errorf end)
      | Some l => changeStatus now id l subject "admin" to
      end
  end.

(** ** The drain *)

(** [Engine.drain] *)
Definition drain (now : time) (id : ElectionID) (l : nat) : stE (World D) unit :=
  _ ← with_rt l (sealAllLocked now);
  _ ← Drain id;
  _ ← on_store (UpdateElection now id (move_status StatusEnded StatusDecrypting));
  w_audit now "system" "system" "publish_encrypted_results" id.

Definition on_retries (f : retries -> retries) : stE (World D) unit :=
  modify (fun w => w_set_retries (f (w_retries w)) w).

(** [Engine.drainAndPublish]; the engine's context is canceled when it stops. *)
Definition drainAndPublish (now : time) (id : ElectionID) (l : nat) : stE (World D) unit :=
  w ← get_st;
  if decide (id ∈ w_draining w) then mret tt
  else
    _ ← modify (fun w => w_set_draining ({[id]} ∪ w_draining w) w);
    has ← has_scheduler;
    _ ← (if has : bool then
           r ← attempt (drain now id l);
           match r with
           | Ok _ => on_retries (succeeded id taskDrain)
           | Err _ =>
               w ← get_st;
               if w_bgStopped w then mret tt else on_retries (failed now id taskDrain)
           end
         else mret tt);
    modify (fun w => w_set_draining (w_draining w ∖ {[id]}) w).

(** ** Results *)

(** [Engine.EncryptedResults] *)
Definition EncryptedResults_ (id : ElectionID) : stE (World D) (list string) :=
  el ← on_store (Election_ id);
  _ ← throw_if (bool_decide (el_Status el ∉ [StatusDecrypting; StatusFinalizing; StatusResults])) errorf;
  rt ← runtime id;
  match rt with
  | None => throw errorf
  | Some l => with_rt l (rt_get (fun rt => EncryptedResults (rt_state rt)))
  end.

(** The election moves to finalizing, and a previous failure is cleared. *)
Definition move_finalizing (stored : Election) : result Election :=
  if decide (el_Status stored = StatusDecrypting)
  then Ok (el_set_finalize_error "" (el_set_status StatusFinalizing stored))
  else Err [ErrInvalidTransition].

Definition guard_finalizing (id : ElectionID) : stE (World D) unit :=
  w ← get_st;
  if decide (id ∈ w_finalizing w) then throw [ErrInvalidTransition]
  else modify (w_set_finalizing ({[id]} ∪ w_finalizing w)).
Definition release_finalizing (id : ElectionID) : stE (World D) unit :=
  modify (fun w => w_set_finalizing (w_finalizing w ∖ {[id]}) w).

(** What [SubmitDecryptionKey] does once it holds the guard. *)
Definition begin_finalize (now : time) (subject : string) (id : ElectionID) (key : Z) :
    stE (World D) unit :=
  r ← attempt (on_store (UpdateElection now id move_finalizing));
  match r with
  | Err e => _ ← release_finalizing id; throw e
  | Ok _ =>
      _ ← w_audit now subject "keywarden" "submit_decryption_key" id;
      started ← goBackground (BgFinalize id key);
      if started : bool then mret tt
      else _ ← release_finalizing id; throw errorf
  end.

(** [Engine.SubmitDecryptionKey] *)
Definition SubmitDecryptionKey (now : time) (subject : string) (id : ElectionID) (key : Z) :
    stE (World D) unit :=
  r ← attempt (on_store (Election_ id));
  match r with
  | Err _ => throw [ErrElectionNotFound]
  | Ok el =>
      _ ← throw_if (bool_decide (el_Status el <> StatusDecrypting)) [ErrInvalidTransition];
      rt ← runtime id;
      w ← get_st;
      match rt ≫= fun l => w_heap w !! l with
      | None => throw errorf
      | Some rt =>
          _ ← lift (checkDecryptionKey (cc_EncKey (rt_cfg rt)) key);
          has ← has_scheduler;
          _ ← throw_if (negb has) errorf;
          _ ← guard_finalizing id;
          begin_finalize now subject id key
      end
  end.

(** The status after a finalize that failed. *)
Definition move_failed (reason : string) (stored : Election) : result Election :=
  Ok (el_set_finalize_error reason (el_set_status StatusDecrypting stored)).

(** [Engine.finalizeElection] *)
Definition finalizeElection (now : time) (id : ElectionID) (key : Z) : stE (World D) unit :=
  r ← attempt (Finalize id key);
  _ ← release_finalizing id;
  match r with
  | Err e =>
      _ ← w_audit now "system" "system" "finalize_failed" id;
      on_store (ignore (UpdateElection now id (move_failed (finalizeSummary e))))
  | Ok _ =>
      _ ← setVotesStatus id VoteStatusSettled;
      r ← attempt (on_store (SetElectionStatus now id StatusResults));
      match r with
      | Err _ => mret tt
      | Ok _ =>
          _ ← deleteProofs id;
          has ← has_scheduler;
          if has : bool then Forget id else mret tt
      end
  end.

(** ** The monitor *)

(** [Engine.endElection] *)
Definition endElection (now : time) (id : ElectionID) (l : nat) : stE (World D) unit :=
  w ← get_st;
  if due now id taskEnd (w_retries w) then
    r ← attempt (changeStatus now id l "system" "system" StatusEnded);
    match r with
    | Ok _ => on_retries (succeeded id taskEnd)
    | Err e =>
        if errors_Is e ErrInvalidTransition then on_retries (succeeded id taskEnd)
        else on_retries (failed now id taskEnd)
    end
  else mret tt.

(** The body of [Engine.tick]'s loop. *)
Definition tick_election (now : time) (id : ElectionID) (l : nat) : stE (World D) unit :=
  r ← attempt (on_store (Election_ id));
  match r with
  | Err _ => mret tt
  | Ok el =>
      match el_Status el with
      | StatusActive | StatusPaused =>
          if negb (IsZero (el_EndTime el)) && (el_EndTime el <? now)%Z then endElection now id l
          else
            w ← get_st;
            _ ← with_rt l (sealIfStale now (o_window (w_opts w)));
            retryDispatch now id
      | StatusEnded =>
          w ← get_st;
          if due now id taskDrain (w_retries w) then
            _ ← goBackground (BgDrain l); mret tt
          else mret tt
      | StatusDecrypting => retryDispatch now id
      | _ => mret tt
      end
  end.

(** [Engine.tick]: a sweep over the runtimes, in the order of a map. *)
Definition tick (now : time) (order : list (ElectionID * nat)) : stE (World D) unit :=
  for_each order (fun p => tick_election now p.1 p.2).

(** The goroutine at position [i] of the background ones runs. *)
Definition run_background (now : time) (i : nat) : stE (World D) unit :=
  w ← get_st;
  match w_background w !! i with
  | None => mret tt
  | Some b =>
      _ ← modify (fun w => w_set_background (delete i (w_background w)) (w_bgStopped w) w);
      match b with
      | BgDrain l =>
          match rt_id <$> w_heap w !! l with
          | Some id => drainAndPublish now id l
          | None => mret tt
          end
      | BgFinalize id key => finalizeElection now id key
      end
  end.

(** [Engine.Results] *)
Definition Engine_Results (id : ElectionID) : stE (World D) Results := on_store (Results_ id).
End lifecycle.
