(* ===== verification/LifecycleProps.v ===== *)
(** * The lifecycle of an election

    Whatever the organizers, the clock, the keywarden and the provers do, the
    stored status of an election only takes the steps of its lifecycle. *)

From S2P Require Import Prelude Errors Effects Bytes Types Records KV Keys Artifacts Storage.
From S2P Require Import StorageRefine StorageSpec StorageProps Retries Workers Sdk Config.
From S2P Require Import Validate Seal Frame Engine Finalize Lifecycle.

(** The steps taken on a request, at the end time and after the drain. *)
Inductive edge : Status -> Status -> Prop :=
  | edge_requested from to : to ∈ statusChanges from -> edge from to
  | edge_drained : edge StatusEnded StatusDecrypting
  | edge_key : edge StatusDecrypting StatusFinalizing.

(** The steps of the lifecycle: these, and the outcomes of a finalize. *)
Inductive lifecycle_edge : Status -> Status -> Prop :=
  | life_edge st st' : edge st st' -> lifecycle_edge st st'
  | life_failed : lifecycle_edge StatusFinalizing StatusDecrypting
  | life_done : lifecycle_edge StatusFinalizing StatusResults.

Lemma finalizing_stays st : rtc edge StatusFinalizing st -> st = StatusFinalizing.
Proof.
  intros Hr. apply rtc_inv in Hr as [->|(st1 & He & _)]; [done|].
  inversion_clear He. simpl in *. set_solver.
Qed.

Lemma edge_final st st' :
  rtc lifecycle_edge st st' -> st = StatusCanceled \/ st = StatusResults -> st' = st.
Proof.
  intros Hr Hst. induction Hr as [|st st1 st2 He _ IH]; [done|].
  destruct Hst as [-> | ->]; inversion_clear He as [? ? He'| |]; inversion_clear He';
    simpl in *; set_solver.
Qed.

(** An election that has ended or was canceled. *)
Definition closed (st : Status) : bool :=
  match st with StatusActive | StatusPaused => false | _ => true end.

Lemma edge_closed st st' : rtc lifecycle_edge st st' -> closed st = true -> closed st' = true.
Proof.
  induction 1 as [|st st1 st2 He _ IH]; [done|]. intros Hc. apply IH. clear IH.
  destruct He as [st st1 [from to Hin| |]| |]; try done.
  by destruct from; simpl in *; try set_solver.
Qed.

Definition status (m : store) (id : ElectionID) : option Status := el_Status <$> election_at m id.

Lemma UpdateElection_run now id f (t : TStorage) :
  exists e0, UpdateElection now id f t =
    match election_at (tmap t) id with
    | None => (Err e0, t)
    | Some el =>
        match f el with
        | Err e => (Err e, t)
        | Ok el' => commit [WPut (KElection id) (AElection (el_set_updated now el'))] t
        end
    end.
Proof.
  unfold UpdateElection. unfold mbind at 1, stE_bind at 1.
  destruct (Election_run id t) as [e0 ->]. exists e0.
  destruct (election_at (tmap t) id) as [el|]; [|done].
  unfold mbind, stE_bind, lift. by destruct (f el).
Qed.

(** The statuses after an update. *)
Lemma UpdateElection_status now id f (t : TStorage) :
  let '(r, t') := UpdateElection now id f t in
  match r with
  | Ok _ => exists el el', election_at (tmap t) id = Some el /\ f el = Ok el' /\
      forall id', status (tmap t') id' = if decide (id' = id) then Some (el_Status el') else status (tmap t) id'
  | Err _ => tmap t' = tmap t
  end.
Proof.
  destruct (UpdateElection_run now id f t) as [e0 ->].
  destruct (election_at (tmap t) id) as [el|] eqn:Ee; [|done].
  destruct (f el) as [el'|e] eqn:Ef; [|done].
  destruct (commit_run [WPut (KElection id) (AElection (el_set_updated now el'))] t)
    as (t' & -> & Hm & _). destruct (next_fault _); [done|].
  exists el, el'. split_and!; try done. intros id'. unfold status, election_at. rewrite Hm. simpl.
  case_decide as Hd; [subst; by rewrite lookup_insert_eq|].
  rewrite lookup_insert_ne by congruence. done.
Qed.

(** Every election is where it was, or further along. *)
Definition follows (m0 m : store) : Prop := forall id st,
  status m0 id = Some st -> exists st', status m id = Some st' /\ rtc edge st st'.

(** No status changed. *)
Definition same_status (m0 m : store) : Prop := forall id, status m id = status m0 id.

#[export] Instance same_status_refl : Reflexive same_status.
Proof. by intros w. Qed.
#[export] Instance same_status_trans : Transitive same_status.
Proof. intros w1 w2 w3 H1 H2 id. by rewrite H2, H1. Qed.
#[export] Instance follows_refl : Reflexive follows.
Proof. intros w id st Hst. by exists st. Qed.
#[export] Instance follows_trans : Transitive follows.
Proof.
  intros w1 w2 w3 H1 H2 id st (st' & Hst' & Hr)%H1. destruct (H2 _ _ Hst') as (st'' & ? & ?).
  exists st''. split; [done|]. by etrans.
Qed.

Lemma same_follows m0 m : same_status m0 m -> follows m0 m.
Proof. intros Hs id st Hst. exists st. by rewrite Hs. Qed.

Lemma same_elections (m0 m : store) :
  (forall id, m !! KElection id = m0 !! KElection id) -> same_status m0 m.
Proof. intros Hm id. unfold status, election_at. by rewrite Hm. Qed.

Lemma frame_status t t' : frame t t' -> same_status (tmap t) (tmap t').
Proof. intros Hf. apply same_elections. intros id. by apply Hf. Qed.

(** An update along an edge of the lifecycle. *)
Lemma UpdateElection_follows now id f (t : TStorage) :
  (forall el el', f el = Ok el' -> rtc edge (el_Status el) (el_Status el')) ->
  follows (tmap t) (tmap (UpdateElection now id f t).2).
Proof.
  intros Hf id' st Hst. pose proof (UpdateElection_status now id f t) as Hu.
  destruct (UpdateElection now id f t) as [[r|e] t']; cbn [snd].
  - destruct Hu as (el & el' & Hel & Hf' & Hst'). rewrite Hst'. case_decide as Hd; [|by exists st].
    subst. exists (el_Status el'). split; [done|].
    unfold status in Hst. rewrite Hel in Hst. injection Hst as <-. by apply Hf.
  - rewrite Hu. by exists st.
Qed.

Lemma commit_elections ws (t : TStorage) :
  Forall (fun w => forall id, ~ touches w (KElection id)) ws ->
  same_status (tmap t) (tmap (commit ws t).2).
Proof.
  intros Hws. apply same_elections. intros id.
  destruct (commit_run ws t) as (t' & -> & Hm & _). simpl. rewrite Hm.
  destruct (next_fault _); [done|]. apply td_writes_untouched.
  eapply Forall_impl; [exact Hws|]. intros w Hw. apply Hw.
Qed.

Lemma move_edge from to el el' :
  edge from to -> move_status from to el = Ok el' -> rtc edge (el_Status el) (el_Status el').
Proof.
  unfold move_status. intros He. case_decide as Hd; [|done]. intros [= <-]. simpl. subst.
  by apply rtc_once.
Qed.

(** The finalizes that run in the background. *)
Definition finals `{Chain} (w : World TypedDB) : list ElectionID :=
  omap (fun b => match b with BgFinalize id _ => Some id | BgDrain _ => None end) (w_background w).

Definition wmap `{Chain} (w : World TypedDB) : store := tmap (w_store w).
Definition smap `{Chain} (s : SW TypedDB) : store := tmap (env_store (sw_env s)).

(** No status changed and no finalize was started, or the statuses moved. *)
Definition steady `{Chain} (w w' : World TypedDB) : Prop :=
  same_status (wmap w) (wmap w') /\ finals w' = finals w.
Definition advances `{Chain} (w w' : World TypedDB) : Prop :=
  follows (wmap w) (wmap w') /\ finals w' = finals w.

#[export] Instance steady_refl `{Chain} : Reflexive steady.
Proof. by intros w. Qed.
#[export] Instance steady_trans `{Chain} : Transitive steady.
Proof. intros w1 w2 w3 [] []. split; [by etrans|congruence]. Qed.
#[export] Instance advances_refl `{Chain} : Reflexive advances.
Proof. by intros w. Qed.
#[export] Instance advances_trans `{Chain} : Transitive advances.
Proof. intros w1 w2 w3 [] []. split; [by etrans|congruence]. Qed.

(** What the engine relies on in the scheduler. *)
Class SchedulerLaws `{SchedulerOps TypedDB} := {
  Drain_steady id w : steady w (Drain id w).2;
  Finalize_steady id key w : steady w (Finalize id key w).2;
  Forget_run id w : exists w', Forget id w = (Ok tt, w') /\ w_store w' = w_store w /\
    w_background w' = w_background w /\ w_runtimes w' = w_runtimes w /\ w_heap w' = w_heap w;
}.

Section statuses.
Context `{SchedulerLaws}.
Abbreviation W := (World TypedDB).
Abbreviation TSW := (SW TypedDB).

(** A computation that changes no status, or moves it along the lifecycle. *)
Definition keeps {A} (m : stE W A) : Prop := forall w, steady w (m w).2.
Definition moves {A} (m : stE W A) : Prop := forall w, advances w (m w).2.

Lemma keeps_moves {A} (m : stE W A) : keeps m -> moves m.
Proof. intros Hm w. destruct (Hm w). split; [by apply same_follows|done]. Qed.

Lemma moves_preserves {A} (m : stE W A) :
  moves m <-> forall w0, preserves (advances w0) m.
Proof.
  split; [|intros Hm w; by apply (Hm w)].
  intros Hm w0 w Hw. etrans; [exact Hw|apply Hm].
Qed.

Lemma keeps_preserves {A} (m : stE W A) :
  keeps m <-> forall w0, preserves (steady w0) m.
Proof.
  split; [|intros Hm w; by apply (Hm w)].
  intros Hm w0 w Hw. etrans; [exact Hw|apply Hm].
Qed.

Lemma moves_bind {A B} (m : stE W A) (f : A -> stE W B) :
  moves m -> (forall a, moves (f a)) -> moves (m ≫= f).
Proof.
  rewrite !moves_preserves. intros Hm Hf w0. apply preserves_bind; [apply Hm|].
  intros a. by apply moves_preserves, Hf.
Qed.
Lemma moves_attempt {A} (m : stE W A) : moves m -> moves (attempt m).
Proof. rewrite !moves_preserves. intros Hm w0. by apply preserves_attempt. Qed.
Lemma moves_for_each {A} (l : list A) (m : A -> stE W unit) :
  (forall x, moves (m x)) -> moves (for_each l m).
Proof.
  intros Hm. apply moves_preserves. intros w0. apply preserves_for_each. intros x _.
  by apply moves_preserves.
Qed.

Lemma keeps_bind {A B} (m : stE W A) (f : A -> stE W B) :
  keeps m -> (forall a, keeps (f a)) -> keeps (m ≫= f).
Proof.
  rewrite !keeps_preserves. intros Hm Hf w0. apply preserves_bind; [apply Hm|].
  intros a. by apply keeps_preserves, Hf.
Qed.
Lemma keeps_attempt {A} (m : stE W A) : keeps m -> keeps (attempt m).
Proof. rewrite !keeps_preserves. intros Hm w0. by apply preserves_attempt. Qed.
Lemma keeps_for_each {A} (l : list A) (m : A -> stE W unit) :
  (forall x, keeps (m x)) -> keeps (for_each l m).
Proof.
  intros Hm. apply keeps_preserves. intros w0. apply preserves_for_each. intros x _.
  by apply keeps_preserves.
Qed.

Lemma keeps_store {A} (m : stE W A) :
  (forall w, w_store (m w).2 = w_store w) -> (forall w, finals (m w).2 = finals w) -> keeps m.
Proof. intros Hm Hf w. split; [unfold wmap; by rewrite Hm|apply Hf]. Qed.

Lemma on_store_store {A} (m : stE TStorage A) (w : W) : w_store (on_store m w).2 = (m (w_store w)).2.
Proof. unfold on_store, zoom. by destruct (m (w_store w)). Qed.

Lemma on_store_finals {A} (m : stE TStorage A) (w : W) : finals (on_store m w).2 = finals w.
Proof. unfold on_store, zoom. by destruct (m (w_store w)). Qed.

Lemma on_store_ignore {A} (m : stE TStorage A) (w : W) : (on_store (ignore m) w).2 = (on_store m w).2.
Proof. unfold on_store, zoom, ignore. by destruct (m (w_store w)). Qed.

Lemma keeps_on_store {A} (m : stE TStorage A) :
  (forall t, same_status (tmap t) (tmap (m t).2)) -> keeps (on_store m).
Proof. intros Hm w. split; [unfold wmap; by rewrite on_store_store|apply on_store_finals]. Qed.

Lemma moves_on_store {A} (m : stE TStorage A) :
  (forall t, follows (tmap t) (tmap (m t).2)) -> moves (on_store m).
Proof. intros Hm w. split; [unfold wmap; by rewrite on_store_store|apply on_store_finals]. Qed.

Lemma with_rt_store {A} l (m : stE TSW A) (w : W) rt :
  w_heap w !! l = Some rt ->
  w_store (with_rt l m w).2 = env_store (sw_env (m (MkSW (w_env w) rt)).2).
Proof. intros Hl. unfold with_rt. rewrite Hl. by destruct (m _). Qed.

Lemma with_rt_finals {A} l (m : stE TSW A) (w : W) : finals (with_rt l m w).2 = finals w.
Proof. unfold with_rt. destruct (w_heap w !! l); [|done]. by destruct (m _). Qed.

Lemma moves_with_rt {A} l (m : stE TSW A) :
  (forall s, follows (smap s) (smap (m s).2)) -> moves (with_rt l m).
Proof.
  intros Hm w. split; [|apply with_rt_finals]. destruct (w_heap w !! l) as [rt|] eqn:Hl.
  - unfold wmap. rewrite (with_rt_store _ _ _ _ Hl). apply (Hm (MkSW (w_env w) rt)).
  - unfold with_rt. by rewrite Hl.
Qed.

Lemma keeps_with_rt {A} l (m : stE TSW A) :
  (forall t, preserves (framed t) m) -> keeps (with_rt l m).
Proof.
  intros Hm w. split; [|apply with_rt_finals]. destruct (w_heap w !! l) as [rt|] eqn:Hl.
  - unfold wmap. rewrite (with_rt_store _ _ _ _ Hl). apply frame_status.
    by apply (Hm (w_store w) (MkSW (w_env w) rt)).
  - unfold with_rt. by rewrite Hl.
Qed.
End statuses.

Section operations.
Context `{SchedulerLaws}.
Abbreviation W := (World TypedDB).
Abbreviation TSW := (SW TypedDB).

Lemma keeps_read {A} (m : stE TStorage A) : (forall t, (m t).2 = t) -> keeps (on_store m).
Proof. intros Hm. apply keeps_on_store. intros t. by rewrite Hm. Qed.

Lemma keeps_Election id : keeps (on_store (Election_ id) : stE W Election).
Proof. apply keeps_read. intros t. unfold Election_. by rewrite load_state. Qed.

Lemma keeps_ListVotes id : keeps (on_store (ListVotes id) : stE W (list Vote)).
Proof. apply keeps_read. intros t. unfold ListVotes. by rewrite list_all_state. Qed.

Lemma keeps_SetVoteStatus id v st : keeps (on_store (ignore (SetVoteStatus id v st)) : stE W unit).
Proof. apply keeps_on_store. intros t. apply frame_status, SetVoteStatus_frame. Qed.

Lemma keeps_audit now subject role action id : keeps (w_audit now subject role action id : stE W unit).
Proof. apply keeps_on_store. intros t. apply frame_status, AppendAudit_frame. Qed.

Lemma keeps_deleteProofs id : keeps (deleteProofs id : stE W unit).
Proof.
  apply keeps_on_store. intros t. apply same_elections. intros id'.
  change (tmap (run_call (CDeleteProofs id) t).2 !! KElection id' = tmap t !! KElection id').
  apply (call_preserves (fun m => m !! KElection id' = tmap t !! KElection id')); [|done].
  intros ws Hw _. cbn [call_writes] in Hw. subst ws. apply td_writes_untouched. untouched.
Qed.

Lemma keeps_setVotesStatus id st : keeps (setVotesStatus id st : stE W unit).
Proof.
  apply keeps_bind; [apply keeps_attempt, keeps_ListVotes|]. intros [votes|e]; [|done].
  apply keeps_for_each. intros v. apply keeps_SetVoteStatus.
Qed.

Lemma keeps_modify f :
  (forall w : W, w_store (f w) = w_store w) -> (forall w, finals (f w) = finals w) -> keeps (modify f).
Proof. intros. by apply keeps_store. Qed.

Lemma keeps_forget id : keeps (has ← has_scheduler; if has : bool then Forget id else mret tt : stE W unit).
Proof.
  apply keeps_bind; [done|]. intros []; [|done]. intros w.
  destruct (Forget_run id w) as (w' & -> & Es & Eb & _). cbn [snd].
  split; [unfold wmap; by rewrite Es|]. unfold finals. by rewrite Eb.
Qed.

Lemma keeps_after_cancel id : keeps (after_cancel id : stE W unit).
Proof.
  apply keeps_bind; [by apply keeps_modify|]. intros _.
  apply keeps_bind; [apply keeps_setVotesStatus|]. intros _.
  apply keeps_bind; [apply keeps_deleteProofs|]. intros _. apply keeps_forget.
Qed.

Lemma keeps_w_Notify id : keeps (w_Notify id : stE W unit).
Proof.
  apply keeps_modify; [|done]. intros w. unfold w_store, Notify_env. simpl.
  destruct (env_dispatchers (w_env w)); [|done]. by destruct (env_stopping _).
Qed.

Lemma keeps_retryDispatch now id : keeps (retryDispatch now id : stE W unit).
Proof.
  intros w. unfold retryDispatch, mbind at 1, stE_bind at 1, get_st.
  destruct (env_dispatchers (w_env w)); [|done].
  destruct (take_task _ _ _ _) as [taken r]. unfold mbind, stE_bind, modify.
  destruct taken; [|done]. apply (keeps_w_Notify id (w_set_retries r w)).
Qed.

Lemma change_locked_follows now to s :
  follows (smap s) (smap (change_locked now to s : _ * TSW).2).
Proof.
  revert s. assert (forall t, preserves (fun s : TSW => follows (tmap t) (smap s))
    (change_locked now to)) as Hp; [|intros s; by apply (Hp (env_store (sw_env s)))].
  intros t. assert (forall A (m : stE TSW A), (forall t, preserves (framed t) m) ->
    preserves (fun s : TSW => follows (tmap t) (smap s)) m) as Hfr.
  { intros A m Hm s Hs. etrans; [exact Hs|]. apply same_follows, frame_status.
    by apply (Hm (env_store (sw_env s))). }
  unfold change_locked. apply preserves_bind; [apply Hfr; intros t'; apply rt_get_framed|]. intros id.
  apply preserves_bind.
  { apply preserves_attempt, Hfr. intros t'. apply read_framed. intros t''.
    unfold Election_. by rewrite load_state. }
  intros [el|e]; [|apply preserves_throw].
  destruct (bool_decide (to ∉ statusChanges (el_Status el))) eqn:Ed; [by intros s|].
  apply bool_decide_eq_false, dec_stable in Ed.
  apply preserves_bind; [apply preserves_throw_if|]. intros _. apply preserves_bind.
  { apply Hfr. intros t'. destruct to; first
      [apply preserves_ret | apply on_rt_framed | apply preserves_ignore, sealAllLocked_framed]. }
  intros _ s Hs. etrans; [exact Hs|].
  pose proof (UpdateElection_follows now id (move_status (el_Status el) to) (env_store (sw_env s))
    (fun el1 el2 => move_edge _ _ el1 el2 (edge_requested _ _ Ed))) as Hu.
  unfold in_store, zoom. by destruct (UpdateElection _ _ _ _).
Qed.

Lemma moves_changeStatus now id l subject role to : moves (changeStatus now id l subject role to : stE W unit).
Proof.
  apply moves_bind; [apply moves_with_rt, change_locked_follows|]. intros _.
  apply moves_bind; [|intros _; apply keeps_moves, keeps_audit].
  case_decide; [apply keeps_moves, keeps_after_cancel|by apply keeps_moves].
Qed.

Lemma moves_SetStatus now subject id to : moves (SetStatus now subject id to : stE W unit).
Proof.
  apply moves_bind; [apply moves_attempt, keeps_moves, keeps_Election|].
  intros [el|e]; [|by apply keeps_moves]. apply moves_bind; [by apply keeps_moves|].
  intros [l|]; [apply moves_changeStatus|]. by apply keeps_moves.
Qed.

Lemma moves_drain now id l : moves (drain now id l : stE W unit).
Proof.
  apply moves_bind; [apply keeps_moves, keeps_with_rt, sealAllLocked_framed|]. intros _.
  apply moves_bind; [apply keeps_moves; intros w; apply Drain_steady|]. intros _.
  apply moves_bind; [|intros _; apply keeps_moves, keeps_audit].
  apply moves_on_store. intros t. apply UpdateElection_follows. intros el el'.
  apply move_edge, edge_drained.
Qed.

Lemma moves_get {B} (f : W -> stE W B) : (forall w, moves (f w)) -> moves (get_st ≫= f).
Proof. intros Hf. apply moves_bind; [by apply keeps_moves|done]. Qed.

Lemma moves_modify f :
  (forall w : W, w_store (f w) = w_store w) -> (forall w, finals (f w) = finals w) -> moves (modify f).
Proof. intros. by apply keeps_moves, keeps_modify. Qed.

Lemma keeps_start_drain l : keeps (goBackground (BgDrain l) : stE W bool).
Proof.
  apply keeps_store; intros w; unfold goBackground, finals; destruct (w_bgStopped w); try done.
  cbn. rewrite omap_app. simpl. by rewrite app_nil_r.
Qed.

Lemma moves_ret {A} (a : A) : moves (mret a : stE W A).
Proof. by apply keeps_moves. Qed.

Lemma moves_drainAndPublish now id l : moves (drainAndPublish now id l : stE W unit).
Proof.
  apply moves_get. intros w. case_decide; [apply moves_ret|].
  apply moves_bind; [by apply moves_modify|]. intros _.
  apply moves_bind; [by apply keeps_moves|]. intros has.
  apply moves_bind; [|intros _; by apply moves_modify].
  destruct has; [|apply moves_ret].
  apply moves_bind; [apply moves_attempt, moves_drain|]. intros [x|e]; [by apply moves_modify|].
  apply moves_get. intros w'. destruct (w_bgStopped w'); [apply moves_ret|by apply moves_modify].
Qed.

Lemma moves_endElection now id l : moves (endElection now id l : stE W unit).
Proof.
  apply moves_get. intros w. destruct (due _ _ _ _); [|apply moves_ret].
  apply moves_bind; [apply moves_attempt, moves_changeStatus|].
  intros [x|e]; [by apply moves_modify|]. destruct (errors_Is _ _); by apply moves_modify.
Qed.

Lemma moves_tick now order : moves (tick now order : stE W unit).
Proof.
  apply moves_for_each. intros [id l]. unfold tick_election. cbn [fst snd].
  assert (moves (w ← get_st; _ ← with_rt l (sealIfStale now (o_window (w_opts w)));
    retryDispatch now id : stE W unit)) as Hseal.
  { apply moves_get. intros w. apply moves_bind; [|intros _; apply keeps_moves, keeps_retryDispatch].
    apply keeps_moves, keeps_with_rt. intros t. apply sealIfStale_framed. }
  apply moves_bind; [apply moves_attempt, keeps_moves, keeps_Election|].
  intros [el|e]; [|apply moves_ret].
  destruct (el_Status el); try apply moves_ret.
  - case_match; [apply moves_endElection|apply Hseal].
  - apply moves_get. intros w. destruct (due _ _ _ _); [|apply moves_ret].
    apply moves_bind; [|intros _; apply moves_ret]. apply keeps_moves, keeps_start_drain.
  - apply keeps_moves, keeps_retryDispatch.
  - case_match; [apply moves_endElection|apply Hseal].
Qed.

(** ** Finalizing *)

(** A finalize is started for an election that was decrypting, or none is. *)
Definition starts (id : ElectionID) (w w' : W) : Prop :=
  follows (wmap w) (wmap w') /\
  (finals w' = finals w \/
   finals w' = finals w ++ [id] /\ status (wmap w) id = Some StatusDecrypting /\
     status (wmap w') id = Some StatusFinalizing).

Lemma advances_starts id w w' : advances w w' -> starts id w w'.
Proof. intros [Hf Hs]. split; [done|by left]. Qed.

Lemma begin_finalize_starts now subject id key w :
  starts id w (begin_finalize now subject id key w).2.
Proof.
  unfold begin_finalize. unfold mbind at 1, stE_bind at 1, attempt.
  pose proof (UpdateElection_status now id move_finalizing (w_store w)) as Hu.
  assert (advances w (on_store (UpdateElection now id move_finalizing) w).2) as Hm.
  { apply moves_on_store. intros t. apply UpdateElection_follows. unfold move_finalizing.
    intros e1 e2. case_decide as Hd; [|done]. intros [= <-]. simpl. rewrite Hd.
    apply rtc_once, edge_key. }
  pose proof (on_store_store (UpdateElection now id move_finalizing) w) as Es.
  unfold on_store, zoom in *. destruct (UpdateElection _ _ _ _) as [[x|e] t]; cbn [snd fst] in *;
    [|by apply advances_starts].
  set (w1 := w_set_env _ w) in *. destruct Hu as (el & el' & Hel & Hf & Hst).
  assert (status (wmap w) id = Some StatusDecrypting /\ status (wmap w1) id = Some StatusFinalizing) as [Hd Hn].
  { unfold move_finalizing in Hf. case_decide as Hd; [|done]. injection Hf as <-.
    unfold wmap. rewrite Es, Hst, decide_True by done. unfold status. rewrite Hel. by rewrite <- Hd. }
  unfold mbind, stE_bind.
  destruct (keeps_audit now subject "keywarden" "submit_decryption_key" id w1) as [Hs Hfin].
  destruct (w_audit now subject "keywarden" "submit_decryption_key" id w1) as [y w2]; cbn [snd] in *.
  assert (advances w w2) as [Hfw Hfs] by (trans w1; [done|split; [by apply same_follows|done]]).
  destruct y as [y|e]; [|by apply advances_starts].
  unfold goBackground. destruct (w_bgStopped w2); cbn [snd]; [by split; [|left]|].
  split; [done|right]. split; [|split; [done|]].
  - rewrite <- Hfs. unfold finals. cbn. by rewrite omap_app.
  - rewrite <- Hn. apply Hs.
Qed.

(** The checks before it. *)
Lemma SubmitDecryptionKey_starts now subject id key w :
  starts id w (SubmitDecryptionKey now subject id key w).2.
Proof.
  unfold SubmitDecryptionKey.
  assert (forall A (m : stE W A) (f : A -> stE W unit), keeps m ->
    (forall a w, starts id w (f a w).2) -> forall w, starts id w ((m ≫= f) w).2) as Hb.
  { intros A m f Hm Hf w0. unfold mbind, stE_bind. destruct (Hm w0) as [Hs Hfin].
    destruct (m w0) as [[a|e] w1]; cbn [snd] in *;
      [|apply advances_starts; split; [by apply same_follows|done]].
    destruct (Hf a w1) as [Hf1 Hf2]. rewrite Hfin, (Hs id) in Hf2.
    split; [etrans; [by apply same_follows|done]|]. done. }
  assert (forall A (m : stE W A), keeps m -> forall w, starts id w (m w).2) as Hk.
  { intros A m Hm w0. apply advances_starts. by apply keeps_moves. }
  apply Hb; [apply keeps_attempt, keeps_Election|]. intros [el|e]; [|by apply Hk].
  apply Hb; [by destruct (bool_decide _)|]. intros _. apply Hb; [done|]. intros rt.
  apply Hb; [done|]. intros w0. destruct (rt ≫= _) as [r|]; [|by apply Hk].
  apply Hb; [done|]. intros _. apply Hb; [done|]. intros has.
  apply Hb; [by destruct has|]. intros _. apply Hb; [|intros _; apply begin_finalize_starts].
  apply keeps_bind; [done|]. intros w1. by case_decide.
Qed.

(** A finalize moves its election to decrypting or to results, or leaves it
    finalizing when the store fails, and no other election moves. *)
Definition finalized (id : ElectionID) (w w' : W) : Prop :=
  finals w' = finals w /\
  forall id', status (wmap w') id' = status (wmap w) id' \/
    id' = id /\ status (wmap w) id' <> None /\
      (status (wmap w') id' = Some StatusDecrypting \/ status (wmap w') id' = Some StatusResults).

Lemma steady_finalized id w w1 w2 w' :
  steady w w1 -> finalized id w1 w2 -> steady w2 w' -> finalized id w w'.
Proof.
  intros [S1 F1] [F2 Hs] [S3 F3]. split; [congruence|]. intros id'.
  rewrite S3, <- (S1 id'). apply Hs.
Qed.

Lemma update_finalized now id f st w :
  (forall el el', f el = Ok el' -> el_Status el' = st) ->
  st = StatusDecrypting \/ st = StatusResults ->
  finalized id w (on_store (UpdateElection now id f) w).2.
Proof.
  intros Hf Hst. split; [apply on_store_finals|]. intros id'.
  pose proof (UpdateElection_status now id f (w_store w)) as Hu. unfold wmap.
  rewrite on_store_store. destruct (UpdateElection now id f (w_store w)) as [[x|e] t]; cbn [snd].
  - destruct Hu as (el & el' & Hel & Ef & Hu). rewrite Hu. case_decide as Hd; [|by left].
    right. subst id'. split; [done|]. rewrite (Hf _ _ Ef). split; [|naive_solver].
    unfold status. by rewrite Hel.
  - left. by rewrite Hu.
Qed.

Lemma finalizeElection_finalized now id key w : finalized id w (finalizeElection now id key w).2.
Proof.
  unfold finalizeElection. unfold mbind at 1, stE_bind at 1, attempt.
  pose proof (Finalize_steady id key w) as A1. destruct (Finalize id key w) as [r w1]. cbn [snd] in A1.
  unfold mbind at 1, stE_bind at 1. cbn [release_finalizing modify].
  set (w2 := w_set_finalizing _ w1). assert (steady w w2) as A2 by done. destruct r as [res|e].
  - unfold mbind at 1, stE_bind at 1.
    pose proof (keeps_setVotesStatus id VoteStatusSettled w2) as A3.
    destruct (setVotesStatus id VoteStatusSettled w2) as [[x|e] w3]; cbn [snd] in *.
    2: { eapply steady_finalized; [exact (transitivity A2 A3)| |reflexivity].
         split; [done|]. intros id'. by left. }
    unfold mbind at 1, stE_bind at 1, attempt.
    pose proof (update_finalized now id (fun e => Ok (el_set_status StatusResults e)) StatusResults w3
      ltac:(by intros ? ? [= <-]) ltac:(by right)) as A4.
    unfold SetElectionStatus. destruct (on_store _ w3) as [r4 w4]. cbn [snd] in A4.
    eapply steady_finalized; [exact (transitivity A2 A3)|exact A4|].
    destruct r4; [|done].
    assert (keeps (_ ← deleteProofs id; has ← has_scheduler;
      if has : bool then Forget id else mret tt : stE W unit)) as Hk.
    { apply keeps_bind; [apply keeps_deleteProofs|]. intros _. apply keeps_forget. }
    apply Hk.
  - unfold mbind, stE_bind.
    pose proof (keeps_audit now "system" "system" "finalize_failed" id w2) as A3.
    destruct (w_audit now "system" "system" "finalize_failed" id w2) as [[x|e'] w3]; cbn [snd] in *.
    2: { eapply steady_finalized; [exact (transitivity A2 A3)| |reflexivity].
         split; [done|]. intros id'. by left. }
    pose proof (update_finalized now id (move_failed (finalizeSummary e)) StatusDecrypting w3
      ltac:(by intros ? ? [= <-]) ltac:(by left)) as A4.
    eapply steady_finalized; [exact (transitivity A2 A3)|exact A4|].
    by rewrite on_store_ignore.
Qed.
End operations.
