(* ===== verification/LifecycleSpec.v ===== *)
(** * The status changes, operation by operation

    What each change of an election's status does to its record, its votes
    and its runtime. *)

From S2P Require Import Prelude Errors Effects Bytes Types Records KV Keys Artifacts Storage.
From S2P Require Import StorageRefine StorageSpec StorageProps Retries Workers Sdk Config.
From S2P Require Import Validate Seal Frame Engine Finalize Lifecycle LifecycleProps.

(** ** Listing *)

Lemma elem_of_listed {A} sc (as_ : Artifact -> result A) (m : store) x :
  x ∈ decoded as_ (td_scan sc m) <-> exists k a, in_scan sc k /\ m !! k = Some a /\ as_ a = Ok x.
Proof.
  unfold decoded, td_scan. rewrite list_elem_of_omap. setoid_rewrite list_elem_of_fmap. split.
  - intros (p & (k & -> & [Hs Hk]%elem_of_td_scan_keys) & E). cbn in E.
    destruct (m !! k) as [a|] eqn:Ek; [|done]. cbn in E. exists k, a.
    destruct (as_ a) as [y|e] eqn:Ea; [|done]. by simplify_eq.
  - intros (k & a & Hs & Hk & Ha). exists (scan_suffix sc k, m !! k). split.
    + exists k. split; [done|]. apply elem_of_td_scan_keys. split; [done|by exists a].
    + cbn. rewrite Hk. cbn. by rewrite Ha.
Qed.

Lemma ListVotes_run id (t : TStorage) :
  td_readable (s_db t) = true ->
  exists l, ListVotes id t = (Ok l, t) /\
    forall x, x ∈ l <-> exists u, vote_at (tmap t) id u = Some x.
Proof.
  intros Hr. exists (decoded as_vote (td_scan (ScanVotes id) (tmap t))). split.
  - unfold ListVotes, list_all, mbind, stE_bind. by rewrite iterate_run, Hr.
  - intros x. rewrite elem_of_listed. unfold vote_at. split.
    + intros (k & a & Hs & Hk & Ha). destruct k; simpl in Hs; try done. subst.
      exists voteID. rewrite Hk. by destruct a; simplify_eq/=.
    + intros [u Hu]. destruct (tmap t !! KVote id u) as [[]|] eqn:E; simplify_eq.
      by exists (KVote id u), (AVote x).
Qed.

(** ** Moving the votes of an election *)

Section votes.
Context `{Chain}.
Abbreviation W := (World TypedDB).

(** The rest of the world is as it was. *)
Record same_engine (w w' : W) : Prop := {
  se_runtimes : w_runtimes w' = w_runtimes w;
  se_heap : w_heap w' = w_heap w;
  se_dispatchers : env_dispatchers (w_env w') = env_dispatchers (w_env w);
}.

Global Instance same_engine_refl : Reflexive same_engine.
Proof. by intros w. Qed.
Global Instance same_engine_trans : Transitive same_engine.
Proof. intros w1 w2 w3 [] []. split; congruence. Qed.

Lemma on_store_engine {A} (m : stE TStorage A) (w : W) : same_engine w (on_store m w).2.
Proof. unfold on_store, zoom. by destruct (m (w_store w)). Qed.

Definition votes_moved (id : ElectionID) (ids : list VoteID) (st : VoteStatus) (t t' : TStorage) : Prop :=
  (forall u, status_at (tmap t') id u =
     if bool_decide (u ∈ ids) && may_move (tmap t) id u st then Some st else status_at (tmap t) id u) /\
  frame t t' /\
  (forall k, (forall u, k <> KVoteStatus id u) -> tmap t' !! k = tmap t !! k) /\
  (well_kinded (tmap t) -> well_kinded (tmap t')).

Lemma SetVoteStatus_moved id u st (t : TStorage) :
  td_faults (s_db t) = [] -> votes_moved id [u] st t (SetVoteStatus id u st t).2.
Proof.
  intros Hf. destruct (SetVoteStatus_state id u st t) as (Hm & _ & Hp). rewrite Hf in Hm.
  cbn in Hm. rewrite andb_true_r in Hm. split; [|split; [apply SetVoteStatus_frame|split]].
  - intros u'. unfold status_at. rewrite Hm. destruct (decide (u' = u)) as [->|Hne].
    + rewrite bool_decide_true by set_solver. cbn. destruct (may_move _ _ _ _); [|done].
      by rewrite lookup_insert_eq.
    + rewrite bool_decide_false by set_solver. cbn. destruct (may_move _ _ _ _); [|done].
      by rewrite lookup_insert_ne by congruence.
  - intros k Hk. rewrite Hm. destruct (may_move _ _ _ _); [|done].
    by rewrite lookup_insert_ne by (intros E; by apply (Hk u)).
  - intros Hwk. rewrite Hm. destruct (may_move _ _ _ _); [|done]. by apply map_Forall_insert_2.
Qed.

Lemma votes_moved_cons id u ids st t t1 t2 :
  Final st = true ->
  votes_moved id [u] st t t1 -> votes_moved id ids st t1 t2 -> votes_moved id (u :: ids) st t t2.
Proof.
  intros Hfin (S1 & F1 & K1 & W1) (S2 & F2 & K2 & W2). split; [|split; [by trans t1|split; [|by auto]]].
  - intros u'. assert (CanMoveTo st st = false) as Hst by (by destruct st).
    assert (bool_decide (u' ∈ u :: ids) = bool_decide (u' ∈ [u]) || bool_decide (u' ∈ ids)) as ->
      by (repeat case_bool_decide; set_solver).
    rewrite S2. unfold may_move. rewrite (S1 u'). unfold may_move.
    destruct (bool_decide (u' ∈ [u])), (bool_decide (u' ∈ ids)); cbn; try done;
      destruct (status_at (tmap t) id u') as [cur|]; cbn; rewrite ?Hst; try done.
    destruct (CanMoveTo cur st) eqn:Ec; rewrite ?Hst, ?Ec; done.
  - intros k Hk. by rewrite K2, K1.
Qed.

Lemma setVotesStatus_run id st (w : W) :
  Final st = true -> td_faults (s_db (w_store w)) = [] -> td_readable (s_db (w_store w)) = true ->
  exists ids w', setVotesStatus id st w = (Ok tt, w') /\ same_engine w w' /\
    votes_moved id ids st (w_store w) (w_store w') /\
    forall u, u ∈ ids <-> exists x v, vote_at (wmap w) id x = Some v /\ v_ID v = u.
Proof.
  intros Hfin Hf Hr. destruct (ListVotes_run id (w_store w) Hr) as (l & El & Hl).
  exists (v_ID <$> l). unfold setVotesStatus. unfold mbind, stE_bind, attempt.
  assert (on_store (ListVotes id) w = (Ok l, w)) as ->.
  { unfold on_store, zoom. rewrite El. by destruct w as [[]]. }
  assert (forall (l : list Vote) (w : W), td_faults (s_db (w_store w)) = [] ->
    exists w', for_each l (fun v => on_store (ignore (SetVoteStatus id (v_ID v) st))) w = (Ok tt, w') /\
      same_engine w w' /\ votes_moved id (v_ID <$> l) st (w_store w) (w_store w')) as Hloop.
  { clear -Hfin. induction l as [|v l IH]; intros w Hf.
    { exists w. split; [done|]. split; [done|]. split; [|by split]. intros u.
      by rewrite bool_decide_false by apply not_elem_of_nil. }
    destruct (IH (on_store (ignore (SetVoteStatus id (v_ID v) st)) w).2) as (w' & E & He & Hm).
    { rewrite on_store_store. apply (ps_faults _ _ (fr_proc _ _ (SetVoteStatus_frame id (v_ID v) st _))).
      done. }
    exists w'. split; [|split].
    - cbn [for_each]. unfold mbind, stE_bind.
      rewrite <- E. unfold on_store, zoom, ignore. done.
    - etrans; [apply (on_store_engine (ignore (SetVoteStatus id (v_ID v) st)))|done].
    - rewrite on_store_store in Hm. cbn in Hm. csimpl. eapply votes_moved_cons; [done| |exact Hm].
      by apply SetVoteStatus_moved. }
  destruct (Hloop l w Hf) as (w' & E & He & Hm). exists w'.
  split; [done|]. split; [done|]. split; [done|].
  intros u. rewrite list_elem_of_fmap. setoid_rewrite Hl. unfold wmap. naive_solver.
Qed.
End votes.

(** ** Changing a status *)

Section change.
Context `{SchedulerLaws}.
Abbreviation W := (World TypedDB).
Abbreviation TSW := (SW TypedDB).

Definition loaded (w : W) (id : ElectionID) (l : nat) (rt : Runtime) : Prop :=
  w_runtimes w !! id = Some l /\ w_heap w !! l = Some rt /\ rt_id rt = id.

(** What a change does to the runtime before the status is stored. *)
Definition prepare (now : time) (to : Status) (s : TSW) : TSW :=
  match to with
  | StatusEnded => (sealAllLocked now s).2
  | StatusCanceled => MkSW (sw_env s) (set_pending [] (sw_rt s))
  | _ => s
  end.

Lemma prepare_framed now to t (s : TSW) : framed t s -> framed t (prepare now to s).
Proof. intros Hs. destruct to; try done. by apply sealAllLocked_framed. Qed.

Lemma change_locked_run now to (s : TSW) el :
  election_at (smap s) (rt_id (sw_rt s)) = Some el ->
  change_locked now to s =
    if bool_decide (to ∈ statusChanges (el_Status el)) then
      in_store (UpdateElection now (rt_id (sw_rt s)) (move_status (el_Status el) to)) (prepare now to s)
    else (Err [ErrInvalidTransition], s).
Proof.
  intros Hel. unfold change_locked. unfold mbind at 1, stE_bind at 1. cbn [rt_get gets].
  unfold mbind at 1, stE_bind at 1, attempt, in_store at 1, zoom.
  destruct (Election_run (rt_id (sw_rt s)) (env_store (sw_env s))) as [e0 ->].
  unfold smap in Hel. rewrite Hel. assert (MkSW (set_store (env_store (sw_env s)) (sw_env s)) (sw_rt s) = s)
    as -> by by destruct s as [[] ?].
  destruct (decide (to ∈ statusChanges (el_Status el))) as [Hin|Hin].
  - rewrite (bool_decide_true (_ ∈ _)), bool_decide_false by naive_solver. by destruct to.
  - by rewrite (bool_decide_false (_ ∈ _)), bool_decide_true.
Qed.

(** The status stored, or not. *)
Lemma change_stored now to (s : TSW) el :
  let id := rt_id (sw_rt s) in
  election_at (smap s) id = Some el -> to ∈ statusChanges (el_Status el) ->
  let '(r, s') := change_locked now to s in
  exists t, s' = MkSW (set_store t (sw_env (prepare now to s))) (sw_rt (prepare now to s)) /\
    proc_same (env_store (sw_env s)) t /\
    let t1 := env_store (sw_env (prepare now to s)) in
    (next_fault (td_faults (s_db t1)) = false -> r = Ok tt) /\
    match r with
    | Ok _ => (forall id', status (tmap t) id' = if decide (id' = id) then Some to else status (smap s) id') /\
        forall k, k <> KElection id -> tmap t !! k = tmap t1 !! k
    | Err _ => tmap t = tmap t1
    end.
Proof.
  intros id Hel Hin. rewrite (change_locked_run now to s el Hel), bool_decide_true by done.
  unfold in_store, zoom. set (s1 := prepare now to s).
  assert (framed (env_store (sw_env s)) s1) as Hfr by by apply prepare_framed.
  assert (election_at (tmap (env_store (sw_env s1))) id = Some el) as Hel1.
  { unfold election_at. rewrite (fr_other _ _ Hfr) by done. exact Hel. }
  pose proof (UpdateElection_status now id (move_status (el_Status el) to) (env_store (sw_env s1))) as Hst.
  destruct (UpdateElection_run now id (move_status (el_Status el) to) (env_store (sw_env s1)))
    as [e0 Er]. fold id. rewrite Hel1 in Er. unfold move_status in Er at 2.
  rewrite decide_True in Er by done.
  pose proof (commit_proc [WPut (KElection id) (AElection (el_set_updated now (el_set_status to el)))]
    (env_store (sw_env s1))) as Hp. rewrite <- Er in Hp.
  destruct (commit_run [WPut (KElection id) (AElection (el_set_updated now (el_set_status to el)))]
    (env_store (sw_env s1))) as (t' & Ec & Hm & _). rewrite Ec in Er.
  rewrite Er in Hst, Hp |- *. exists t'. split; [done|]. split; [etrans; [apply Hfr|done]|].
  destruct (next_fault _); [done|]. split; [done|]. split.
  - destruct Hst as (el1 & el2 & E1 & E2 & Hst). intros id'. rewrite Hst.
    rewrite Hel1 in E1. injection E1 as <-. unfold move_status in E2. rewrite decide_True in E2 by done.
    injection E2 as <-. case_decide; [done|]. by apply frame_status.
  - intros k Hk. rewrite Hm. simpl. by rewrite lookup_insert_ne by congruence.
Qed.
End change.

Section requests.
Context `{SchedulerLaws}.
Abbreviation W := (World TypedDB).
Abbreviation TSW := (SW TypedDB).

Lemma on_store_read {A} (m : stE TStorage A) (w : W) r :
  m (w_store w) = (r, w_store w) -> on_store m w = (r, w).
Proof. unfold on_store, zoom. intros ->. by destruct w as [[]]. Qed.

Lemma SetStatus_loaded now subject id to (w : W) el l rt :
  election_at (wmap w) id = Some el -> loaded w id l rt ->
  SetStatus now subject id to w = changeStatus now id l subject "admin" to w.
Proof.
  intros Hel (Hl & _). unfold SetStatus. unfold mbind at 1, stE_bind at 1, attempt.
  destruct (Election_run id (w_store w)) as [e0 E]. unfold wmap in Hel. rewrite Hel in E.
  rewrite (on_store_read _ _ _ E). unfold mbind, stE_bind, runtime, gets. by rewrite Hl.
Qed.

(** The tail of a change: nothing in it fails or touches a status. *)
Lemma after_change_ok now id subject role to (w : W) :
  let m := _ ← (if decide (to = StatusCanceled) then after_cancel id else mret tt);
           w_audit now subject role (statusActions to) id : stE W unit in
  exists w', m w = (Ok tt, w') /\ same_status (wmap w) (wmap w').
Proof.
  cbv zeta.
  assert (exists w1, (if decide (to = StatusCanceled) then after_cancel id else mret tt : stE W unit) w
    = (Ok tt, w1)) as [w1 E1].
  { case_decide; [|by eexists]. unfold after_cancel, mbind, stE_bind, modify, has_scheduler, gets.
    set (w0 := w_set_runtimes _ w). assert (exists w2, setVotesStatus id VoteStatusError w0 = (Ok tt, w2)) as [w2 ->].
    { unfold setVotesStatus, mbind, stE_bind, attempt.
      destruct (on_store (ListVotes id) w0) as [[l|e] w2]; [|by eexists]. clear.
      revert w2. induction l as [|v l IH]; intros w2; [by eexists|]. cbn [for_each].
      unfold mbind, stE_bind. apply IH. }
    unfold deleteProofs. destruct (on_store (ignore (DeleteProofs id)) w2) as [r w3] eqn:E3.
    assert (r = Ok tt) as -> by by (unfold on_store, zoom, ignore in E3; injection E3).
    destruct (env_dispatchers (w_env w3)); [|by eexists].
    destruct (Forget_run id w3) as (w4 & -> & _). by eexists. }
  unfold mbind, stE_bind. rewrite E1. eexists. split; [reflexivity|].
  assert (steady w w1) as [Hs _].
  { change w1 with (Ok tt, w1).2. rewrite <- E1. case_decide; [apply keeps_after_cancel|done]. }
  etrans; [exact Hs|]. apply (keeps_audit now subject role (statusActions to) id w1).
Qed.

(** The world once the runtime's part of a change is done. *)
Lemma with_rt_run {A} l (m : stE TSW A) (w : W) rt :
  w_heap w !! l = Some rt ->
  let '(r, s) := m (MkSW (w_env w) rt) in
  with_rt l m w = (r, w_set_heap (<[l := sw_rt s]> (w_heap w)) (w_set_env (sw_env s) w)).
Proof. intros Hl. unfold with_rt. rewrite Hl. by destruct (m _). Qed.
End requests.

Section requests_refused.
Context `{SchedulerLaws}.
Abbreviation W := (World TypedDB).

Lemma closed_no_changes st : closed st = true <-> statusChanges st = [].
Proof. by destruct st. Qed.

Lemma SetStatus_unknown now subject id to (w : W) :
  election_at (wmap w) id = None -> SetStatus now subject id to w = (Err [ErrElectionNotFound], w).
Proof.
  intros Hel. unfold SetStatus. unfold mbind at 1, stE_bind at 1, attempt.
  destruct (Election_run id (w_store w)) as [e0 E]. unfold wmap in Hel. rewrite Hel in E.
  by rewrite (on_store_read _ _ _ E).
Qed.

Lemma SetStatus_unloaded now subject id to (w : W) el :
  election_at (wmap w) id = Some el -> w_runtimes w !! id = None ->
  SetStatus now subject id to w = (Err (if closed (el_Status el) then [ErrInvalidTransition] else errorf), w).
Proof.
  intros Hel Hl. unfold SetStatus. unfold mbind at 1, stE_bind at 1, attempt.
  destruct (Election_run id (w_store w)) as [e0 E]. unfold wmap in Hel. rewrite Hel in E.
  rewrite (on_store_read _ _ _ E). unfold mbind, stE_bind, runtime, gets. rewrite Hl.
  by destruct (el_Status el).
Qed.

(** A change of a loaded election. *)
Lemma SetStatus_loaded_changes now subject id to (w : W) el l rt :
  election_at (wmap w) id = Some el -> loaded w id l rt ->
  let '(r, w') := SetStatus now subject id to w in
  (forall id', id' <> id -> status (wmap w') id' = status (wmap w) id') /\
  if decide (to ∈ statusChanges (el_Status el)) then
    (td_faults (s_db (w_store w)) = [] -> r = Ok tt) /\
    status (wmap w') id = Some (if r is Ok _ then to else el_Status el)
  else r = Err [ErrInvalidTransition] /\ w' = w.
Proof.
  intros Hel Hld. rewrite (SetStatus_loaded now subject id to w el l rt Hel Hld).
  destruct Hld as (Hl & Hrt & <-). unfold changeStatus. unfold mbind at 1, stE_bind at 1.
  pose proof (with_rt_run l (change_locked now to) w rt Hrt) as Hw.
  set (s := MkSW (w_env w) rt) in *.
  destruct (decide (to ∈ statusChanges (el_Status el))) as [Hin|Hin].
  - pose proof (change_stored now to s el Hel Hin) as Hc.
    destruct (change_locked now to s) as [r s']. rewrite Hw.
    destruct Hc as (t & -> & Hp & Hok & Hres). set (w1 := w_set_heap _ _).
    assert (wmap w1 = tmap t) as Em by done.
    assert (same_status (wmap w) (smap (prepare now to s))) as Hpre.
    { apply frame_status. by apply (prepare_framed now to (w_store w)). }
    assert (td_faults (s_db (w_store w)) = [] -> r = Ok tt) as Hfaults.
    { intros Hf. apply Hok. unfold next_fault.
      by rewrite (ps_faults _ _ (fr_proc _ _ (prepare_framed now to (w_store w) s (frame_refl _))) Hf). }
    destruct r as [[]|e]; cbn [is_ok].
    + destruct (after_change_ok now (rt_id rt) subject "admin" to w1) as (w' & -> & Hs).
      destruct Hres as [Hres _]. split.
      * intros id' Hne. by rewrite Hs, Em, Hres, decide_False.
      * split; [done|]. by rewrite Hs, Em, Hres, decide_True.
    + split; [intros id' _; rewrite Em, Hres; apply Hpre|]. split; [done|].
      rewrite Em, Hres. etrans; [apply Hpre|]. unfold status. by rewrite Hel.
  - pose proof (change_locked_run now to s el Hel) as Hc.
    rewrite bool_decide_false in Hc by done. rewrite Hc in Hw. rewrite Hw. cbn [sw_env sw_rt s].
    assert (w_set_heap (<[l := rt]> (w_heap w)) (w_set_env (w_env w) w) = w) as ->.
    { rewrite insert_id by done. by destruct w. }
    by split.
Qed.
End requests_refused.

(** C21: an organizer's request to change the status of an election, on every
    branch.  Of an unknown election it is refused with [ErrElectionNotFound];
    of an election that is not loaded with [ErrInvalidTransition] if it is
    closed, and with an error that says it is not loaded if it is open; a change
    of a loaded election that the table does not allow is refused with
    [ErrInvalidTransition].  A refused request changes nothing at all.  An
    allowed one is made if the store takes its writes; when the status write
    fails it fails, and the status is as it was.  In every case the status of
    every other election stays. *)
Theorem SetStatus_changes `{SchedulerLaws} now subject id to (w : World TypedDB) :
  (forall l, w_runtimes w !! id = Some l -> exists rt, loaded w id l rt) ->
  let '(r, w') := SetStatus now subject id to w in
  (forall id', id' <> id -> status (wmap w') id' = status (wmap w) id') /\
  match election_at (wmap w) id, w_runtimes w !! id with
  | None, _ => r = Err [ErrElectionNotFound] /\ w' = w
  | Some el, None =>
      r = Err (if closed (el_Status el) then [ErrInvalidTransition] else errorf) /\ w' = w
  | Some el, Some _ =>
      if decide (to ∈ statusChanges (el_Status el)) then
        (td_faults (s_db (w_store w)) = [] -> r = Ok tt) /\
        status (wmap w') id = Some (if r is Ok _ then to else el_Status el)
      else r = Err [ErrInvalidTransition] /\ w' = w
  end.
Proof.
  intros Hld. destruct (election_at (wmap w) id) as [el|] eqn:Hel; [|by rewrite SetStatus_unknown].
  destruct (w_runtimes w !! id) as [l|] eqn:Hl; [|by erewrite SetStatus_unloaded].
  destruct (Hld l eq_refl) as [rt Hrt]. by apply (SetStatus_loaded_changes now subject id to w el l rt).
Qed.

(** ** Canceling *)

Section cancel.
Context `{SchedulerLaws}.
Abbreviation W := (World TypedDB).

Lemma DeleteProofs_run id (t : TStorage) :
  well_kinded (tmap t) -> td_readable (s_db t) = true -> td_faults (s_db t) = [] ->
  forall k, tmap (DeleteProofs id t).2 !! k =
    if decide (in_scan (ScanProofs id) k) then None else tmap t !! k.
Proof.
  intros Hwk Hr Hf k. unfold DeleteProofs, mbind, stE_bind. rewrite iterate_run, Hr.
  destruct (tmap_commit ((fun p => WDelUnder (ScanProofs id) p.1) <$> td_scan (ScanProofs id) (tmap t)) t)
    as [_ ->]; [by rewrite Hf|].
  pose proof (del_scanned_lookup (ScanProofs id) (fun _ => True) (tmap t) k Hwk) as Hl.
  rewrite list_filter_id in Hl by (by apply Forall_true). etrans; [exact Hl|].
  repeat case_decide; naive_solver.
Qed.

(** What a cancel leaves: no runtime, no vote that can still move, no proof. *)
Lemma after_cancel_run id (w : W) :
  well_kinded (wmap w) -> td_readable (s_db (w_store w)) = true -> td_faults (s_db (w_store w)) = [] ->
  (forall u x, vote_at (wmap w) id u = Some x -> v_ID x = u) ->
  exists w', after_cancel id w = (Ok tt, w') /\
    w_runtimes w' = delete id (w_runtimes w) /\
    (forall u, is_Some (vote_at (wmap w) id u) -> exists st, status_at (wmap w') id u = Some st /\ Final st = true) /\
    (forall k, in_scan (ScanProofs id) k -> wmap w' !! k = None) /\
    (forall k, ~ in_scan (ScanProofs id) k -> (forall u, k <> KVoteStatus id u) -> wmap w' !! k = wmap w !! k).
Proof.
  intros Hwk Hr Hf Hids. set (w0 := w_set_runtimes (delete id (w_runtimes w)) w).
  destruct (setVotesStatus_run id VoteStatusError w0) as (ids & w1 & E1 & He1 & (Hst & Hfr & Hk & Hw) & Hin);
    [done..|]. specialize (Hw Hwk). pose proof (fr_proc _ _ Hfr) as Hp.
  set (w2 := (on_store (ignore (DeleteProofs id)) w1).2).
  assert (forall k, wmap w2 !! k = if decide (in_scan (ScanProofs id) k) then None else wmap w1 !! k) as Hdel.
  { intros k. unfold w2, wmap. rewrite on_store_ignore, on_store_store.
    apply DeleteProofs_run; [done|by rewrite (ps_readable _ _ Hp)|by apply (ps_faults _ _ Hp)]. }
  assert (exists w3, after_cancel id w = (Ok tt, w3) /\ w_store w3 = w_store w2 /\
    w_runtimes w3 = w_runtimes w2) as (w3 & E3 & Es3 & Er3).
  { unfold after_cancel, mbind, stE_bind, modify. fold w0. rewrite E1.
    change (deleteProofs id w1) with (Ok tt, w2). unfold has_scheduler, gets. cbn iota beta.
    destruct (env_dispatchers (w_env w2)); [|by exists w2].
    destruct (Forget_run id w2) as (w3 & E3 & Es & _ & Er & _). exists w3. by rewrite E3. }
  exists w3. split; [done|]. assert (wmap w3 = wmap w2) as -> by (unfold wmap; by rewrite Es3).
  rewrite Er3. split; [|split; [|split]].
  - unfold w2. rewrite (se_runtimes _ _ (on_store_engine (ignore (DeleteProofs id)) w1)).
    by rewrite (se_runtimes _ _ He1).
  - intros u [x Hx]. assert (u ∈ ids) as Hu by (apply Hin; exists u, x; by auto).
    unfold status_at. rewrite Hdel, decide_False by by intros [].
    change (exists st, status_at (wmap w1) id u = Some st /\ Final st = true).
    unfold wmap. rewrite Hst, bool_decide_true by done. change (tmap (w_store w0)) with (wmap w).
    unfold may_move. destruct (status_at (wmap w) id u) as [cur|]; [|by eexists].
    destruct (CanMoveTo cur VoteStatusError) eqn:Em; [by eexists|]. exists cur. by destruct cur.
  - intros k Hs. by rewrite Hdel, decide_True.
  - intros k Hs Hne. rewrite Hdel, decide_False by done. by apply Hk.
Qed.
End cancel.

(** *** Whatever fails *)

(** The rest of the store, and the runtimes, are as they were. *)
Definition cancel_frame `{Chain} (id : ElectionID) (w w' : World TypedDB) : Prop :=
  w_runtimes w' = w_runtimes w /\
  forall k, ~ in_scan (ScanProofs id) k -> ~ in_scan ScanAudit k -> (forall u, k <> KVoteStatus id u) ->
    wmap w' !! k = wmap w !! k.

#[export] Instance cancel_frame_pre `{Chain} id : PreOrder (cancel_frame id).
Proof.
  split; [by intros w|]. intros w1 w2 w3 [R1 K1] [R2 K2]. split; [congruence|]. intros k ???. by rewrite K2, K1.
Qed.

Section cancel_failing.
Context `{SchedulerLaws} (id : ElectionID).
Abbreviation W := (World TypedDB).

Lemma cancel_frame_call {A} (c : call A) :
  (match c with
   | CListVotes _ => True | CSetVoteStatus id' _ _ => id' = id | CDeleteProofs id' => id' = id | _ => False end) ->
  via (cancel_frame id) (on_store (run_call c) : stE W A).
Proof.
  intros Hc w. split; [apply (se_runtimes _ _ (on_store_engine (run_call c) w))|]. intros k H1' H2' H3'.
  unfold wmap. rewrite on_store_store. apply (call_preserves (fun m => m !! k = tmap (w_store w) !! k)); [|done].
  intros ws Hw Hk. destruct c; try done; cbn [call_writes] in Hw; subst.
  - destruct Hw as [_ ->]. cbn. rewrite lookup_insert_ne; [done|]. intros E. by eapply H3'.
  - by rewrite td_writes_untouched by (by apply scanned_untouched).
Qed.

Lemma cancel_frame_after (w : W) : cancel_frame id (w_set_runtimes (delete id (w_runtimes w)) w) (after_cancel id w).2.
Proof.
  unfold after_cancel. unfold mbind at 1, stE_bind at 1, modify. set (w0 := w_set_runtimes _ w). clearbody w0.
  clear w. revert w0. change (via (cancel_frame id) (_ ← setVotesStatus id VoteStatusError; _ ← deleteProofs id;
    has ← has_scheduler; if has : bool then Forget id else mret tt : stE W unit)).
  apply via_bind; [apply _| |intros _; apply via_bind; [apply _| |intros _]].
  - unfold setVotesStatus. apply via_bind; [apply _|apply via_attempt, (cancel_frame_call (CListVotes id)); done|].
    intros [l|e]; [|apply via_ret, _]. apply via_for_each; [apply _|]. intros v w'.
    rewrite on_store_ignore. by apply (cancel_frame_call (CSetVoteStatus id (v_ID v) VoteStatusError)).
  - intros w. unfold deleteProofs. rewrite on_store_ignore. by apply (cancel_frame_call (CDeleteProofs id)).
  - apply via_bind; [apply _|apply via_gets, _|intros []; [|apply via_ret, _]]. intros w.
    destruct (Forget_run id w) as (w' & -> & Es & _ & Er & _). split; [done|]. intros k _ _ _. cbn [snd]. unfold wmap. by rewrite Es.
Qed.
End cancel_failing.

Lemma open_may_cancel st : closed st = false -> StatusCanceled ∈ statusChanges st.
Proof. destruct st; simpl; set_solver. Qed.

(** A cancel while the store does not fail. *)
Lemma cancel_faultless `{SchedulerLaws} now subject id (w : World TypedDB) el l rt :
  election_at (wmap w) id = Some el -> loaded w id l rt -> closed (el_Status el) = false ->
  well_kinded (wmap w) -> td_readable (s_db (w_store w)) = true -> td_faults (s_db (w_store w)) = [] ->
  (forall u x, vote_at (wmap w) id u = Some x -> v_ID x = u) ->
  exists w', SetStatus now subject id StatusCanceled w = (Ok tt, w') /\
    status (wmap w') id = Some StatusCanceled /\ w_runtimes w' = delete id (w_runtimes w) /\
    (forall u, is_Some (vote_at (wmap w) id u) ->
       exists st, status_at (wmap w') id u = Some st /\ Final st = true) /\
    (forall k, in_scan (ScanProofs id) k -> wmap w' !! k = None) /\
    (forall k, ~ in_scan (ScanProofs id) k -> ~ in_scan ScanAudit k -> k <> KElection id ->
       (forall u, k <> KVoteStatus id u) -> wmap w' !! k = wmap w !! k).
Proof.
  intros Hel Hld Hopen Hwk Hr Hf Hids. pose proof (open_may_cancel _ Hopen) as Hin.
  rewrite (SetStatus_loaded now subject id StatusCanceled w el l rt Hel Hld).
  destruct Hld as (Hl & Hrt & Eid). unfold changeStatus. unfold mbind at 1, stE_bind at 1.
  pose proof (with_rt_run l (change_locked now StatusCanceled) w rt Hrt) as Hw.
  set (s := MkSW (w_env w) rt) in *. rewrite <- Eid in Hel.
  pose proof (change_stored now StatusCanceled s el Hel Hin) as Hc.
  destruct (change_locked now StatusCanceled s) as [r s'] eqn:Ech. rewrite Hw.
  destruct Hc as (t & -> & Hp & Hok & Hres).
  assert (next_fault (td_faults (s_db (w_store w))) = false) as Hnf by by rewrite Hf.
  specialize (Hok Hnf). subst r.
  destruct Hres as [Hst Hk]. set (w1 := w_set_heap _ _).
  change (rt_id (sw_rt s)) with (rt_id rt) in *. rewrite Eid in Hst, Hk.
  assert (forall k, k <> KElection id -> wmap w1 !! k = wmap w !! k) as Hk1 by exact Hk.
  assert (well_kinded (wmap w1)) as Hwk1.
  { intros k a Ha. destruct (decide (k = KElection id)) as [->|Hne].
    - specialize (Hst id). rewrite decide_True in Hst by done. unfold status, election_at in Hst.
      change (tmap t) with (wmap w1) in Hst. rewrite Ha in Hst. by destruct a.
    - rewrite Hk1 in Ha by done. by apply Hwk. }
  destruct (after_cancel_run id w1) as (w2 & E2 & Er2 & Hv2 & Hp2 & Hk2);
    [done|by rewrite <- Hr; apply Hp|by apply (ps_faults _ _ Hp)
    |intros u x; unfold vote_at; rewrite Hk1 by done; apply Hids|].
  rewrite decide_True by done. unfold mbind, stE_bind. rewrite E2.
  pose proof (AppendAudit_state now (audit_record now subject "admin" (statusActions StatusCanceled) id)
    (w_store w2)) as [Ha _].
  eexists. split; [reflexivity|]. set (w3 := w_set_env _ w2).
  assert (forall k, ~ in_scan ScanAudit k -> wmap w3 !! k = wmap w2 !! k) as Hk3 by exact Ha.
  split; [|split; [exact Er2|split; [|split]]].
  - unfold status, election_at. rewrite Hk3 by (by intros []). rewrite Hk2 by (done || by intros []).
    specialize (Hst id). rewrite decide_True in Hst by done. exact Hst.
  - intros u Hu. unfold status_at. rewrite Hk3 by (by intros []). apply Hv2.
    unfold vote_at. by rewrite Hk1.
  - intros k Hs. rewrite Hk3; [by apply Hp2|]. intros Hs'. by destruct k.
  - intros k H1' H2' H3' H4'. by rewrite Hk3, Hk2, Hk1.
Qed.

(** What a cancel does whether or not writes fail. *)
Lemma cancel_changes `{SchedulerLaws} now subject id (w : World TypedDB) el l rt :
  election_at (wmap w) id = Some el -> loaded w id l rt -> closed (el_Status el) = false ->
  let '(r, w') := SetStatus now subject id StatusCanceled w in
  (forall k, ~ in_scan (ScanProofs id) k -> ~ in_scan ScanAudit k -> k <> KElection id ->
     (forall u, k <> KVoteStatus id u) -> wmap w' !! k = wmap w !! k) /\
  (r = Ok tt -> status (wmap w') id = Some StatusCanceled /\ w_runtimes w' = delete id (w_runtimes w)).
Proof.
  intros Hel Hld Hopen. pose proof (open_may_cancel _ Hopen) as Hin.
  pose proof (SetStatus_loaded_changes now subject id StatusCanceled w el l rt Hel Hld) as Hst.
  destruct (SetStatus now subject id StatusCanceled w) as [r0 w0] eqn:E0.
  rewrite decide_True in Hst by done. destruct Hst as (_ & _ & Hst).
  rewrite (SetStatus_loaded now subject id StatusCanceled w el l rt Hel Hld) in E0.
  destruct Hld as (Hl & Hrt & Eid). unfold changeStatus, mbind at 1, stE_bind at 1 in E0.
  pose proof (with_rt_run l (change_locked now StatusCanceled) w rt Hrt) as Hw.
  set (s := MkSW (w_env w) rt) in *. rewrite <- Eid in Hel.
  pose proof (change_stored now StatusCanceled s el Hel Hin) as Hc.
  destruct (change_locked now StatusCanceled s) as [r s']. rewrite Hw in E0.
  destruct Hc as (t & -> & _ & _ & Hres). set (w1 := w_set_heap _ _) in *.
  change (rt_id (sw_rt s)) with (rt_id rt) in *. rewrite Eid in Hres.
  assert (forall k, k <> KElection id -> wmap w1 !! k = wmap w !! k) as Hk1.
  { intros k Hk. destruct r as [[]|e]; [by apply Hres|]. unfold wmap at 1. change (w_store w1) with t. by rewrite Hres. }
  destruct r as [[]|e]; [|injection E0 as <- <-; split; [by intros; apply Hk1|done]].
  pose proof (cancel_frame_after id w1) as [Hrun Hframe]. rewrite decide_True in E0 by done.
  unfold mbind, stE_bind in E0. destruct (after_cancel id w1) as [[[]|e] w2]; cbn [snd] in *;
    [|injection E0 as <- <-; split; [intros; rewrite Hframe by done; by apply Hk1|done]].
  pose proof (AppendAudit_state now (audit_record now subject "admin" (statusActions StatusCanceled) id)
    (w_store w2)) as [Ha _].
  unfold w_audit, modify in E0. injection E0 as <- <-. set (w3 := w_set_env _ w2) in *.
  assert (forall k, ~ in_scan ScanAudit k -> wmap w3 !! k = wmap w2 !! k) as Hk3 by exact Ha.
  split; [intros; rewrite Hk3, Hframe by done; by apply Hk1|]. intros _. split; [exact Hst|exact Hrun].
Qed.

(** C22: canceling an open election.  Whatever writes fail, nothing is touched
    but the election's record, the statuses of its votes, the proofs kept for
    its fold chain and the audit log; and a cancel that succeeds leaves the
    status canceled and no runtime.  When the store answers its reads and takes
    its writes, the cancel succeeds, each of the election's votes is then
    settled or in error, for good, and the proofs are gone.  (A vote status or
    a proof whose write fails is only left behind: the code ignores that
    failure.) *)
Theorem SetStatus_cancels `{SchedulerLaws} now subject id (w : World TypedDB) el l rt :
  election_at (wmap w) id = Some el -> loaded w id l rt -> closed (el_Status el) = false ->
  well_kinded (wmap w) -> (forall u x, vote_at (wmap w) id u = Some x -> v_ID x = u) ->
  let '(r, w') := SetStatus now subject id StatusCanceled w in
  (forall k, ~ in_scan (ScanProofs id) k -> ~ in_scan ScanAudit k -> k <> KElection id ->
     (forall u, k <> KVoteStatus id u) -> wmap w' !! k = wmap w !! k) /\
  (r = Ok tt -> status (wmap w') id = Some StatusCanceled /\ w_runtimes w' = delete id (w_runtimes w)) /\
  (td_readable (s_db (w_store w)) = true -> td_faults (s_db (w_store w)) = [] ->
     r = Ok tt /\
     (forall u, is_Some (vote_at (wmap w) id u) ->
        exists st, status_at (wmap w') id u = Some st /\ Final st = true) /\
     (forall k, in_scan (ScanProofs id) k -> wmap w' !! k = None)).
Proof.
  intros Hel Hld Hopen Hwk Hids. pose proof (cancel_changes now subject id w el l rt Hel Hld Hopen) as Hc.
  destruct (SetStatus now subject id StatusCanceled w) as [r w'] eqn:E. destruct Hc as [Hf Hs].
  split; [done|]. split; [done|]. intros Hr Hnf.
  destruct (cancel_faultless now subject id w el l rt) as (w'' & E' & _ & _ & Hv & Hp & _); [done..|].
  rewrite E in E'. by injection E' as -> ->.
Qed.

(** C40: a cancel whose status cannot be stored leaves the election open but
    empties its buffer of accepted votes, which stay pending in the store: no
    batch takes them until the engine restarts. *)
Theorem cancel_failure_drops_the_buffer `{SchedulerLaws} now subject id (w : World TypedDB) el l rt :
  election_at (wmap w) id = Some el -> loaded w id l rt -> closed (el_Status el) = false ->
  next_fault (td_faults (s_db (w_store w))) = true ->
  exists e w', SetStatus now subject id StatusCanceled w = (Err e, w') /\
    wmap w' = wmap w /\ loaded w' id l (set_pending [] rt).
Proof.
  intros Hel Hld Hopen Hf. pose proof (open_may_cancel _ Hopen) as Hin.
  rewrite (SetStatus_loaded now subject id StatusCanceled w el l rt Hel Hld).
  destruct Hld as (Hl & Hrt & <-). unfold changeStatus. unfold mbind at 1, stE_bind at 1.
  pose proof (with_rt_run l (change_locked now StatusCanceled) w rt Hrt) as Hw.
  set (s := MkSW (w_env w) rt) in *.
  pose proof (change_locked_run now StatusCanceled s el Hel) as Hc.
  rewrite bool_decide_true in Hc by done. rewrite Hc in Hw. clear Hc.
  unfold in_store, zoom in Hw. cbn [prepare sw_env sw_rt s env_store rt_id set_pending] in Hw.
  destruct (UpdateElection_run now (rt_id rt) (move_status (el_Status el) StatusCanceled) (w_store w))
    as [e0 Eu]. change (env_store (w_env w)) with (w_store w) in Hw. rewrite Eu in Hw.
  unfold wmap in Hel. rewrite Hel in Hw. unfold move_status in Hw at 1. rewrite decide_True in Hw by done.
  destruct (commit_run [WPut (KElection (rt_id rt)) (AElection (el_set_updated now (el_set_status StatusCanceled el)))]
    (w_store w)) as (t & Ec & Hm & _). rewrite Ec, Hf in Hw. rewrite Hf in Hm. rewrite Hw.
  exists errorf. eexists. split; [reflexivity|]. split; [exact Hm|].
  split; [done|]. split; [apply lookup_insert_eq|done].
Qed.
