(* ===== verification/Recovery.v ===== *)
(** * Recovery after a restart

    What the engine rebuilds from the store is the runtime it had: the state
    of the last snapshot, the next batch number and the buffer of votes. *)

From S2P Require Import Prelude Errors Effects Bytes Types Records KV Keys Artifacts Storage.
From S2P Require Import StorageRefine StorageSpec StorageProps Retries Workers Sdk Config Seal.
From S2P Require Import SealProps SealInv Engine.
From stdpp Require Import sorting.

(** ** The votes in a status *)

Definition ids_with (st : VoteStatus) (l : list (bytes * option Artifact)) : list VoteID :=
  omap (fun p => match p.2 with
                 | Some (AVoteStatus s) => if decide (s = st) then Some p.1 else None
                 | _ => None
                 end) l.

Lemma scan_status_keys (m : store) id k :
  k ∈ td_scan_keys (ScanVoteStatuses id) m -> exists v, k = KVoteStatus id v.
Proof. intros [Hin _]%elem_of_td_scan_keys. destruct k; simpl in Hin; try done. subst. eauto. Qed.

Lemma elem_of_ids_with (m : store) id st u :
  u ∈ ids_with st (td_scan (ScanVoteStatuses id) m) <-> status_at m id u = Some st.
Proof.
  unfold ids_with. rewrite list_elem_of_omap. unfold td_scan, status_at. split.
  - intros (p & Hp & E). apply list_elem_of_fmap in Hp as (k & -> & Hk).
    destruct (scan_status_keys _ _ _ Hk) as [v ->]. simpl in E.
    destruct (m !! KVoteStatus id v) as [[]|] eqn:Em; try done.
    case_decide; simplify_eq. rewrite vote_status_suffix. by rewrite Em.
  - intros E. destruct (m !! KVoteStatus id u) as [[]|] eqn:Em; simplify_eq.
    exists (scan_suffix (ScanVoteStatuses id) (KVoteStatus id u), m !! KVoteStatus id u).
    split.
    + apply list_elem_of_fmap. eexists. split; [done|]. apply elem_of_td_scan_keys.
      split; [done|]. by eexists.
    + simpl. rewrite Em, decide_True by done. by rewrite vote_status_suffix.
Qed.

Lemma ids_with_nodup (m : store) id st : NoDup (ids_with st (td_scan (ScanVoteStatuses id) m)).
Proof.
  unfold ids_with, td_scan. pose proof (td_scan_keys_nodup (ScanVoteStatuses id) m) as Hnd.
  assert (forall k, k ∈ td_scan_keys (ScanVoteStatuses id) m -> exists v, k = KVoteStatus id v) as Hk
    by (intros k; apply scan_status_keys).
  induction (td_scan_keys (ScanVoteStatuses id) m) as [|k l IH]; [constructor|]. csimpl.
  apply NoDup_cons in Hnd as [Hn Hnd]. specialize (IH Hnd ltac:(set_solver)).
  destruct (Hk k ltac:(set_solver)) as [v ->].
  destruct (m !! KVoteStatus id v) as [[]|]; try done. case_decide; [|done].
  constructor; [|done]. rewrite vote_status_suffix.
  intros (p & Hp & E)%list_elem_of_omap. apply list_elem_of_fmap in Hp as (k & -> & Hk').
  destruct (Hk k ltac:(set_solver)) as [v' ->]. simpl in E. apply Hn.
  destruct (m !! KVoteStatus id v') as [[]|]; try done. case_decide; simplify_eq.
  by rewrite vote_status_suffix.
Qed.

(** When each of these votes has its record, they are all returned. *)
Lemma votes_of_run id ids (s : TStorage) :
  (forall u, u ∈ ids -> is_Some (vote_at (tmap s) id u)) ->
  exists l, votes_of id ids s = (Ok l, s) /\
    Forall2 (fun u v => vote_at (tmap s) id u = Some v) ids l.
Proof.
  induction ids as [|u ids IH]; intros Hids; [exists []; by split|].
  destruct IH as (l & E & Hl); [set_solver|].
  destruct (Hids u) as [v Hv]; [set_solver|]. exists (v :: l).
  split; [|by constructor]. cbn [votes_of]. unfold mbind, stE_bind, rethrow, Vote_.
  rewrite load_run. unfold vote_at in Hv.
  destruct (tmap s !! KVote id u) as [[]|]; simplify_eq/=. by rewrite E.
Qed.

Section recovery.
Context `{ChainLaws}.
Abbreviation TSW := (SW TypedDB).

Lemma kept_Vote_ID v : v_ID (kept_Vote v) = v_ID v.
Proof. done. Qed.

Lemma kept_Vote_Seq v : v_Seq (kept_Vote v) = v_Seq v.
Proof. done. Qed.

(** The vote is in a stored batch. *)
Definition in_batch (m : store) (id : ElectionID) (u : VoteID) : Prop :=
  exists seq b, batch_at m id seq = Some b /\ u ∈ bi_VoteIDs b.

(** The buffer rebuilt from the store: exactly the stored votes that are
    pending and in no batch, once each and by sequence number; those the
    running buffer held are there in its order. *)
Record restored (m : store) (id : ElectionID) (pending l : list Vote) : Prop := {
  rs_exactly v : v ∈ l <-> vote_at m id (v_ID v) = Some v /\
    status_at m id (v_ID v) = Some VoteStatusPending /\ ~ in_batch m id (v_ID v);
  rs_nodup : NoDup (v_ID <$> l);
  rs_sorted : StronglySorted seq_le l;
  rs_buffered : filter (fun v => v_ID v ∈ v_ID <$> pending) l = kept_Vote <$> pending;
}.

Lemma pending_unsealed (m : store) id pending n u :
  votes_inv m id pending n -> status_at m id u = Some VoteStatusPending -> ~ in_batch m id u.
Proof.
  intros Hinv Hs (seq & b & Hb & Hu).
  destruct (vi_sealed _ _ _ _ Hinv _ _ _ Hb Hu) as (st & Hst & Hne). rewrite Hs in Hst. by injection Hst as <-.
Qed.

(** The buffered votes are found, with the sequence numbers they were given. *)
Lemma restored_buffered (m : store) id pending n l :
  votes_inv m id pending n ->
  (forall v, v ∈ l <-> vote_at m id (v_ID v) = Some v /\ status_at m id (v_ID v) = Some VoteStatusPending) ->
  NoDup (v_ID <$> l) -> StronglySorted seq_le l ->
  filter (fun v => v_ID v ∈ v_ID <$> pending) l = kept_Vote <$> pending.
Proof.
  intros Hinv Hl Hnd Hs. pose proof (vi_pending _ _ _ _ Hinv) as Hp. rewrite Forall_forall in Hp.
  assert (forall v, v ∈ filter (fun v => v_ID v ∈ v_ID <$> pending) l <-> v ∈ kept_Vote <$> pending) as Hin.
  { intros v. rewrite list_elem_of_filter, Hl, !list_elem_of_fmap. split.
    - intros [(p & E & Hp') [Hv _]]. exists p. split; [|done]. rewrite E, (proj1 (Hp p Hp')) in Hv. by injection Hv.
    - intros (p & -> & Hp'). split; [by exists p|]. exact (Hp p Hp'). }
  apply (sorted_by_unique N.le v_Seq).
  - intros x y Hx Hy E. apply Hin, list_elem_of_fmap in Hx as (p & -> & Hp').
    apply list_elem_of_fmap in Hy as (q & -> & Hq).
    f_equal. pose proof (vi_order _ _ _ _ Hinv) as Ho. clear -Ho Hp' Hq E.
    induction Ho as [|a pending Ho IH Ha]; [by apply not_elem_of_nil in Hp'|].
    rewrite Forall_forall in Ha. unfold before in Ha.
    apply elem_of_cons in Hp' as [->|Hp'], Hq as [->|Hq]; [done| | |by apply IH].
    + specialize (Ha q Hq). simpl in E. lia.
    + specialize (Ha p Hp'). simpl in E. lia.
  - apply StronglySorted_Sorted. clear -Hs. induction Hs as [|a l Hs IH Ha]; [constructor|].
    destruct (decide (v_ID a ∈ v_ID <$> pending)) as [Hd|Hd];
      [rewrite filter_cons_True by done|by rewrite filter_cons_False by done].
    constructor; [done|]. rewrite Forall_forall in Ha |- *. intros x [_ Hx]%list_elem_of_filter. by apply Ha.
  - apply StronglySorted_Sorted. pose proof (vi_order _ _ _ _ Hinv) as Ho.
    clear -Ho. induction Ho as [|a l Ho IH Ha]; [constructor|]. csimpl. constructor; [done|].
    apply Forall_fmap. eapply Forall_impl; [done|]. intros b Hb. unfold before in Hb. simpl. lia.
  - apply NoDup_Permutation; [|apply (NoDup_fmap_1 v_ID); rewrite <- list_fmap_compose; apply (vi_nodup _ _ _ _ Hinv)|done].
    apply NoDup_filter, (NoDup_fmap_1 v_ID), Hnd.
Qed.

(** The records read back for the pending votes. *)
Lemma pending_records (m : store) id l :
  pending_stored id m ->
  Forall2 (fun u v => vote_at m id u = Some v) (ids_with VoteStatusPending (td_scan (ScanVoteStatuses id) m)) l ->
  NoDup (v_ID <$> l) /\
  forall v, v ∈ l <-> vote_at m id (v_ID v) = Some v /\ status_at m id (v_ID v) = Some VoteStatusPending.
Proof.
  intros Hps Hl. pose proof (ids_with_nodup m id VoteStatusPending) as Hnd.
  assert (forall u, u ∈ ids_with VoteStatusPending (td_scan (ScanVoteStatuses id) m) <->
    status_at m id u = Some VoteStatusPending) as Hids by (intros u; apply elem_of_ids_with).
  set (ids := ids_with _ _) in *. clearbody ids.
  assert (v_ID <$> l = ids) as Eids.
  { assert (forall u, u ∈ ids -> status_at m id u = Some VoteStatusPending) as Hin by (intros u; apply Hids).
    clear Hids Hnd. induction Hl as [|u v ids l Hv Hl IH]; [done|]. csimpl. rewrite IH by set_solver. f_equal.
    destruct (Hps u (Hin u ltac:(set_solver))) as (v' & Hv' & <-). congruence. }
  split; [by rewrite Eids|]. intros v. split.
  - intros Hv. apply list_elem_of_lookup in Hv as [i Hi]. destruct (Forall2_lookup_r _ _ _ _ _ Hl Hi) as (u & Hu & Hvu).
    assert (v_ID v = u) as -> by (rewrite <- Eids in Hu; rewrite list_lookup_fmap, Hi in Hu; by injection Hu).
    split; [done|]. apply Hids. by eapply list_elem_of_lookup_2.
  - intros [Hv Hs%Hids]. apply list_elem_of_lookup in Hs as [i Hi].
    destruct (Forall2_lookup_l _ _ _ _ _ Hl Hi) as (v' & Hv' & Hvu). rewrite Hv in Hvu. injection Hvu as <-.
    by eapply list_elem_of_lookup_2.
Qed.

(** The buffer the engine rebuilds: the stored pending votes by sequence. *)
Lemma unsealedVotes_run id pending n batches (s : TStorage) :
  td_readable (s_db s) = true -> votes_inv (tmap s) id pending n -> pending_stored id (tmap s) ->
  (forall b, b ∈ batches -> exists seq, batch_at (tmap s) id seq = Some b) ->
  exists l, unsealedVotes id batches s = (Ok l, s) /\ restored (tmap s) id pending l.
Proof.
  intros Hr Hinv Hps Hbat. unfold unsealedVotes, VotesWithStatus, mbind, stE_bind.
  rewrite iterate_run, Hr.
  change (omap _ (td_scan (ScanVoteStatuses id) (tmap s)))
    with (ids_with VoteStatusPending (td_scan (ScanVoteStatuses id) (tmap s))).
  destruct (votes_of_run id (ids_with VoteStatusPending (td_scan (ScanVoteStatuses id) (tmap s))) s) as (l & El & Hl).
  { intros u (v & Hv & _)%elem_of_ids_with%Hps. by exists v. }
  rewrite El. destruct (pending_records (tmap s) id l Hps Hl) as [Hnd Hin].
  rewrite list_filter_id.
  2:{ apply Forall_forall. intros v [_ Hv]%Hin Hs. unfold sealed_set in Hs. rewrite elem_of_list_to_set in Hs.
      apply list_elem_of_bind in Hs as (b & Hu & Hb). destruct (Hbat b Hb) as [seq Hseq].
      by apply (pending_unsealed _ _ _ _ _ Hinv Hv); exists seq, b. }
  exists (merge_sort seq_le l). split; [done|].
  assert (forall v, v ∈ merge_sort seq_le l <-> vote_at (tmap s) id (v_ID v) = Some v /\
    status_at (tmap s) id (v_ID v) = Some VoteStatusPending) as Hin'
    by (intros v; by rewrite merge_sort_Permutation).
  assert (NoDup (v_ID <$> merge_sort seq_le l)) as Hnd' by by rewrite merge_sort_Permutation.
  assert (StronglySorted seq_le (merge_sort seq_le l)) as Hs.
  { assert (Total seq_le) by (intros a b; unfold seq_le; lia).
    assert (Transitive seq_le) by (intros a b c; unfold seq_le; lia).
    by apply StronglySorted_merge_sort. }
  split; [|done|done|by eapply restored_buffered].
  intros v. rewrite Hin'. split; [|naive_solver]. intros [Hv Hp]. split_and!; [done..|]. by eapply pending_unsealed.
Qed.

(** The batches below a sequence number, each once, are as many. *)
Lemma length_below (l : list N) n :
  StronglySorted N.lt l -> (forall x, x ∈ l <-> (x < n)%N) -> N.of_nat (length l) = n.
Proof.
  intros Hs Hl. assert (l ≡ₚ N.of_nat <$> seq 0 (N.to_nat n)) as HP.
  { apply NoDup_Permutation.
    - clear Hl. induction Hs as [|x l Hs IH Hx]; constructor; [|done].
      rewrite Forall_forall in Hx. intros Hin%Hx. lia.
    - apply (NoDup_fmap_2_strong N.of_nat); [intros x y _ _; apply Nat2N.inj|apply NoDup_seq].
    - intros x. rewrite Hl. rewrite list_elem_of_fmap. setoid_rewrite elem_of_seq. split.
      + intros Hx. exists (N.to_nat x). lia.
      + intros (y & -> & Hy). lia. }
  rewrite (Permutation_length HP), length_fmap, length_seq. lia.
Qed.

Lemma batches_count id pending n (s : TStorage) l :
  batches_keyed (tmap s) -> votes_inv (tmap s) id pending n ->
  StronglySorted N.lt (bi_Seq <$> l) ->
  (forall b, b ∈ l <-> batch_at (tmap s) id (bi_Seq b) = Some b) ->
  N.of_nat (length l) = n.
Proof.
  intros [_ Hk] Hinv Hs Hl. rewrite <- (length_fmap bi_Seq). apply length_below; [done|].
  intros x. rewrite <- (vi_batches _ _ _ _ Hinv), list_elem_of_fmap. split.
  - intros (b & -> & Hb%Hl). by eexists.
  - intros [b Hb]. exists b. destruct (Hk _ _ _ Hb) as [_ E]. split; [done|].
    apply Hl. by rewrite E.
Qed.

(** What a restart rebuilds of the runtime [rt], whose state applies what
    [st0] does. *)
Record rebuilt (m : store) (st0 : ChainState) (rt rt' : Runtime) : Prop := {
  rb_id : rt_id rt' = rt_id rt;
  rb_rules : rt_rules rt' = rt_rules rt;
  rb_state n vs : applies (rt_state rt') n vs = applies st0 n vs;
  rb_clean : rt_dirty rt' = false;
  rb_pending : restored m (rt_id rt) (rt_pending rt) (rt_pending rt');
  rb_batchSeq : rt_batchSeq rt' = rt_batchSeq rt;
  rb_batchSize : rt_batchSize rt' = rt_batchSize rt;
}.

Lemma runtimeFromStorage_run dflt el st0 (s : TSW) :
  rt_inv s -> sound st0 s ->
  let t := env_store (sw_env s) in let rt := sw_rt s in
  pending_stored (rt_id rt) (tmap t) -> batches_keyed (tmap t) ->
  td_readable (s_db t) = true ->
  el_ID el = rt_id rt -> newVoteRules (el_Config el) = Ok (rt_rules rt) ->
  (if (el_BatchSize el <=? 0)%Z then dflt else el_BatchSize el) = rt_batchSize rt ->
  exists rt', runtimeFromStorage dflt el t = (Ok rt', t) /\ rebuilt (tmap t) st0 rt rt'.
Proof.
  intros Hinv [(blob & Hblob & Hrest) _] t rt Hps Hk Hr Eid Erules Esize.
  destruct (ListBatchInputs_run (rt_id rt) t) as (l & El & Hs & Hl); [done..|].
  destruct (unsealedVotes_run (rt_id rt) (rt_pending rt) (rt_batchSeq rt) l t Hr
    (ri_votes _ Hinv) Hps ltac:(intros b Hb%Hl; eauto)) as (pending & Eu & Hrs).
  eexists. split.
  - unfold runtimeFromStorage. rewrite Eid, Erules.
    pose proof (Snapshot_run _ _ _ Hblob) as Esnap. fold t rt in Esnap, Hrest.
    unfold mbind, stE_bind. cbn [lift]. rewrite Esnap. unfold rt_cfg in Hrest. rewrite Hrest. cbn [of_option].
    rewrite El, Eu. reflexivity.
  - split; cbn; try done. by eapply batches_count; [done|apply Hinv|..].
Qed.
End recovery.

(** C17: an engine that restarts rebuilds, from a readable store, the runtime
    it had: the rules and the batch size of the election's record, the sealing
    state of the last snapshot, the next batch number, and as buffer exactly the
    stored votes that are pending and in no batch, once each and in submission
    order.  The votes of the running buffer are all there, in the same order.
    This takes a store in which every pending vote has its record, which every
    storage call the engine makes keeps ([pending_stored_preserved]). *)
Theorem runtimeFromStorage_restores `{ChainLaws} dflt el st0 (s : SW TypedDB) :
  rt_inv s -> sound st0 s ->
  let t := env_store (sw_env s) in let rt := sw_rt s in
  pending_stored (rt_id rt) (tmap t) -> batches_keyed (tmap t) ->
  td_readable (s_db t) = true ->
  el_ID el = rt_id rt -> newVoteRules (el_Config el) = Ok (rt_rules rt) ->
  (if (el_BatchSize el <=? 0)%Z then dflt else el_BatchSize el) = rt_batchSize rt ->
  exists rt', runtimeFromStorage dflt el t = (Ok rt', t) /\ rebuilt (tmap t) st0 rt rt'.
Proof. apply runtimeFromStorage_run. Qed.
