(* ===== verification/Ingest.v ===== *)
(** * Ingest (orchestrator/ingest.go)

    The submission of a vote, in the three parts that other goroutines can
    interleave with: the checks and the in-flight locks, the validation, which
    touches no state, and the acceptance under the runtime's mutex. *)

From S2P Require Import Prelude Errors Effects Bytes Types Records Keys Artifacts Storage Sdk.
From S2P Require Import Config Validate Seal Engine.

Section ingest.
Context {D : Type} `{ADB D} `{Chain}.
(** [Engine.validator] *)
Context (Validate : voteRules -> VoteSubmission -> result voteProofBundle).

(** [new(big.Int).SetBytes(sub.Address)] *)
Definition addr_of (sub : VoteSubmission) : N := bytes_to_N (sub_Address sub).

(** The election is active and loaded: its runtime. *)
Definition submit_open (id : ElectionID) : stE (World D) nat :=
  r ← attempt (on_store (Election_ id));
  match r with
  | Err _ => throw [ErrElectionNotFound]
  | Ok el =>
      _ ← throw_if (bool_decide (el_Status el <> StatusActive)) [ErrNotAcceptingVotes];
      rt ← runtime id;
      match rt with Some l => mret l | None => throw errorf end
  end.

(** The lock on the vote ID. *)
Definition submit_lock (sub : VoteSubmission) : stE (World D) unit :=
  ok ← on_store (LockVoteID (sub_VoteID sub));
  throw_if (negb ok) [ErrVoteAlreadySubmitted].

(** The duplicate check, with the vote ID locked. *)
Definition submit_check (id : ElectionID) (sub : VoteSubmission) : stE (World D) unit :=
  dup ← on_store (VoteExists id (sub_VoteID sub));
  throw_if dup [ErrVoteAlreadySubmitted].

(** The lock on the address. *)
Definition submit_address (id : ElectionID) (sub : VoteSubmission) : stE (World D) unit :=
  ok ← on_store (LockAddress id (addr_of sub));
  throw_if (negb ok) [ErrVoteAlreadySubmitted].

(** The validated vote. *)
Definition vote_of (now : time) (rules : voteRules) (sub : VoteSubmission) : result Vote :=
  bundle ← Validate rules sub;
  slot ← of_option (SlotKey (vb_Census bundle)) [ErrInvalidCensusProof];
  payload ← of_option (marshal_bundle bundle) errorf;
  Ok {| v_ID := sub_VoteID sub; v_Address := sub_Address sub; v_Slot := slot;
        v_VoteIDKey := sub_VoteIDKey sub; v_Ballot := sub_Ballot sub; v_Payload := payload;
        v_Seq := 0; v_SubmittedAt := now |}.

(** The validation: the runtime's rules never change. *)
Definition submit_validate (now : time) (l : nat) (sub : VoteSubmission) : stE (World D) Vote :=
  w ← get_st;
  match w_heap w !! l with
  | None => throw [Panic]
  | Some rt => lift (vote_of now (rt_rules rt) sub)
  end.

(** The acceptance, under the runtime's mutex: the status again, the vote
    stored and buffered, and the full batches sealed (a failure is logged). *)
Definition accept_vote (now : time) (id : ElectionID) (v : Vote) : stE (SW D) Vote :=
  el ← in_store (Election_ id);
  _ ← throw_if (bool_decide (el_Status el <> StatusActive)) [ErrNotAcceptingVotes];
  v ← in_store (AddVote now id v);
  _ ← on_rt (fun rt => set_pending (rt_pending rt ++ [v]) rt);
  _ ← ignore (sealFullLocked now);
  _ ← audit now "voter" "voter" "submit_vote" id;
  mret v.

(** [Engine.SubmitVote], run without interference.  The deferred releases run
    on every return once their lock is held. *)
Definition SubmitVote (now : time) (id : ElectionID) (sub : VoteSubmission) : stE (World D) Vote :=
  l ← submit_open id;
  _ ← submit_lock sub;
  r ← attempt (
    _ ← submit_check id sub;
    _ ← submit_address id sub;
    r ← attempt (v ← submit_validate now l sub; with_rt l (accept_vote now id v));
    _ ← on_store (ReleaseAddress id (addr_of sub));
    lift r);
  _ ← on_store (ReleaseVoteID (sub_VoteID sub));
  lift r.

(** Where a submission is, between the points where others interleave; what
    is locked is released on the way out. *)
Inductive Phase :=
  | PStart
  | POpen (l : nat)
  | PLocked (l : nat)
  | PChecked (l : nat)
  | PAddressed (l : nat)
  | PValidated (l : nat) (v : Vote)
  | PReleaseAddress (r : result Vote)
  | PReleaseVoteID (r : result Vote)
  | PDone (r : result Vote).

Definition next_phase {A} (q : result A * World D) (ok : A -> Phase)
    (failed : result Vote -> Phase) : Phase * World D :=
  match q with
  | (Ok a, w) => (ok a, w)
  | (Err e, w) => (failed (Err e), w)
  end.

Definition submit_step (now : time) (id : ElectionID) (sub : VoteSubmission) (p : Phase)
    (w : World D) : Phase * World D :=
  match p with
  | PStart => next_phase (submit_open id w) POpen PDone
  | POpen l => next_phase (submit_lock sub w) (fun _ => PLocked l) PDone
  | PLocked l => next_phase (submit_check id sub w) (fun _ => PChecked l) PReleaseVoteID
  | PChecked l => next_phase (submit_address id sub w) (fun _ => PAddressed l) PReleaseVoteID
  | PAddressed l => next_phase (submit_validate now l sub w) (PValidated l) PReleaseAddress
  | PValidated l v =>
      next_phase (with_rt l (accept_vote now id v) w) (fun x => PReleaseAddress (Ok x))
        PReleaseAddress
  | PReleaseAddress r =>
      (PReleaseVoteID r, (on_store (ReleaseAddress id (addr_of sub)) w).2)
  | PReleaseVoteID r => (PDone r, (on_store (ReleaseVoteID (sub_VoteID sub)) w).2)
  | PDone r => (PDone r, w)
  end.

Fixpoint submit_steps (n : nat) (now : time) (id : ElectionID) (sub : VoteSubmission)
    (p : Phase) (w : World D) : Phase * World D :=
  match n with
  | O => (p, w)
  | S n => let '(p, w) := submit_step now id sub p w in submit_steps n now id sub p w
  end.

(** [Engine.VoteRecord] *)
Definition VoteRecord (id : ElectionID) (voteID : VoteID) : stE (World D) (Vote * VoteStatus) :=
  v ← on_store (Vote_ id voteID);
  st ← on_store (VoteStatus_ id voteID);
  mret (v, st).
End ingest.
