(* ===== verification/IngestProps.v ===== *)
(** * Accepted votes

    A vote accepted by the engine is appended to the election's log and to
    the buffer of its runtime, in the same order, and sealing afterwards never
    loses it; concurrent submissions of a vote ID are accepted once. *)

From S2P Require Import Prelude Errors Effects Bytes Types Records KV Keys Artifacts Storage.
From S2P Require Import StorageRefine StorageSpec StorageProps Sdk Config Validate Seal SealProps.
From S2P Require Import SealInv SealAccount Frame Engine Ingest.

(** The vote made of a submission has its ID. *)
Lemma vote_of_ID `{Chain} Validate now rules sub v :
  vote_of Validate now rules sub = Ok v -> v_ID v = sub_VoteID sub.
Proof.
  unfold vote_of. intros Hv. destruct (Validate rules sub); [|done]. cbn in Hv.
  destruct (of_option (SlotKey _) _); [|done]. cbn in Hv.
  destruct (of_option (marshal_bundle _) _); [|done]. cbn in Hv. by injection Hv as <-.
Qed.

Section accept.
Context `{ChainLaws}.
Abbreviation TSW := (SW TypedDB).

Lemma AddVote_run now id v (t : TStorage) :
  AddVote now id v t =
    match counter_at (tmap t) id with
    | Some n =>
        let x := v_set_log (u64_succ n) now v in
        let '(r, t') := commit [WPut (KVoteSeq id) (AVoteSeq (u64_succ n));
          WPut (KVote id (v_ID v)) (AVote x);
          WPut (KVoteStatus id (v_ID v)) (AVoteStatus VoteStatusPending)] t in
        ((_ ← r; Ok x), t')
    | None => (Err errorf, t)
    end.
Proof.
  unfold AddVote. unfold mbind at 1, stE_bind at 1. rewrite voteSeq_run.
  destruct (counter_at (tmap t) id) as [n|]; [|done]. cbn [of_option].
  unfold mbind at 1, stE_bind at 1. by destruct (commit _ t) as [[[]|e] t'].
Qed.

(** Appending a new vote to the buffer of an election. *)
Lemma votes_inv_add now id n v (m : store) pending k :
  let x := v_set_log (n + 1) now v in
  let m' := td_writes [WPut (KVoteSeq id) (AVoteSeq (n + 1));
    WPut (KVote id (v_ID v)) (AVote x);
    WPut (KVoteStatus id (v_ID v)) (AVoteStatus VoteStatusPending)] m in
  counter_at m id = Some n -> log_ok id m -> vote_at m id (v_ID v) = None ->
  votes_inv m id pending k -> votes_inv m' id (pending ++ [x]) k.
Proof.
  intros x m' Hn [(n' & Hn' & _ & Hle) _ _] Hnew [I1 I2 I3 I4 I5 I6 I7 I8].
  rewrite Hn in Hn'. injection Hn' as <-.
  destruct (add_writes_lookup now id (n + 1)%N v m) as (_ & Hv & Hs). fold x m' in Hv, Hs.
  assert (forall seq, batch_at m' id seq = batch_at m id seq) as Hb
    by (intros seq; unfold batch_at, m'; by rewrite td_writes_untouched by (by repeat constructor)).
  assert (forall p, p ∈ pending -> v_ID p <> v_ID v) as Hne.
  { intros p Hp E. rewrite Forall_forall in I1. destruct (I1 p Hp) as [Hp' _].
    by rewrite E, Hnew in Hp'. }
  assert (forall seq b u, batch_at m id seq = Some b -> u ∈ bi_VoteIDs b -> u <> v_ID v) as Hnb.
  { intros seq b u Hs' Hu ->. destruct (I8 _ _ _ Hs' Hu) as [y Hy]. congruence. }
  split.
  - apply Forall_app. split; [|constructor; [|done]].
    + rewrite Forall_forall in I1 |- *. intros p Hp. destruct (I1 p Hp).
      rewrite Hv, Hs, !decide_False by by apply Hne. done.
    + simpl. rewrite Hv, Hs, !decide_True by done. done.
  - rewrite fmap_app. apply NoDup_app. split; [done|]. split; [|apply NoDup_singleton].
    intros u (p & -> & Hp)%list_elem_of_fmap Hin%list_elem_of_singleton. by apply (Hne p).
  - clear -Hle I1 I3. induction I3 as [|p l Hl IH Hp]; simpl; [by repeat constructor|].
    apply Forall_cons in I1 as [[I1 _] Il]. constructor; [by apply IH|].
    apply Forall_app. split; [done|]. constructor; [|done]. unfold before. simpl.
    apply Hle in I1. simpl in I1. lia.
  - intros seq. by rewrite Hb.
  - intros seq b u. rewrite Hb, Hs. intros Hs' Hu.
    rewrite decide_False by by eapply Hnb. by eapply I5.
  - intros seq b. rewrite Hb. apply I6.
  - intros seq1 seq2 b1 b2 u. rewrite !Hb. apply I7.
  - intros seq b u. rewrite Hb, Hv. intros Hs' Hu.
    rewrite decide_False by by eapply Hnb. by eapply I8.
Qed.

(** The state in which the buffer has just received a vote. *)
Definition received now n v (t : TStorage) (s : TSW) : TSW :=
  MkSW (set_store t (sw_env s))
    (set_pending (rt_pending (sw_rt s) ++ [v_set_log (u64_succ n) now v]) (sw_rt s)).

Definition add_writes now id n v : list awrite :=
  [WPut (KVoteSeq id) (AVoteSeq (u64_succ n));
   WPut (KVote id (v_ID v)) (AVote (v_set_log (u64_succ n) now v));
   WPut (KVoteStatus id (v_ID v)) (AVoteStatus VoteStatusPending)].

(** A rejected vote changes nothing in the store or the runtime; an accepted
    one was stored and buffered, then the full batches sealed. *)
Inductive accepted (now : time) (id : ElectionID) (v : Vote) (s : TSW) :
    result Vote -> TSW -> Prop :=
  | Rejected e s' :
      sw_rt s' = sw_rt s -> tmap (env_store (sw_env s')) = tmap (env_store (sw_env s)) ->
      (forall el, election_at (tmap (env_store (sw_env s))) id = Some el ->
         el_Status el <> StatusActive -> e = [ErrNotAcceptingVotes]) ->
      proc_same (env_store (sw_env s)) (env_store (sw_env s')) ->
      accepted now id v s (Err e) s'
  | Accepted el n t s' :
      election_at (tmap (env_store (sw_env s))) id = Some el -> el_Status el = StatusActive ->
      counter_at (tmap (env_store (sw_env s))) id = Some n ->
      next_fault (td_faults (s_db (env_store (sw_env s)))) = false ->
      commit (add_writes now id n v) (env_store (sw_env s)) = (Ok tt, t) ->
      s' = (audit now "voter" "voter" "submit_vote" id
              (sealFullLocked now (received now n v t s)).2).2 ->
      accepted now id v s (Ok (v_set_log (u64_succ n) now v)) s'.

Lemma accept_vote_accepted now id v (s : TSW) :
  let '(r, s') := accept_vote now id v s in accepted now id v s r s'.
Proof.
  unfold accept_vote.
  assert (forall A (m : stE TStorage A) (s : TSW), in_store m s =
    (let '(r, t) := m (env_store (sw_env s)) in (r, MkSW (set_store t (sw_env s)) (sw_rt s)))) as Hin
    by done.
  unfold mbind at 1, stE_bind at 1. rewrite Hin.
  destruct (Election_run id (env_store (sw_env s))) as [e0 ->].
  destruct (election_at (tmap (env_store (sw_env s))) id) as [el|] eqn:Eel; cycle 1.
  { apply Rejected; [done..|congruence|done]. }
  unfold mbind at 1, stE_bind at 1.
  destruct (decide (el_Status el = StatusActive)) as [Ea|Ea]; cycle 1.
  { rewrite bool_decide_true by done. by apply Rejected. }
  rewrite bool_decide_false by auto. cbn [throw_if mret stE_ret].
  unfold mbind at 1, stE_bind at 1. rewrite Hin, AddVote_run.
  cbn [sw_env sw_rt env_store set_store].
  destruct (counter_at (tmap (env_store (sw_env s))) id) as [n|] eqn:En; cycle 1.
  { apply Rejected; [done..|congruence|done]. }
  destruct (commit_run (add_writes now id n v) (env_store (sw_env s)))
    as (t & Ec & Hm & _).
  assert ((commit (add_writes now id n v) (env_store (sw_env s))).2 = t) as Et by by rewrite Ec.
  unfold add_writes in Ec at 1. rewrite Ec. destruct (next_fault _) eqn:Hf.
  { apply Rejected; [done..|congruence|]. rewrite <- Et. apply commit_proc. }
  by eapply Accepted.
Qed.

(** The invariant holds in the state that received a new vote. *)
Lemma received_inv now n v (t : TStorage) (s : TSW) :
  let id := rt_id (sw_rt s) in let m := tmap (env_store (sw_env s)) in
  rt_inv s -> log_ok id m -> counter_at m id = Some n -> (n + 1 < two64)%N ->
  vote_at m id (v_ID v) = None -> tmap t = td_writes (add_writes now id n v) m ->
  rt_inv (received now n v t s) /\ log_ok id (tmap t).
Proof.
  intros id m [[st0 [(blob & Hb & Hr) Hst]] Hv Hsz] Hlog Hn Hlt Hnew Ht.
  unfold add_writes, u64_succ in Ht. rewrite u64_small in Ht by done.
  split.
  - split; [|by unfold received, u64_succ; cbn; rewrite u64_small, Ht by done; apply votes_inv_add|done].
    exists st0. split; [|done]. exists blob. split; [|done].
    cbn. rewrite Ht. unfold snapshot_at in *. by rewrite td_writes_untouched by (by repeat constructor).
  - rewrite Ht. pose proof (add_log_ok now id n v m Hn Hlt Hlog) as Hok.
    unfold u64_succ in Hok. by rewrite u64_small in Hok by done.
Qed.

Lemma rt_inv_ext (s s' : TSW) :
  sw_rt s' = sw_rt s -> tmap (env_store (sw_env s')) = tmap (env_store (sw_env s)) ->
  rt_inv s -> rt_inv s'.
Proof.
  intros Ert Em [[st0 [(blob & Hb & Hr) Hst]] Hv Hsz].
  split; rewrite ?Ert, ?Em; [|done..]. exists st0. unfold sound, restorable. rewrite Ert, Em.
  split; [|done]. by exists blob.
Qed.

(** The stored votes after one is added. *)
Lemma add_writes_votes now id n v (m : store) id' u :
  vote_at (td_writes (add_writes now id n v) m) id' u =
    if decide ((id', u) = (id, v_ID v)) then Some (kept_Vote (v_set_log (u64_succ n) now v))
    else vote_at m id' u.
Proof.
  destruct (decide (id' = id)) as [->|Hne].
  - destruct (add_writes_lookup now id (u64_succ n) v m) as (_ & Hv & _).
    unfold add_writes. rewrite Hv. repeat case_decide; naive_solver.
  - rewrite decide_False by congruence. unfold vote_at.
    rewrite td_writes_untouched; [done|]. repeat constructor; simpl; congruence.
Qed.

Lemma audit_inv now subject role action id (s : TSW) u :
  let s' := (audit now subject role action id s).2 in
  (rt_inv s -> rt_inv s') /\ (accounted s u -> accounted s' u) /\ sw_rt s' = sw_rt s.
Proof.
  cbv zeta. destruct (audit_run now subject role action id s) as (t & -> & Ht & _). cbn [snd].
  assert (forall k, ~ in_scan ScanAudit k ->
    tmap (env_store (set_store t (sw_env s))) !! k = tmap (env_store (sw_env s)) !! k) as Ht' by done.
  split_and!; [|unfold accounted, batch_at, status_at; cbn|done].
  - intros [[st0 [(blob & Hb & Hr) Hst]] Hv Hsz]. split; [|cbn [sw_rt sw_env]|done].
    + exists st0. split; [|done]. exists blob. cbn. unfold snapshot_at in *. by rewrite Ht by by intros [].
    + eapply votes_inv_shrink; [reflexivity|..|exact Hv]; unfold vote_at, status_at, batch_at;
        intros; rewrite ?Ht' by (by intros []); eauto.
  - setoid_rewrite Ht; [done|by intros []..].
Qed.
End accept.

(** C16: accepting a validated vote, under the runtime's lock.  A vote that is
    not accepted (the election is not active, or the storage fails) leaves the
    store and the buffer as they were; an accepted one is in the log with the
    next sequence number, and, unless a write of the seals it triggers fails, in
    the buffer, in a stored batch or refused.  The sealing invariant and the log's are kept, and no
    other vote changes. *)
Theorem accept_vote_appends `{ChainLaws} now v (s : SW TypedDB) :
  let id := rt_id (sw_rt s) in let m := tmap (env_store (sw_env s)) in
  rt_inv s -> log_ok id m -> (room s + 1 < two64)%N ->
  (forall n, counter_at m id = Some n -> (n + 1 < two64)%N) ->
  vote_at m id (v_ID v) = None ->
  let '(r, s') := accept_vote now id v s in
  let m' := tmap (env_store (sw_env s')) in
  rt_inv s' /\ log_ok id m' /\
  (forall id' u, (id', u) <> (id, v_ID v) -> vote_at m' id' u = vote_at m id' u) /\
  match r with
  | Ok x =>
      (exists n, counter_at m id = Some n /\ x = v_set_log (n + 1) now v) /\
      vote_at m' id (v_ID v) = Some (kept_Vote x) /\
      rt_pending (sw_rt s') `sublist_of` rt_pending (sw_rt s) ++ [x] /\
      (td_faults (s_db (env_store (sw_env s))) = [] -> accounted s' (v_ID v))
  | Err e =>
      sw_rt s' = sw_rt s /\ m' = m /\
      (forall el, election_at m id = Some el -> el_Status el <> StatusActive ->
         e = [ErrNotAcceptingVotes])
  end.
Proof.
  intros id m Hinv Hlog Hroom Hcnt Hnew.
  pose proof (accept_vote_accepted now id v s) as Ha.
  destruct (accept_vote now id v s) as [r s']. cbv zeta.
  destruct Ha as [e s' Ert Em Hact _|el n t s' Hel Hst Hn Hf Ec ->].
  { rewrite Em. split; [by eapply rt_inv_ext|]. done. }
  destruct (tmap_commit (add_writes now id n v) (env_store (sw_env s)) Hf) as [_ Ht].
  rewrite Ec in Ht. cbn [snd] in Ht.
  pose proof (Hcnt n Hn) as Hlt.
  destruct (received_inv now n v t s) as [Hi Hl]; [done..|].
  set (s1 := received now n v t s) in *. set (s2 := (sealFullLocked now s1).2).
  assert (room s1 < two64)%N as Hroom1
    by (revert Hroom; unfold room, s1, received; cbn; rewrite length_app; cbn; lia).
  destruct (sealFull_run now s1 Hi Hroom1) as (Hi2 & Eid2 & Hsub2).
  destruct (audit_inv now "voter" "voter" "submit_vote" id s2 (v_ID v)) as (Hi3 & Ha3 & E3).
  pose proof (audit_framed now "voter" "voter" "submit_vote" id t s2
    (sealFullLocked_framed now t s1 (frame_refl t))) as Hfr. fold s2 in Hi2, Hsub2, Eid2.
  split; [by apply Hi3|]. split; [by eapply frame_log|].
  split.
  { intros id' u Hne. rewrite (frame_vote _ _ _ _ Hfr), Ht, add_writes_votes.
    by rewrite decide_False. }
  unfold u64_succ in *. rewrite u64_small in * by done.
  split; [by exists n|]. split.
  { rewrite (frame_vote _ _ _ _ Hfr), Ht, add_writes_votes. rewrite decide_True by done.
    unfold u64_succ. by rewrite u64_small. }
  split; [rewrite E3; etrans; [exact Hsub2|]; unfold s1, received, u64_succ; cbn; by rewrite u64_small|].
  intros Hfl. apply Ha3. unfold s2. apply (accounted_faultless s1); [|apply sealFullLocked_accounted; [done..|]].
  - unfold s1. cbn. change t with (Ok tt, t).2.
    rewrite <- Ec. by apply (ps_faults _ _ (commit_proc _ _)).
  - left. unfold s1, received. cbn. rewrite fmap_app. set_solver.
Qed.
