(* ===== verification/Submissions.v ===== *)
(** * Concurrent submissions

    Submissions of votes interleave with each other and with the rest of the
    engine at every point where they hold no mutex.  Whatever the
    interleaving, a vote ID is accepted once in an election. *)

From S2P Require Import Prelude Errors Effects Bytes Types Records KV Keys Artifacts Storage.
From S2P Require Import StorageRefine StorageSpec StorageProps Sdk Config Validate Seal Frame.
From S2P Require Import Engine Ingest IngestProps.

Section submissions.
Context `{ChainLaws}.
Context (Validate : voteRules -> VoteSubmission -> result voteProofBundle).
Abbreviation W := (World TypedDB).
Abbreviation step := (submit_step Validate).

(** Run alone, the steps of a submission are [SubmitVote]. *)
Lemma SubmitVote_steps now id sub (w : W) :
  let '(r, w') := SubmitVote Validate now id sub w in
  submit_steps Validate 8 now id sub PStart w = (PDone r, w').
Proof.
  unfold SubmitVote, mbind, stE_bind, attempt, lift.
  cbn [submit_steps submit_step]; unfold next_phase.
  destruct (submit_open id w) as [[l|e] w1]; [|reflexivity].
  cbn [submit_step]; unfold next_phase. destruct (submit_lock sub w1) as [[[]|e] w2]; [|reflexivity].
  cbn [submit_step]; unfold next_phase. destruct (submit_check id sub w2) as [[[]|e] w3]; [|reflexivity].
  cbn [submit_step]; unfold next_phase. destruct (submit_address id sub w3) as [[[]|e] w4]; [|reflexivity].
  cbn [submit_step]; unfold next_phase. destruct (submit_validate Validate now l sub w4) as [[v|e] w5]; [|reflexivity].
  cbn [submit_step]; unfold next_phase. by destruct (with_rt l (accept_vote now id v) w5) as [[x|e] w6].
Qed.

(** ** The effect of a step *)

Definition votes (w : W) (id : ElectionID) (u : VoteID) : option Vote :=
  vote_at (tmap (w_store w)) id u.
Definition locks (w : W) : gset VoteID := s_processingVoteIDs (w_store w).

(** The stored votes and the locks on vote IDs are as they were. *)
Definition quiet (w w' : W) : Prop :=
  (forall id u, votes w' id u = votes w id u) /\ locks w' = locks w.

(** The stored votes stay, and the vote IDs that are locked stay locked with no
    vote of theirs stored: other submissions may run. *)
Record tolerant (w w' : W) : Prop := {
  to_locked u : u ∈ locks w -> u ∈ locks w' /\ forall id, votes w' id u = votes w id u;
  to_stored id u x : votes w id u = Some x -> votes w' id u = Some x;
}.

#[export] Instance tolerant_pre : PreOrder tolerant.
Proof.
  split; [by intros w|]. intros w1 w2 w3 [L1 S1] [L2 S2]. split; [|by intros id u x ?%S1%S2].
  intros u (Hu & V1)%L1. destruct (L2 u Hu) as [Hu' V2]. split; [done|]. intros id. by rewrite V2.
Qed.

Lemma quiet_tolerant w w' : quiet w w' -> tolerant w w'.
Proof. intros [Hv Hl]. split; [intros u Hu; by rewrite Hl|intros id u x; by rewrite Hv]. Qed.

Lemma quiet_store (w w' : W) : w_store w' = w_store w -> quiet w w'.
Proof. unfold quiet, votes, locks. by intros ->. Qed.

(** The phases that hold the lock on the vote ID, the ones past the duplicate
    check, and the ones past the acceptance. *)
Definition holds (p : Phase) : bool :=
  match p with PStart | POpen _ | PDone _ => false | _ => true end.
Definition checked (p : Phase) : bool :=
  match p with PChecked _ | PAddressed _ | PValidated _ _ => true | _ => false end.
Definition is_accepted (p : Phase) : bool :=
  match p with
  | PReleaseAddress r | PReleaseVoteID r | PDone r => is_ok r
  | _ => false
  end.
Definition vote_named (u : VoteID) (p : Phase) : Prop :=
  match p with PValidated _ v => v_ID v = u | _ => True end.

Inductive step_effect (id : ElectionID) (u : VoteID) (p : Phase) (w : W) (p' : Phase) (w' : W) :
    Prop :=
  | StepQuiet :
      quiet w w' -> holds p' = holds p -> is_accepted p' = is_accepted p ->
      (checked p' = true -> checked p = true \/ votes w id u = None) ->
      step_effect id u p w p' w'
  | StepLock :
      u ∉ locks w -> locks w' = {[u]} ∪ locks w ->
      (forall id u, votes w' id u = votes w id u) ->
      holds p' = true -> is_accepted p' = false -> is_accepted p = false -> checked p' = false ->
      step_effect id u p w p' w'
  | StepAccept x :
      checked p = true -> checked p' = false -> holds p = true -> holds p' = true ->
      is_accepted p' = true -> locks w' = locks w ->
      (forall id' u', votes w' id' u' = if decide ((id', u') = (id, u)) then Some x else votes w id' u') ->
      step_effect id u p w p' w'
  | StepRelease :
      holds p = true -> holds p' = false -> locks w' = locks w ∖ {[u]} ->
      is_accepted p' = is_accepted p -> checked p' = false ->
      (forall id u, votes w' id u = votes w id u) ->
      step_effect id u p w p' w'.

Lemma submit_open_store id (w : W) : w_store (submit_open id w).2 = w_store w.
Proof.
  unfold submit_open, mbind, stE_bind, attempt, on_store, zoom.
  destruct (Election_run id (w_store w)) as [e ->].
  destruct (election_at _ _) as [el|]; [|done]. cbn.
  destruct (bool_decide _); [done|]. cbn. unfold runtime, gets.
  by destruct (w_runtimes _ !! id).
Qed.

Lemma submit_check_run id sub (w : W) :
  let '(r, w') := submit_check id sub w in
  w_store w' = w_store w /\ (r = Ok tt -> votes w id (sub_VoteID sub) = None).
Proof.
  unfold submit_check, VoteExists, Vote_, mbind, stE_bind, attempt, on_store, zoom.
  rewrite load_run. cbn. unfold votes, vote_at.
  by destruct (tmap (w_store w) !! KVote id (sub_VoteID sub)) as [[]|].
Qed.

Lemma accept_step_effect now id l v (w : W) :
  let '(r, w') := with_rt l (accept_vote now id v) w in
  locks w' = locks w /\
  match r with
  | Ok _ => exists x, forall id' u', votes w' id' u' =
      if decide ((id', u') = (id, v_ID v)) then Some x else votes w id' u'
  | Err _ => forall id' u', votes w' id' u' = votes w id' u'
  end.
Proof.
  unfold with_rt. destruct (w_heap w !! l) as [rt|]; [|done].
  pose proof (accept_vote_accepted now id v (MkSW (w_env w) rt)) as Ha.
  destruct (accept_vote now id v _) as [r s']. unfold locks, votes, w_store in *. cbn [sw_env sw_rt w_env w_set_heap w_set_env] in *.
  destruct Ha as [e s' Ert Em Hact Hp|el n t s' Hel Hst Hn Hf Ec ->].
  { split; [apply Hp|]. intros id' u'. cbn [sw_env] in Em. by rewrite Em. }
  destruct (tmap_commit (add_writes now id n v) (env_store (w_env w)) Hf) as [_ Ht].
  pose proof (commit_proc (add_writes now id n v) (env_store (w_env w))) as Hp.
  cbn [sw_env] in Ec. rewrite Ec in Ht, Hp. cbn [snd] in Ht, Hp.
  set (s1 := received now n v t _).
  pose proof (audit_framed now "voter" "voter" "submit_vote" id t (sealFullLocked now s1).2
    (sealFullLocked_framed now t s1 (frame_refl t))) as Hfr.
  split; [rewrite (ps_voteIDs _ _ (fr_proc _ _ Hfr)); apply Hp|].
  eexists. intros id' u'. rewrite (frame_vote _ _ _ _ Hfr), Ht. apply add_writes_votes.
Qed.

Lemma submit_step_effect now id sub p (w : W) :
  vote_named (sub_VoteID sub) p ->
  let '(p', w') := step now id sub p w in
  step_effect id (sub_VoteID sub) p w p' w' /\ vote_named (sub_VoteID sub) p'.
Proof.
  intros Hv. destruct p as [|l|l|l|l|l v|r|r|r]; cbn [submit_step]; unfold next_phase.
  - pose proof (submit_open_store id w) as Es. destruct (submit_open id w) as [[l|e] w'];
      (split; [|done]); by apply StepQuiet; [apply quiet_store|..].
  - unfold submit_lock, LockVoteID, mbind, stE_bind, on_store, zoom.
    destruct (decide (sub_VoteID sub ∈ s_processingVoteIDs (w_store w))) as [Hin|Hin]; cbn;
      (split; [|done]); [by apply StepQuiet|by apply StepLock].
  - pose proof (submit_check_run id sub w) as Hc.
    destruct (submit_check id sub w) as [[[]|e] w']; destruct Hc as [Es Hc];
      (split; [|done]); apply StepQuiet; try done; try by apply quiet_store.
    intros _. right. by apply Hc.
  - unfold submit_address, LockAddress, mbind, stE_bind, on_store, zoom.
    destruct (decide _); cbn; (split; [|done]); apply StepQuiet; try done; by left.
  - unfold submit_validate, mbind, stE_bind, get_st, lift.
    destruct (w_heap w !! l) as [rt|]; [|split; [by apply StepQuiet|done]].
    destruct (vote_of Validate now (rt_rules rt) sub) as [v|e] eqn:Ev.
    + split; [apply StepQuiet; try done; by left|]. by eapply vote_of_ID.
    + split; [|done]. by apply StepQuiet.
  - pose proof (accept_step_effect now id l v w) as Ha. cbn in Hv. rewrite <- Hv.
    destruct (with_rt l (accept_vote now id v) w) as [[x|e] w']; destruct Ha as [El Ha];
      (split; [|done]).
    + destruct Ha as [y Ha]. by eapply StepAccept.
    + by apply StepQuiet.
  - split; [|done]. by apply StepQuiet.
  - split; [|done]. by apply StepRelease.
  - split; [|done]. by apply StepQuiet.
Qed.

(** ** Interleavings *)

(** The submissions in progress or done, and the engine they share. *)
Record Sub := MkSub { s_id : ElectionID; s_sub : VoteSubmission; s_phase : Phase }.
Record System := MkSystem { sys_world : W; sys_subs : gmap nat Sub }.

Definition s_voteID (x : Sub) : VoteID := sub_VoteID (s_sub x).

(** A submission arrives, one takes a step, or the rest of the engine does
    anything but release the locks of the submissions in progress or store
    their votes. *)
Inductive sys_step : System -> System -> Prop :=
  | SysArrives w subs t id sub :
      subs !! t = None ->
      sys_step (MkSystem w subs) (MkSystem w (<[t := MkSub id sub PStart]> subs))
  | SysSubmission w subs t x now p' w' :
      subs !! t = Some x -> step now (s_id x) (s_sub x) (s_phase x) w = (p', w') ->
      sys_step (MkSystem w subs) (MkSystem w' (<[t := MkSub (s_id x) (s_sub x) p']> subs))
  | SysOther w w' subs :
      tolerant w w' -> sys_step (MkSystem w subs) (MkSystem w' subs).

Definition same_vote_id (x y : Sub) : Prop := s_id x = s_id y /\ s_voteID x = s_voteID y.

(** Who holds the locks. *)
Record lock_inv (w : W) (subs : gmap nat Sub) : Prop := {
  li_locked t x : subs !! t = Some x -> holds (s_phase x) = true -> s_voteID x ∈ locks w;
  li_exclusive t1 t2 x1 x2 : subs !! t1 = Some x1 -> subs !! t2 = Some x2 ->
    holds (s_phase x1) = true -> holds (s_phase x2) = true -> s_voteID x1 = s_voteID x2 -> t1 = t2;
}.

(** What the store has of the votes submitted. *)
Record vote_inv (w : W) (subs : gmap nat Sub) : Prop := {
  si_named t x : subs !! t = Some x -> vote_named (s_voteID x) (s_phase x);
  si_checked t x : subs !! t = Some x -> checked (s_phase x) = true ->
    votes w (s_id x) (s_voteID x) = None;
  si_stored t x : subs !! t = Some x -> is_accepted (s_phase x) = true ->
    is_Some (votes w (s_id x) (s_voteID x));
  si_once t1 t2 x1 x2 : subs !! t1 = Some x1 -> subs !! t2 = Some x2 ->
    is_accepted (s_phase x1) = true -> is_accepted (s_phase x2) = true ->
    same_vote_id x1 x2 -> t1 = t2;
}.

Lemma updated (subs : gmap nat Sub) t x t' y :
  <[t := x]> subs !! t' = Some y -> t' = t /\ y = x \/ t' <> t /\ subs !! t' = Some y.
Proof. rewrite lookup_insert_Some. naive_solver. Qed.

Lemma checked_holds p : checked p = true -> holds p = true.
Proof. by destruct p. Qed.

Section update.
Context (w w' : W) (subs : gmap nat Sub) (t : nat) (x : Sub) (p' : Phase).
Context (Hx : subs !! t = Some x) (Hlock : lock_inv w subs).
Context (He : step_effect (s_id x) (s_voteID x) (s_phase x) w p' w').

(** No other submission holds the lock this one holds after its step. *)
Lemma others_hold t' y :
  t' <> t -> subs !! t' = Some y -> holds (s_phase y) = true -> holds p' = true ->
  s_voteID y <> s_voteID x.
Proof.
  destruct Hlock as [I2 I3]. intros Hne Hy Hhy Hhp E.
  destruct He as [_ Eh _ _|Hin _ _ _ _ _ _|? _ _ Hh _ _ _ _|_ Hf _ _ _ _].
  - apply Hne. apply (I3 t' t y x); [done..|by rewrite <- Eh|done].
  - apply Hin. rewrite <- E. by apply (I2 t' y).
  - apply Hne. by apply (I3 t' t y x).
  - congruence.
Qed.

Lemma lock_inv_update : lock_inv w' (<[t := MkSub (s_id x) (s_sub x) p']> subs).
Proof.
  pose proof others_hold as Hother. destruct Hlock as [I2 I3]. split.
  - intros t' y [[-> ->]|[Hne Hy]]%updated Hh; cbn [s_phase] in Hh.
    + change (s_voteID _) with (s_voteID x).
      destruct He as [[_ ->] Eh _ _|Hin -> _ _ _ _ _|? Hc _ Hhx _ _ -> _|_ Hf _ _ _ _];
        [apply (I2 t x); [done|by rewrite <- Eh]|set_solver|by apply (I2 t x)|congruence].
    + pose proof (I2 _ _ Hy Hh) as Hin.
      destruct He as [[_ ->] _ _ _|_ -> _ _ _ _ _|? _ _ _ _ _ -> _|Hhx _ -> _ _ _]; [done|set_solver|done|].
      apply elem_of_difference. split; [done|]. intros E%elem_of_singleton.
      apply Hne. by apply (I3 t' t y x).
  - intros t1 t2 x1 x2 [[-> ->]|[H1' Hx1]]%updated [[-> ->]|[H2' Hx2]]%updated Hh1 Hh2 E; [done|..].
    + by destruct (Hother t2 x2 H2' Hx2 Hh2 Hh1).
    + by destruct (Hother t1 x1 H1' Hx1 Hh1 Hh2).
    + by apply (I3 t1 t2 x1 x2).
Qed.

Lemma votes_kept id u : is_Some (votes w id u) -> is_Some (votes w' id u).
Proof.
  intros Hs. destruct He as [[-> _] _ _ _|_ _ -> _ _ _ _|? _ _ _ _ _ _ ->|_ _ _ _ _ ->];
    try done. by case_decide.
Qed.

Context (Hvote : vote_inv w subs).

Lemma checked_update t' y :
  <[t := MkSub (s_id x) (s_sub x) p']> subs !! t' = Some y -> checked (s_phase y) = true ->
  votes w' (s_id y) (s_voteID y) = None.
Proof.
  destruct Hvote as [_ I4 _ _]. intros [[-> ->]|[Hne Hy]]%updated Hc.
  - cbn [s_phase s_id] in Hc |- *. change (s_voteID _) with (s_voteID x).
    destruct He as [[-> _] _ _ Hc'|_ _ _ _ _ _ Hf|? _ Hf _ _ _ _ _|_ _ _ _ Hf _];
      try congruence. destruct (Hc' Hc) as [Hc0|]; [|done]. by apply (I4 t x).
  - pose proof (I4 _ _ Hy Hc) as Hnone. pose proof (others_hold t' y Hne Hy) as Hother.
    destruct He as [[-> _] _ _ _|_ _ -> _ _ _ _|? Hcx _ Hhx Hhp _ _ ->|_ _ _ _ _ ->]; try done.
    rewrite decide_False; [done|]. intros [= _ E].
    apply Hother; [by apply checked_holds|done|done].
Qed.

(** No other submission of the vote ID had been accepted. *)
Lemma others_accepted t' y :
  t' <> t -> subs !! t' = Some y -> is_accepted (s_phase y) = true ->
  is_accepted p' = true -> ~ same_vote_id x y.
Proof.
  destruct Hvote as [_ I4 I5 I6]. intros Hne Hy Hay Hap [E1 E2].
  destruct (is_accepted (s_phase x)) eqn:Eax.
  { apply Hne. apply (I6 t' t y x); [done..|by split]. }
  destruct He as [_ _ Ea _|_ _ _ _ Hf _ _|? Hcx _ _ _ _ _ _|_ _ _ Ea _ _]; try congruence.
  destruct (I5 _ _ Hy Hay) as [z Hz]. by rewrite <- E1, <- E2, (I4 _ _ Hx Hcx) in Hz.
Qed.

Lemma vote_inv_update :
  vote_named (s_voteID x) p' -> vote_inv w' (<[t := MkSub (s_id x) (s_sub x) p']> subs).
Proof.
  intros Hn. pose proof others_accepted as Hno. destruct Hvote as [I1 I4 I5 I6]. split.
  - intros t' y [[-> ->]|[_ Hy]]%updated; [done|by apply (I1 t')].
  - apply checked_update.
  - intros t' y [[-> ->]|[Hne Hy]]%updated Ha; [|by eapply votes_kept, I5].
    cbn [s_phase s_id] in Ha |- *. change (s_voteID _) with (s_voteID x).
    destruct He as [_ _ Ea _|_ _ _ _ Hf _ _|? _ _ _ _ _ _ ->|_ _ _ Ea _ _];
      [apply votes_kept, (I5 t x); [done|by rewrite <- Ea]|congruence|by rewrite decide_True
      |apply votes_kept, (I5 t x); [done|by rewrite <- Ea]].
  - intros t1 t2 x1 x2 [[-> ->]|[H1' Hx1]]%updated [[-> ->]|[H2' Hx2]]%updated Ha1 Ha2 E; [done|..].
    + by destruct (Hno t2 x2 H2' Hx2 Ha2 Ha1).
    + destruct (Hno t1 x1 H1' Hx1 Ha1 Ha2). destruct E as [E1 E2]. by split.
    + by apply (I6 t1 t2 x1 x2).
Qed.
End update.

Definition sys_inv (w : W) (subs : gmap nat Sub) : Prop := lock_inv w subs /\ vote_inv w subs.

Lemma sys_step_inv s s' :
  sys_step s s' -> sys_inv (sys_world s) (sys_subs s) -> sys_inv (sys_world s') (sys_subs s').
Proof.
  intros Hs Hinv. destruct Hs as [w subs t id sub Ht|w subs t x now p' w' Hx Hstep|w w' subs [Hl Hv]];
    cbn [sys_world sys_subs] in *.
  - destruct Hinv as [[I1 I2] [I3 I4 I5 I6]].
    split; split; intros; repeat match goal with
      | Hy : <[t := _]> subs !! _ = Some _ |- _ => apply updated in Hy as [[-> ->]|[_ Hy]]
      end; try done; eauto.
  - destruct Hinv as [Hlock Hvote].
    pose proof (submit_step_effect now (s_id x) (s_sub x) (s_phase x) w) as He.
    rewrite Hstep in He. destruct He as [He Hn]; [by eapply si_named|].
    split; [by eapply lock_inv_update|by eapply vote_inv_update].
  - destruct Hinv as [[I1 I2] [I3 I4 I5 I6]]. split; split; try done.
    + intros t x Hx Hh. by apply Hl, (I1 t x).
    + intros t x Hx Hc. destruct (Hl (s_voteID x)) as [_ ->]; [|by apply (I4 t x)].
      by apply (I1 t x), checked_holds.
    + intros t x Hx [y Hy]%(I5 t x Hx). exists y. by apply Hv.
Qed.

Lemma sys_reachable s s' :
  rtc sys_step s s' -> sys_inv (sys_world s) (sys_subs s) -> sys_inv (sys_world s') (sys_subs s').
Proof. induction 1; eauto using sys_step_inv. Qed.

(** What the rest of the engine does is such a step: sealing, and any
    storage calls but these. *)
Lemma quiet_seal {A} l (m : stE (SW TypedDB) A) (w : W) :
  (forall t, preserves (framed t) m) -> quiet w (with_rt l m w).2.
Proof.
  intros Hm. unfold with_rt. destruct (w_heap w !! l) as [rt|]; [|done].
  specialize (Hm (env_store (w_env w)) (MkSW (w_env w) rt) (frame_refl _)).
  destruct (m _) as [r s']. cbn [fst snd] in *. split; [|apply (fr_proc _ _ Hm)].
  intros id u. by apply frame_vote.
Qed.
End submissions.

(** C1: however the submissions of votes interleave with each other and with
    the engine, at most one submission of a vote ID is accepted in an election,
    an accepted vote is in the store, and a validated vote that is about to be
    accepted is not there yet. *)
Theorem votes_accepted_once `{ChainLaws} Validate (w0 : World TypedDB) s :
  rtc (sys_step Validate) (MkSystem w0 ∅) s ->
  (forall t x, sys_subs s !! t = Some x -> is_accepted (s_phase x) = true ->
     is_Some (votes (sys_world s) (s_id x) (s_voteID x))) /\
  (forall t1 t2 x1 x2, sys_subs s !! t1 = Some x1 -> sys_subs s !! t2 = Some x2 ->
     is_accepted (s_phase x1) = true -> is_accepted (s_phase x2) = true ->
     s_id x1 = s_id x2 -> s_voteID x1 = s_voteID x2 -> t1 = t2) /\
  (forall t x l v, sys_subs s !! t = Some x -> s_phase x = PValidated l v ->
     votes (sys_world s) (s_id x) (v_ID v) = None).
Proof.
  intros Hr. destruct (sys_reachable Validate _ _ Hr) as [_ [I1 I2 I3 I4]].
  { split; split; intros *; cbn [sys_subs]; rewrite lookup_empty; done. }
  split; [done|]. split; [intros; by apply (I4 t1 t2 x1 x2)|].
  intros t x l v Hx Ep. pose proof (I1 t x Hx) as Hn. rewrite Ep in Hn. cbn in Hn.
  rewrite Hn. apply (I2 t x Hx). by rewrite Ep.
Qed.
