(* ===== verification/EngineSteps.v ===== *)
(** * The engine as a transition system

    The operations of the engine, in any order, as steps on its world: the
    requests of organizers, voters and the keywarden, the sweeps of the
    monitor and the goroutines in the background. *)

From S2P Require Import Prelude Errors Effects Bytes Types Records KV Keys Artifacts Storage.
From S2P Require Import StorageRefine StorageSpec StorageProps Retries Workers Sdk Config.
From S2P Require Import Validate Seal Frame Engine Finalize Lifecycle LifecycleProps Ingest.
From S2P Require Import IngestProps Submissions.

Section keeps.
Context `{SchedulerLaws}.
Abbreviation W := (World TypedDB).

Lemma keeps_commit ws :
  Forall (fun w => forall id, ~ touches w (KElection id)) ws -> keeps (on_store (commit ws) : stE W unit).
Proof. intros Hws. apply keeps_on_store. intros t. by apply commit_elections. Qed.

Lemma keeps_ignore {A} (m : stE TStorage A) : keeps (on_store m) -> keeps (on_store (ignore m) : stE W unit).
Proof. intros Hm w. rewrite on_store_ignore. apply Hm. Qed.

Lemma keeps_get {B} (f : W -> stE W B) : (forall w, keeps (f w)) -> keeps (get_st ≫= f).
Proof. intros Hf. by apply keeps_bind. Qed.

(** Workers come and go. *)
Lemma keeps_RegisterWorker now subject address name :
  keeps (RegisterWorker now subject address name : stE W nat).
Proof.
  apply keeps_get. intros w. destruct (w_pool w) as [p|]; [|done].
  destruct (AddWorker address name p) as [l p']. apply keeps_bind; [by apply keeps_modify|]. intros _.
  destruct (wm_objects p' !! l) as [o|]; [|done]. apply keeps_bind.
  { apply keeps_attempt. unfold SetWorker. apply keeps_commit. repeat constructor. by intros id [=]. }
  intros [x|e].
  - apply keeps_bind; [apply keeps_audit|]. by intros _.
  - apply keeps_bind; [|by intros _]. destruct (GetWorker _ _); [done|by apply keeps_modify].
Qed.

Lemma keeps_RemoveWorker WorkerID now subject id :
  keeps (RemoveWorker WorkerID now subject id : stE W unit).
Proof.
  apply keeps_get. intros w. destruct (w_pool w ≫= _) as [o|]; [|done].
  apply keeps_bind.
  { unfold DeleteWorker, deleteArtifact. apply keeps_commit. repeat constructor. by intros id' [=]. }
  intros _. apply keeps_bind; [by apply keeps_modify|]. intros _.
  apply keeps_bind; [apply keeps_audit|]. intros _. unfold moveFoldChains.
  apply keeps_get. intros w'. apply keeps_for_each. intros id'.
  apply keeps_bind; [apply keeps_attempt, keeps_Election|].
  intros [el|e]; [|done]. case_decide; [apply keeps_w_Notify|done].
Qed.

(** The steps of a submission. *)
Lemma keeps_accept now id l v : keeps (with_rt l (accept_vote now id v) : stE W Vote).
Proof.
  intros w. split; [|apply with_rt_finals].
  destruct (w_heap w !! l) as [rt|] eqn:Hl; [|unfold with_rt; by rewrite Hl].
  unfold wmap. rewrite (with_rt_store _ _ _ _ Hl).
  pose proof (accept_vote_accepted now id v (MkSW (w_env w) rt)) as Ha.
  destruct (accept_vote now id v _) as [r s']. cbn [fst snd].
  destruct Ha as [e s' Ert Em Hact Hp|el n t s' Hel Hst Hn Hf Ec ->].
  { unfold w_store. cbn [sw_env] in Em. by rewrite Em. }
  pose proof (commit_elections (add_writes now id n v) (env_store (w_env w))
    ltac:(repeat constructor; by intros ? [=])) as Hc.
  cbn [sw_env] in Ec. rewrite Ec in Hc. cbn [snd] in Hc.
  etrans; [exact Hc|]. apply frame_status.
  apply (audit_framed now "voter" "voter" "submit_vote" id t).
  by apply (sealFullLocked_framed now t).
Qed.

Lemma keeps_same_map {A} (m : stE TStorage A) :
  (forall t, tmap (m t).2 = tmap t) -> keeps (on_store m : stE W A).
Proof. intros Hm. apply keeps_on_store. intros t. by rewrite Hm. Qed.

Lemma step_steady Validate now id sub p (w : W) :
  steady w (submit_step Validate now id sub p w).2.
Proof.
  assert (forall A (m : stE W A) ok failed, keeps m ->
    steady w (next_phase (m w) ok failed).2) as Hn.
  { intros A m ok failed Hm. specialize (Hm w). by destruct (m w) as [[]]. }
  assert (forall v, keeps (on_store (LockVoteID v) : stE W bool)) as Hlv
    by (intros v; apply keeps_same_map; intros t; unfold LockVoteID; by case_decide).
  assert (forall v, keeps (on_store (LockAddress id v) : stE W bool)) as Hla
    by (intros v; apply keeps_same_map; intros t; unfold LockAddress; by case_decide).
  destruct p; cbn [submit_step]; try apply Hn; try done.
  - apply keeps_bind; [apply keeps_attempt, keeps_Election|]. intros [el|e]; [|done].
    apply keeps_bind; [by destruct (bool_decide _)|]. intros _.
    apply keeps_bind; [done|]. by intros [l|].
  - apply keeps_bind; [apply Hlv|]. by intros [].
  - apply keeps_bind; [|by intros []]. apply keeps_read. intros t.
    unfold VoteExists, mbind, stE_bind, attempt, Vote_. by rewrite load_run.
  - apply keeps_bind; [apply Hla|]. by intros [].
  - apply keeps_get. intros w'. by destruct (w_heap w' !! l).
  - apply keeps_accept.
Qed.

(** A new election does not change the others. *)
Lemma store_create_follows now el snap (t : TStorage) :
  follows (tmap t) (tmap (Storage.CreateElection now el snap t).2).
Proof.
  unfold Storage.CreateElection. unfold mbind at 1, stE_bind at 1, attempt.
  destruct (Election_run (el_ID el) t) as [e0 ->].
  destruct (election_at (tmap t) (el_ID el)) as [x|] eqn:Ee; [done|].
  cbn [is_ok throw_if mret]. unfold mbind, stE_bind. cbn [mret stE_ret].
  destruct (commit_run [WPut (KElection (el_ID (el_set_created now el))) (AElection (el_set_created now el));
    WPut (KSnapshot (el_ID (el_set_created now el))) (ABlob snap)] t) as (t' & -> & Hm & _).
  assert (follows (tmap t) (tmap t')) as Hf; [|by destruct (next_fault _)].
  rewrite Hm. destruct (next_fault _); [done|]. intros id st Hst. exists st. split; [|done].
  unfold status, election_at in *. simpl. rewrite lookup_insert_ne by done.
  rewrite lookup_insert_ne; [done|]. intros [= <-].
  change (el_ID el) with (el_ID (el_set_created now el)) in Ee. cbn in Hst. cbn in Ee.
  by destruct (tmap t !! KElection (el_ID el)) as [[]|].
Qed.

Lemma moves_CreateElection now subject el : moves (Engine.CreateElection now subject el : stE W Election).
Proof.
  unfold Engine.CreateElection.
  do 4 (apply moves_bind; [by apply keeps_moves|]; intros ?).
  apply moves_bind; [by apply keeps_moves|]. intros opts.
  apply moves_bind; [by destruct (_ <? _)%Z; apply keeps_moves|]. intros _.
  apply moves_bind; [by destruct (_ <? _)%Z; apply keeps_moves|]. intros _.
  apply moves_bind; [apply moves_on_store; intros t; apply store_create_follows|]. intros el'.
  apply moves_bind; [by apply moves_modify|]. intros _.
  apply moves_bind; [apply keeps_moves, keeps_audit|]. intros _. by apply keeps_moves.
Qed.
End keeps.

Section steps.
Context `{SchedulerLaws}.
Context (Validate : voteRules -> VoteSubmission -> result voteProofBundle).
Context (WorkerID : string -> string).
Abbreviation W := (World TypedDB).

Inductive eng_step : W -> W -> Prop :=
  | EngCreate now subject el w : eng_step w (Engine.CreateElection now subject el w).2
  | EngSubmission now id sub p w : eng_step w (submit_step Validate now id sub p w).2
  | EngSetStatus now subject id to w : eng_step w (SetStatus now subject id to w).2
  | EngKey now subject id key w : eng_step w (SubmitDecryptionKey now subject id key w).2
  | EngTick now order w : eng_step w (tick now order w).2
  | EngBackground now i w : eng_step w (run_background now i w).2
  | EngRegisterWorker now subject address name w :
      eng_step w (RegisterWorker now subject address name w).2
  | EngRemoveWorker now subject id w : eng_step w (RemoveWorker WorkerID now subject id w).2
  | EngStop w : eng_step w (Stop w).2.

(** Each finalize in the background is of an election that is finalizing,
    and no election has two. *)
Record fin_ok (w : W) : Prop := {
  fo_nodup : NoDup (finals w);
  fo_status id : id ∈ finals w -> status (wmap w) id = Some StatusFinalizing;
}.

Definition follows_life (m0 m : store) : Prop := forall id st,
  status m0 id = Some st -> exists st', status m id = Some st' /\ rtc lifecycle_edge st st'.

Lemma follows_follows_life m0 m : follows m0 m -> follows_life m0 m.
Proof.
  intros Hf id st (st' & Hst' & Hr)%Hf. exists st'. split; [done|].
  clear -Hr. induction Hr; [done|]. eapply rtc_l; [by apply life_edge|done].
Qed.

Lemma follows_life_trans m1 m2 m3 : follows_life m1 m2 -> follows_life m2 m3 -> follows_life m1 m3.
Proof.
  intros H12 H23 id st (st' & Hst' & Hr)%H12. destruct (H23 _ _ Hst') as (st'' & ? & ?).
  exists st''. split; [done|]. by etrans.
Qed.

(** The background finalizes keep their elections finalizing. *)
Lemma advances_ok w w' : advances w w' -> fin_ok w -> fin_ok w'.
Proof.
  intros [Hf Hs] [Hn Hst]. split; rewrite Hs; [done|]. intros id Hin%Hst.
  destruct (Hf _ _ Hin) as (st & Hst' & Hr). by rewrite Hst', (finalizing_stays _ Hr).
Qed.

Lemma starts_ok id w w' : starts id w w' -> fin_ok w -> fin_ok w'.
Proof.
  intros [Hf [Hs|(Hs & Hd & Hn)]] Hok; [by apply (advances_ok w w'); [split|]|].
  destruct Hok as [Hnd Hst]. split; rewrite Hs.
  - apply NoDup_app. split; [done|]. split; [|apply NoDup_singleton].
    intros id' Hin ->%list_elem_of_singleton. apply Hst in Hin. congruence.
  - intros id' [Hin%Hst| ->%list_elem_of_singleton]%elem_of_app; [|done].
    destruct (Hf _ _ Hin) as (st & Hst' & Hr). by rewrite Hst', (finalizing_stays _ Hr).
Qed.

Lemma finals_delete i b (w : W) :
  w_background w !! i = Some b ->
  let w1 := w_set_background (delete i (w_background w)) (w_bgStopped w) w in
  finals w ≡ₚ match b with BgFinalize id _ => [id] | BgDrain _ => [] end ++ finals w1.
Proof.
  intros Hb w1. unfold finals at 1. rewrite (delete_Permutation _ _ _ Hb). by destruct b.
Qed.

Definition sound_step (w w' : W) : Prop := fin_ok w' /\ follows_life (wmap w) (wmap w').

Lemma advances_sound w w' : fin_ok w -> advances w w' -> sound_step w w'.
Proof. intros Hok Ha. split; [by eapply advances_ok|apply follows_follows_life, Ha]. Qed.

Lemma background_step now i w : fin_ok w -> sound_step w (run_background now i w).2.
Proof.
  intros Hok. unfold run_background, mbind at 1, stE_bind at 1, get_st.
  destruct (w_background w !! i) as [b|] eqn:Hb; [|by apply advances_sound].
  unfold mbind at 1, stE_bind at 1, modify. pose proof (finals_delete i b w Hb) as HP.
  set (w1 := w_set_background _ _ w) in *. destruct Hok as [Hnd Hst].
  rewrite HP in Hnd. assert (wmap w1 = wmap w) as Em by done. destruct b as [l|id key].
  - assert (fin_ok w1) as Hok1.
    { split; [done|]. intros id Hin. rewrite Em. apply Hst. by rewrite HP. }
    destruct (rt_id <$> w_heap w !! l) as [id|]; apply (advances_sound w1 _ Hok1); [|done].
    apply moves_drainAndPublish.
  - apply NoDup_cons in Hnd as [Hni Hnd].
    destruct (finalizeElection_finalized now id key w1) as [Hs Hf]. split.
    + split; rewrite Hs; [done|]. intros id' Hin.
      destruct (Hf id') as [->|(-> & _)]; [|done]. rewrite Em. apply Hst. rewrite HP. set_solver.
    + intros id' st Hst'. rewrite <- Em in Hst'. destruct (Hf id') as [->|(-> & _ & Ho)]; [by exists st|].
      assert (st = StatusFinalizing) as ->.
      { rewrite Em, Hst in Hst' by (rewrite HP; set_solver). by injection Hst'. }
      destruct Ho as [->| ->]; eexists; (split; [done|]); apply rtc_once; first [apply life_failed|apply life_done].
Qed.

Lemma eng_step_status w w' : eng_step w w' -> fin_ok w -> sound_step w w'.
Proof.
  intros Hstep Hok.
  assert (forall w w', fin_ok w -> steady w w' -> sound_step w w') as Hk.
  { intros w1 w2 Hok1 [Hs1 Hs2]. apply advances_sound; [done|]. by split; [apply same_follows|]. }
  destruct Hstep as [now subject el w|now id sub p w|now subject id to w|now subject id key w|now order w
    |now i w|now subject address name w|now subject id w|w].
  - by apply advances_sound, moves_CreateElection.
  - by apply Hk, step_steady.
  - by apply advances_sound, moves_SetStatus.
  - pose proof (SubmitDecryptionKey_starts now subject id key w) as Hs.
    split; [by eapply starts_ok|]. apply follows_follows_life, Hs.
  - by apply advances_sound, moves_tick.
  - by apply background_step.
  - by apply Hk, keeps_RegisterWorker.
  - by apply Hk, keeps_RemoveWorker.
  - by apply Hk.
Qed.
End steps.

(** C9: the stored status of every election only takes the steps of its
    lifecycle, through any interleaving of requests, sweeps and background
    work and whichever writes fail: an organizer's or the end time's change,
    ended to decrypting, decrypting to finalizing, and back or to results.  An
    election that ended never takes votes again, a canceled one or one with
    results never moves, and no two finalizes of an election are in flight. *)
Theorem statuses_follow_lifecycle `{SchedulerLaws} Validate WorkerID (w w' : World TypedDB) :
  fin_ok w -> rtc (eng_step Validate WorkerID) w w' ->
  fin_ok w' /\
  forall id st, status (wmap w) id = Some st ->
    exists st', status (wmap w') id = Some st' /\ rtc lifecycle_edge st st' /\
      (closed st = true -> closed st' = true) /\
      (st = StatusCanceled \/ st = StatusResults -> st' = st).
Proof.
  intros Hok Hr. assert (fin_ok w' /\ follows_life (wmap w) (wmap w')) as [Hok' Hf].
  { induction Hr as [w|w1 w2 w3 Hs Hr IH]; [by split; [|intros id st ?; exists st]|].
    destruct (eng_step_status _ _ _ _ Hs Hok) as [Hok2 Hf2]. destruct (IH Hok2) as [Hok3 Hf3].
    split; [done|]. by eapply follows_life_trans. }
  split; [done|]. intros id st (st' & Hst' & Hr')%Hf. exists st'.
  split; [done|]. split; [done|]. split; [by apply edge_closed|by apply edge_final].
Qed.
