(* ===== verification/Scheduler.v ===== *)
(** * The scheduler's jobs (orchestrator/scheduler.go)

    The jobs run on the provers and the fold chain of an election: the choice
    of its fold worker, the sync of the chain onto it, the proof of a batch, and
    the fold of the pending batches.  Before each storage call, pool operation
    and request to a prover other goroutines may run ([yield]). *)

From S2P Require Import Prelude Errors Effects Bytes Types Records Keys Artifacts Storage.
From S2P Require Import StorageRefine Retries Workers Sdk Config Seal Chains Engine Finalize.

(** ** The provers and the other goroutines *)

(** [davinci.Job], the statuses the code tells apart. *)
Inductive JobStatus := JobQueued | JobRunning | JobDone | JobFailed | JobOther.

Inductive ImportKind := ImportBatch | ImportFold.

(** [davinci.FoldRequest]; an absent field is empty. *)
Record FoldRequest (Config : Type) := MkFoldRequest {
  fr_Config : Config;
  fr_BatchJobs : list string;
  fr_FoldVK : string;
  fr_PrevFoldJob : string;
}.
Arguments MkFoldRequest {_}.

(** [davinci.FinalizeRequest] *)
Record FinalizeRequest (Config Payload : Type) := MkFinalizeRequest {
  zr_Config : Config;
  zr_FoldJob : string;
  zr_FoldVK : string;
  zr_Results : Payload;
}.
Arguments MkFinalizeRequest {_ _}.

(** [davinci.PlonkSnark] *)
Record PlonkSnark := MkSnark {
  sn_ProgramVK : bytes;
  sn_RootCVadcopFinal : bytes;
  sn_PublicValues : bytes;
  sn_ProofBytes : bytes;
}.

(** What the provers answer at each moment: nothing is assumed of them. *)
Class Provers `{FinalizeSdk} := {
  JobConfig : Type;
  ResultsPayload : Type;
  SubmitProve : nat -> string -> ProveRequest StateTransitionData ReencryptionData -> option string;
  GetJob : nat -> string -> string -> option JobStatus;
  FetchStarkInfo : nat -> string -> string -> option string;
  FetchStarkRaw : nat -> string -> string -> option bytes;
  ImportStarkAs : nat -> string -> bytes -> ImportKind -> option string;
  SubmitFold : nat -> string -> FoldRequest JobConfig -> option string;
  SubmitFinalize : nat -> string -> FinalizeRequest JobConfig ResultsPayload -> option string;
  FetchPublics : nat -> string -> string -> option bytes;
  FetchSnark : nat -> string -> string -> option PlonkSnark;
  unmarshal_request : bytes -> option (ProveRequest StateTransitionData ReencryptionData);
  State_ChainConfig : ChainState -> JobConfig;
  State_ResultsPayload : ChainState -> Z -> option (ResultsPayload * list N);
  ParseDigest : bytes -> option Digest;
}.

(** What the other goroutines do at each moment, and how long it takes;
    [turns] orders the proves of a pass, and a wait is followed for at most
    [rounds] rounds. *)
Class Others (D : Type) `{Chain} := {
  others : nat -> World D -> World D;
  elapsed : nat -> N;
  turns : nat -> list N;
  rounds : nat;
}.

Section scheduler.
Context {D : Type} `{ADB D} `{Provers} `{!Others D}.
Abbreviation W := (World D).

(** ** Steps *)

Definition on_sched (f : Scheduler -> Scheduler) : stE W unit :=
  modify (fun w => w_set_sched (f (w_sched w)) w).
Definition sched {A} (f : Scheduler -> A) : stE W A := gets (fun w => f (w_sched w)).

(** The moment passes. *)
Definition tick_clock (wait : duration) (s : Scheduler) : Scheduler :=
  sc_set_clock (S (sc_tick s)) (sc_now s + Z.max wait 0 + Z.of_N (elapsed (sc_tick s)))%Z s.

(** The other goroutines run for a moment, during a wait of at least [d]. *)
Definition yield_for (d : duration) : stE W unit := modify (fun w =>
  let w' := others (sc_tick (w_sched w)) w in
  w_set_sched (tick_clock d (sc_keep (w_sched w) (w_sched w'))) w').
Definition yield : stE W unit := yield_for 0%Z.

Definition clock : stE W time := sched sc_now.

(** [sc.ctx.Err() != nil] *)
Definition stopping : stE W bool := gets (fun w => env_stopping (w_env w)).

Definition store_call {A} (c : time -> call A) : stE W A :=
  _ ← yield;
  now ← clock;
  on_store (run_call (c now)).

(** An operation of the worker pool, which the scheduler always has. *)
Definition with_pool {A} (f : time -> WorkerManager -> A * WorkerManager) : stE W A := fun w =>
  match w_pool w with
  | None => (Err [Panic], w)
  | Some p => let '(a, p') := f (sc_now (w_sched w)) p in (Ok a, w_set_pool (Some p') w)
  end.
Definition pool_run {A} (f : time -> WorkerManager -> A * WorkerManager) : stE W A :=
  _ ← yield; with_pool f.
Definition pool_get {A} (f : time -> WorkerManager -> A) : stE W A :=
  pool_run (fun now p => (f now p, p)).
Definition pool_do (f : WorkerManager -> WorkerManager) : stE W unit :=
  pool_run (fun _ p => (tt, f p)).

(** An operation on the claims, step by step: the other goroutines run between
    two accesses of the pool. *)
Fixpoint pool_thread_loop (fuel : nat) (t : pool_thread) : stE W pool_thread :=
  match fuel with
  | O => throw [Diverges]
  | S fuel =>
      st ← stopping;
      t ← pool_run (fun now => thread_step now st t);
      if thread_ended t then mret t else pool_thread_loop fuel t
  end.

(** [Acquire] *)
Definition pool_Acquire (exclude : list string) : stE W (option nat) :=
  t ← pool_thread_loop rounds (AcquireTop exclude);
  mret (match t with Holding wk => Some wk | _ => None end).
(** [Claim], under the context of the scheduler *)
Definition pool_Claim (wk : nat) : stE W unit :=
  t ← pool_thread_loop rounds (ClaimStart wk);
  match t with
  | Holding _ => mret tt
  | Ended CtxDone => throw [Canceled]
  | _ => throw [ErrWorkerRemoved]
  end.
(** [Hold] and [Release]: one and two accesses. *)
Definition pool_Hold (wk : nat) : stE W unit := _ ← pool_thread_loop 1 (HoldStart wk); mret tt.
Definition pool_Release (wk : nat) : stE W unit := _ ← pool_thread_loop 2 (ReleaseStart wk); mret tt.

(** A worker's address never changes. *)
Definition address (wk : nat) : stE W string := fun w =>
  match w_pool w ≫= fun p => wm_objects p !! wk with
  | Some o => (Ok (w_Address o), w)
  | None => (Err [Panic], w)
  end.

(** A request to the prover of worker [wk]. *)
Definition ask {A} (wk : nat) (req : nat -> string -> option A) : stE W A :=
  _ ← yield;
  a ← address wk;
  n ← sched sc_tick;
  lift (of_option (req n a) errorf).

Definition WorkerResult_ (wk : nat) (ok : bool) : stE W unit :=
  a ← address wk;
  pool_do (WorkerResult a ok).

(** ** The heaps *)

Definition chain_at (fc : chain_loc) : stE W foldChain := fun w =>
  match sc_fcs (w_sched w) !! fc with
  | Some c => (Ok c, w)
  | None => (Err [Panic], w)
  end.
Definition on_chain (fc : chain_loc) (f : foldChain -> foldChain) : stE W unit :=
  on_sched (fun s => sc_set_fcs (alter f fc (sc_fcs s)) s).

Definition object (b : nat) : stE W BatchInput := fun w =>
  match sc_objects (w_sched w) !! b with
  | Some bi => (Ok bi, w)
  | None => (Err [Panic], w)
  end.
Definition on_object (b : nat) (f : BatchInput -> BatchInput) : stE W unit :=
  on_sched (fun s => sc_set_objects (alter f b (sc_objects s)) s).
Definition new_object (bi : BatchInput) : stE W nat := fun w =>
  let s := w_sched w in
  let b := fresh (dom (sc_objects s)) in
  (Ok b, w_set_sched (sc_set_objects (<[b := bi]> (sc_objects s)) s) w).
Fixpoint new_objects (l : list BatchInput) : stE W (list nat) :=
  match l with
  | [] => mret []
  | bi :: l => b ← new_object bi; bs ← new_objects l; mret (b :: bs)
  end.

(** ** The election *)

Definition over (st : Status) : bool := bool_decide (st = StatusCanceled \/ st = StatusResults).

(** [stopped] *)
Definition stopped (id : ElectionID) : stE W bool :=
  r ← attempt (store_call (fun _ => CElection id));
  mret (match r with Err _ => true | Ok el => over (el_Status el) end).

(** [finished] (orchestrator/dispatch.go) *)
Definition finished (id : ElectionID) : stE W bool :=
  r ← attempt (store_call (fun _ => CElection id));
  mret (match r with Err _ => false | Ok el => over (el_Status el) end).

(** ** Jobs *)

(** [pause] *)
Definition pause : stE W unit :=
  d ← sched sc_poll;
  _ ← yield_for d;
  st ← stopping;
  throw_if st [Canceled].

(** [call]: [first] on the first attempt. *)
Fixpoint call_loop {A} (attempts : nat) (first : bool) (last : error) (wk : nat)
    (req : nat -> string -> option A) : stE W A :=
  match attempts with
  | O => throw (wrap errFoldWorker last)
  | S attempts =>
      _ ← (if first then mret tt else pause);
      has ← pool_get (fun _ => Has wk);
      if negb has then throw (wrap errFoldWorker [ErrWorkerRemoved])
      else
        r ← attempt (ask wk req);
        match r with
        | Ok a => mret a
        | Err e => _ ← WorkerResult_ wk false; call_loop attempts false e wk req
        end
  end.
Definition call_worker {A} (wk : nat) (req : nat -> string -> option A) : stE W A :=
  call_loop maxJobAttempts true errorf wk req.

(** What a poll of a job says: it ended, or the polls failed so far. *)
Definition poll_result (pollErrs : nat) (r : result JobStatus) : result unit + nat :=
  match r with
  | Err e => if (maxPollErrs <=? S pollErrs)%nat then inl (Err e) else inr (S pollErrs)
  | Ok JobDone => inl (Ok tt)
  | Ok JobFailed => inl (Err [errJobFailed])
  | Ok _ => inr 0%nat
  end.

(** The loop of [waitJob]; its fuel is the number of polls before the deadline. *)
Fixpoint waitJob_loop (fuel : nat) (deadline : time) (pollErrs : nat) (wk : nat) (job : string) :
    stE W unit :=
  match fuel with
  | O => throw [Diverges]
  | S fuel =>
      has ← pool_get (fun _ => Has wk);
      _ ← throw_if (negb has) [ErrWorkerRemoved];
      r ← attempt (ask wk (fun n a => GetJob n a job));
      match poll_result pollErrs r with
      | inl r => lift r
      | inr pollErrs =>
          now ← clock;
          _ ← throw_if (deadline <? now)%Z errorf;
          _ ← pause;
          waitJob_loop fuel deadline pollErrs wk job
      end
  end.

Definition polls (s : Scheduler) : nat := S (S (Z.to_nat (sc_timeout s / sc_poll s))).

(** [waitJob] *)
Definition waitJob (wk : nat) (job : string) : stE W unit :=
  s ← sched (fun s => s);
  waitJob_loop (polls s) (sc_now s + sc_timeout s)%Z 0 wk job.

(** [runJob] *)
Fixpoint runJob_loop (attempts : nat) (first : bool) (last : error) (wk : nat)
    (submit : nat -> string -> option string) : stE W string :=
  match attempts with
  | O => throw (wrap errFoldWorker last)
  | S attempts =>
      _ ← (if first then mret tt else pause);
      r ← attempt (job ← ask wk submit; _ ← waitJob wk job; mret job);
      match r with
      | Ok job => _ ← WorkerResult_ wk true; mret job
      | Err e =>
          st ← stopping;
          if st : bool then throw e
          else
            _ ← WorkerResult_ wk false;
            if errors_Is e ErrWorkerRemoved then throw (wrap errFoldWorker e)
            else runJob_loop attempts false e wk submit
      end
  end.
Definition runJob (wk : nat) (submit : nat -> string -> option string) : stE W string :=
  runJob_loop maxJobAttempts true errorf wk submit.

(** [claim] *)
Definition claim (wk : nat) : stE W unit :=
  r ← attempt (pool_Claim wk);
  match r with
  | Ok _ => mret tt
  | Err e => throw (if errors_Is e ErrWorkerRemoved then wrap errFoldWorker e else e)
  end.

(** ** The fold chain *)

(** [legacyBatchesFolded] *)
Definition legacyBatchesFolded (id : ElectionID) (foldCount : N) (foldEvery : Z) : stE W N :=
  r ← attempt (store_call (fun _ => CListBatchInputs id));
  mret (match r with
        | Err _ => foldCount
        | Ok l =>
            let imported := length (filter (fun b => bi_ImportedID b <> ""%string) l) in
            N.min (u64 (foldCount * Z.to_N foldEvery)) (N.of_nat imported)
        end).

(** [Scheduler.chain]; the lock it holds keeps the map of the chains. *)
Definition chain_of_checkpoint (el : Election) (foldEvery : Z) (cp : option FoldCheckpoint) : foldChain :=
  let every := if (0 <? el_FoldEvery el)%Z then el_FoldEvery el else foldEvery in
  let fc := MkChain (el_FoldWorker el) false false "" "" "" "" 0 0 "" [] every 0 false false ∅ in
  match cp with
  | None => fc
  | Some cp =>
      fc_set_head (cp_LastFoldJob cp) (cp_FoldWorker cp) (cp_FoldCount cp) (cp_BatchesFolded cp)
        (cp_StateRoot cp) (fc_set_vks (cp_AggVK cp) (cp_BatchVK cp) fc)
  end.

Definition new_chain (id : ElectionID) (c : foldChain) : stE W chain_loc := fun w =>
  let s := w_sched w in
  let fc := next_loc id (sc_fcs s) in
  (Ok fc, w_set_sched (sc_set_chains (<[id := fc]> (sc_chains s)) (sc_set_fcs (<[fc := c]> (sc_fcs s)) s)) w).

Definition legacy_chain (id : ElectionID) (cp : option FoldCheckpoint) (c : foldChain) :
    stE W foldChain :=
  match cp with
  | Some cp =>
      if (cp_Version cp =? 0)%N then
        n ← legacyBatchesFolded id (cp_FoldCount cp) (fc_foldEvery c);
        mret (fc_set_head (fc_lastFold c) (fc_lastFoldOn c) (fc_foldCount c) n (fc_stateRoot c) c)
      else mret c
  | None => mret c
  end.

Definition chain (id : ElectionID) : stE W chain_loc :=
  known ← sched (fun s => sc_chains s !! id);
  match known with
  | Some fc => mret fc
  | None =>
      el ← store_call (fun _ => CElection id);
      every ← sched sc_foldEvery;
      r ← attempt (store_call (fun _ => CFoldCheckpoint id));
      cp ← match r with
           | Ok cp => mret (Some cp)
           | Err e => if errors_Is e ErrNotFound then mret None else throw e
           end;
      c ← legacy_chain id cp (chain_of_checkpoint el every cp);
      new_chain id c
  end.

(** [foldChain.wantBatchVK] and [foldChain.wantAggVK] *)
Definition wantBatchVK (c : foldChain) : string :=
  match CircuitRelease with Some r => rel_BatchVK r | None => fc_batchVK c end.
Definition wantAggVK (c : foldChain) : string :=
  match CircuitRelease with Some r => rel_AggVK r | None => fc_aggVK c end.

(** Whether a program vk is the one wanted, if one is. *)
Definition vk_ok (want vk : string) : bool := bool_decide (want = ""%string) || sameVK vk want.

(** [foldWorker] *)
Definition set_FoldWorker (a : string) (el : Election) : result Election := Ok (el_set_fold_worker a el).

(** The chain goes to worker [wk], which is pinned unless it already is. *)
Definition move_chain (id : ElectionID) (fc : chain_loc) (wk : nat) : stE W nat :=
  _ ← on_chain fc (fun c => fc_set_sync false (fc_resync c) c);
  a ← address wk;
  c ← chain_at fc;
  if decide (a = fc_pin c) then mret wk
  else
    _ ← store_call (fun now => CUpdateElection now id (set_FoldWorker a));
    _ ← (if decide (fc_pin c = ""%string) then mret tt
         else ignore (store_call (fun now => CAppendAudit now
                (audit_record now "system" "system" ("move_fold_chain:" +:+ a) id))));
    _ ← on_chain fc (fc_set_pin a);
    mret wk.

Definition foldWorker (id : ElectionID) (fc : chain_loc) : stE W nat :=
  c ← chain_at fc;
  cur ← pool_get (fun _ => GetWorker (fc_pin c));
  keep ← match cur with
         | Some wk =>
             if fc_resync c then mret None
             else lost ← pool_get (fun now => Lost now wk); mret (if lost : bool then None else Some wk)
         | None => mret None
         end;
  match keep with
  | Some wk => mret wk
  | None =>
      other ← pool_get (fun now => LeastLoaded now [fc_pin c]);
      match other, cur with
      | Some wk, _ => move_chain id fc wk
      | None, None => throw [errNoWorker]
      | None, Some wk =>
          banned ← pool_get (fun now => Banned now wk);
          if banned : bool then throw [errNoWorker] else move_chain id fc wk
      end
  end.
End scheduler.
