(* ===== verification/Fold.v ===== *)
(** * The fold chain and the proofs of the batches (orchestrator/scheduler.go)

    The import of a batch onto the fold worker, the sync of the chain onto it,
    the fold of the pending batches with the escalation of failing folds, and
    the proof of a batch by a worker of the pool. *)

From S2P Require Import Prelude Errors Effects Bytes Types Records Keys Artifacts Storage.
From S2P Require Import StorageRefine Retries Workers Sdk Config Seal Chains Engine Finalize.
From S2P Require Import Scheduler.

Section fold.
Context {D : Type} `{ADB D} `{Provers} `{!Others D}.
Abbreviation W := (World D).

(** A storage call with the batch an object is at that moment. *)
Definition store_batch {A} (b : nat) (c : time -> BatchInput -> call A) : stE W A :=
  _ ← yield;
  now ← clock;
  bi ← object b;
  on_store (run_call (c now bi)).

(** ** Imports *)

(** [importProof] *)
Definition importProof (wk : nat) (proof : bytes) (kind : ImportKind) : stE W string :=
  call_worker wk (fun n a => ImportStarkAs n a proof kind).

(** [dropBatchProof] *)
Definition avoid_worker (seq : N) (a : string) (c : foldChain) : foldChain :=
  fc_set_failing (fc_foldFailures c) (fc_reproved c) (fc_headSuspect c)
    (<[seq := default [] (fc_avoid c !! seq) ++ [a]]> (fc_avoid c)) c.

Definition dropBatchProof (fc : chain_loc) (b : nat) : stE W unit :=
  bi ← object b;
  _ ← (if decide (bi_Worker bi = ""%string) then mret tt
       else on_chain fc (avoid_worker (bi_Seq bi) (bi_Worker bi)));
  _ ← on_object b (bi_set_jobs "" "" "" "");
  ignore (store_batch b (fun _ => CResetBatch)).

Definition learn_batchVK (vk : string) (c : foldChain) : foldChain :=
  if decide (fc_batchVK c = ""%string) then fc_set_vks (fc_aggVK c) vk c else c.

Definition append_pending (b : nat) (c : foldChain) : foldChain :=
  fc_set_pending (fc_pending c ++ [b]) c.

(** [importBatch] *)
Definition importBatch (fc : chain_loc) (wk b : nat) (proof : bytes) : stE W unit :=
  job ← importProof wk proof ImportBatch;
  vk ← call_worker wk (fun n a => FetchStarkInfo n a job);
  c ← chain_at fc;
  if vk_ok (wantBatchVK c) vk then
    _ ← on_chain fc (learn_batchVK vk);
    a ← address wk;
    _ ← on_object b (fun bi => bi_set_jobs (bi_Worker bi) (bi_JobID bi) job a bi);
    _ ← store_batch b CSetBatchInput;
    on_chain fc (append_pending b)
  else
    _ ← dropBatchProof fc b;
    throw errorf.

(** ** The sync of the chain *)

(** The chain starts again from genesis. *)
Definition fc_genesis : foldChain -> foldChain := fc_set_head "" "" 0 0 "".

(** The last fold is job [job] of the worker at [a]. *)
Definition fc_moved (job a : string) (c : foldChain) : foldChain :=
  fc_set_head job a (fc_foldCount c) (fc_batchesFolded c) (fc_stateRoot c) c.

Definition import_last_fold (id : ElectionID) (fc : chain_loc) (wk : nat) : stE W unit :=
  r ← attempt (store_call (fun _ => CFoldProof id));
  match r with
  | Err e => if errors_Is e ErrNotFound then on_chain fc fc_genesis else throw e
  | Ok proof =>
      job ← importProof wk proof ImportFold;
      a ← address wk;
      _ ← on_chain fc (fc_moved job a);
      c ← chain_at fc;
      store_call (fun now => CSetFoldCheckpoint now (checkpoint id c))
  end.

Fixpoint sync_loop (id : ElectionID) (fc : chain_loc) (wk : nat) (force : bool) (bs : list nat) : stE W unit :=
  match bs with
  | [] => mret tt
  | b :: bs =>
      bi ← object b;
      c ← chain_at fc;
      a ← address wk;
      if (bi_Seq bi <? fc_next c)%N then sync_loop id fc wk force bs
      else if negb (bi_Seq bi =? fc_next c)%N then throw errorf
      else if negb force && bool_decide (bi_ImportedID bi <> ""%string) && bool_decide (bi_FoldWorker bi = a)
      then _ ← on_chain fc (append_pending b); sync_loop id fc wk force bs
      else
        r ← attempt (store_call (fun _ => CBatchProof id (bi_Seq bi)));
        match r with
        | Err e => if errors_Is e ErrNotFound then mret tt else throw e
        | Ok proof => _ ← importBatch fc wk b proof; sync_loop id fc wk force bs
        end
  end.

(** [sync] *)
Definition sync (id : ElectionID) (fc : chain_loc) (wk : nat) : stE W unit :=
  c ← chain_at fc;
  a ← address wk;
  let force := fc_resync c in
  _ ← (if bool_decide (fc_lastFold c <> ""%string) && (force || bool_decide (fc_lastFoldOn c <> a))
       then import_last_fold id fc wk else mret tt);
  batches ← store_call (fun _ => CListBatchInputs id);
  bs ← new_objects batches;
  _ ← on_chain fc (fc_set_pending []);
  _ ← sync_loop id fc wk force bs;
  on_chain fc (fc_set_sync true false).

(** [withFoldWorker]: [more] further attempts when the worker fails. *)
Definition on_fold_worker {A} (id : ElectionID) (fc : chain_loc) (wk : nat) (op : nat -> stE W A) : stE W A :=
  c ← chain_at fc;
  _ ← (if fc_synced c then mret tt else sync id fc wk);
  op wk.

Fixpoint withFoldWorker_loop {A} (more : nat) (id : ElectionID) (fc : chain_loc) (op : nat -> stE W A) :
    stE W A :=
  wk ← foldWorker id fc;
  r ← attempt (on_fold_worker id fc wk op);
  match r with
  | Ok x => mret x
  | Err e =>
      if negb (errors_Is e errFoldWorker) then throw e
      else
        _ ← on_chain fc (fun c => fc_set_sync (fc_synced c) true c);
        st ← stopping;
        match more with
        | S more => if st : bool then throw e else withFoldWorker_loop more id fc op
        | O => throw e
        end
  end.
Definition withFoldWorker {A} (id : ElectionID) (fc : chain_loc) (op : nat -> stE W A) : stE W A :=
  withFoldWorker_loop 1 id fc op.

(** ** The proof of a batch *)

(** [checkBatchVK] *)
Definition checkBatchVK (wk : nat) (job want : string) : stE W unit :=
  vk ← ask wk (fun n a => FetchStarkInfo n a job);
  throw_if (negb (vk_ok want vk)) errorf.

(** [acquire]; a wait ends within a poll interval. *)
Fixpoint acquire_loop (fuel : nat) (id : ElectionID) (avoid : list string) : stE W nat :=
  match fuel with
  | O => throw [Diverges]
  | S fuel =>
      st ← stopping;
      _ ← throw_if st [Canceled];
      st ← stopped id;
      _ ← throw_if st [errStopped];
      other ← pool_get (fun now => LeastLoaded now avoid);
      let exclude := match other with Some _ => avoid | None => [] end in
      able ← pool_get (fun now => LeastLoaded now exclude);
      _ ← throw_if (bool_decide (able = None)) [errNoWorker];
      w ← pool_Acquire exclude;
      match w with
      | Some wk => mret wk
      | None => _ ← yield; acquire_loop fuel id avoid
      end
  end.
Definition acquire (id : ElectionID) (avoid : list string) : stE W nat := acquire_loop rounds id avoid.

(** A proved job's proof.bin, checked against the batch circuit. *)
Definition fetch_proof (wk : nat) (job wantVK : string) : stE W bytes :=
  _ ← waitJob wk job;
  _ ← checkBatchVK wk job wantVK;
  ask wk (fun n a => FetchStarkRaw n a job).

(** [proveOn] *)
Definition proveOn (b wk : nat) (req : ProveRequest StateTransitionData ReencryptionData)
    (wantVK : string) : stE W bytes :=
  job ← ask wk (fun n a => SubmitProve n a req);
  a ← address wk;
  _ ← on_object b (fun bi => bi_set_jobs a job (bi_ImportedID bi) (bi_FoldWorker bi) bi);
  _ ← ignore (store_batch b CSetBatchInput);
  fetch_proof wk job wantVK.

(** [prove] *)
Definition set_Output (out : string) (r : ProveRequest StateTransitionData ReencryptionData) :=
  MkProveRequest (pr_VK _ _ r) out (pr_State _ _ r) (pr_Reencryption _ _ r) (pr_Proofs _ _ r)
    (pr_PublicInputs _ _ r) (pr_Sigs _ _ r) (pr_CensusProofs _ _ r).

Fixpoint prove_loop (attempts : nat) (last : option error) (failed : list string) (id : ElectionID)
    (b : nat) (req : ProveRequest StateTransitionData ReencryptionData) (wantVK : string) : stE W bytes :=
  match attempts with
  | O => throw (default errorf last)
  | S attempts =>
      r ← attempt (acquire id failed);
      match r with
      | Err e => throw (default e last)
      | Ok wk =>
          r ← attempt (proveOn b wk req wantVK);
          _ ← pool_Release wk;
          match r with
          | Ok proof => _ ← WorkerResult_ wk true; mret proof
          | Err e =>
              st ← stopping;
              if st : bool then throw e
              else
                _ ← WorkerResult_ wk false;
                a ← address wk;
                prove_loop attempts (Some e) (failed ++ [a]) id b req wantVK
          end
      end
  end.

Definition prove (id : ElectionID) (b : nat) (avoid : list string) (wantVK : string) : stE W bytes :=
  bi ← object b;
  req ← lift (of_option (unmarshal_request (bi_ProveRequest bi)) errorf);
  prove_loop maxJobAttempts None avoid id b (set_Output "stark" req) wantVK.

(** [reusable] *)
Definition reusable (b : nat) (avoid : list string) : stE W (option nat) :=
  bi ← object b;
  if decide (bi_JobID bi = ""%string \/ bi_Worker bi ∈ avoid) then mret None
  else
    w ← pool_get (fun _ => GetWorker (bi_Worker bi));
    match w with
    | None => mret None
    | Some wk => _ ← pool_Hold wk; mret (Some wk)
    end.

(** [reusedProof] *)
Definition reusedProof (wk b : nat) (wantVK : string) : stE W (option bytes) :=
  bi ← object b;
  st ← attempt (ask wk (fun n a => GetJob n a (bi_JobID bi)));
  match st with
  | Ok (JobQueued | JobRunning | JobDone) =>
      r ← attempt (fetch_proof wk (bi_JobID bi) wantVK);
      mret (match r with Ok proof => Some proof | Err _ => None end)
  | _ => mret None
  end.

(** [batchProof], once the batch is reserved. *)
Definition release_held (held : option nat) : stE W unit :=
  match held with Some wk => pool_Release wk | None => mret tt end.

Definition stored_proof (id : ElectionID) (b : nat) (avoid : list string) (wantVK : string)
    (reused : option bytes) : stE W bytes :=
  bi ← object b;
  proof ← match reused with Some proof => mret proof | None => prove id b avoid wantVK end;
  st ← stopped id;
  if st : bool then mret proof
  else
    _ ← store_call (fun _ => CSetBatchProof id (bi_Seq bi) proof);
    st ← stopped id;
    _ ← (if st : bool then ignore (store_call (fun _ => CDeleteBatchProof id (bi_Seq bi))) else mret tt);
    mret proof.

Definition reserve_batch (id : ElectionID) (seq : N) : stE W unit :=
  reserved ← store_call (fun _ => CIsBatchReserved id seq);
  if reserved : bool then mret tt else store_call (fun now => CReserveBatch now id seq).

Definition batchProof (id : ElectionID) (b : nat) (held : option nat) (avoid : list string)
    (wantVK : string) : stE W bytes :=
  bi ← object b;
  r ← attempt (reserve_batch id (bi_Seq bi));
  match r with
  | Err e => _ ← release_held held; throw e
  | Ok _ =>
      reused ← match held with Some wk => reusedProof wk b wantVK | None => mret None end;
      _ ← release_held held;
      r ← attempt (stored_proof id b avoid wantVK reused);
      _ ← ignore (store_call (fun _ => CReleaseBatch id (bi_Seq bi)));
      lift r
  end.

(** ** Folds *)

(** [foldVK] *)
Definition foldVK (fc : chain_loc) (wk : nat) (job : string) : stE W string :=
  vk ← call_worker wk (fun n a => FetchStarkInfo n a job);
  c ← chain_at fc;
  if vk_ok (wantAggVK c) vk then mret vk
  else _ ← WorkerResult_ wk false; throw [errFoldWorker].

(** [foldFailed] *)
Definition fc_set_failures (n : nat) (c : foldChain) : foldChain :=
  fc_set_failing n (fc_reproved c) (fc_headSuspect c) (fc_avoid c) c.

Definition count_failure (e : error) (c : foldChain) : foldChain :=
  if errors_Is e errJobFailed then fc_set_failures (S (fc_foldFailures c)) c else c.

Definition foldFailed (fc : chain_loc) (e : error) : stE W unit :=
  _ ← on_chain fc (count_failure e);
  c ← chain_at fc;
  if (fc_foldFailures c <? maxFoldFailures)%nat then mret tt
  else
    _ ← on_chain fc (fc_set_failures 0);
    if negb (fc_reproved c) then
      _ ← on_chain fc (fun c => fc_set_failing 0 true (fc_headSuspect c) (fc_avoid c) c);
      _ ← for_each (fc_pending c) (dropBatchProof fc);
      on_chain fc (fc_set_pending [])
    else on_chain fc (fun c => fc_set_failing 0 (fc_reproved c) true (fc_avoid c) c).

(** [runFold], and what its caller does when it fails. *)
Definition runFold (wk : nat) (req : FoldRequest JobConfig) : stE W string :=
  runJob wk (fun n a => SubmitFold n a req).

Definition run_fold (fc : chain_loc) (wk : nat) (req : FoldRequest JobConfig) : stE W string :=
  r ← attempt (runFold wk req);
  match r with
  | Ok job => mret job
  | Err e => _ ← foldFailed fc e; throw e
  end.

(** The bootstrap pass, which learns the aggregator's program vk. *)
Definition bootstrap (fc : chain_loc) (wk : nat) (cfg : JobConfig) (jobs : list string) : stE W unit :=
  boot ← run_fold fc wk (MkFoldRequest cfg (take 1 jobs) "" "");
  vk ← foldVK fc wk boot;
  on_chain fc (fun c => fc_set_vks vk (fc_batchVK c) c).

Definition fold_request (cfg : JobConfig) (jobs : list string) (c : foldChain) : FoldRequest JobConfig :=
  if decide (fc_lastFold c = ""%string) then MkFoldRequest cfg jobs (fc_aggVK c) ""
  else MkFoldRequest cfg jobs "" (fc_lastFold c).

(** The head of the chain after a fold of [bis] by job [job] of the worker at [a]. *)
Definition folded_head (job a : string) (bis : list BatchInput) (c : foldChain) : foldChain :=
  fc_set_head job a (u64_succ (fc_foldCount c))
    (u64 (fc_batchesFolded c + N.of_nat (length bis)))
    (default "" (bi_NewStateRoot <$> last bis)) c.

Definition fc_folded (job a : string) (bis : list BatchInput) (c : foldChain) : foldChain :=
  fc_set_failing 0 false false ∅ (fc_set_pending [] (folded_head job a bis c)).

Fixpoint objects (bs : list nat) : stE W (list BatchInput) :=
  match bs with
  | [] => mret []
  | b :: bs => bi ← object b; bis ← objects bs; mret (bi :: bis)
  end.

Definition commit_fold (id : ElectionID) (fc : chain_loc) (wk : nat) (bis : list BatchInput) (job : string)
    (proof : bytes) : stE W unit :=
  c ← chain_at fc;
  a ← address wk;
  _ ← store_call (fun now =>
        CCommitFold now (checkpoint id (folded_head job a bis c)) proof (bi_Seq <$> bis));
  _ ← on_chain fc (fc_folded job a bis);
  for_each bis (fun bi => for_each (bi_VoteIDs bi) (fun v =>
    ignore (store_call (fun _ => CSetVoteStatus id v VoteStatusFolded)))).

Definition fold_claimed (id : ElectionID) (fc : chain_loc) (wk : nat) (cfg : JobConfig) : stE W unit :=
  c ← chain_at fc;
  bis ← objects (fc_pending c);
  let jobs := bi_ImportedID <$> bis in
  _ ← (if decide (fc_aggVK c = ""%string) then bootstrap fc wk cfg jobs else mret tt);
  c ← chain_at fc;
  job ← run_fold fc wk (fold_request cfg jobs c);
  _ ← foldVK fc wk job;
  proof ← call_worker wk (fun n a => FetchStarkRaw n a job);
  commit_fold id fc wk bis job proof.

(** [rt.current()] of a runtime. *)
Definition current (l : nat) : stE W ChainState := fun w =>
  match w_heap w !! l with
  | Some rt => (Ok (rt_state rt), w)
  | None => (Err [Panic], w)
  end.

(** An operation on a claimed worker. *)
Definition claimed {A} (wk : nat) (m : stE W A) : stE W A :=
  r ← attempt m;
  _ ← pool_Release wk;
  lift r.

(** [fold] *)
Definition fold (id : ElectionID) (fc : chain_loc) (wk : nat) : stE W unit :=
  c ← chain_at fc;
  if decide (fc_pending c = []) then mret tt
  else
    st ← stopped id;
    if st : bool then mret tt
    else
      rt ← runtime id;
      match rt with
      | None => mret tt
      | Some l =>
          state ← current l;
          _ ← claim wk;
          claimed wk (fold_claimed id fc wk (State_ChainConfig state))
      end.
End fold.
