(* ===== verification/Scatter.v ===== *)
(** * The passes over an election's batches (orchestrator/scatter.go,
    dispatch.go, finalize.go, and drive and advance of scheduler.go)

    A pass proves the batches in parallel, gathers their proofs in order onto
    the fold worker and folds them on the cadence.  A prove runs on its own
    goroutine: it makes its steps while the pass waits for a proof, in the
    order [turns] gives, or when the pass ends. *)

From S2P Require Import Prelude Errors Effects Bytes Types Records Keys Artifacts Storage.
From S2P Require Import StorageRefine Retries Workers Sdk Config Seal Chains Engine Finalize.
From S2P Require Import Scheduler Fold Lifecycle.

Section scatter.
Context {D : Type} `{ADB D} `{Provers} `{!Others D}.
Abbreviation W := (World D).

Definition pass (id : ElectionID) : stE W scatter := fun w =>
  match sc_passes (w_sched w) !! id with
  | Some s => (Ok s, w)
  | None => (Err [Panic], w)
  end.
Definition on_passes (f : gmap ElectionID scatter -> gmap ElectionID scatter) : stE W unit :=
  on_sched (fun s => sc_set_passes (f (sc_passes s)) s).
Definition add_batch (b : nat) (s : scatter) : scatter := MkScatter (s_batches s ++ [b]) (s_tasks s).
Definition set_task (seq : N) (t : proveTask) (s : scatter) : scatter :=
  MkScatter (s_batches s) (<[seq := t]> (s_tasks s)).
Definition drop_task (seq : N) (s : scatter) : scatter :=
  MkScatter (s_batches s) (delete seq (s_tasks s)).

(** [newScatter] *)
Definition newScatter (id : ElectionID) (bs : list nat) : stE W unit :=
  on_passes <[id := MkScatter bs ∅]>.

(** [newTask] *)
Definition newTask (id : ElectionID) (fc : chain_loc) (b : nat) : stE W proveTask :=
  bi ← object b;
  r ← attempt (store_call (fun _ => CBatchProof id (bi_Seq bi)));
  match r with
  | Err e =>
      if errors_Is e ErrNotFound then
        c ← chain_at fc;
        let avoid := default [] (fc_avoid c !! bi_Seq bi) in
        held ← reusable b avoid;
        mret (TaskRunning b held avoid (wantBatchVK c))
      else mret (TaskDone (Err e))
  | Ok proof => mret (TaskDone (Ok proof))
  end.

(** The end of the window: as many batches as workers, and up to the last one
    with a prove job left by a previous run. *)
Definition window_end (from : nat) (tasks : gmap N proveTask) (bis : list BatchInput) : nat :=
  foldl (fun e p =>
    if (from <=? p.1)%nat && bool_decide (tasks !! bi_Seq p.2 = None)
       && bool_decide (bi_JobID p.2 <> ""%string)
    then S p.1 else e) from (zip (seq 0 (length bis)) bis).

Definition start_task (id : ElectionID) (fc : chain_loc) (b : nat) : stE W unit :=
  bi ← object b;
  s ← pass id;
  match s_tasks s !! bi_Seq bi with
  | Some _ => mret tt
  | None => t ← newTask id fc b; on_passes (alter (set_task (bi_Seq bi) t) id)
  end.

(** [start] *)
Definition start (id : ElectionID) (fc : chain_loc) (i : nat) : stE W unit :=
  avail ← pool_get Available;
  s ← pass id;
  bis ← objects (s_batches s);
  let to := window_end (Nat.min (i + Nat.max avail 1) (length bis)) (s_tasks s) bis in
  for_each (take (to - i) (drop i (s_batches s))) (start_task id fc).

(** [topUp] *)
Fixpoint topUp_loop (fuel : nat) (id : ElectionID) (seq : N) : stE W unit :=
  match fuel with
  | O => throw [Diverges]
  | S fuel =>
      r ← attempt (store_call (fun _ => CBatchInput id (u64_succ seq)));
      match r with
      | Err _ => mret tt
      | Ok bi =>
          b ← new_object bi;
          _ ← on_passes (alter (add_batch b) id);
          topUp_loop fuel id (bi_Seq bi)
      end
  end.
Definition topUp (id : ElectionID) : stE W unit :=
  s ← pass id;
  match last (s_batches s) with
  | None => throw [Panic]
  | Some b => bi ← object b; topUp_loop rounds id (bi_Seq bi)
  end.

(** A prove's goroutine. *)
Definition run_task (id : ElectionID) (seq : N) : stE W unit :=
  s ← pass id;
  match s_tasks s !! seq with
  | Some (TaskRunning b held avoid wantVK) =>
      r ← attempt (batchProof id b held avoid wantVK);
      on_passes (alter (set_task seq (TaskDone r)) id)
  | _ => mret tt
  end.

Definition run_turns (id : ElectionID) (also : list N) : stE W unit :=
  n ← sched sc_tick;
  for_each (turns n ++ also) (run_task id).

(** [proof]: [rounds] bounds the poll intervals it waits. *)
Fixpoint proof_loop (fuel : nat) (id : ElectionID) (fc : chain_loc) (i : nat) (seq : N) : stE W bytes :=
  match fuel with
  | O => throw [Diverges]
  | S fuel =>
      _ ← start id fc i;
      _ ← run_turns id [];
      s ← pass id;
      match s_tasks s !! seq with
      | None => throw [Panic]
      | Some (TaskDone r) => _ ← on_passes (alter (drop_task seq) id); lift r
      | Some (TaskRunning _ _ _ _) =>
          d ← sched sc_poll;
          _ ← yield_for d;
          _ ← topUp id;
          proof_loop fuel id fc i seq
      end
  end.
Definition proof (id : ElectionID) (fc : chain_loc) (i : nat) (seq : N) : stE W bytes :=
  _ ← topUp id; proof_loop rounds id fc i seq.

(** [wait], after which nothing refers to the pass. *)
Definition wait (id : ElectionID) : stE W unit :=
  s ← pass id;
  _ ← run_turns id (map_to_list (s_tasks s)).*1;
  on_passes (delete id).

(** ** [advance] *)

Definition cadence (c : foldChain) : bool := (fc_foldEvery c <=? Z.of_nat (length (fc_pending c)))%Z.

Definition fold_if (cond : foldChain -> bool) (id : ElectionID) (fc : chain_loc) (wk : nat) : stE W unit :=
  c ← chain_at fc;
  if cond c then fold id fc wk else mret tt.

(** The loop over the batches: whether it reached their end. *)
Fixpoint gather (fuel : nat) (id : ElectionID) (fc : chain_loc) (wk i : nat) : stE W bool :=
  match fuel with
  | O => throw [Diverges]
  | S fuel =>
      s ← pass id;
      match s_batches s !! i with
      | None => mret true
      | Some b =>
          bi ← object b;
          _ ← fold_if cadence id fc wk;
          c ← chain_at fc;
          if (bi_Seq bi <? fc_next c)%N then gather fuel id fc wk (S i)
          else if negb (bi_Seq bi =? fc_next c)%N then throw errorf
          else
            st ← stopped id;
            if st : bool then mret false
            else
              r ← attempt (proof id fc i (bi_Seq bi));
              st ← stopped id;
              if st : bool then mret false
              else
                p ← lift r;
                _ ← importBatch fc wk b p;
                gather fuel id fc wk (S i)
      end
  end.

Definition gather_and_fold (id : ElectionID) (fc : chain_loc) (wk : nat) (drain : bool) : stE W unit :=
  all ← gather rounds id fc wk 0;
  if all : bool then fold_if (fun c => drain || cadence c) id fc wk else mret tt.

(** The operation of a pass on the fold worker, with its deferred [wait]. *)
Definition pass_on (id : ElectionID) (fc : chain_loc) (bs : list nat) (drain : bool) (wk : nat) : stE W unit :=
  _ ← newScatter id bs;
  r ← attempt (gather_and_fold id fc wk drain);
  _ ← wait id;
  lift r.

Definition advance (id : ElectionID) (fc : chain_loc) (drain : bool) : stE W unit :=
  batches ← store_call (fun _ => CListBatchInputs id);
  match batches with
  | [] => mret tt
  | _ =>
      bs ← new_objects batches;
      withFoldWorker id fc (pass_on id fc bs drain)
  end.

(** [drive], under the election's drive lock. *)
Definition drive (id : ElectionID) (drain : bool) : stE W unit :=
  st ← stopped id;
  if st : bool then mret tt
  else fc ← chain id; advance id fc drain.

(** [Dispatch] and [Drain] *)
Definition Dispatch (id : ElectionID) : stE W unit := drive id false.
Definition Scheduler_Drain (id : ElectionID) : stE W unit := drive id true.

(** ** Finalizing (finalize.go) *)

Definition hex0x (b : bytes) : string := "0x" +:+ String.string_of_list_byte (hex_encode b).

Definition results_of (id : ElectionID) (tally : list N) (sn : PlonkSnark) (now : time) : Results := {|
  rs_ElectionID := id; rs_Tally := tally; rs_ProgramVK := hex0x (sn_ProgramVK sn);
  rs_RootCVadcopFinal := hex0x (sn_RootCVadcopFinal sn);
  rs_PublicValues := hex0x (sn_PublicValues sn); rs_ProofBytes := hex0x (sn_ProofBytes sn);
  rs_FinalizedAt := now |}.

(** The two requests of the final proof, made as one. *)
Definition FetchFinal (job : string) (n : nat) (a : string) : option (bytes * PlonkSnark) :=
  publics ← FetchPublics n a job; snark ← FetchSnark n a job; Some (publics, snark).

(** [finalizeOn], on the claimed worker. *)
Definition finalize_claimed (id : ElectionID) (fc : chain_loc) (wk : nat) (state : ChainState)
    (payload : ResultsPayload) (results : list N) : stE W Results :=
  c ← chain_at fc;
  let req := MkFinalizeRequest (State_ChainConfig state) (fc_lastFold c) (fc_aggVK c) payload in
  job ← rethrow (wrap errFinalProofFailed) (runJob wk (fun n a => SubmitFinalize n a req));
  final ← rethrow (wrap errFinalProofFailed) (call_worker wk (FetchFinal job));
  digest ← lift (of_option (ParseDigest final.1) (wrap errFinalProofFailed errorf));
  c ← chain_at fc;
  _ ← rethrow (wrap errVerificationFailed) (lift (verifyFinalDigest digest (sn_ProgramVK final.2)
        state (fc_foldCount c) (fc_batchVK c) (fc_aggVK c) results));
  now ← clock;
  mret (results_of id results final.2 now).

Definition finalizeOn (id : ElectionID) (fc : chain_loc) (state : ChainState) (payload : ResultsPayload)
    (results : list N) (wk : nat) : stE W Results :=
  _ ← rethrow (wrap errFinalProofFailed) (claim wk);
  claimed wk (finalize_claimed id fc wk state payload results).

(** [Finalize] up to the write of the results, under the election's drive lock. *)
Definition finalize_results (id : ElectionID) (key : Z) : stE W Results :=
  rt ← runtime id;
  match rt with
  | None => throw errorf
  | Some l =>
      fc ← chain id;
      _ ← rethrow (wrap errFinalFoldFailed) (advance id fc true);
      c ← chain_at fc;
      _ ← throw_if (bool_decide (fc_lastFold c = ""%string)) [errNothingToFinalize];
      state ← current l;
      p ← lift (of_option (State_ResultsPayload state key) [errDecryptionFailed]);
      withFoldWorker id fc (finalizeOn id fc state p.1 p.2)
  end.

(** [Finalize] *)
Definition Scheduler_Finalize (id : ElectionID) (key : Z) : stE W Results :=
  res ← finalize_results id key;
  _ ← store_call (fun now => CSetResults now res);
  mret res.

(** ** The dispatch loop (dispatch.go) *)

Definition on_dispatchers (f : gmap ElectionID bool -> gmap ElectionID bool) : stE W unit :=
  modify (fun w => w_set_env (set_dispatchers (f <$> env_dispatchers (w_env w)) (w_env w)) w).

(** The dispatchers; [true] is a trigger in the channel. *)
Definition dispatcher_of (id : ElectionID) : stE W (option bool) :=
  gets (fun w => env_dispatchers (w_env w) ≫= fun d => d !! id).

(** [forgetLocked] *)
Definition forgetLocked (id : ElectionID) : stE W unit :=
  on_sched (fun s => sc_set_chains (delete id (sc_chains s)) s).

(** [Forget] *)
Definition Scheduler_Forget (id : ElectionID) : stE W unit :=
  d ← dispatcher_of id;
  match d with
  | Some _ => on_dispatchers <[id := true]>
  | None => forgetLocked id
  end.

(** An iteration of [dispatchLoop]: whether the loop goes on. *)
Definition after_dispatch (id : ElectionID) (r : result unit) : stE W bool :=
  st ← stopping;
  if st : bool then mret true
  else
    fin ← finished id;
    if fin : bool then
      _ ← modify (fun w => w_set_retries (forget id (w_retries w)) w);
      _ ← on_dispatchers (delete id);
      _ ← forgetLocked id;
      mret false
    else
      now ← clock;
      _ ← modify (fun w => w_set_retries (match r with
            | Err _ => failed now id taskDispatch (w_retries w)
            | Ok _ => succeeded id taskDispatch (w_retries w)
            end) w);
      mret true.

Definition dispatch_pass (id : ElectionID) : stE W bool :=
  d ← dispatcher_of id;
  match d with
  | Some true =>
      _ ← on_dispatchers <[id := false]>;
      r ← attempt (Dispatch id);
      after_dispatch id r
  | _ => mret true
  end.
End scatter.

(** ** The engine's scheduler *)

#[export] Instance EngineScheduler {D} `{ADB D} `{Provers} `{!Others D} : SchedulerOps D := {|
  Drain := Scheduler_Drain;
  Finalize := Scheduler_Finalize;
  Forget := Scheduler_Forget;
|}.
