(* ===== verification/JobSteps.v ===== *)
(** * The steps of the scheduler's operations

    What an operation of the scheduler does to the world is made of a few
    kinds of step: other goroutines run, the pool or a storage record changes,
    a batch object gets its jobs.  A relation that these steps keep is kept by
    the whole operation, on every path; the instances say what the scheduler
    leaves alone. *)

From S2P Require Import Prelude Errors Effects Bytes Types Records KV Keys Artifacts Storage.
From S2P Require Import StorageRefine Retries Workers Sdk Config Seal Chains Engine Finalize.
From S2P Require Import Scheduler Fold Scatter.

(** The first step of a run, when the run gives a value. *)
Tactic Notation "first_step" hyp(E) "as" simple_intropattern(a) ident(w) simple_intropattern(Hm) :=
  apply bind_Ok in E as [(a & w & Hm & E)|(? & _ & [=])].

(** The storage calls of a pass. *)
Definition pass_call {A} (c : call A) : Prop :=
  match c with
  | CElection _ | CListBatchInputs _ | CFoldCheckpoint _ | CFoldProof _ | CBatchProof _ _
  | CBatchInput _ _ | CIsBatchReserved _ _ | CReserveBatch _ _ _ | CReleaseBatch _ _
  | CSetBatchInput _ _ | CResetBatch _ | CSetFoldCheckpoint _ _ | CSetBatchProof _ _ _
  | CDeleteBatchProof _ _ | CCommitFold _ _ _ _ | CAppendAudit _ _ => True
  | CUpdateElection _ _ f => exists a, f = set_FoldWorker a
  | CSetVoteStatus _ _ st => st = VoteStatusFolded
  | _ => False
  end.

(** ... and of a finalize, which stores the results. *)
Definition sched_call {A} (c : call A) : Prop :=
  match c with CSetResults _ _ => True | _ => pass_call c end.

Lemma pass_sched {A} (c : call A) : pass_call c -> sched_call c.
Proof. by destruct c. Qed.

(** An update of a batch object's jobs. *)
Definition sets_jobs (f : BatchInput -> BatchInput) : Prop :=
  forall bi, exists a j i w, f bi = bi_set_jobs a j i w bi.

Lemma sets_jobs_const a j i w : sets_jobs (bi_set_jobs a j i w).
Proof. intros bi. by exists a, j, i, w. Qed.
Lemma sets_jobs_imported j w : sets_jobs (fun bi => bi_set_jobs (bi_Worker bi) (bi_JobID bi) j w bi).
Proof. intros bi. by eexists _, _, _, _. Qed.
Lemma sets_jobs_proved a j : sets_jobs (fun bi => bi_set_jobs a j (bi_ImportedID bi) (bi_FoldWorker bi) bi).
Proof. intros bi. by eexists _, _, _, _. Qed.

#[export] Hint Resolve sets_jobs_const sets_jobs_imported sets_jobs_proved : fold.

(** A change of the pool that keeps the worker objects and their addresses. *)
Definition addr_keep (p p' : WorkerManager) : Prop :=
  forall l o, wm_objects p !! l = Some o ->
    exists o', wm_objects p' !! l = Some o' /\ w_Address o' = w_Address o.

#[export] Instance addr_keep_refl : Reflexive addr_keep.
Proof. intros p l o Ho. by exists o. Qed.
#[export] Instance addr_keep_trans : Transitive addr_keep.
Proof.
  intros p1 p2 p3 H1 H2 l o (o' & H' & ?)%H1. destruct (H2 _ _ H') as (o'' & ? & ?).
  exists o''. split; [done|congruence].
Qed.

Lemma addr_keep_on_worker l f p : (forall o, w_Address (f o) = w_Address o) -> addr_keep p (on_worker l f p).
Proof.
  intros Hf l' o Ho. unfold on_worker. cbn. destruct (decide (l' = l)) as [->|Hne].
  - exists (f o). by rewrite lookup_alter_eq, Ho.
  - exists o. by rewrite lookup_alter_ne by congruence.
Qed.
Lemma addr_keep_cas l p : addr_keep p (cas_jobs l p).2.
Proof. unfold cas_jobs. destruct (_ =? _)%Z; [by apply addr_keep_on_worker|done]. Qed.
Lemma addr_keep_add_jobs n l p : addr_keep p (add_jobs n l p).
Proof. by apply addr_keep_on_worker. Qed.
Lemma addr_keep_add_claimers n l p : addr_keep p (add_claimers n l p).
Proof. by apply addr_keep_on_worker. Qed.
Lemma addr_keep_thread now ctx t p : addr_keep p (thread_step now ctx t p).2.
Proof.
  destruct t as [ex|ex l|l|l|l f|l f|l f|l f|l r|l|l|l|a| |r]; cbn; try done.
  - by destruct (leastLoaded _ _ _ _).
  - pose proof (addr_keep_cas l p) as Hk. by destruct (cas_jobs l p).
  - apply addr_keep_add_claimers.
  - pose proof (addr_keep_cas l p) as Hk. by destruct (cas_jobs l p).
  - apply addr_keep_add_claimers.
  - apply addr_keep_add_jobs.
  - apply addr_keep_add_jobs.
  - intros l o Ho. by exists o.
  - intros l o Ho. by exists o.
Qed.
Lemma addr_keep_WorkerResult a ok p : addr_keep p (WorkerResult a ok p).
Proof.
  unfold WorkerResult, at_address. destruct (GetWorker a p); [|done].
  apply addr_keep_on_worker. intros o. by destruct ok.
Qed.

(** The calls whose arguments do not matter: a batch is written as its object
    has it, and a vote's status is written on a condition. *)
Definition job_call {A} (c : call A) : Prop :=
  match c with
  | CSetBatchInput _ _ | CResetBatch _ | CSetVoteStatus _ _ _ => False
  | _ => pass_call c
  end.

Lemma job_pass {A} (c : call A) : job_call c -> pass_call c.
Proof. by destruct c. Qed.

(** A pass keeps its batches. *)
Definition keeps_list (f : scatter -> scatter) : Prop := forall s, s_batches (f s) = s_batches s.

(** The batches of a chain stay, or go. *)
Definition shrinks (f : foldChain -> foldChain) : Prop := forall c,
  fc_pending (f c) = fc_pending c \/ fc_pending (f c) = [].

(** A relation the steps of the jobs keep: they write the record of a batch
    from its object and change neither the chains nor the lists of the passes. *)
Class JobRel {D} `{ADB D} `{Provers} `{!Others D} (R : relation (World D)) := {
  jr_pre :: PreOrder R;
  jr_yield d w : R w (yield_for d w).2;
  jr_pool p p' w : w_pool w = Some p -> addr_keep p p' -> R w (w_set_pool (Some p') w);
  jr_call A (c : call A) w : job_call c -> R w (on_store (run_call c) w).2;
  jr_set now b w : R w ((bi ← object b; on_store (run_call (CSetBatchInput now bi))) w).2;
  jr_reset b w : R w ((bi ← object b; on_store (run_call (CResetBatch bi))) w).2;
  jr_jobs b f w : sets_jobs f -> R w (on_object b f w).2;
  jr_task f id w : keeps_list f -> R w (on_passes (alter f id) w).2;
  jr_end id w : R w (on_passes (delete id) w).2;
}.

(** ... and that all the steps that touch no chain keep. *)
Class PassRel {D} `{ADB D} `{Provers} `{!Others D} (R : relation (World D)) := {
  pr_pre : PreOrder R;
  pr_yield d w : R w (yield_for d w).2;
  pr_pool p p' w : w_pool w = Some p -> addr_keep p p' -> R w (w_set_pool (Some p') w);
  pr_call A (c : call A) w : pass_call c -> R w (on_store (run_call c) w).2;
  pr_jobs b f w : sets_jobs f -> R w (on_object b f w).2;
  pr_new bi w : R w (new_object bi w).2;
  pr_pass f w : R w (on_passes f w).2;
}.

Lemma via_object_ {D} `{ADB D} `{Provers} `{!Others D} (R : relation (World D)) `{!PreOrder R} b :
  via R (object b).
Proof. apply via_state; [apply _|]. intros w. unfold object. by destruct (_ !! _). Qed.

#[export] Instance pass_job {D} `{ADB D} `{Provers} `{!Others D} (R : relation (World D)) :
  PassRel R -> JobRel R.
Proof.
  intros HR. pose proof pr_pre as Hpre. split; try apply HR.
  - intros A c w Hc. by apply pr_call, job_pass.
  - intros now b. change (via R (bi ← object b; on_store (run_call (CSetBatchInput now bi)))).
    apply via_bind; [done|by apply via_object_|]. intros bi w. by apply pr_call.
  - intros b. change (via R (bi ← object b; on_store (run_call (CResetBatch bi)))).
    apply via_bind; [done|by apply via_object_|]. intros bi w. by apply pr_call.
  - intros f id w _. apply pr_pass.
  - intros id w. apply pr_pass.
Qed.

(** ... and that the updates of the chains in [P] keep too, those that add no
    batch, or all. *)
Class HeadRel {D} `{ADB D} `{Provers} `{!Others D} (R : relation (World D)) (P : chain_loc -> Prop) := {
  hr_job :: JobRel R;
  hr_chain fc f w : P fc -> shrinks f -> R w (on_chain fc f w).2;
}.
Class ChainRel {D} `{ADB D} `{Provers} `{!Others D} (R : relation (World D)) (P : chain_loc -> Prop) := {
  cr_pass :: PassRel R;
  cr_chain fc f w : P fc -> R w (on_chain fc f w).2;
  cr_new_chain id c w : R w (new_chain id c w).2;
}.
Definition any_chain (_ : chain_loc) : Prop := True.

#[export] Instance chain_head {D} `{ADB D} `{Provers} `{!Others D} (R : relation (World D)) P :
  ChainRel R P -> HeadRel R P.
Proof. intros HR. split; [apply _|]. intros fc f w HP _. by apply cr_chain. Qed.

(** ... and the write of the results. *)
Class FinalRel {D} `{ADB D} `{Chain} (R : relation (World D)) :=
  fr_results now r w : R w (on_store (run_call (CSetResults now r)) w).2.

(** ** The operations that touch no chain *)

Section jobs.
Context {D : Type} `{ADB D} `{Provers} `{!Others D} (R : relation (World D)) `{!JobRel R}.
Abbreviation W := (World D).
Implicit Types (A : Type).

Lemma via_yield_for d : via R (yield_for d).
Proof. intros w. apply jr_yield. Qed.
Lemma via_yield : via R yield.
Proof. intros w. apply jr_yield. Qed.
Lemma via_sched {A} (f : Scheduler -> A) : via R (sched f).
Proof. apply via_gets, _. Qed.
Lemma via_clock : via R clock.
Proof. apply via_gets, _. Qed.
Lemma via_stopping : via R stopping.
Proof. apply via_gets, _. Qed.
Lemma via_address wk : via R (address wk).
Proof. apply via_state; [apply _|]. intros w. unfold address. by destruct (_ ≫= _). Qed.
Lemma via_chain_at fc : via R (chain_at fc).
Proof. apply via_state; [apply _|]. intros w. unfold chain_at. by destruct (_ !! _). Qed.
Lemma via_object b : via R (object b).
Proof. apply via_state; [apply _|]. intros w. unfold object. by destruct (_ !! _). Qed.
Lemma via_pass id : via R (pass id).
Proof. apply via_state; [apply _|]. intros w. unfold pass. by destruct (_ !! _). Qed.
Lemma via_runtime id : via R (runtime id).
Proof. apply via_gets, _. Qed.
Lemma via_current l : via R (current l).
Proof. apply via_state; [apply _|]. intros w. unfold current. by destruct (_ !! _). Qed.
Lemma via_task f id : keeps_list f -> via R (on_passes (alter f id)).
Proof. intros Hf w. by apply jr_task. Qed.
Lemma via_end_pass id : via R (on_passes (delete id)).
Proof. intros w. apply jr_end. Qed.
Lemma via_on_object b f : sets_jobs f -> via R (on_object b f).
Proof. intros Hf w. by apply jr_jobs. Qed.
Lemma via_call {A} (c : call A) : job_call c -> via R (on_store (run_call c)).
Proof. intros Hc w. by apply jr_call. Qed.
End jobs.

#[export] Hint Resolve via_yield_for via_yield via_sched via_clock via_stopping via_address via_chain_at
  via_object via_pass via_runtime via_current via_task via_end_pass via_on_object via_call : via.
#[export] Hint Extern 1 (keeps_list _) => done : via.
#[export] Hint Extern 1 (job_call _) => first [exact I | reflexivity | by eexists] : via.
#[export] Hint Extern 1 (PassRel _) => tc_solve : via.
#[export] Hint Extern 1 (HeadRel _ _) => tc_solve : via.
#[export] Hint Extern 1 (pass_call _) => first [exact I | reflexivity | by eexists] : via.
#[export] Hint Extern 1 (JobRel _) => tc_solve : via.
#[export] Hint Resolve addr_keep_thread addr_keep_WorkerResult : via.

Section operations.
Context {D : Type} `{ADB D} `{Provers} `{!Others D} (R : relation (World D)) `{!JobRel R}.
Abbreviation W := (World D).
Implicit Types (A : Type).

Lemma via_store_call {A} (c : time -> call A) : (forall now, job_call (c now)) -> via R (store_call c).
Proof. intros Hc. unfold store_call. via. Qed.
Lemma via_store_set b : via R (store_batch b CSetBatchInput).
Proof.
  unfold store_batch. do 2 (apply via_bind; [apply _|solve [via]|intros ?]). intros w. apply jr_set.
Qed.
Lemma via_store_reset b : via R (store_batch b (fun _ => CResetBatch)).
Proof.
  unfold store_batch. do 2 (apply via_bind; [apply _|solve [via]|intros ?]). intros w. apply jr_reset.
Qed.
Lemma via_pool_run {A} (f : time -> WorkerManager -> A * WorkerManager) :
  (forall now p, addr_keep p (f now p).2) -> via R (pool_run f).
Proof.
  intros Hf. unfold pool_run. via. intros w. unfold with_pool. destruct (w_pool w) as [p|] eqn:Hp; [|done].
  specialize (Hf (sc_now (w_sched w)) p). destruct (f _ p). by apply (jr_pool p).
Qed.
Lemma via_pool_get {A} (f : time -> WorkerManager -> A) : via R (pool_get f).
Proof. by apply via_pool_run. Qed.
Lemma via_pool_do f : (forall p, addr_keep p (f p)) -> via R (pool_do f).
Proof. intros Hf. by apply via_pool_run. Qed.
Lemma via_pool_thread n t : via R (pool_thread_loop n t).
Proof.
  revert t. induction n as [|n IH]; intros t; cbn [pool_thread_loop]; [via|].
  apply via_bind; [apply _|via|intros st]. apply via_bind; [apply _|apply via_pool_run; via|intros t']. by via.
Qed.
End operations.

#[export] Hint Resolve via_store_call via_store_set via_store_reset via_pool_run via_pool_get via_pool_do
  via_pool_thread : via.

Section claim_operations.
Context {D : Type} `{ADB D} `{Provers} `{!Others D} (R : relation (World D)) `{!JobRel R}.
Abbreviation W := (World D).

Lemma via_pool_Acquire ex : via R (pool_Acquire ex).
Proof. unfold pool_Acquire. via. Qed.
Lemma via_pool_Claim wk : via R (pool_Claim wk).
Proof. unfold pool_Claim. via. Qed.
Lemma via_pool_Hold wk : via R (pool_Hold wk).
Proof. unfold pool_Hold. via. Qed.
Lemma via_pool_Release wk : via R (pool_Release wk).
Proof. unfold pool_Release. via. Qed.
End claim_operations.

#[export] Hint Resolve via_pool_Acquire via_pool_Claim via_pool_Hold via_pool_Release : via.

Section job_operations.
Context {D : Type} `{ADB D} `{Provers} `{!Others D} (R : relation (World D)) `{!JobRel R}.
Abbreviation W := (World D).

Lemma via_ask {A} wk (req : nat -> string -> option A) : via R (ask wk req).
Proof. unfold ask. via. Qed.
Lemma via_WorkerResult wk ok : via R (WorkerResult_ wk ok).
Proof. unfold WorkerResult_. via. Qed.
Lemma via_objects l : via R (objects l).
Proof. induction l as [|b l IH]; simpl; via. Qed.
Lemma via_stopped id : via R (stopped id).
Proof. unfold stopped. via. Qed.
Lemma via_finished id : via R (finished id).
Proof. unfold finished. via. Qed.
Lemma via_pause : via R pause.
Proof. unfold pause. via. Qed.
End job_operations.

#[export] Hint Resolve via_ask via_WorkerResult via_objects via_stopped via_finished
  via_pause : via.

Section job_runs.
Context {D : Type} `{ADB D} `{Provers} `{!Others D} (R : relation (World D)) `{!JobRel R}.
Abbreviation W := (World D).

Lemma via_call_worker {A} wk (req : nat -> string -> option A) : via R (call_worker wk req).
Proof.
  unfold call_worker. generalize maxJobAttempts true errorf. intros n.
  induction n as [|n IH]; intros first last; cbn [call_loop]; via.
Qed.
Lemma via_waitJob wk job : via R (waitJob wk job).
Proof.
  unfold waitJob. via. generalize (sc_now a + sc_timeout a)%Z 0%nat (polls a). intros deadline errs n.
  revert errs. induction n as [|n IH]; intros errs; cbn [waitJob_loop]; via.
Qed.
Lemma via_claim wk : via R (claim wk).
Proof.
  unfold claim. via.
Qed.
Lemma via_release_held held : via R (release_held held).
Proof. unfold release_held. via. Qed.
Lemma via_reusable b avoid : via R (reusable b avoid).
Proof. unfold reusable. via. Qed.
Lemma via_acquire id avoid : via R (acquire id avoid).
Proof.
  unfold acquire. generalize rounds. intros n. induction n as [|n IH]; cbn [acquire_loop]; via.
Qed.
Lemma via_importProof wk p kind : via R (importProof wk p kind).
Proof. apply via_call_worker. Qed.
End job_runs.

#[export] Hint Resolve via_call_worker via_waitJob via_claim via_release_held via_reusable via_acquire
  via_importProof : via.

Section proofs.
Context {D : Type} `{ADB D} `{Provers} `{!Others D} (R : relation (World D)) `{!JobRel R}.
Abbreviation W := (World D).

Lemma via_runJob wk submit : via R (runJob wk submit).
Proof.
  unfold runJob. generalize maxJobAttempts true errorf. intros n.
  induction n as [|n IH]; intros first last; cbn [runJob_loop]; via.
Qed.
Lemma via_claimed {A} wk (m : stE W A) : via R m -> via R (claimed wk m).
Proof. intros Hm. unfold claimed. via. Qed.
Lemma via_fetch_proof wk job want : via R (fetch_proof wk job want).
Proof. unfold fetch_proof, checkBatchVK. via. Qed.
Lemma via_proveOn b wk req want : via R (proveOn b wk req want).
Proof. unfold proveOn. via. apply via_fetch_proof. Qed.
Lemma via_prove id b avoid want : via R (prove id b avoid want).
Proof.
  unfold prove. via. generalize maxJobAttempts (@None error) avoid. intros n.
  induction n as [|n IH]; intros last failed; cbn [prove_loop]; via. apply via_proveOn.
Qed.
Lemma via_reusedProof wk b want : via R (reusedProof wk b want).
Proof. unfold reusedProof. via; apply via_fetch_proof. Qed.
Lemma via_stored_proof id b avoid want reused : via R (stored_proof id b avoid want reused).
Proof. unfold stored_proof. via; apply via_prove. Qed.
Lemma via_batchProof id b held avoid want : via R (batchProof id b held avoid want).
Proof.
  unfold batchProof, reserve_batch. via; [apply via_reusedProof|apply via_stored_proof].
Qed.
Lemma via_foldVK fc wk job : via R (foldVK fc wk job).
Proof. unfold foldVK. via. Qed.

(** *** The proves of a pass *)

Lemma via_newTask id fc b : via R (newTask id fc b).
Proof. unfold newTask. via. Qed.
Lemma via_start id fc i : via R (start id fc i).
Proof. unfold start, start_task. via. apply via_newTask. Qed.
Lemma via_run_turns id also : via R (run_turns id also).
Proof. unfold run_turns, run_task. via. apply via_batchProof. Qed.
Lemma via_wait id : via R (wait id).
Proof. unfold wait. via. apply via_run_turns. Qed.
End proofs.

#[export] Hint Resolve via_runJob via_claimed via_fetch_proof via_batchProof via_foldVK via_start via_run_turns
  via_wait : via.

(** ** The operations that add batches to a pass *)

Section passes.
Context {D : Type} `{ADB D} `{Provers} `{!Others D} (R : relation (World D)) `{!PassRel R}.
Abbreviation W := (World D).
Implicit Types (A : Type).

Lemma via_on_passes f : via R (on_passes f).
Proof. intros w. apply pr_pass. Qed.
Lemma via_new_object bi : via R (new_object bi).
Proof. intros w. apply pr_new. Qed.
Lemma via_pass_call {A} (c : time -> call A) : (forall now, pass_call (c now)) -> via R (store_call c).
Proof. intros Hc. unfold store_call. via. intros w. by apply pr_call. Qed.
Hint Resolve via_on_passes via_new_object : via.
Lemma via_new_objects l : via R (new_objects l).
Proof. induction l as [|bi l IH]; simpl; via. Qed.
Lemma via_topUp_loop fuel id seq : via R (topUp_loop fuel id seq).
Proof. revert seq. induction fuel as [|fuel IH]; intros seq; cbn [topUp_loop]; via. Qed.
Lemma via_topUp id : via R (topUp id).
Proof. unfold topUp. via. apply via_topUp_loop. Qed.
Lemma via_proof id fc i seq : via R (proof id fc i seq).
Proof.
  unfold proof. via; [apply via_topUp|]. generalize rounds. intros fuel.
  induction fuel as [|fuel IH]; cbn [proof_loop]; via; auto using via_topUp.
Qed.
End passes.

#[export] Hint Resolve via_on_passes via_new_objects via_pass_call via_proof : via.

(** ** The updates of a chain that add no batch *)

Lemma shrinks_same f : (forall c, fc_pending (f c) = fc_pending c) -> shrinks f.
Proof. intros Hf c. by left. Qed.
Lemma shrinks_learn vk : shrinks (learn_batchVK vk).
Proof. apply shrinks_same. intros c. unfold learn_batchVK. by case_decide. Qed.
Lemma shrinks_failure e : shrinks (count_failure e).
Proof. apply shrinks_same. intros c. unfold count_failure. by destruct (errors_Is _ _). Qed.
#[export] Hint Resolve shrinks_learn shrinks_failure : via.
#[export] Hint Extern 2 (shrinks _) => intros ?; first [by left | by right] : via.

Section heads.
Context {D : Type} `{ADB D} `{Provers} `{!Others D} (R : relation (World D)) {P : chain_loc -> Prop} `{!HeadRel R P}.
Abbreviation W := (World D).
Implicit Types (fc : chain_loc).

Lemma via_head fc f : P fc -> shrinks f -> via R (on_chain fc f).
Proof. intros HP Hf w. by apply hr_chain. Qed.
Hint Resolve via_head : via.
Lemma via_foldWorker id fc : P fc -> via R (foldWorker id fc).
Proof. intros HP. unfold foldWorker, move_chain. via. Qed.
Lemma via_dropBatchProof fc b : P fc -> via R (dropBatchProof fc b).
Proof. intros HP. unfold dropBatchProof. via. Qed.
Hint Resolve via_dropBatchProof : via.
Lemma via_import_last_fold id fc wk : P fc -> via R (import_last_fold id fc wk).
Proof. intros HP. unfold import_last_fold. via. Qed.
Lemma via_run_fold fc wk req : P fc -> via R (run_fold fc wk req).
Proof. intros HP. unfold run_fold, foldFailed. via. Qed.
Hint Resolve via_run_fold : via.
Lemma via_bootstrap fc wk cfg jobs : P fc -> via R (bootstrap fc wk cfg jobs).
Proof. intros HP. unfold bootstrap. via. Qed.
End heads.

(** ** The operations that move chains *)

Section chains.
Context {D : Type} `{ADB D} `{Provers} `{!Others D} (R : relation (World D)) {P : chain_loc -> Prop} `{!ChainRel R P}.
Abbreviation W := (World D).
Implicit Types (fc : chain_loc).

Lemma via_on_chain fc f : P fc -> via R (on_chain fc f).
Proof. intros HP w. by apply cr_chain. Qed.
Lemma via_new_chain id c : via R (new_chain id c).
Proof. intros w. apply cr_new_chain. Qed.
Hint Resolve via_on_chain via_new_chain : via.

Lemma via_chain id : via R (chain id).
Proof. unfold chain, legacy_chain, legacyBatchesFolded. via. Qed.
Hint Resolve via_chain via_foldWorker via_dropBatchProof via_import_last_fold via_run_fold via_bootstrap : via.
Lemma via_importBatch fc wk b p : P fc -> via R (importBatch fc wk b p).
Proof. intros HP. unfold importBatch. via. Qed.
Hint Resolve via_importBatch : via.
Lemma via_sync_loop id fc wk force bs : P fc -> via R (sync_loop id fc wk force bs).
Proof. intros HP. induction bs as [|b bs IH]; cbn [sync_loop]; via. Qed.
Lemma via_sync id fc wk : P fc -> via R (sync id fc wk).
Proof. intros HP. unfold sync. via. by apply via_sync_loop. Qed.
Hint Resolve via_sync : via.
Lemma via_withFoldWorker {A} id fc (op : nat -> stE W A) :
  P fc -> (forall wk, via R (op wk)) -> via R (withFoldWorker id fc op).
Proof.
  intros HP Hop. unfold withFoldWorker. generalize 1%nat. intros n.
  induction n as [|n IH]; cbn [withFoldWorker_loop]; unfold on_fold_worker; via.
Qed.
Hint Resolve via_withFoldWorker : via.
Lemma via_fold id fc wk : P fc -> via R (fold id fc wk).
Proof.
  intros HP. unfold fold. via. apply via_claimed; [apply _|]. unfold fold_claimed, commit_fold. via.
Qed.
Hint Resolve via_fold : via.
Lemma via_pass_on id fc bs drain wk : P fc -> via R (pass_on id fc bs drain wk).
Proof.
  intros HP. unfold pass_on, newScatter, gather_and_fold, fold_if. via.
  generalize rounds 0%nat. intros fuel.
  induction fuel as [|fuel IH]; intros i; cbn [gather]; unfold fold_if; via.
Qed.
Lemma via_advance id fc drain : P fc -> via R (advance id fc drain).
Proof. intros HP. unfold advance. via; apply via_withFoldWorker; [done|]; intros ?; by apply via_pass_on. Qed.
Hint Resolve via_advance : via.

(** The chains of the elections the work is on are in [P]. *)
Definition on_own_chain (id : ElectionID) : Prop := forall A (k : chain_loc -> stE W A),
  (forall fc, P fc -> via R (k fc)) -> via R (chain id ≫= k).

Lemma via_drive_own id drain : on_own_chain id -> via R (drive id drain).
Proof.
  intros Hown. unfold drive. apply via_bind; [apply _|by apply via_stopped, _|]. intros [|]; [via|].
  apply Hown. intros fc HP. via.
Qed.
Lemma via_finalize_results_own id key : on_own_chain id -> via R (finalize_results id key).
Proof.
  intros Hown. unfold finalize_results. apply via_bind; [apply _|by apply via_runtime, _|].
  intros [l|]; [|via]. apply Hown. intros fc HP. via.
  apply via_withFoldWorker; [done|]. intros wk. unfold finalizeOn. via.
  apply via_claimed; [apply _|]. unfold finalize_claimed. via.
Qed.
Lemma via_Finalize_own `{!FinalRel R} id key : on_own_chain id -> via R (Scheduler_Finalize id key).
Proof.
  intros Hown. unfold Scheduler_Finalize. via; [by apply via_finalize_results_own|].
  unfold store_call. via. intros w. apply fr_results.
Qed.
End chains.

(** Relations kept whatever the chain. *)
Section any_chain.
Context {D : Type} `{ADB D} `{Provers} `{!Others D} (R : relation (World D)) `{!ChainRel R any_chain}.

Lemma own_any id : on_own_chain R (P := any_chain) id.
Proof. intros A k Hk. apply via_bind; [apply _|by eapply via_chain|]. intros fc. by apply Hk. Qed.
Lemma via_drive id drain : via R (drive id drain).
Proof. by eapply via_drive_own, own_any. Qed.
Lemma via_finalize_results id key : via R (finalize_results id key).
Proof. by eapply via_finalize_results_own, own_any. Qed.
Lemma via_Finalize `{!FinalRel R} id key : via R (Scheduler_Finalize id key).
Proof. eapply via_Finalize_own; [apply _..|apply own_any]. Qed.
End any_chain.
