(* ===== verification/Confine.v ===== *)
(** * What the scheduler leaves alone

    A pass, a drain and a finalize of the scheduler are interleavings of steps
    of other goroutines with steps of its own, which change of the elections
    their fold worker alone, and neither the votes nor the engine's state.
    The engine's view of the scheduler follows. *)

From S2P Require Import Prelude Errors Effects Bytes Types Records KV Keys Artifacts Storage.
From S2P Require Import StorageRefine StorageSpec StorageProps Retries Workers Sdk Config Seal.
From S2P Require Import Chains Engine Finalize Lifecycle LifecycleProps Scheduler Fold Scatter.
From S2P Require Import JobSteps.

(** The artifacts the scheduler never writes. *)
Definition engine_key (k : Key) : bool :=
  match k with KVote _ _ | KVoteSeq _ | KSnapshot _ | KWorker _ => true | _ => false end.

(** An election, but for its fold worker and the time of its last update; as
    storage keeps it, in whole seconds. *)
Definition el_core (e : Election) : Election :=
  kept_Election (el_set_fold_worker "" (el_set_updated zero_time e)).

Lemma el_core_pinned now a (e : Election) :
  el_core (kept_Election (el_set_updated now (el_set_fold_worker a e))) = el_core e.
Proof.
  unfold el_core, kept_Election. cbn. by rewrite !whole_seconds_idemp.
Qed.

(** A change of the records the scheduler may make. *)
Record own_records (m m' : store) : Prop := {
  own_elections id : el_core <$> election_at m' id = el_core <$> election_at m id;
  own_keys k : engine_key k = true -> m' !! k = m !! k;
  own_votes id v st : status_at m id v = Some st ->
    exists st', status_at m' id v = Some st' /\ vs_le st st';
}.

#[export] Instance own_records_refl : Reflexive own_records.
Proof. intros m. split; [done..|]. intros id v st Hst. by exists st. Qed.
#[export] Instance own_records_trans : Transitive own_records.
Proof.
  intros m1 m2 m3 [E1 K1 V1] [E2 K2 V2]. split.
  - intros id. by rewrite E2.
  - intros k Hk. by rewrite K2, K1.
  - intros id v st (st' & H' & ?)%V1. destruct (V2 _ _ _ H') as (st'' & ? & ?).
    exists st''. split; [done|]. by etrans.
Qed.

Lemma sched_call_writes {A} (c : call A) (m : store) ws :
  sched_call c -> call_writes c m ws -> own_records m (td_writes ws m).
Proof.
  intros Hc Hw. split.
  - intros id. unfold election_at. destruct c; cbn [sched_call pass_call call_writes] in Hc, Hw; break; subst;
      try done; try (rewrite td_writes_untouched by untouched; done).
    cbn. destruct (decide (id0 = id)) as [->|Hne]; [|by rewrite lookup_insert_ne by congruence].
    rewrite lookup_insert_eq. unfold election_at, set_FoldWorker in *.
    repeat case_match; simplify_eq. cbn. by rewrite el_core_pinned.
  - intros k Hk. destruct c; cbn [sched_call pass_call call_writes] in Hc, Hw; break; subst; try done;
      apply td_writes_untouched; destruct k; try done; untouched.
  - intros id v st Hst. assert (vote_reached id v (vote_at m id v) st (td_writes ws m)) as [_ Hv].
    { apply (call_keeps_vote id v _ st c m ws); [destruct c; cbn in *; tauto|done|].
      split; [done|]. by exists st. }
    exact Hv.
Qed.

Section confine.
Context `{Provers} `{!Others TypedDB}.
Abbreviation W := (World TypedDB).

(** A step of the scheduler's own. *)
Record own (w w' : W) : Prop := {
  own_store : own_records (wmap w) (wmap w');
  own_heap : w_heap w' = w_heap w;
  own_runtimes : w_runtimes w' = w_runtimes w;
  own_background : w_background w' = w_background w;
  own_engine : (w_bgStopped w', w_draining w', w_finalizing w', w_retries w')
             = (w_bgStopped w, w_draining w, w_finalizing w, w_retries w);
  own_triggers : env_dispatchers (w_env w') = env_dispatchers (w_env w);
}.

Lemma own_same_store (w w' : W) :
  w_env w' = w_env w -> w_heap w' = w_heap w -> w_runtimes w' = w_runtimes w ->
  w_background w' = w_background w ->
  (w_bgStopped w', w_draining w', w_finalizing w', w_retries w')
    = (w_bgStopped w, w_draining w, w_finalizing w, w_retries w) -> own w w'.
Proof. intros He. split; [|done..|by rewrite He]. unfold wmap, w_store. by rewrite He. Qed.

(** An interleaving of such steps with steps of other goroutines. *)
Definition step (w w' : W) : Prop := own w w' \/ exists n, w' = others n w.
Definition interleaved : relation W := rtc step.

Lemma interleaved_own w w' : own w w' -> interleaved w w'.
Proof. intros Ho. apply rtc_once. by left. Qed.

Lemma own_call {A} (c : call A) (w : W) : sched_call c -> own w (on_store (run_call c) w).2.
Proof.
  intros Hc. split; cycle 1.
  1-5: unfold on_store, zoom; by destruct (run_call c (w_store w)).
  unfold wmap. rewrite on_store_store.
  pose proof (call_effect c (w_store w)) as He. unfold effect in He. destruct (run_call c (w_store w)).1.
  - destruct He as [(ws & Hw & ->)|[_ ->]]; [by eapply sched_call_writes|done].
  - by rewrite He.
Qed.

#[export] Instance interleaved_jobs : PassRel interleaved.
Proof.
  split.
  - apply _.
  - intros d w. etrans; [apply rtc_once; right; by eexists|]. by apply interleaved_own, own_same_store.
  - intros p p' w _ _. by apply interleaved_own, own_same_store.
  - intros A c w Hc. by apply interleaved_own, own_call, pass_sched.
  - intros b f w _. by apply interleaved_own, own_same_store.
  - intros bi w. by apply interleaved_own, own_same_store.
  - intros f w. by apply interleaved_own, own_same_store.
Qed.

#[export] Instance interleaved_chains : ChainRel interleaved any_chain.
Proof.
  split.
  - apply _.
  - intros fc f w _. by apply interleaved_own, own_same_store.
  - intros id c w. by apply interleaved_own, own_same_store.
Qed.

#[export] Instance interleaved_final : FinalRel interleaved.
Proof. intros now r w. by apply interleaved_own, own_call. Qed.

(** C12: whatever the provers answer and the other goroutines do meanwhile, on
    every path and whichever storage write fails, a dispatch pass, a drain and
    a finalize are made of the others' steps and of steps that leave every
    election as it was but for its fold worker (its status included), the
    votes, the vote logs and the snapshots untouched, the vote statuses moved
    forward only, and the engine's runtimes, guards, retries, background
    goroutines and dispatch triggers alone. *)
Theorem scheduler_confined id drain key (w : W) :
  interleaved w (drive id drain w).2 /\ interleaved w (Scheduler_Finalize id key w).2.
Proof. split; [apply (via_drive interleaved)|apply (via_Finalize interleaved)]. Qed.

(** ** The engine's view *)

Lemma own_steady (w w' : W) : own w w' -> steady w w'.
Proof.
  intros Ho. split; [|unfold finals; by rewrite (own_background _ _ Ho)].
  intros id. pose proof (own_elections _ _ (own_store _ _ Ho) id) as E. unfold status.
  apply (f_equal (fmap el_Status)) in E.
  by destruct (election_at (wmap w') id), (election_at (wmap w) id).
Qed.

Lemma interleaved_steady w w' : (forall n w, steady w (others n w)) -> interleaved w w' -> steady w w'.
Proof.
  intros Hoth. induction 1 as [w|w1 w2 w3 [Ho|[n ->]] _ IH]; [done| |].
  - etrans; [by apply own_steady|done].
  - etrans; [apply Hoth|done].
Qed.

(** Between two operations of the engine no status changes: what the engine's
    own theorems assume of a drain and of a finalize. *)
Class SteadyOthers := { others_steady n (w : W) : steady w (others n w) }.

Lemma Forget_run_detailed id (w : W) : exists w', Scheduler_Forget id w = (Ok tt, w') /\
  w_store w' = w_store w /\ w_background w' = w_background w /\
  w_runtimes w' = w_runtimes w /\ w_heap w' = w_heap w.
Proof.
  unfold Scheduler_Forget, mbind, stE_bind, dispatcher_of, gets.
  destruct (env_dispatchers (w_env w) ≫= _); by eexists.
Qed.

#[export] Instance EngineSchedulerLaws `{!SteadyOthers} : @SchedulerLaws _ _ EngineScheduler.
Proof.
  split.
  - intros id w. apply interleaved_steady; [apply others_steady|]. apply (via_drive interleaved id true w).
  - intros id key w. apply interleaved_steady; [apply others_steady|]. apply (via_Finalize interleaved id key w).
  - apply Forget_run_detailed.
Qed.
End confine.
