(* ===== verification/JobProps.v ===== *)
(** * What a prover answered (orchestrator/scheduler.go)

    The results of the jobs, traced to the answers of one worker: a batch is
    proved by a job of it that reported done, with the batch circuit's program
    vk; the waits for a job end. *)

From S2P Require Import Prelude Errors Effects Bytes Types Records KV Keys Artifacts Storage.
From S2P Require Import StorageRefine Retries Workers Sdk Config Seal Chains Engine Finalize.
From S2P Require Import Scheduler Fold Scatter JobSteps.

(** What is sealed of a batch. *)
Definition bi_core (bi : BatchInput) : BatchInput := bi_set_jobs "" "" "" "" bi.

Lemma bi_core_jobs f bi : sets_jobs f -> bi_core (f bi) = bi_core bi.
Proof. intros Hf. by destruct (Hf bi) as (a & j & i & w & ->). Qed.

Section calm.
Context {D : Type} `{ADB D} `{Provers} `{!Others D}.
Abbreviation W := (World D).

Definition pool_of (w : W) : WorkerManager :=
  default (MkPool ∅ ∅ DefaultWorkerBanRules 0) (w_pool w).

(** Nothing the code never changes has changed: the addresses of the worker
    objects and what is sealed of the batch objects. *)
Record calm (w w' : W) : Prop := {
  calm_pool : addr_keep (pool_of w) (pool_of w');
  calm_objects b bi : sc_objects (w_sched w) !! b = Some bi ->
    exists bi', sc_objects (w_sched w') !! b = Some bi' /\ bi_core bi' = bi_core bi;
}.

#[export] Instance calm_refl : Reflexive calm.
Proof. intros w. split; [done|]. intros b bi Hb. by exists bi. Qed.
#[export] Instance calm_trans : Transitive calm.
Proof.
  intros w1 w2 w3 [P1 O1] [P2 O2]. split; [by etrans|].
  intros b bi (bi' & Hb & ?)%O1. destruct (O2 _ _ Hb) as (bi'' & ? & ?).
  exists bi''. split; [done|congruence].
Qed.

Lemma calm_same (w w' : W) : w_pool w' = w_pool w -> sc_objects (w_sched w') = sc_objects (w_sched w) -> calm w w'.
Proof. intros Hp Ho. split; [unfold pool_of; by rewrite Hp|]. rewrite Ho. intros b bi Hb. by exists bi. Qed.

(** The other goroutines leave them too. *)
Class CalmOthers := { others_calm n (w : W) : calm w (others n w) }.
Context `{!CalmOthers}.

#[export] Instance calm_jobs : PassRel calm.
Proof.
  split.
  - split; apply _.
  - intros d w. etrans; [apply (others_calm (sc_tick (w_sched w)))|]. by apply calm_same.
  - intros p p' w Hp Hk. split; [|intros b bi Hb; by exists bi]. unfold pool_of. by rewrite Hp.
  - intros A c w _. unfold on_store, zoom. destruct (run_call c (w_store w)). by apply calm_same.
  - intros b f w Hf. split; [done|]. intros b' bi Hb. cbn. destruct (decide (b' = b)) as [->|Hne].
    + exists (f bi). rewrite lookup_alter_eq, Hb. split; [done|]. by apply bi_core_jobs.
    + exists bi. by rewrite lookup_alter_ne by congruence.
  - intros bi w. split; [done|]. intros b bi' Hb. exists bi'. split; [|done]. cbn.
    rewrite lookup_insert_ne; [done|]. intros Heq.
    apply (is_fresh (dom (sc_objects (w_sched w)))). rewrite Heq. by apply elem_of_dom.
  - intros f w. by apply calm_same.
Qed.

#[export] Instance calm_chains : ChainRel calm any_chain.
Proof. split; [apply _|..]; intros; by apply calm_same. Qed.
#[export] Instance calm_final : FinalRel calm.
Proof. intros now r w. unfold on_store, zoom. destruct (run_call _ (w_store w)). by apply calm_same. Qed.

(** ** The address of a worker *)

Definition at_addr (wk : nat) (a : string) (w : W) : Prop :=
  exists o, wm_objects (pool_of w) !! wk = Some o /\ w_Address o = a.

Lemma calm_addr wk a w w' : calm w w' -> at_addr wk a w -> at_addr wk a w'.
Proof.
  intros Hc (o & Ho & <-). destruct (calm_pool _ _ Hc _ _ Ho) as (o' & Ho' & <-). by exists o'.
Qed.
Lemma at_addr_inj wk a a' w : at_addr wk a w -> at_addr wk a' w -> a = a'.
Proof. intros (o & Ho & <-) (o' & Ho' & <-). congruence. Qed.

Lemma address_inv wk (w : W) a w' : address wk w = (Ok a, w') -> w' = w /\ at_addr wk a w.
Proof.
  unfold address, at_addr, pool_of. destruct (w_pool w) as [p|]; cbn; [|done].
  destruct (wm_objects p !! wk) as [o|] eqn:Ho; [|done]. intros [= <- <-]. split; [done|]. by exists o.
Qed.

(** ** Requests *)

Lemma step_calm {A} (m : stE W A) w r w' : via calm m -> m w = (r, w') -> calm w w'.
Proof. intros Hm E. specialize (Hm w). by rewrite E in Hm. Qed.

(** A request is answered by the prover at the worker's address. *)
Lemma ask_inv {A} wk (req : nat -> string -> option A) (w : W) x w' :
  ask wk req w = (Ok x, w') -> exists n a, req n a = Some x /\ at_addr wk a w'.
Proof.
  unfold ask. intros E.
  apply bind_Ok in E as [([] & w1 & _ & E)|(? & _ & [=])].
  apply bind_Ok in E as [(a & w2 & [-> Ha]%address_inv & E)|(? & _ & [=])].
  apply bind_Ok in E as [(n & w3 & [= <- <-] & E)|(? & _ & [=])].
  unfold lift, of_option in E. destruct (req _ a) as [y|] eqn:Hr; simplify_eq. by eexists _, a.
Qed.
Lemma ask_at {A} wk (req : nat -> string -> option A) a (w : W) x w' :
  at_addr wk a w -> ask wk req w = (Ok x, w') -> (exists n, req n a = Some x) /\ at_addr wk a w'.
Proof.
  intros Ha E. pose proof (step_calm _ _ _ _ (via_ask calm wk req) E) as Hc.
  pose proof (calm_addr _ _ _ _ Hc Ha) as Ha'.
  apply ask_inv in E as (n & a' & Hr & Ha''). rewrite (at_addr_inj _ _ _ _ Ha' Ha'').
  split; [by exists n|done].
Qed.

Lemma attempt_inv {A} (m : stE W A) (w : W) r w' : attempt m w = (Ok r, w') -> m w = (r, w').
Proof. unfold attempt. destruct (m w). by intros [= <- <-]. Qed.

(** ** Jobs *)

(** A job that reported done. *)
Lemma waitJob_inv wk job (w w' : W) :
  waitJob wk job w = (Ok tt, w') -> exists n a, GetJob n a job = Some JobDone /\ at_addr wk a w'.
Proof.
  unfold waitJob. intros E. step_bind E. clear Hm. revert E.
  generalize (polls a) (sc_now a + sc_timeout a)%Z 0%nat. intros fuel deadline errs. clear a w.
  revert errs s. induction fuel as [|fuel IH]; intros errs w E; [done|]. cbn [waitJob_loop] in E.
  do 3 step_bind E. apply attempt_inv in Hm1.
  destruct (poll_result errs a1) as [[[]|e]|errs'] eqn:Hp; [|done|].
  - injection E as <-. unfold poll_result in Hp. destruct a1 as [[]|]; simplify_eq; [|by case_match].
    by apply ask_inv in Hm1.
  - do 3 step_bind E. by apply IH in E.
Qed.

(** What a worker answered about a job: it is done, of the wanted program, and
    this is its proof. *)
Record fetched (a job want : string) (p : bytes) : Prop := {
  ft_done : exists n, GetJob n a job = Some JobDone;
  ft_vk : exists n vk, FetchStarkInfo n a job = Some vk /\ vk_ok want vk = true;
  ft_proof : exists n, FetchStarkRaw n a job = Some p;
}.

Lemma checkBatchVK_at wk job want a (w w' : W) :
  at_addr wk a w -> checkBatchVK wk job want w = (Ok tt, w') ->
  (exists n vk, FetchStarkInfo n a job = Some vk /\ vk_ok want vk = true) /\ at_addr wk a w'.
Proof.
  unfold checkBatchVK. intros Ha E. step_bind E.
  apply (ask_at _ _ _ _ _ _ Ha) in Hm as [[n Hn] Ha'].
  unfold throw_if in E. destruct (vk_ok want a0) eqn:Hv; [|done]. injection E as <-.
  split; [|done]. by exists n, a0.
Qed.

Lemma fetch_proof_inv wk job want (w : W) p w' :
  fetch_proof wk job want w = (Ok p, w') -> exists a, at_addr wk a w' /\ fetched a job want p.
Proof.
  unfold fetch_proof. intros E. step_bind E. destruct a. apply waitJob_inv in Hm as (n & a & Hd & Ha).
  step_bind E. destruct a0. apply (checkBatchVK_at _ _ _ _ _ _ Ha) in Hm as [Hv Ha'].
  apply (ask_at _ _ _ _ _ _ Ha') in E as [Hp Ha'']. exists a. split; [done|].
  split; [by exists n|done|done].
Qed.

(** ** Proofs of batches *)

(** A new prove job of a request. *)
Definition submitted (a job : string) (blob : bytes) : Prop :=
  exists n req, unmarshal_request blob = Some req /\ SubmitProve n a (set_Output "stark" req) = Some job.

Lemma fetch_proof_at wk job want a (w : W) p w' :
  at_addr wk a w -> fetch_proof wk job want w = (Ok p, w') -> fetched a job want p.
Proof.
  intros Ha E. pose proof (step_calm _ _ _ _ (via_fetch_proof calm wk job want) E) as Hc.
  apply fetch_proof_inv in E as (a' & Ha' & Hf).
  by rewrite (at_addr_inj _ _ _ _ Ha' (calm_addr _ _ _ _ Hc Ha)) in Hf.
Qed.

Lemma proveOn_inv b wk req want (w : W) p w' :
  proveOn b wk req want w = (Ok p, w') ->
  exists a job n, SubmitProve n a req = Some job /\ fetched a job want p.
Proof.
  unfold proveOn. intros E. step_bind E. rename a into job.
  apply ask_inv in Hm as (n & a & Hs & Ha). step_bind E. apply address_inv in Hm as [-> Ha0].
  rewrite (at_addr_inj _ _ _ _ Ha0 Ha) in E. clear a0 Ha0.
  step_bind E. apply (step_calm _ _ _ _ (via_on_object calm _ _ (sets_jobs_proved a job))) in Hm.
  step_bind E. apply (step_calm _ _ _ _ (via_ignore _ _ (via_store_set calm b))) in Hm0.
  apply (fetch_proof_at _ _ _ a) in E; [by exists a, job, n|].
  eapply calm_addr; [exact Hm0|]. by eapply calm_addr.
Qed.

Lemma prove_loop_inv attempts last failed id b req want (w : W) p w' :
  prove_loop attempts last failed id b req want w = (Ok p, w') ->
  exists a job n, SubmitProve n a req = Some job /\ fetched a job want p.
Proof.
  revert last failed w. induction attempts as [|n IH]; intros last failed w E; [done|].
  cbn [prove_loop] in E. step_bind E. destruct a as [wk|e]; [|done].
  do 2 step_bind E. destruct a as [p'|e].
  - apply attempt_inv in Hm0. apply proveOn_inv in Hm0. step_bind E. by injection E as <- _.
  - step_bind E. destruct a; [done|]. do 2 step_bind E. by apply IH in E.
Qed.

Lemma object_inv b (w : W) bi w' : object b w = (Ok bi, w') -> w' = w /\ sc_objects (w_sched w) !! b = Some bi.
Proof. unfold object. destruct (sc_objects (w_sched w) !! b); [|done]. by intros [= <- <-]. Qed.

(** The request sealed in a batch object is the same later. *)
Lemma object_later b (w w' : W) bi bi' :
  calm w w' -> sc_objects (w_sched w) !! b = Some bi -> sc_objects (w_sched w') !! b = Some bi' ->
  bi_core bi' = bi_core bi.
Proof. intros Hc Hb Hb'. destruct (calm_objects _ _ Hc _ _ Hb) as (bi2 & ? & ?). congruence. Qed.

Lemma prove_inv id b avoid want (w : W) bi p w' :
  sc_objects (w_sched w) !! b = Some bi -> prove id b avoid want w = (Ok p, w') ->
  exists a job, submitted a job (bi_ProveRequest bi) /\ fetched a job want p.
Proof.
  unfold prove. intros Hb E. step_bind E. apply object_inv in Hm as [-> Hb']. simplify_eq.
  step_bind E. unfold lift in Hm. injection Hm as Hr <-. apply of_option_Ok in Hr.
  apply prove_loop_inv in E as (a' & job & n & Hs & Hf). exists a', job. split; [|done]. by exists n, a.
Qed.

Lemma reusedProof_inv wk b want (w : W) p w' :
  reusedProof wk b want w = (Ok (Some p), w') -> exists a job, at_addr wk a w' /\ fetched a job want p.
Proof.
  unfold reusedProof. intros E. do 2 step_bind E.
  destruct a0 as [[]|]; try done; step_bind E; injection E as Hp <-; destruct a0; simplify_eq;
    apply attempt_inv, fetch_proof_inv in Hm1 as (a' & ? & ?); by exists a', (bi_JobID a).
Qed.

Lemma stored_proof_inv id b avoid want reused (w : W) bi p w' :
  sc_objects (w_sched w) !! b = Some bi -> stored_proof id b avoid want reused w = (Ok p, w') ->
  reused = Some p \/ exists a job, submitted a job (bi_ProveRequest bi) /\ fetched a job want p.
Proof.
  unfold stored_proof. intros Hb E. step_bind E. apply object_inv in Hm as [-> Hb2]. simplify_eq.
  step_bind E. assert (a = p) as <-.
  { step_bind E. destruct a0; [by injection E|]. do 3 step_bind E. by injection E. }
  destruct reused as [p'|]; [left; by injection Hm as -> _|right]. by eapply prove_inv.
Qed.

(** C13: a batch is proved by one worker: the proof a prove returns is the
    proof.bin of a job which that worker reported done and of the batch
    circuit's program vk (when one is wanted), and the job is one a previous
    run left on the worker held for it, or one submitted there for the very
    request sealed with the batch. *)
Theorem batchProof_checked id b held avoid want (w : W) bi p w' :
  sc_objects (w_sched w) !! b = Some bi ->
  batchProof id b held avoid want w = (Ok p, w') ->
  exists a job, fetched a job want p /\
    ((exists wk, held = Some wk /\ at_addr wk a w') \/ submitted a job (bi_ProveRequest bi)).
Proof.
  unfold batchProof. intros Hb E. first_step E as x w0 [-> Hb2]%object_inv. simplify_eq.
  first_step E as r w1 Hres. assert (calm w w1) as Hc1.
  { refine (step_calm _ _ _ _ _ Hres). unfold reserve_batch. via. }
  destruct r as [[]|]; [|by first_step E as x w9 Hx].
  first_step E as reused w2 Hreu. first_step E as ? w3 Hrel. first_step E as r w4 Hst%attempt_inv.
  first_step E as ? w5 Hfin. unfold lift in E. injection E as -> <-.
  assert (calm w1 w2) as Hc2.
  { refine (step_calm _ _ _ _ _ Hreu). destruct held; via. apply via_reusedProof, _. }
  pose proof (step_calm _ _ _ _ (via_release_held calm held) Hrel) as Hc3.
  destruct (calm_objects _ _ (transitivity Hc1 (transitivity Hc2 Hc3)) _ _ Hb) as (bi' & Hb' & Hcore).
  assert (bi_ProveRequest bi' = bi_ProveRequest bi) as Hblob by apply (f_equal bi_ProveRequest Hcore).
  destruct (stored_proof_inv _ _ _ _ _ _ _ _ _ Hb' Hst) as [->|(a & job & Hs & Hf)].
  - destruct held as [wk|]; [|done].
    apply reusedProof_inv in Hreu as (a & job & Ha & Hf). exists a, job. split; [done|]. left.
    exists wk. split; [done|]. eapply calm_addr; [|exact Ha]. etrans; [exact Hc3|].
    etrans; [exact (step_calm _ _ _ _ (via_stored_proof calm id b avoid want (Some p)) Hst)|].
    refine (step_calm _ _ _ _ _ Hfin). via.
  - exists a, job. split; [done|]. right. by rewrite <- Hblob.
Qed.
End calm.
Arguments CalmOthers D {_ _ _}.
