(* ===== verification/Waits.v ===== *)
(** * The waits of the scheduler end (orchestrator/scheduler.go)

    A job is polled until its deadline and a request is repeated at most three
    times: the bounds hold whatever the provers answer and however long the
    other goroutines take, and neither is cut by the fuel of the model. *)

From S2P Require Import Prelude Errors Effects Bytes Types Records KV Keys Artifacts Storage.
From S2P Require Import StorageRefine Retries Workers Sdk Config Seal Chains Engine Finalize.
From S2P Require Import Scheduler Fold Scatter JobSteps.

Section waits.
Context {D : Type} `{ADB D} `{Provers} `{!Others D}.
Abbreviation W := (World D).

(** ** The clock *)

(** Time passes, and the options of the scheduler stay. *)
Record later (w w' : W) : Prop := {
  lt_now : (sc_now (w_sched w) <= sc_now (w_sched w'))%Z;
  lt_poll : sc_poll (w_sched w') = sc_poll (w_sched w);
  lt_timeout : sc_timeout (w_sched w') = sc_timeout (w_sched w);
}.

#[export] Instance later_refl : Reflexive later.
Proof. intros w. by split. Qed.
#[export] Instance later_trans : Transitive later.
Proof. intros w1 w2 w3 [] []. split; [lia|congruence..]. Qed.

Lemma later_same (w w' : W) : sc_now (w_sched w') = sc_now (w_sched w) ->
  sc_poll (w_sched w') = sc_poll (w_sched w) -> sc_timeout (w_sched w') = sc_timeout (w_sched w) -> later w w'.
Proof. intros Hn ? ?. split; [by rewrite Hn|done..]. Qed.

#[export] Instance later_jobs : PassRel later.
Proof.
  split; try (intros; by apply later_same).
  - split; apply _.
  - intros d w. split; [|done..]. cbn. lia.
  - intros A c w _. unfold on_store, zoom. destruct (run_call c (w_store w)). by apply later_same.
Qed.
#[export] Instance later_chains : ChainRel later any_chain.
Proof. split; [apply _|..]; intros; by apply later_same. Qed.

Lemma yield_for_now d (w : W) : (sc_now (w_sched w) + d <= sc_now (w_sched (yield_for d w).2))%Z.
Proof. cbn. lia. Qed.

Lemma pause_now (w w' : W) : pause w = (Ok tt, w') ->
  (sc_now (w_sched w) + sc_poll (w_sched w) <= sc_now (w_sched w'))%Z.
Proof.
  unfold pause. intros E. first_step E as d w1 [= <- <-]. first_step E as [] w2 Hy.
  pose proof (yield_for_now (sc_poll (w_sched w)) w) as Hn. rewrite Hy in Hn.
  first_step E as st w3 [= <- <-]. unfold throw_if in E. cbn [snd] in Hn. case_match; [done|]. by injection E as <-.
Qed.

(** ** Runs that are not cut *)

Definition uncut {A} (r : result A) : Prop := forall e, r = Err e -> Diverges ∉ e.
Definition ends {A} (m : stE W A) : Prop := forall w, uncut (m w).1.

Lemma ends_ret {A} (a : A) : ends (mret a).
Proof. by intros w. Qed.
Lemma ends_gets {A} (f : W -> A) : ends (gets f).
Proof. by intros w. Qed.
Lemma ends_attempt {A} (m : stE W A) : ends (attempt m).
Proof. intros w. unfold attempt. by destruct (m w). Qed.
Lemma ends_throw {A} e : Diverges ∉ e -> ends (throw (A := A) e).
Proof. by intros He w e' [= <-]. Qed.
Lemma ends_throw_if b e : Diverges ∉ e -> ends (throw_if b e).
Proof. intros He w e'. destruct b; [by intros [= <-]|done]. Qed.
Lemma ends_bind {A B} (m : stE W A) (f : A -> stE W B) : ends m -> (forall a, ends (f a)) -> ends (m ≫= f).
Proof.
  intros Hm Hf w. unfold mbind, stE_bind. specialize (Hm w). destruct (m w) as [[a|e] w']; [apply Hf|].
  intros e' [= <-]. by apply Hm.
Qed.
Lemma ends_yield_for d : ends (yield_for d).
Proof. by intros w. Qed.
Lemma ends_pool_run {A} (f : time -> WorkerManager -> A * WorkerManager) : ends (pool_run f).
Proof.
  apply ends_bind; [apply ends_yield_for|]. intros _ w. unfold with_pool. destruct (w_pool w); [by destruct (f _ _)|].
  intros e [= <-]. set_solver.
Qed.
Lemma ends_address wk : ends (address wk).
Proof. intros w. unfold address. destruct (_ ≫= _); [done|]. intros e [= <-]. set_solver. Qed.
Lemma ends_ask {A} wk (req : nat -> string -> option A) : ends (ask wk req).
Proof.
  unfold ask. apply ends_bind; [apply ends_yield_for|intros _]. apply ends_bind; [apply ends_address|intros a].
  apply ends_bind; [apply ends_gets|intros n w]. unfold lift, of_option.
  destruct (req n a); [done|]. intros e [= <-]. set_solver.
Qed.
Lemma ends_WorkerResult wk ok : ends (WorkerResult_ wk ok).
Proof. apply ends_bind; [apply ends_address|intros a; apply ends_pool_run]. Qed.
Lemma ends_pause : ends pause.
Proof.
  unfold pause. apply ends_bind; [apply ends_gets|intros d]. apply ends_bind; [apply ends_yield_for|intros _].
  apply ends_bind; [apply ends_gets|intros st]. apply ends_throw_if. set_solver.
Qed.

(** *** Jobs *)

Lemma poll_result_ends errs (r : result JobStatus) :
  uncut r -> match poll_result errs r with inl r' => uncut r' | inr _ => True end.
Proof.
  intros Hr. unfold poll_result. destruct r as [[]|e]; try done.
  - intros e [= <-]. set_solver.
  - destruct (maxPollErrs <=? S errs)%nat; [|done]. intros e' [= <-]. by apply Hr.
Qed.

Lemma ends_err {A} (m : stE W A) w e w' : ends m -> m w = (Err e, w') -> Diverges ∉ e.
Proof. intros Hm E. apply (Hm w). by rewrite E. Qed.
Lemma later_run {A} (m : stE W A) w r w' : via later m -> m w = (r, w') -> later w w'.
Proof. intros Hm E. specialize (Hm w). by rewrite E in Hm. Qed.
Lemma throw_if_run b e (w w' : W) : throw_if b e w = (Ok tt, w') -> b = false /\ w' = w.
Proof. destruct b; [done|]. by intros [= <-]. Qed.

(** The deadline comes before the fuel is spent. *)
Lemma waitJob_loop_ends fuel deadline errs wk job (w : W) e w' :
  (0 < sc_poll (w_sched w))%Z ->
  (deadline < sc_now (w_sched w) + (Z.of_nat fuel - 1) * sc_poll (w_sched w))%Z ->
  (0 < fuel)%nat ->
  waitJob_loop fuel deadline errs wk job w = (Err e, w') -> Diverges ∉ e.
Proof.
  revert errs w. induction fuel as [|fuel IH]; intros errs w Hp Hd Hf E; [lia|]. cbn [waitJob_loop] in E.
  apply bind_Ok in E as [(has & w1 & E1 & E)|(e' & E1 & [= <-])]; [|by eapply ends_err, E1; apply ends_pool_run].
  apply later_run in E1 as [N1 P1 _]; [|apply via_pool_get, _].
  apply bind_Ok in E as [([] & w2 & [_ ->]%throw_if_run & E)|(e' & E2 & [= <-])];
    [|eapply ends_err, E2; apply ends_throw_if; set_solver].
  apply bind_Ok in E as [(r & w3 & E3 & E)|(e' & E3 & [= <-])]; [|by eapply ends_err, E3; apply ends_attempt].
  assert (uncut r) as Hr.
  { unfold attempt in E3. intros e' ->. destruct (ask wk _ w1) as [r' w4] eqn:Ea. injection E3 as -> ->.
    eapply ends_err, Ea. apply ends_ask. }
  apply later_run in E3 as [N2 P2 _]; [|apply via_attempt, via_ask, _].
  pose proof (poll_result_ends errs r Hr) as Hpr. destruct (poll_result errs r) as [r'|errs'].
  { injection E as -> _. by apply Hpr. }
  apply bind_Ok in E as [(now & w4 & [= <- <-] & E)|(e' & E4 & [= <-])]; [|done].
  apply bind_Ok in E as [([] & w5 & [Hlt ->]%throw_if_run & E)|(e' & E5 & [= <-])];
    [|eapply ends_err, E5; apply ends_throw_if; set_solver].
  apply Z.ltb_ge in Hlt.
  apply bind_Ok in E as [([] & w6 & E6 & E)|(e' & E6 & [= <-])]; [|by eapply ends_err, E6; apply ends_pause].
  pose proof (pause_now _ _ E6) as N3. apply later_run in E6 as [_ P3 _]; [|apply via_pause, _].
  apply IH in E; [done|congruence| |].
  - rewrite P3, P2, P1 in *. lia.
  - destruct fuel; [exfalso; cbn in Hd; lia|lia].
Qed.

Lemma waitJob_ends wk job (w : W) e w' :
  (0 < sc_poll (w_sched w))%Z -> waitJob wk job w = (Err e, w') -> Diverges ∉ e.
Proof.
  intros Hp. unfold waitJob, mbind, stE_bind, sched, gets. apply waitJob_loop_ends; [done| |unfold polls; lia].
  unfold polls. pose proof (Z.div_mod (sc_timeout (w_sched w)) (sc_poll (w_sched w))).
  pose proof (Z.mod_pos_bound (sc_timeout (w_sched w)) (sc_poll (w_sched w))).
  destruct (Z.le_gt_cases 0 (sc_timeout (w_sched w) / sc_poll (w_sched w))); nia.
Qed.

(** *** Repeated jobs and requests *)

Lemma not_in_wrap s (e : error) : s <> Diverges -> Diverges ∉ e -> Diverges ∉ wrap s e.
Proof. intros Hs He. unfold wrap. set_solver. Qed.

Lemma submit_ends wk (submit : nat -> string -> option string) (w : W) e w' :
  (0 < sc_poll (w_sched w))%Z ->
  (job ← ask wk submit; _ ← waitJob wk job; mret job) w = (Err e, w') -> Diverges ∉ e.
Proof.
  intros Hp E. apply bind_Ok in E as [(job & w1 & E1 & E)|(e' & E1 & [= <-])]; [|by eapply ends_err, E1; apply ends_ask].
  apply later_run in E1 as [_ P1 _]; [|apply via_ask, _].
  apply bind_Ok in E as [([] & w2 & E2 & E)|(e' & E2 & [= <-])]; [done|].
  apply waitJob_ends in E2; [done|congruence].
Qed.

Lemma runJob_loop_ends attempts first last wk submit (w : W) e w' :
  (0 < sc_poll (w_sched w))%Z -> Diverges ∉ last ->
  runJob_loop attempts first last wk submit w = (Err e, w') -> Diverges ∉ e.
Proof.
  revert first last w. induction attempts as [|n IH]; intros first last w Hp Hl E.
  { injection E as <- _. by apply not_in_wrap. }
  cbn [runJob_loop] in E. apply bind_Ok in E as [([] & w1 & E1 & E)|(e' & E1 & [= <-])].
  2:{ destruct first; [done|]. by eapply ends_err, E1; apply ends_pause. }
  assert (0 < sc_poll (w_sched w1))%Z as Hp1.
  { destruct first; [by injection E1 as <-|]. apply later_run in E1 as [_ -> _]; [done|apply via_pause, _]. }
  apply bind_Ok in E as [(r & w2 & E2 & E)|(e' & E2 & [= <-])]; [|by eapply ends_err, E2; apply ends_attempt].
  unfold attempt in E2. destruct ((job ← ask wk submit; _ ← waitJob wk job; mret job) w1) as [r' w3] eqn:Es.
  injection E2 as -> ->.
  assert (sc_poll (w_sched w2) = sc_poll (w_sched w1)) as P2.
  { refine (lt_poll _ _ (later_run _ _ _ _ _ Es)). via. }
  destruct r as [job|e2].
  { apply bind_Ok in E as [([] & w4 & _ & E)|(e' & E3 & [= <-])]; [done|].
    by eapply ends_err, E3; apply ends_WorkerResult. }
  apply submit_ends in Es; [|done].
  apply bind_Ok in E as [(st & w4 & [= <- <-] & E)|(e' & E3 & [= <-])]; [|done].
  destruct (env_stopping _); [by injection E as <- _|].
  apply bind_Ok in E as [([] & w5 & E5 & E)|(e' & E5 & [= <-])]; [|by eapply ends_err, E5; apply ends_WorkerResult].
  apply later_run in E5 as [_ P5 _]; [|apply via_WorkerResult, _].
  destruct (errors_Is e2 ErrWorkerRemoved); [injection E as <- _; by apply not_in_wrap|].
  apply IH in E; [done|lia|done].
Qed.

Lemma call_loop_ends {A} attempts first last wk (req : nat -> string -> option A) (w : W) e w' :
  Diverges ∉ last -> call_loop attempts first last wk req w = (Err e, w') -> Diverges ∉ e.
Proof.
  revert first last w. induction attempts as [|n IH]; intros first last w Hl E.
  { injection E as <- _. by apply not_in_wrap. }
  cbn [call_loop] in E. apply bind_Ok in E as [([] & w1 & E1 & E)|(e' & E1 & [= <-])].
  2:{ destruct first; [done|]. by eapply ends_err, E1; apply ends_pause. }
  apply bind_Ok in E as [(has & w2 & E2 & E)|(e' & E2 & [= <-])]; [|by eapply ends_err, E2; apply ends_pool_run].
  destruct (negb has); [injection E as <- _; apply not_in_wrap; [done|set_solver]|].
  apply bind_Ok in E as [(r & w3 & E3 & E)|(e' & E3 & [= <-])]; [|by eapply ends_err, E3; apply ends_attempt].
  unfold attempt in E3. destruct (ask wk req w2) as [r' w4] eqn:Es. injection E3 as -> ->.
  destruct r as [x|e2]; [done|]. assert (Diverges ∉ e2) as He2 by (eapply ends_err, Es; apply ends_ask).
  apply bind_Ok in E as [([] & w5 & E5 & E)|(e' & E5 & [= <-])]; [|by eapply ends_err, E5; apply ends_WorkerResult].
  by apply IH in E.
Qed.

(** ** How long a wait takes *)

Section durations.
Context (d : Z).

(** No moment takes longer than [d]. *)
Definition swift : Prop := forall n, (Z.of_N (elapsed n) <= d)%Z.

(** An operation takes at most [t] then, and at most [n] moments. *)
Definition spends t (n : nat) (w w' : W) : Prop :=
  (swift -> sc_now (w_sched w') <= sc_now (w_sched w) + t)%Z /\ (sc_tick (w_sched w') <= sc_tick (w_sched w) + n)%nat.
Definition within {A} (t : Z) (n : nat) (m : stE W A) : Prop := forall w r w', m w = (r, w') -> spends t n w w'.

Ltac spent := unfold spends; cbn; split; [intros Hs; repeat match goal with H : swift -> _ |- _ => specialize (H Hs) end; lia|lia].

Lemma swift_nonneg : swift -> (0 <= d)%Z.
Proof. intros Hs. pose proof (Hs 0). lia. Qed.

Lemma spends_yield_for x (w : W) : spends (Z.max x 0 + d) 1 w (yield_for x w).2.
Proof. split; cbn; [|lia]. intros Hs. pose proof (Hs (sc_tick (w_sched w))). lia. Qed.
Lemma within_pool_get {A} (f : time -> WorkerManager -> A) : within d 1 (pool_get f).
Proof.
  intros w r w'. destruct (spends_yield_for 0%Z w) as [Ht Hn]. unfold pool_get, pool_run, mbind, stE_bind, with_pool.
  cbn in *. destruct (w_pool _); intros [= _ <-]; cbn; spent.
Qed.
Lemma within_ask {A} wk (req : nat -> string -> option A) : within d 1 (ask wk req).
Proof.
  intros w r w'. destruct (spends_yield_for 0%Z w) as [Ht Hn]. unfold ask, mbind, stE_bind, address, lift.
  cbn in *. destruct (_ ≫= _); intros [= _ <-]; cbn; spent.
Qed.
Lemma spends_pause w (r : result unit) w' : pause w = (r, w') -> spends (Z.max (sc_poll (w_sched w)) 0 + d) 1 w w'.
Proof.
  destruct (spends_yield_for (sc_poll (w_sched w)) w) as [Ht Hn]. unfold pause, mbind, stE_bind. cbn in *.
  unfold throw_if. case_match; intros [= <- <-]; cbn; spent.
Qed.

(** Each round looks at the clock: the wait goes on only before the deadline. *)
Lemma waitJob_loop_within fuel deadline errs wk job (w : W) r w' :
  (0 < sc_poll (w_sched w))%Z -> (swift -> sc_now (w_sched w) <= deadline + sc_poll (w_sched w) + d)%Z ->
  waitJob_loop fuel deadline errs wk job w = (r, w') ->
  (swift -> sc_now (w_sched w') <= deadline + sc_poll (w_sched w) + 3 * d)%Z /\
  (sc_tick (w_sched w') <= sc_tick (w_sched w) + 3 * fuel)%nat.
Proof.
  pose proof swift_nonneg as Hd0.
  revert errs w. induction fuel as [|fuel IH]; intros errs w Hp Hn E; [injection E as _ <-; spent|].
  cbn [waitJob_loop] in E. unfold mbind at 1, stE_bind at 1 in E.
  destruct (pool_get (fun _ => Has wk) w) as [r1 w1] eqn:E1.
  pose proof (later_run _ _ _ _ (via_pool_get _ _) E1) as [_ P1 _]. apply within_pool_get in E1 as [T1 N1].
  destruct r1 as [has|e]; [|injection E as _ <-; spent].
  unfold mbind at 1, stE_bind at 1, throw_if at 1 in E. destruct (negb has); [injection E as _ <-; spent|].
  cbn beta iota zeta delta [mret stE_ret] in E. unfold mbind at 1, stE_bind at 1, attempt in E.
  destruct (ask wk _ w1) as [r2 w2] eqn:E2.
  pose proof (later_run _ _ _ _ (via_ask _ _ _) E2) as [_ P2 _]. apply within_ask in E2 as [T2 N2].
  destruct (poll_result errs r2) as [r3|errs']; [injection E as _ <-; spent|].
  unfold mbind at 1, stE_bind at 1, clock, sched, gets in E. unfold mbind at 1, stE_bind at 1, throw_if in E.
  destruct (Z.ltb_spec deadline (sc_now (w_sched w2))) as [Hlt|Hge]; [injection E as _ <-; spent|].
  cbn beta iota zeta delta [mret stE_ret] in E. unfold mbind at 1, stE_bind at 1 in E.
  destruct (pause w2) as [r4 w3] eqn:E4. pose proof (later_run _ _ _ _ (via_pause _) E4) as [_ P3 _].
  apply spends_pause in E4 as [T3 N3].
  destruct r4 as [[]|e]; [|injection E as _ <-; spent].
  apply IH in E; [|lia|intros Hs; specialize (T3 Hs); lia]. destruct E as [E1 E2]. spent.
Qed.
End durations.

(** ** How often a request is made *)

(** At most [n] moments' answers to the request matter: it is made no more
    often. *)
Definition asks_at_most {A B} (n : nat) (m : (nat -> string -> option A) -> stE W B) : Prop := forall req w,
  exists moments, (length moments <= n)%nat /\
    forall req', (forall k a, k ∈ moments -> req' k a = req k a) -> m req' w = m req w.

Lemma asks_const {A B} (m : stE W B) : asks_at_most (A := A) 0 (fun _ => m).
Proof. intros req w. by exists []. Qed.
Lemma asks_ask {A} wk : asks_at_most (A := A) 1 (ask wk).
Proof.
  intros req w. exists [S (sc_tick (w_sched w))]. split; [done|]. intros req' Hr.
  unfold ask, mbind, stE_bind. cbn. destruct (address wk _) as [[a|e] w1] eqn:E; [|done].
  unfold address in E. destruct (_ ≫= _); [|done]. injection E as <- <-. cbn. rewrite Hr; [done|by left].
Qed.
Lemma asks_bind {A B C} n k (m : (nat -> string -> option A) -> stE W B) (f : (nat -> string -> option A) -> B -> stE W C) :
  asks_at_most n m -> (forall b, asks_at_most k (fun req => f req b)) ->
  asks_at_most (n + k) (fun req => m req ≫= f req).
Proof.
  intros Hm Hf req w. destruct (Hm req w) as (ms & Hl & Ha). destruct (m req w) as [[b|e] w1] eqn:E.
  - destruct (Hf b req w1) as (ms' & Hl' & Ha'). exists (ms ++ ms'). split; [rewrite length_app; lia|].
    intros req' Hr. unfold mbind, stE_bind. rewrite E, Ha by (intros; apply Hr; set_solver).
    apply Ha'. intros; apply Hr; set_solver.
  - exists ms. split; [lia|]. intros req' Hr. unfold mbind, stE_bind. by rewrite E, Ha.
Qed.
Lemma asks_attempt {A B} n (m : (nat -> string -> option A) -> stE W B) :
  asks_at_most n m -> asks_at_most n (fun req => attempt (m req)).
Proof.
  intros Hm req w. destruct (Hm req w) as (ms & Hl & Ha). exists ms. split; [done|]. intros req' Hr.
  unfold attempt. by rewrite Ha.
Qed.
Lemma asks_then {A B C} n (m : stE W B) (f : (nat -> string -> option A) -> B -> stE W C) :
  (forall b, asks_at_most n (fun req => f req b)) -> asks_at_most n (fun req => m ≫= f req).
Proof. intros Hf. apply (asks_bind 0 n (fun _ => m)); [apply asks_const|done]. Qed.
Lemma asks_mono {A B} n k (m : (nat -> string -> option A) -> stE W B) :
  asks_at_most n m -> (n <= k)%nat -> asks_at_most k m.
Proof. intros Hm Hle req w. destruct (Hm req w) as (ms & Hl & Ha). exists ms. split; [lia|done]. Qed.

Lemma runJob_loop_asks attempts first last wk :
  asks_at_most attempts (runJob_loop attempts first last wk : _ -> stE W string).
Proof.
  revert first last. induction attempts as [|n IH]; intros first last; [apply asks_const|]. cbn [runJob_loop].
  apply asks_then. intros _. apply (asks_bind 1 n (fun req => attempt (job ← ask wk req; _ ← waitJob wk job; mret job))).
  { apply asks_attempt, (asks_bind 1 0 (ask wk)); [apply asks_ask|]. intros job. apply asks_const. }
  intros [job|e]; [eapply asks_mono; [apply asks_const|lia]|]. apply asks_then. intros [].
  { eapply asks_mono; [apply asks_const|lia]. }
  apply asks_then. intros _. destruct (errors_Is e ErrWorkerRemoved); [eapply asks_mono; [apply asks_const|lia]|apply IH].
Qed.

Lemma call_loop_asks {A} attempts first last wk :
  asks_at_most attempts (call_loop attempts first last wk : (nat -> string -> option A) -> stE W A).
Proof.
  revert first last. induction attempts as [|n IH]; intros first last; [apply asks_const|]. cbn [call_loop].
  apply asks_then. intros _. apply asks_then. intros has.
  destruct (negb has); [eapply asks_mono; [apply asks_const|lia]|].
  apply (asks_bind 1 n (fun req => attempt (ask wk req))); [apply asks_attempt, asks_ask|].
  intros [x|e]; [eapply asks_mono; [apply asks_const|lia]|]. apply asks_then. intros _. apply IH.
Qed.

(** C20: the waits on a worker end, whatever the prover answers and whatever the
    other goroutines do meanwhile.  A wait for a job always returns: after at
    most two polls more than poll intervals fit in its timeout, and, if no
    moment takes longer than [d], at most one poll interval and three moments
    after its deadline.  A job is submitted, and a request made, at most three
    times, and both return too. *)
Theorem jobs_end wk (w : W) :
  (0 < sc_poll (w_sched w))%Z -> (0 <= sc_timeout (w_sched w))%Z ->
  (forall job r w', waitJob wk job w = (r, w') ->
     uncut r /\
     (Z.of_nat (sc_tick (w_sched w')) <=
        Z.of_nat (sc_tick (w_sched w)) + 3 * (sc_timeout (w_sched w) / sc_poll (w_sched w) + 2))%Z /\
     forall d, swift d ->
       (sc_now (w_sched w') <= sc_now (w_sched w) + sc_timeout (w_sched w) + sc_poll (w_sched w) + 3 * d)%Z) /\
  (asks_at_most 3 (runJob wk) /\ forall submit, uncut (runJob wk submit w).1) /\
  (forall A, asks_at_most 3 (call_worker (A := A) wk) /\ forall req, uncut (call_worker (A := A) wk req w).1).
Proof.
  intros Hp Ht.
  assert (forall job, uncut (waitJob wk job w).1) as Hu.
  { intros job e E. destruct (waitJob wk job w) as [r w'] eqn:Ew. cbn in E. subst r. by eapply waitJob_ends. }
  split_and!.
  - intros job r w' E. split; [specialize (Hu job); by rewrite E in Hu|].
    unfold waitJob, mbind, stE_bind, sched, gets in E. assert (Z.of_nat (polls (w_sched w)) = sc_timeout (w_sched w) / sc_poll (w_sched w) + 2)%Z as Hpl.
    { unfold polls. pose proof (Z.div_pos _ _ Ht Hp). lia. }
    assert (forall d, swift d -> sc_now (w_sched w) <= sc_now (w_sched w) + sc_timeout (w_sched w)
      + sc_poll (w_sched w) + d)%Z as Hs by (intros d Hd; pose proof (swift_nonneg d Hd); lia).
    split; [apply (waitJob_loop_within 0) in E as [_ Hb]; [rewrite <- Hpl; lia|done|apply Hs]|].
    intros d Hd. apply (waitJob_loop_within d) in E as [Hb _]; [by apply Hb|done|apply Hs].
  - apply runJob_loop_asks.
  - intros submit e E. destruct (runJob wk submit w) as [r w'] eqn:Ew. cbn in E. subst r.
    eapply runJob_loop_ends in Ew; [done..|set_solver].
  - intros A. split; [apply call_loop_asks|]. intros req e E. destruct (call_worker wk req w) as [r w'] eqn:Ew.
    cbn in E. subst r. eapply call_loop_ends in Ew; [done|set_solver].
Qed.
End waits.
