(* ===== verification/ChainInv.v ===== *)
(** * The batches of a chain stay in order (orchestrator/scheduler.go)

    The pending batches of a synced chain are those that follow the folded
    ones, in sequence order.  A pass holds the election's drive lock: the
    other goroutines do not touch its chain. *)

From S2P Require Import Prelude Errors Effects Bytes Types Records KV Keys Artifacts Storage.
From S2P Require Import StorageRefine Retries Workers Sdk Config Seal Chains Engine Finalize.
From S2P Require Import Scheduler Fold Scatter JobSteps JobProps.

Lemma core_Seq bi bi' : bi_core bi' = bi_core bi -> bi_Seq bi' = bi_Seq bi.
Proof. intros Hc. apply (f_equal bi_Seq Hc). Qed.

Create HintDb kept.

Section order.
Context {D : Type} `{ADB D} `{Provers} `{!Others D}.
Abbreviation W := (World D).

Definition chain_of (fc : chain_loc) (w : W) : option foldChain := sc_fcs (w_sched w) !! fc.
Definition object_of (b : nat) (w : W) : option BatchInput := sc_objects (w_sched w) !! b.

(** Nothing of the chain changed either. *)
Record quiet (fc : chain_loc) (w w' : W) : Prop := {
  q_calm : calm w w';
  q_chain : chain_of fc w' = chain_of fc w;
}.

#[export] Instance quiet_refl fc : Reflexive (quiet fc).
Proof. by intros w. Qed.
#[export] Instance quiet_trans fc : Transitive (quiet fc).
Proof. intros w1 w2 w3 [C1 F1] [C2 F2]. split; [by etrans|congruence]. Qed.

(** What the drive lock ensures. *)
Class DriveLock (fc : chain_loc) := { others_quiet n (w : W) : quiet fc w (others n w) }.

Context (fc : chain_loc) `{!DriveLock fc}.

#[local] Instance lock_calm : CalmOthers D.
Proof. split. intros n w. apply (q_calm fc), others_quiet. Qed.

#[export] Instance quiet_jobs : PassRel (quiet fc).
Proof.
  split.
  - split; apply _.
  - intros d w. split; [apply pr_yield|]. exact (q_chain _ _ _ (others_quiet (sc_tick (w_sched w)) w)).
  - intros p p' w Hp Hk. split; [by apply (pr_pool p)|done].
  - intros A c w Hc. split; [by apply pr_call|]. unfold on_store, zoom. by destruct (run_call c (w_store w)).
  - intros b f w Hf. split; [by apply pr_jobs|done].
  - intros bi w. split; [apply pr_new|done].
  - intros f w. split; [apply pr_pass|done].
Qed.

(** ** Assertions *)

(** [P] survives what does not touch the chain. *)
Definition stable (P : W -> Prop) : Prop := forall w w', quiet fc w w' -> P w -> P w'.

Lemma stable_run {A} (P : W -> Prop) (m : stE W A) : stable P -> via (quiet fc) m -> preserves P m.
Proof. intros HP Hm w. apply HP, Hm. Qed.

(** The batches [l] follow those folded. *)
Definition follow (folded : N) (l : list nat) (w : W) : Prop := forall i b, l !! i = Some b ->
  exists bi, object_of b w = Some bi /\ bi_Seq bi = u64 (folded + N.of_nat i).

Definition in_order (w : W) : Prop := forall c, chain_of fc w = Some c ->
  follow (fc_batchesFolded c) (fc_pending c) w.

(** The invariant: only the chain of a sync that failed may be out of order. *)
Definition chain_inv (w : W) : Prop := forall c, chain_of fc w = Some c ->
  fc_synced c = true -> follow (fc_batchesFolded c) (fc_pending c) w.

Definition unsynced (w : W) : Prop := forall c, chain_of fc w = Some c -> fc_synced c = false.

(** The batch of the object [b] is the next one. *)
Definition next_is (b : nat) (w : W) : Prop := in_order w /\ exists bi c, object_of b w = Some bi /\
  chain_of fc w = Some c /\ bi_Seq bi = fc_next c.

Lemma follow_quiet folded l w w' : calm w w' -> follow folded l w -> follow folded l w'.
Proof.
  intros Hc Hf i b (bi & Hb & Hs)%Hf. destruct (calm_objects _ _ Hc _ _ Hb) as (bi' & Hb' & Hcore).
  exists bi'. split; [done|]. by rewrite <- Hs, (core_Seq _ _ Hcore).
Qed.
Lemma stable_order : stable in_order.
Proof. intros w w' [Hc Hch] Ho c Hfc. rewrite Hch in Hfc. eapply follow_quiet, Ho; done. Qed.
Lemma stable_inv : stable chain_inv.
Proof. intros w w' [Hc Hch] Ho c Hfc Hs. rewrite Hch in Hfc. eapply follow_quiet, Ho; done. Qed.
Lemma stable_unsynced : stable unsynced.
Proof. intros w w' [Hc Hch] Ho c Hfc. rewrite Hch in Hfc. by apply Ho. Qed.
Lemma stable_next b : stable (next_is b).
Proof.
  intros w w' Hq [Ho (bi & c & Hb & Hc & Hs)]. split; [by eapply stable_order|].
  destruct (calm_objects _ _ (q_calm _ _ _ Hq) _ _ Hb) as (bi' & Hb' & Hcore). exists bi', c.
  rewrite (q_chain _ _ _ Hq). split; [done|]. split; [done|]. by rewrite <- Hs, (core_Seq _ _ Hcore).
Qed.

Lemma order_inv w : in_order w -> chain_inv w.
Proof. intros Ho c Hc _. by apply Ho. Qed.
Lemma unsynced_inv w : unsynced w -> chain_inv w.
Proof. intros Hu c Hc Hs. rewrite Hu in Hs; done. Qed.

(** A run from [P] ends in [Q], whatever it returns. *)
Definition leads {A} (P : W -> Prop) (m : stE W A) (Q : W -> Prop) : Prop := forall w, P w -> Q (m w).2.

Lemma leads_bind {A B} P Q (m : stE W A) (f : A -> stE W B) :
  (forall w, P w -> Q w) -> preserves P m -> (forall a, leads P (f a) Q) -> leads P (m ≫= f) Q.
Proof.
  intros HPQ Hm Hf w HP. unfold mbind, stE_bind. specialize (Hm w HP). destruct (m w) as [[a|e] w'].
  - by apply Hf.
  - by apply HPQ.
Qed.
Lemma leads_bind_to {A B} P Q R (m : stE W A) (f : A -> stE W B) :
  (forall w, R w -> Q w) -> leads P m R -> (forall a, leads R (f a) Q) -> leads P (m ≫= f) Q.
Proof.
  intros HRQ Hm Hf w HP. unfold mbind, stE_bind. specialize (Hm w HP). destruct (m w) as [[a|e] w'].
  - by apply Hf.
  - by apply HRQ.
Qed.
Lemma leads_preserves {A} P Q (m : stE W A) : (forall w, P w -> Q w) -> preserves Q m -> leads P m Q.
Proof. intros HPQ Hm w HP. by apply Hm, HPQ. Qed.

(** ... in [Q] when it returns a value, in [E] when it fails. *)
Definition triple {A} (P : W -> Prop) (m : stE W A) (Q E : W -> Prop) : Prop := forall w, P w ->
  match m w with (Ok _, w') => Q w' | (Err _, w') => E w' end.

Lemma triple_bind {A B} P Q R E (m : stE W A) (f : A -> stE W B) :
  triple P m R E -> (forall a, triple R (f a) Q E) -> triple P (m ≫= f) Q E.
Proof.
  intros Hm Hf w HP. unfold mbind, stE_bind. specialize (Hm w HP). destruct (m w) as [[a|e] w']; [|done].
  by apply Hf.
Qed.
Lemma triple_preserves {A} P E (m : stE W A) : (forall w, P w -> E w) -> preserves P m -> triple P m P E.
Proof. intros HPE Hm w HP. specialize (Hm w HP). destruct (m w) as [[a|e] w']; [done|]. by apply HPE. Qed.
Lemma triple_leads {A} P Q E (m : stE W A) :
  (forall w, Q w -> E w) -> leads P m Q -> triple P m Q E.
Proof. intros HQE Hm w HP. specialize (Hm w HP). destruct (m w) as [[a|e] w']; [done|]. by apply HQE. Qed.
Lemma leads_triple {A} P Q E (m : stE W A) :
  triple P m Q E -> (forall w, Q w -> E w) -> leads P m E.
Proof.
  intros Hm HQE w HP. specialize (Hm w HP). destruct (m w) as [[a|e] w']; [|done]. by apply HQE.
Qed.

(** *** Changes of the chain *)

Lemma chain_of_on fc' f w : chain_of fc (on_chain fc' f w).2 =
  if decide (fc' = fc) then f <$> chain_of fc w else chain_of fc w.
Proof.
  unfold chain_of. cbn. case_decide as Hd; [subst; by rewrite lookup_alter_eq|by rewrite lookup_alter_ne].
Qed.

(** A change of other parts of the chain. *)
Definition keeps_batches (f : foldChain -> foldChain) : Prop := forall c,
  fc_pending (f c) = fc_pending c /\ fc_batchesFolded (f c) = fc_batchesFolded c.
Definition keeps_unsynced (f : foldChain -> foldChain) : Prop := forall c,
  fc_synced c = false -> fc_synced (f c) = false.

Lemma on_chain_order f : keeps_batches f -> preserves in_order (on_chain fc f).
Proof.
  intros Hf w Ho c Hc. rewrite chain_of_on, decide_True in Hc by done.
  destruct (chain_of fc w) as [c0|] eqn:E; [|done]. injection Hc as <-. destruct (Hf c0) as [-> ->]. by apply Ho.
Qed.
Lemma on_chain_inv f : keeps_batches f -> keeps_unsynced f -> preserves chain_inv (on_chain fc f).
Proof.
  intros Hf Hs w Ho c Hc Hsc. rewrite chain_of_on, decide_True in Hc by done.
  destruct (chain_of fc w) as [c0|] eqn:E; [|done]. injection Hc as <-. destruct (Hf c0) as [-> ->].
  apply Ho; [done|]. destruct (fc_synced c0) eqn:E0; [done|]. by rewrite Hs in Hsc.
Qed.
Lemma on_chain_unsynced f : keeps_unsynced f -> preserves unsynced (on_chain fc f).
Proof.
  intros Hs w Ho c Hc. rewrite chain_of_on, decide_True in Hc by done.
  destruct (chain_of fc w) as [c0|] eqn:E; [|done]. injection Hc as <-. by apply Hs, Ho.
Qed.
(** Dropping the pending batches orders the chain. *)
Lemma on_chain_dropped f w : (forall c, fc_pending (f c) = []) -> in_order (on_chain fc f w).2.
Proof.
  intros Hf c Hc. rewrite chain_of_on, decide_True in Hc by done.
  destruct (chain_of fc w) as [c0|]; [|done]. injection Hc as <-. rewrite Hf. by intros i b.
Qed.
Lemma append_order b w : next_is b w -> in_order (on_chain fc (append_pending b) w).2.
Proof.
  intros [Ho (bi & c & Hb & Hc & Hs)] c' Hc'. rewrite chain_of_on, decide_True, Hc in Hc' by done.
  injection Hc' as <-. cbn. intros i b' [[_ Hi]|[-> <-]]%lookup_snoc_Some; [exact (Ho c Hc i b' Hi)|].
  subst. exists bi. by split.
Qed.
Lemma on_chain_next b f : keeps_batches f -> preserves (next_is b) (on_chain fc f).
Proof.
  intros Hf w [Ho (bi & c & Hb & Hc & Hs)]. split; [by apply on_chain_order|].
  exists bi, (f c). rewrite chain_of_on, decide_True, Hc by done. split; [done|]. split; [done|].
  unfold fc_next. destruct (Hf c) as [-> ->]. done.
Qed.
End order.

#[export] Hint Resolve stable_order stable_inv stable_unsynced stable_next : kept.

(** Take an operation apart, keeping an assertion. *)
Ltac kept_step :=
  lazymatch goal with
  | |- preserves _ (_ ≫= _) => apply preserves_bind; [|intros ?]
  | |- preserves _ (attempt _) => apply preserves_attempt
  | |- preserves _ (ignore _) => apply preserves_ignore
  | |- preserves _ (rethrow _ _) => apply preserves_rethrow
  | |- preserves _ (for_each _ _) => apply preserves_for_each; intros ? ?
  | |- preserves _ (match ?x with _ => _ end) => destruct x
  | |- preserves _ (if ?x then _ else _) => destruct x
  | |- preserves _ (let _ := _ in _) => cbv zeta
  | _ => first
      [ apply preserves_ret | apply preserves_throw | apply preserves_lift | apply preserves_gets
      | apply preserves_throw_if
      | solve [eauto with kept]
      | eapply stable_run; [eauto with kept | solve [eauto with via fold]] ]
  end.
Ltac kept := repeat kept_step.

Section operations.
Context {D : Type} `{ADB D} `{Provers} `{!Others D} (fc : chain_loc) `{!DriveLock fc}.
Abbreviation W := (World D).

(** ** The operations *)

Lemma dropBatchProof_order b : preserves (in_order fc) (dropBatchProof fc b : stE W unit).
Proof. unfold dropBatchProof. kept. by apply on_chain_order; intros ?. Qed.

Lemma keeps_learn vk : keeps_batches (learn_batchVK vk).
Proof. intros c. unfold learn_batchVK. by case_decide. Qed.

Lemma next_order b (w : W) : next_is fc b w -> in_order fc w.
Proof. by intros [Ho _]. Qed.

Lemma importBatch_order wk b p : leads (next_is fc b) (importBatch fc wk b p : stE W unit) (in_order fc).
Proof.
  unfold importBatch. do 3 (apply leads_bind; [apply next_order|kept|intros ?]). destruct (vk_ok _ _).
  - apply leads_bind; [apply next_order|by apply on_chain_next, keeps_learn|intros _].
    do 3 (apply leads_bind; [apply next_order|kept|intros ?]). intros w. apply append_order.
  - apply leads_preserves; [apply next_order|]. kept. apply dropBatchProof_order.
Qed.

Lemma chain_at_inv (w : W) c w' : chain_at fc w = (Ok c, w') -> w' = w /\ chain_of fc w = Some c.
Proof. unfold chain_at, chain_of. destruct (_ !! fc); [|done]. by intros [= <- <-]. Qed.

(** Reading the object and the chain, then acting on the batch if it is next. *)
Lemma read_next {A} b (k : BatchInput -> foldChain -> stE W A) :
  (forall bi c (w : W), in_order fc w -> object_of b w = Some bi -> chain_of fc w = Some c ->
    in_order fc (k bi c w).2) ->
  preserves (in_order fc) (bi ← object b; c ← chain_at fc; k bi c).
Proof.
  intros Hk w Ho. unfold mbind, stE_bind. destruct (object b w) as [[bi|e] w1] eqn:E1.
  - apply object_inv in E1 as [-> Hb]. destruct (chain_at fc w) as [[c|e] w2] eqn:E2.
    + apply chain_at_inv in E2 as [-> Hc]. by apply Hk.
    + unfold chain_at in E2. by destruct (_ !! fc); simplify_eq.
  - unfold object in E1. by destruct (_ !! b); simplify_eq.
Qed.

Lemma sync_loop_order id wk force bs : preserves (in_order fc) (sync_loop id fc wk force bs : stE W unit).
Proof.
  induction bs as [|b bs IH]; cbn [sync_loop]; [kept|]. apply read_next. intros bi c w Ho Hb Hc.
  unfold mbind at 1, stE_bind at 1. destruct (address wk w) as [[a|e] w1] eqn:Ea;
    [|pose proof (via_address (quiet fc) wk w) as Hq; rewrite Ea in Hq; by eapply stable_order].
  apply address_inv in Ea as [-> _].
  destruct (bi_Seq bi <? fc_next c)%N; [by apply IH|]. destruct (N.eqb_spec (bi_Seq bi) (fc_next c)) as [Hs|]; [|done].
  assert (next_is fc b w) as Hn by (split; [done|by exists bi, c]).
  cbn [negb]. destruct (negb force && _ && _).
  - apply (leads_bind_to (next_is fc b) _ (in_order fc)); [done|intros w'; apply append_order| |done].
    intros _. apply IH.
  - apply (leads_bind (next_is fc b)); [apply next_order|kept| |done]. intros [p|e].
    + eapply leads_bind_to; [done|apply importBatch_order|intros _; apply IH].
    + apply leads_preserves; [apply next_order|]. kept.
Qed.

Lemma keeps_unsynced_genesis : keeps_unsynced fc_genesis.
Proof. by intros c. Qed.

Lemma import_last_fold_unsynced id wk : preserves (unsynced fc) (import_last_fold id fc wk : stE W unit).
Proof. unfold import_last_fold. kept; by apply on_chain_unsynced; intros c. Qed.

Lemma sync_triple id wk : triple (unsynced fc) (sync id fc wk : stE W unit) (in_order fc) (chain_inv fc).
Proof.
  unfold sync. cbv zeta.
  do 5 (eapply triple_bind;
    [apply triple_preserves; [apply unsynced_inv|solve [kept; apply import_last_fold_unsynced]]|intros ?]).
  eapply triple_bind; [apply triple_leads; [apply order_inv|intros w _; by apply on_chain_dropped]|intros _].
  eapply triple_bind; [apply triple_preserves; [apply order_inv|apply sync_loop_order]|intros _].
  apply triple_preserves; [apply order_inv|by apply on_chain_order; intros ?].
Qed.

(** *** Folds *)

Lemma foldFailed_order e : preserves (in_order fc) (foldFailed fc e : stE W unit).
Proof.
  unfold foldFailed. kept; try by apply on_chain_order; intros ?.
  - apply on_chain_order. intros c. unfold count_failure. by case_match.
  - apply dropBatchProof_order.
  - intros w _. by apply on_chain_dropped.
Qed.

Lemma run_fold_order wk req : preserves (in_order fc) (run_fold fc wk req : stE W string).
Proof. unfold run_fold, runFold. kept. apply foldFailed_order. Qed.

Lemma fold_order id wk : preserves (in_order fc) (fold id fc wk : stE W unit).
Proof.
  unfold fold, claimed, fold_claimed, bootstrap, commit_fold. kept;
    try apply run_fold_order; try by apply on_chain_order; intros ?. intros w _. by apply on_chain_dropped.
Qed.
Hint Resolve fold_order : kept.

(** *** The gather *)

(** The object [b] is of the batch [seq], and the chain is in order. *)
Definition gathers (b : nat) (seq : N) (w : W) : Prop :=
  in_order fc w /\ exists bi, object_of b w = Some bi /\ bi_Seq bi = seq.

Lemma calm_gathers {A} b seq (m : stE W A) :
  preserves (in_order fc) m -> via calm m -> preserves (gathers b seq) m.
Proof.
  intros Ho Hm w [Hw (bi & Hb & Hs)]. split; [by apply Ho|].
  destruct (calm_objects _ _ (Hm w) _ _ Hb) as (bi' & Hb' & Hcore). exists bi'. split; [done|].
  by rewrite (core_Seq _ _ Hcore).
Qed.

Lemma fold_if_order cond id wk : preserves (in_order fc) (fold_if cond id fc wk : stE W unit).
Proof. unfold fold_if. kept. Qed.

#[local] Instance lock_calm_others : CalmOthers D := lock_calm fc.

Lemma via_fold_if cond id wk : via calm (fold_if cond id fc wk : stE W unit).
Proof. unfold fold_if. via. by apply (via_fold calm (P := any_chain)). Qed.

Lemma gather_next fuel id wk i b seq :
  preserves (in_order fc) (gather fuel id fc wk (S i) : stE W bool) ->
  leads (next_is fc b) (st ← stopped id;
    if st : bool then mret false
    else
      r ← attempt (proof id fc i seq);
      st ← stopped id;
      if st : bool then mret false
      else p ← lift r; _ ← importBatch fc wk b p; gather fuel id fc wk (S i)) (in_order fc).
Proof.
  intros IH. apply leads_bind; [apply next_order|kept|]. intros [|];
    [by apply leads_preserves; [apply next_order|kept]|].
  do 2 (apply leads_bind; [apply next_order|kept|intros ?]). destruct a0;
    [by apply leads_preserves; [apply next_order|kept]|].
  apply leads_bind; [apply next_order|kept|intros p].
  eapply leads_bind_to; [done|apply importBatch_order|intros _; exact IH].
Qed.

Lemma gather_order fuel id wk i : preserves (in_order fc) (gather fuel id fc wk i : stE W bool).
Proof.
  revert i. induction fuel as [|fuel IH]; intros i; cbn [gather]; [kept|].
  apply preserves_bind; [kept|]. intros s. destruct (s_batches s !! i) as [b|]; [|kept].
  intros w Ho. unfold mbind at 1, stE_bind at 1. destruct (object b w) as [[bi|e] w1] eqn:E1;
    [|unfold object in E1; by destruct (_ !! b); simplify_eq].
  apply object_inv in E1 as [-> Hb].
  apply (leads_bind (gathers b (bi_Seq bi))); [by intros ? [? _]| | |split; [done|by exists bi]].
  { apply calm_gathers; [apply fold_if_order|apply via_fold_if]. }
  intros _ w1 [Ho1 (bi1 & Hb1 & Hs1)]. unfold mbind at 1, stE_bind at 1.
  destruct (chain_at fc w1) as [[c|e] w2] eqn:E2; [|unfold chain_at in E2; by destruct (_ !! fc); simplify_eq].
  apply chain_at_inv in E2 as [-> Hc].
  destruct (bi_Seq bi <? fc_next c)%N; [by apply IH|]. destruct (N.eqb_spec (bi_Seq bi) (fc_next c)) as [Hs|]; [|done].
  apply gather_next; [apply IH|]. split; [done|]. exists bi1, c. by rewrite Hs1.
Qed.

(** ** Passes *)

Lemma pass_on_order id bs drain wk : preserves (in_order fc) (pass_on id fc bs drain wk : stE W unit).
Proof.
  unfold pass_on, newScatter, gather_and_fold. kept; [apply gather_order|apply fold_if_order].
Qed.

Lemma move_chain_inv id wk : preserves (chain_inv fc) (move_chain id fc wk : stE W nat).
Proof. unfold move_chain. kept; by apply on_chain_inv; intros ?. Qed.
Hint Resolve move_chain_inv : kept.
Lemma foldWorker_inv id : preserves (chain_inv fc) (foldWorker id fc : stE W nat).
Proof. unfold foldWorker. kept. Qed.
Hint Resolve foldWorker_inv : kept.

(** An operation on the fold worker that keeps the order. *)
Lemma on_fold_worker_inv {A} id wk (op : nat -> stE W A) :
  preserves (in_order fc) (op wk) -> preserves (chain_inv fc) (on_fold_worker id fc wk op).
Proof.
  intros Hop w Hi. unfold on_fold_worker, mbind at 1, stE_bind at 1.
  destruct (chain_at fc w) as [[c|e] w1] eqn:E1; [|unfold chain_at in E1; by destruct (_ !! fc); simplify_eq].
  apply chain_at_inv in E1 as [-> Hc]. destruct (fc_synced c) eqn:Hs.
  - apply order_inv. apply (Hop w). intros c' Hc'. simplify_eq. by apply Hi.
  - apply (leads_triple (unsynced fc) (in_order fc)); [|apply order_inv|intros c' ?; by simplify_eq].
    eapply triple_bind; [apply sync_triple|]. intros _. apply triple_preserves; [apply order_inv|done].
Qed.

Lemma withFoldWorker_inv {A} id (op : nat -> stE W A) :
  (forall wk, preserves (in_order fc) (op wk)) -> preserves (chain_inv fc) (withFoldWorker id fc op).
Proof.
  intros Hop. unfold withFoldWorker. generalize 1%nat. intros n.
  induction n as [|n IH]; cbn [withFoldWorker_loop]; kept; try (by apply on_fold_worker_inv);
    by apply on_chain_inv; intros ?.
Qed.

Lemma advance_inv id drain : preserves (chain_inv fc) (advance id fc drain : stE W unit).
Proof. unfold advance. kept; apply withFoldWorker_inv; intros wk; apply pass_on_order. Qed.

Lemma finalizeOn_order id st p r wk : preserves (in_order fc) (finalizeOn id fc st p r wk : stE W Results).
Proof. unfold finalizeOn, claimed, finalize_claimed. kept. Qed.
End operations.

(** ** The invariant *)

Section invariant.
Context {D : Type} `{ADB D} `{Provers} `{!Others D}.
Abbreviation W := (World D).

Lemma legacy_chain_unsynced id cp c (w : W) c' w' :
  legacy_chain id cp c w = (Ok c', w') -> fc_synced c' = fc_synced c.
Proof.
  unfold legacy_chain. intros E. destruct cp as [cp|]; [|by injection E as <-].
  destruct (cp_Version cp =? 0)%N; [|by injection E as <-]. first_step E as n w1 Hn. by injection E as <-.
Qed.

(** A chain loaded from storage is not synced. *)
Lemma chain_loaded id (w : W) fc w' :
  sc_chains (w_sched w) !! id = None -> chain id w = (Ok fc, w') -> chain_inv fc w'.
Proof.
  intros Hn. unfold chain. intros E. first_step E as known w1 [= <- <-]. rewrite Hn in E.
  first_step E as el w2 Hel. first_step E as every w3 Hev. first_step E as r w4 Hr.
  first_step E as cp w5 Hcp. first_step E as c w6 Hc.
  apply legacy_chain_unsynced in Hc. unfold new_chain in E. injection E as <- <-.
  apply unsynced_inv. intros c' Hc'. unfold chain_of in Hc'. cbn in Hc'. rewrite lookup_insert_eq in Hc'.
  injection Hc' as <-. rewrite Hc. by destruct cp.
Qed.

(** C4: the batches of a chain stay in order.  The pending batches of a synced
    chain are, in sequence order and without gap or repetition, the ones that
    follow the batches folded; a chain loaded from storage satisfies this and
    a pass, a drain and the job of a finalize keep it under the drive lock,
    whatever the provers answer, whichever storage call fails and wherever the
    pass is interrupted. *)
Theorem chain_stays_in_order fc `{!DriveLock fc} id drain (w : W) :
  (forall w0, sc_chains (w_sched w0) !! id = None -> chain id w0 = (Ok fc, w) -> chain_inv fc w) /\
  (chain_inv fc w -> chain_inv fc (advance id fc drain w).2) /\
  (chain_inv fc w -> forall st p r, chain_inv fc (withFoldWorker id fc (finalizeOn id fc st p r) w).2).
Proof.
  split; [intros w0; apply chain_loaded|]. split; [by apply advance_inv|].
  intros Hi st p r. apply withFoldWorker_inv; [done|intros wk; by apply finalizeOn_order|done].
Qed.
End invariant.
