(* ===== verification/FoldSpec.v ===== *)
(** * What a fold commits and what a finalize returns (orchestrator/scheduler.go, finalize.go)

    A fold that succeeds commits the batches that follow the folded ones, with
    a proof one worker made of exactly them; the results of a finalize are
    those of a proof checked against the local state. *)

From S2P Require Import Prelude Errors Effects Bytes Types Records KV Keys Artifacts Storage.
From S2P Require Import StorageRefine StorageSpec StorageProps Retries Workers Sdk Config Seal.
From S2P Require Import Chains Engine Finalize Lifecycle LifecycleProps Scheduler Fold Scatter.
From S2P Require Import JobSteps JobProps Waits ChainInv.

Section answers.
Context {D : Type} `{ADB D} `{Provers} `{!Others D} `{!CalmOthers D}.
Abbreviation W := (World D).

(** A job submitted to a worker, which reported it done. *)
Lemma runJob_inv wk submit (w : W) job w' :
  runJob wk submit w = (Ok job, w') ->
  exists n n' a, submit n a = Some job /\ GetJob n' a job = Some JobDone /\ at_addr wk a w'.
Proof.
  unfold runJob. generalize maxJobAttempts true errorf. intros attempts.
  revert w. induction attempts as [|k IH]; intros w first last E; [done|]. cbn [runJob_loop] in E.
  first_step E as ? w1 Hpause. first_step E as r w2 Hr%attempt_inv. destruct r as [job'|e].
  - first_step E as ? w3 Hres. injection E as <- <-.
    first_step Hr as job w4 Hs. pose proof Hs as (n & a & Hsub & Ha)%ask_inv.
    first_step Hr as [] w5 Hw. injection Hr as <- <-.
    pose proof (step_calm _ _ _ _ (via_waitJob calm wk job) Hw) as Hc.
    apply waitJob_inv in Hw as (n' & a' & Hd & Ha').
    rewrite (at_addr_inj _ _ _ _ Ha' (calm_addr _ _ _ _ Hc Ha)) in Hd. exists n, n', a.
    split; [done|]. split; [done|].
    eapply calm_addr; [|exact (calm_addr _ _ _ _ Hc Ha)]. refine (step_calm _ _ _ _ _ Hres). via.
  - first_step E as st w3 Hst. destruct st; [done|]. first_step E as ? w4 Hres.
    destruct (errors_Is e ErrWorkerRemoved); [done|]. by apply IH in E.
Qed.

Lemma call_worker_inv {A} wk (req : nat -> string -> option A) (w : W) x w' :
  call_worker wk req w = (Ok x, w') -> exists n a, req n a = Some x /\ at_addr wk a w'.
Proof.
  unfold call_worker. generalize maxJobAttempts true errorf. intros attempts.
  revert w. induction attempts as [|k IH]; intros w first last E; [done|]. cbn [call_loop] in E.
  first_step E as ? w1 Hpause. first_step E as has w2 Hhas. destruct (negb has); [done|].
  first_step E as r w3 Hr%attempt_inv. destruct r as [y|e].
  - injection E as <- <-. by apply ask_inv in Hr.
  - first_step E as ? w4 Hres. by apply IH in E.
Qed.

Lemma call_worker_at {A} wk (req : nat -> string -> option A) a (w : W) x w' :
  at_addr wk a w -> call_worker wk req w = (Ok x, w') -> (exists n, req n a = Some x) /\ at_addr wk a w'.
Proof.
  intros Ha E. pose proof (step_calm _ _ _ _ (via_call_worker calm wk req) E) as Hc.
  pose proof (calm_addr _ _ _ _ Hc Ha) as Ha'. apply call_worker_inv in E as (n & a' & Hr & Ha'').
  rewrite (at_addr_inj _ _ _ _ Ha' Ha''). split; [by exists n|done].
Qed.

Lemma foldVK_at fc wk job a (w : W) vk w' :
  at_addr wk a w -> foldVK fc wk job w = (Ok vk, w') -> at_addr wk a w' /\
  exists n c, FetchStarkInfo n a job = Some vk /\ chain_of fc w' = Some c /\ vk_ok (wantAggVK c) vk = true.
Proof.
  unfold foldVK. intros Ha E. first_step E as vk' w1 Hvk. apply (call_worker_at _ _ _ _ _ _ Ha) in Hvk as [[n Hn] Ha1].
  first_step E as c w2 [-> Hc]%chain_at_inv. destruct (vk_ok (wantAggVK c) vk') eqn:Hok; [|by first_step E as ? w3 Hx].
  injection E as <- <-. split; [done|]. by exists n, c.
Qed.

Lemma objects_inv bs (w : W) bis w' :
  objects bs w = (Ok bis, w') -> w' = w /\ Forall2 (fun b bi => object_of b w = Some bi) bs bis.
Proof.
  revert bis w'. induction bs as [|b bs IH]; intros bis w' E; cbn [objects] in E.
  - injection E as <- <-. by split.
  - first_step E as bi w1 [-> Hb]%object_inv. first_step E as l w2 [-> Hl]%IH. injection E as <- <-.
    split; [done|]. by constructor.
Qed.
End answers.

(** The sequence numbers of the [n] batches after the first [folded]. *)
Definition seqs_from (folded : N) (n : nat) : list N := (fun i => u64 (folded + N.of_nat i)) <$> seq 0 n.

Section fold_spec.
Context {D : Type} `{ADB D} `{Provers} `{!Others D} (fc : chain_loc) `{!DriveLock fc}.
Abbreviation W := (World D).

#[local] Instance fold_calm : CalmOthers D := lock_calm fc.

Lemma follow_seqs folded bs bis (w : W) :
  Forall2 (fun b bi => object_of b w = Some bi) bs bis -> follow folded bs w ->
  bi_Seq <$> bis = seqs_from folded (length bs).
Proof.
  intros Hb Hf. apply list_eq. intros i. unfold seqs_from. rewrite !list_lookup_fmap.
  destruct (bs !! i) as [b|] eqn:Hi.
  - destruct (Forall2_lookup_l _ _ _ _ _ Hb Hi) as (bi & -> & Ho). destruct (Hf _ _ Hi) as (bi' & Ho' & Hs).
    rewrite lookup_seq_lt by (by eapply lookup_lt_Some). cbn. f_equal. rewrite <- Hs. congruence.
  - rewrite lookup_seq_ge by (by apply lookup_ge_None). apply Forall2_length in Hb.
    rewrite (lookup_ge_None_2 bis); [done|]. rewrite <- Hb. by apply lookup_ge_None.
Qed.

Lemma run_quiet {A} (m : stE W A) w r w' : via (quiet fc) m -> m w = (r, w') -> quiet fc w w'.
Proof. intros Hm E. specialize (Hm w). by rewrite E in Hm. Qed.

(** A fold job submitted and done, of the aggregator's program vk, and its proof. *)
Record fold_made (a job want : string) (req : FoldRequest JobConfig) (p : bytes) : Prop := {
  fm_submit : exists n, SubmitFold n a req = Some job;
  fm_done : exists n, GetJob n a job = Some JobDone;
  fm_vk : exists n vk, FetchStarkInfo n a job = Some vk /\ vk_ok want vk = true;
  fm_proof : exists n, FetchStarkRaw n a job = Some p;
}.

Lemma run_fold_ok wk req (w : W) job w' : run_fold fc wk req w = (Ok job, w') ->
  quiet fc w w' /\ exists n n' a, SubmitFold n a req = Some job /\ GetJob n' a job = Some JobDone /\ at_addr wk a w'.
Proof.
  unfold run_fold. intros E. first_step E as r w1 Hr%attempt_inv. destruct r as [job'|e]; [|by first_step E as ? w2 Hx].
  injection E as <- <-. split; [refine (run_quiet _ _ _ _ _ Hr); unfold runFold; via|]. exact (runJob_inv _ _ _ _ _ Hr).
Qed.

(** The chain once the aggregator's vk is known. *)
Definition vk_learned (c c1 : foldChain) : Prop :=
  c1 = c \/ fc_aggVK c = ""%string /\ exists vk, c1 = fc_set_vks vk (fc_batchVK c) c.

Lemma bootstrap_ok wk cfg jobs (w : W) c w' :
  chain_of fc w = Some c -> bootstrap fc wk cfg jobs w = (Ok tt, w') ->
  exists vk, chain_of fc w' = Some (fc_set_vks vk (fc_batchVK c) c).
Proof.
  unfold bootstrap. intros Hc E. first_step E as boot w1 [Hq1 _]%run_fold_ok.
  first_step E as vk w2 Hvk. pose proof (run_quiet _ _ _ _ (via_foldVK (quiet fc) fc wk boot) Hvk) as Hq2.
  assert (chain_of fc w2 = Some c) as Hc2 by (by rewrite (q_chain _ _ _ Hq2), (q_chain _ _ _ Hq1)).
  exists vk. pose proof (chain_of_on fc fc (fun c => fc_set_vks vk (fc_batchVK c) c) w2) as Hon.
  rewrite E, decide_True, Hc2 in Hon by done. exact Hon.
Qed.
End fold_spec.

(** ** Storage calls that return *)

Section store_calls.
Context `{Chain} (id : ElectionID).
Abbreviation W := (World TypedDB).

Lemma on_store_Ok {A} (c : call A) a (w w' : W) : on_store (run_call c) w = (Ok a, w') ->
  (exists ws, call_writes c (wmap w) ws /\ wmap w' = td_writes ws (wmap w)) \/
  (call_skips c (wmap w) /\ wmap w' = wmap w).
Proof.
  intros E. assert (Hs : w_store w' = (run_call c (w_store w)).2) by (rewrite <- on_store_store, E; done).
  pose proof (call_effect c (w_store w)) as He. unfold effect in He.
  assert ((run_call c (w_store w)).1 = Ok a) as Er.
  { revert E. unfold on_store, zoom. destruct (run_call c (w_store w)). by intros [= -> _]. }
  rewrite Er, <- Hs in He. exact He.
Qed.

Lemma results_stored now r (w w' : W) :
  on_store (run_call (CSetResults now r)) w = (Ok tt, w') -> rs_ElectionID r = id ->
  exists r', wmap w' !! KResults id = Some (AResults r') /\ rs_Tally r' = rs_Tally r /\
    rs_ProofBytes r' = rs_ProofBytes r.
Proof.
  intros E Hid. apply on_store_Ok in E as [(ws & -> & ->)|[[] _]].
  cbn [td_writes foldl td_write]. rewrite Hid. eexists. split; [by apply lookup_insert_eq|].
  by destruct (IsZero _).
Qed.

End store_calls.

(** ** The stored head *)

Section stored.
Context `{Provers} `{!Others TypedDB} (id : ElectionID) (fc : chain_loc).
Abbreviation W := (World TypedDB).

(** The others neither touch the chain nor the stored head: the drive lock,
    which the deletion of the proofs of an ended election does not take. *)
Class FoldLock := {
  fl_drive :: DriveLock fc;
  fl_head n (w : W) : checkpoint_at (wmap (others n w)) id = checkpoint_at (wmap w) id /\
    fold_proof_at (wmap (others n w)) id = fold_proof_at (wmap w) id;
}.
Context `{!FoldLock}.

#[local] Instance stored_calm : CalmOthers TypedDB := lock_calm fc.

Definition head_stored (cp : FoldCheckpoint) (p : bytes) (w : W) : Prop :=
  checkpoint_at (wmap w) id = Some cp /\ fold_proof_at (wmap w) id = Some p.

Lemma yield_stored cp p d : preserves (head_stored cp p) (yield_for d : stE W unit).
Proof.
  intros w [Hc Hp]. destruct (fl_head (sc_tick (w_sched w)) w) as [Ec Ep].
  unfold head_stored, yield_for, modify, wmap, w_store in *. cbn. by rewrite Ec, Ep.
Qed.

Lemma pool_run_stored {A} cp p (f : time -> WorkerManager -> A * WorkerManager) :
  preserves (head_stored cp p) (pool_run f : stE W A).
Proof.
  apply preserves_bind; [apply yield_stored|]. intros _ w Hw. unfold with_pool. destruct (w_pool w); [|done].
  by destruct (f _ _).
Qed.

Lemma pool_Release_stored cp p wk : preserves (head_stored cp p) (pool_Release wk : stE W unit).
Proof.
  unfold pool_Release. apply preserves_bind; [|intros _; by apply preserves_ret]. generalize 2%nat (ReleaseStart wk).
  intros n. induction n as [|n IH]; intros t; cbn [pool_thread_loop]; [apply preserves_throw|].
  apply preserves_bind; [apply preserves_gets|intros st]. apply preserves_bind; [apply pool_run_stored|intros t'].
  destruct (thread_ended t'); [by apply preserves_ret|apply IH].
Qed.

Lemma folded_vote_stored cp p v :
  preserves (head_stored cp p) (ignore (store_call (fun _ => CSetVoteStatus id v VoteStatusFolded)) : stE W unit).
Proof.
  apply preserves_ignore. unfold store_call. apply preserves_bind; [apply yield_stored|intros _].
  apply preserves_bind; [apply preserves_gets|intros _]. intros w Hw. unfold head_stored, wmap.
  rewrite on_store_store.
  apply (call_preserves (fun m => checkpoint_at m id = Some cp /\ fold_proof_at m id = Some p)); [|exact Hw].
  intros ws [_ ->] Hm. unfold checkpoint_at, fold_proof_at in *. by rewrite !td_writes_untouched by untouched.
Qed.

Lemma commit_stores now cp p folded (w w' : W) :
  on_store (run_call (CCommitFold now cp p folded)) w = (Ok tt, w') -> cp_ElectionID cp = id ->
  head_stored (kept_FoldCheckpoint (cp_set_updated now cp)) p w'.
Proof.
  intros E Hid. apply on_store_Ok in E as [(ws & [_ ->] & Hm)|[[] _]].
  unfold head_stored, checkpoint_at, fold_proof_at. rewrite Hm, <- Hid, !td_writes_cons.
  rewrite !delete_proofs_lookup. simpl td_write. split; [|by rewrite lookup_insert_eq].
  by rewrite lookup_insert_ne, lookup_insert_eq.
Qed.

(** ** Folds *)

(** A fold's request: the imported jobs of the batches, chained to the last
    fold, or bound to the aggregator's vk when there is none. *)
Definition folds (cfg : JobConfig) (bis : list BatchInput) (c : foldChain) (req : FoldRequest JobConfig) :
    Prop :=
  fr_Config _ req = cfg /\ fr_BatchJobs _ req = bi_ImportedID <$> bis /\
  (fr_FoldVK _ req, fr_PrevFoldJob _ req)
  = (if decide (fc_lastFold c = ""%string) then (fc_aggVK c, ""%string) else (""%string, fc_lastFold c)).

(** The chain [c'] after a fold of [bis] onto [c]: its head moved on by one
    fold and these batches, nothing pending and no failure counted. *)
Record advanced (job a : string) (bis : list BatchInput) (c c' : foldChain) : Prop := {
  av_head : (fc_lastFold c', fc_lastFoldOn c') = (job, a);
  av_count : fc_foldCount c' = u64 (fc_foldCount c + 1);
  av_batches : fc_batchesFolded c' = u64 (fc_batchesFolded c + N.of_nat (length bis));
  av_root : Some (fc_stateRoot c') = bi_NewStateRoot <$> last bis;
  av_pending : fc_pending c' = [];
  av_failing : (fc_foldFailures c', fc_reproved c', fc_headSuspect c', fc_avoid c') = (0%nat, false, false, ∅);
  av_rest : (fc_pin c', fc_synced c', fc_resync c', fc_aggVK c', fc_batchVK c', fc_foldEvery c')
          = (fc_pin c, fc_synced c, fc_resync c, fc_aggVK c, fc_batchVK c, fc_foldEvery c);
}.

(** A checkpoint with the head of a chain. *)
Definition head_of (c : foldChain) (cp : FoldCheckpoint) : Prop :=
  cp_ElectionID cp = id /\ cp_FoldCount cp = fc_foldCount c /\ cp_LastFoldJob cp = fc_lastFold c /\
  cp_FoldWorker cp = fc_lastFoldOn c /\ cp_StateRoot cp = fc_stateRoot c /\
  cp_BatchesFolded cp = fc_batchesFolded c /\ cp_AggVK cp = fc_aggVK c /\ cp_BatchVK cp = fc_batchVK c /\
  cp_Version cp = FoldCheckpointVersion.

(** What a fold that goes through leaves: a job of one worker folded exactly
    the batches that follow, in order, onto the head of the chain; the chain
    is cleared of them and its new head is stored with the job's proof. *)
Record committed (c c' : foldChain) (w' : W) (a job : string) (p : bytes) (bis : list BatchInput)
    (cfg : JobConfig) : Prop := {
  cm_batches : bi_Seq <$> bis = seqs_from (fc_batchesFolded c) (length (fc_pending c));
  cm_made : exists c1 req, vk_learned c c1 /\ folds cfg bis c1 req /\
    fold_made a job (wantAggVK c1) req p /\ advanced job a bis c1 c';
  cm_chain : chain_of fc w' = Some c';
  cm_stored : exists cp, head_of c' cp /\ head_stored cp p w';
}.

Lemma fold_request_folds cfg bis c : folds cfg bis c (fold_request cfg (bi_ImportedID <$> bis) c).
Proof. unfold fold_request. case_decide as E; unfold folds; (split; [done|]); (split; [done|]); by case_decide. Qed.

Lemma fc_folded_advanced job a bis c : bis <> [] -> advanced job a bis c (fc_folded job a bis c).
Proof.
  intros Hb. split; try done. unfold fc_folded, folded_head. cbn.
  destruct (last bis) as [b|] eqn:E; [done|]. by apply last_None in E.
Qed.

Lemma commit_fold_ok wk bis job p c a (w w' : W) :
  chain_of fc w = Some c -> at_addr wk a w -> commit_fold id fc wk bis job p w = (Ok tt, w') ->
  chain_of fc w' = Some (fc_folded job a bis c) /\
  exists t, head_stored (kept_FoldCheckpoint (cp_set_updated t (checkpoint id (folded_head job a bis c)))) p w'.
Proof.
  unfold commit_fold. intros Hc Ha E. first_step E as c' w1 [-> Hc']%chain_at_inv. rewrite Hc in Hc'.
  injection Hc' as <-. first_step E as a' w2 [-> Ha']%address_inv.
  assert (a' = a) as -> by (by eapply at_addr_inj). first_step E as [] w3 Hst.
  assert (quiet fc w w3) as Hq. { refine (run_quiet fc _ _ _ _ _ Hst). by apply via_store_call; [apply _|]. }
  unfold store_call in Hst. first_step Hst as [] w4 Hy. first_step Hst as now w5 [= <- <-].
  apply commit_stores in Hst; [|done]. first_step E as [] w6 Hon.
  assert (chain_of fc w6 = Some (fc_folded job a bis c)) as Hc6.
  { pose proof (chain_of_on fc fc (fc_folded job a bis) w3) as Hch. rewrite Hon, decide_True in Hch by done.
    rewrite (q_chain _ _ _ Hq), Hc in Hch. exact Hch. }
  assert (w6 = (on_chain fc (fc_folded job a bis) w3).2) as Ew6 by (by rewrite Hon).
  split.
  - rewrite <- Hc6. refine (q_chain _ _ _ (run_quiet fc _ _ _ _ _ E)).
    apply via_for_each; [apply _|]. intros bi. apply via_for_each; [apply _|]. intros v.
    by apply via_ignore, via_pass_call; [apply _|].
  - eexists. assert (head_stored (kept_FoldCheckpoint (cp_set_updated (sc_now (w_sched w4))
      (checkpoint id (folded_head job a bis c)))) p w6) as Hs6 by (rewrite Ew6; exact Hst).
    apply (preserves_for_each _ bis (fun bi => for_each (bi_VoteIDs bi) (fun v =>
      ignore (store_call (fun _ => CSetVoteStatus id v VoteStatusFolded))))) in Hs6.
    + rewrite E in Hs6. exact Hs6.
    + intros bi _. apply preserves_for_each. intros v _. apply folded_vote_stored.
Qed.

Lemma fold_claimed_ok wk cfg c (w w' : W) :
  in_order fc w -> chain_of fc w = Some c -> fold_claimed id fc wk cfg w = (Ok tt, w') ->
  fc_pending c <> [] ->
  exists c' a job p bis, committed c c' w' a job p bis cfg.
Proof.
  unfold fold_claimed. intros Ho Hc E Hne. first_step E as c' w1 [-> Hc']%chain_at_inv. rewrite Hc in Hc'.
  injection Hc' as <-. first_step E as bis w2 [-> Hbis]%objects_inv.
  pose proof (follow_seqs _ _ _ _ Hbis (Ho _ Hc)) as Hseqs. cbv zeta in E.
  first_step E as [] w3 Hboot. assert (exists c1, chain_of fc w3 = Some c1 /\ vk_learned c c1) as (c1 & Hc1 & Hl).
  { case_decide as Hvk; [|injection Hboot as <-; exists c; split; [done|by left]].
    destruct (bootstrap_ok _ _ _ _ _ _ _ Hc Hboot) as [vk Hc3]. eexists. split; [exact Hc3|].
    right. split; [done|]. by exists vk. }
  clear Hboot. first_step E as c2 w4 [-> Hc2]%chain_at_inv. rewrite Hc1 in Hc2. injection Hc2 as <-.
  first_step E as job w5 [Hq5 (n1 & n2 & a & Hsub & Hdone & Ha5)]%run_fold_ok.
  first_step E as vk w6 Hvk. pose proof (run_quiet fc _ _ _ _ (via_foldVK (quiet fc) fc wk job) Hvk) as Hq6.
  apply (foldVK_at _ _ _ _ _ _ _ Ha5) in Hvk as [Ha6 (n3 & c3 & Hinfo & Hc3 & Hok)].
  rewrite (q_chain _ _ _ Hq6), (q_chain _ _ _ Hq5), Hc1 in Hc3. injection Hc3 as <-.
  first_step E as p w7 Hp.
  pose proof (run_quiet fc _ _ _ _ (via_call_worker (quiet fc) wk _) Hp) as Hq7.
  apply (call_worker_at _ _ _ _ _ _ Ha6) in Hp as [[n4 Hraw] Ha7].
  assert (chain_of fc w7 = Some c1) as Hc7
    by (by rewrite (q_chain _ _ _ Hq7), (q_chain _ _ _ Hq6), (q_chain _ _ _ Hq5)).
  destruct (commit_fold_ok _ _ _ _ _ _ _ _ Hc7 Ha7 E) as [Hch [t Hst]].
  assert (bis <> []) as Hb.
  { intros ->. apply Hne. apply (f_equal length) in Hseqs.
    unfold seqs_from in Hseqs. rewrite !length_fmap, length_seq in Hseqs. by apply nil_length_inv. }
  exists (fc_folded job a bis c1), a, job, p, bis. split; [done| |done|].
  - exists c1, (fold_request cfg (bi_ImportedID <$> bis) c1). split; [done|].
    split; [apply fold_request_folds|]. split; [|by apply fc_folded_advanced].
    split; [by exists n1|by exists n2|by exists n3, vk|by exists n4].
  - eexists. split; [|exact Hst]. done.
  - apply fl_drive.
Qed.

End stored.

(** ** Results *)

Section results.
Context `{Provers} `{!Others TypedDB} `{!CalmOthers TypedDB} (id : ElectionID).
Abbreviation W := (World TypedDB).

Lemma withFoldWorker_ok {A} fc (op : nat -> stE W A) (w : W) x w' :
  withFoldWorker id fc op w = (Ok x, w') -> exists wk w1, op wk w1 = (Ok x, w').
Proof.
  unfold withFoldWorker. generalize 1%nat. intros n. revert w.
  induction n as [|n IH]; intros w E; cbn [withFoldWorker_loop] in E;
    first_step E as wk w1 Hwk; first_step E as r w2 Hr%attempt_inv.
  all: destruct r as [y|e]; [injection E as <- <-; unfold on_fold_worker in Hr;
    first_step Hr as c w3 Hc; first_step Hr as [] w4 Hs; by exists wk, w4|].
  all: destruct (negb _); [done|]; first_step E as [] w3 Hon; first_step E as st w4 Hst.
  - done.
  - destruct st; [done|]. by apply IH in E.
Qed.

Lemma rethrow_inv {A} f (m : stE W A) (w : W) x w' : rethrow f m w = (Ok x, w') -> m w = (Ok x, w').
Proof. unfold rethrow. destruct (m w) as [[]]; [|done]. by intros [= <- <-]. Qed.

(** The answers the results of a finalize were made of. *)
Record checked_results (state : ChainState) (payload : ResultsPayload) (res : Results) : Prop := {
  fr_id : rs_ElectionID res = id;
  fr_checked : exists a job n n' n'' publics sn digest foldCount batchVK aggVK lastFold foldVK,
    SubmitFinalize n a (MkFinalizeRequest (State_ChainConfig state) lastFold foldVK payload) = Some job /\
    GetJob n' a job = Some JobDone /\
    FetchFinal job n'' a = Some (publics, sn) /\ ParseDigest publics = Some digest /\
    verifyFinalDigest digest (sn_ProgramVK sn) state foldCount batchVK aggVK (rs_Tally res) = Ok tt /\
    (rs_ProgramVK res, rs_RootCVadcopFinal res, rs_PublicValues res, rs_ProofBytes res) =
    (hex0x (sn_ProgramVK sn), hex0x (sn_RootCVadcopFinal sn), hex0x (sn_PublicValues sn), hex0x (sn_ProofBytes sn));
}.

Lemma finalize_claimed_ok fc wk state payload results (w : W) res w' :
  finalize_claimed id fc wk state payload results w = (Ok res, w') ->
  checked_results state payload res /\ rs_Tally res = results.
Proof.
  unfold finalize_claimed. intros E. first_step E as c w1 [-> Hc]%chain_at_inv. cbv zeta in E.
  first_step E as job w2 Hjob%rethrow_inv. apply runJob_inv in Hjob as (n & n' & a & Hs & Hd & Ha).
  first_step E as [publics sn] w3 Hf%rethrow_inv. apply (call_worker_at _ _ _ _ _ _ Ha) in Hf as [[n'' Hf] _].
  first_step E as digest w4 Hdig. unfold lift in Hdig. injection Hdig as Hdig <-. apply of_option_Ok in Hdig.
  first_step E as c' w5 [-> Hc']%chain_at_inv. first_step E as [] w6 Hv%rethrow_inv.
  unfold lift in Hv. injection Hv as Hv <-. first_step E as now w7 [= <- <-]. injection E as <- <-.
  split; [|done]. split; [done|]. 
  exists a, job, n, n', n'', publics, sn, digest.
  exists (fc_foldCount c'), (fc_batchVK c'), (fc_aggVK c'), (fc_lastFold c), (fc_aggVK c).
  repeat (split; [assumption|]). reflexivity.
Qed.

(** What a finalize that made results did. *)
Lemma finalize_results_ok key (w : W) res w' :
  finalize_results id key w = (Ok res, w') ->
  exists state payload, State_ResultsPayload state key = Some (payload, rs_Tally res) /\
    checked_results state payload res /\
    exists l w1 rt, w_runtimes w !! id = Some l /\ calm w w1 /\ w_heap w1 !! l = Some rt /\ rt_state rt = state.
Proof.
  unfold finalize_results. intros E. first_step E as rt w1 [= <- <-].
  destruct (w_runtimes w !! id) as [l|] eqn:Hl; [|done]. first_step E as fc w2 Hch.
  pose proof (step_calm _ _ _ _ (via_chain calm (P := any_chain) id) Hch) as Hc2.
  first_step E as [] w3 Hadv%rethrow_inv.
  pose proof (step_calm _ _ _ _ (via_advance calm (P := any_chain) id fc true I) Hadv) as Hc3.
  first_step E as c w4 [-> Hc]%chain_at_inv. first_step E as [] w5 Hth.
  apply throw_if_run in Hth as [_ ->].
  first_step E as state w6 Hcur. unfold current in Hcur.
  destruct (w_heap w3 !! l) as [rt|] eqn:Hrt; [|done]. injection Hcur as <- <-.
  first_step E as [payload tally] w7 Hp. unfold lift in Hp. injection Hp as Hp <-. apply of_option_Ok in Hp.
  apply withFoldWorker_ok in E as (wk & w9 & Hfin).
  unfold finalizeOn in Hfin. first_step Hfin as [] w11 Hcl. unfold claimed in Hfin.
  first_step Hfin as r w12 Hr%attempt_inv. first_step Hfin as [] w13 Hrel. unfold lift in Hfin. injection Hfin as -> <-.
  apply finalize_claimed_ok in Hr as [Hchk Ht]. cbn [fst snd] in Hchk, Ht. subst tally.
  exists (rt_state rt), payload. split; [done|]. split; [done|].
  exists l, w3, rt. split; [done|]. split; [by etrans|done].
Qed.

(** C14: results are never published unchecked.  A finalize that returns results
    decrypted them from a state of the election's runtime with the key it was
    given, and got from one worker, for a job that worker reported done, a
    proof whose digest passed every check against that state and those
    results; the record it returns is of this election and carries that proof,
    and is the one stored. *)
Theorem Finalize_checked key (w : W) res w' :
  Scheduler_Finalize id key w = (Ok res, w') ->
  exists state payload, State_ResultsPayload state key = Some (payload, rs_Tally res) /\
    checked_results state payload res /\
    (exists l w1 rt, w_runtimes w !! id = Some l /\ calm w w1 /\ w_heap w1 !! l = Some rt /\ rt_state rt = state) /\
    exists r, wmap w' !! KResults id = Some (AResults r) /\ rs_Tally r = rs_Tally res /\
      rs_ProofBytes r = rs_ProofBytes res.
Proof.
  unfold Scheduler_Finalize. intros E. first_step E as res' w1 (st & p & Hp & Hchk & Hst)%finalize_results_ok.
  first_step E as [] w2 Hset. injection E as <- <-. exists st, p. split_and!; try done.
  unfold store_call in Hset. first_step Hset as [] w3 Hy. first_step Hset as now w4 [= <- <-].
  apply (results_stored id) in Hset; [exact Hset|apply (fr_id _ _ _ Hchk)].
Qed.
End results.
