(* ===== verification/PassProps.v ===== *)
(** * Failing folds (foldFailed of orchestrator/scheduler.go)

    The escalation of folds that keep failing is bounded. *)

From S2P Require Import Prelude Errors Effects Bytes Types Records KV Keys Artifacts Storage.
From S2P Require Import StorageRefine Retries Workers Sdk Config Seal Chains Engine Finalize.
From S2P Require Import Scheduler Fold Scatter JobSteps JobProps ChainInv.

Section escalation.
Context {D : Type} `{ADB D} `{Provers} `{!Others D} (fc : chain_loc) `{!DriveLock fc}.
Abbreviation W := (World D).

(** The parts of a chain the drop of a batch's proof leaves. *)
Definition same_but_avoid (c c' : foldChain) : Prop :=
  exists m, c' = fc_set_failing (fc_foldFailures c) (fc_reproved c) (fc_headSuspect c) m c.

Definition drops (c : foldChain) (w : W) : Prop := exists c', chain_of fc w = Some c' /\ same_but_avoid c c'.

Lemma drops_stable c : stable fc (drops c).
Proof. intros w w' [_ Hq] (c' & Hc & Hs). exists c'. by rewrite Hq. Qed.

Lemma dropBatchProof_drops c b : preserves (drops c) (dropBatchProof fc b : stE W unit).
Proof.
  pose proof (drops_stable c) as Hst. unfold dropBatchProof. kept.
  intros w (c' & Hc & m & ->). eexists. rewrite chain_of_on, decide_True, Hc by done. split; [done|].
  by eexists.
Qed.

(** The chain after a failed fold. *)
Definition escalated (e : error) (c c' : foldChain) : Prop :=
  let c1 := count_failure e c in
  if (fc_foldFailures c1 <? maxFoldFailures)%nat then c' = c1
  else if fc_reproved c then c' = fc_set_failing 0 true true (fc_avoid c) c
  else exists m, c' = fc_set_pending [] (fc_set_failing 0 true (fc_headSuspect c) m c).

Lemma foldFailed_escalates e (w w' : W) c :
  chain_of fc w = Some c -> foldFailed fc e w = (Ok tt, w') ->
  exists c', chain_of fc w' = Some c' /\ escalated e c c'.
Proof.
  intros Hc. unfold foldFailed. intros E. first_step E as [] w1 Hon.
  pose proof (chain_of_on fc fc (count_failure e) w) as Z1. rewrite Hon, decide_True, Hc in Z1 by done.
  cbn [snd fmap option_fmap option_map] in Z1. first_step E as c1 w2 [-> Hc1]%chain_at_inv.
  rewrite Z1 in Hc1. injection Hc1 as <-. unfold escalated.
  destruct (fc_foldFailures (count_failure e c) <? maxFoldFailures)%nat; [injection E as <-; by eexists|].
  first_step E as [] w3 Hon2. pose proof (chain_of_on fc fc (fc_set_failures 0) w1) as Z2.
  rewrite Hon2, decide_True, Z1 in Z2 by done. cbn [snd fmap option_fmap option_map] in Z2.
  assert (exists n, count_failure e c = fc_set_failures n c) as [n En].
  { unfold count_failure. destruct (errors_Is e errJobFailed); [by exists (S (fc_foldFailures c))|]. exists (fc_foldFailures c). by destruct c. }
  rewrite En in E, Z2. clear En Z1.
  cbn [fc_reproved fc_set_failures fc_set_failing] in E. destruct (fc_reproved c) eqn:Hr; cbn [negb] in E.
  - pose proof (chain_of_on fc fc (fun c => fc_set_failing 0 (fc_reproved c) true (fc_avoid c) c) w3) as Z3.
    rewrite E, decide_True, Z2 in Z3 by done. eexists. split; [exact Z3|]. cbn. by rewrite Hr.
  - first_step E as [] w4 Hon3. pose proof (chain_of_on fc fc (fun c => fc_set_failing 0 true (fc_headSuspect c) (fc_avoid c) c) w3) as Z3.
    rewrite Hon3, decide_True, Z2 in Z3 by done. cbn [snd fmap option_fmap option_map] in Z3.
    first_step E as [] w5 Hdrop. set (c2 := fc_set_failing 0 true _ _ _) in Z3.
    assert (drops c2 w5) as (c3 & Hc3 & m & ->).
    { assert (preserves (drops c2) (for_each (fc_pending (fc_set_failures n c)) (dropBatchProof fc) : stE W unit)) as Hp.
      { apply preserves_for_each. intros b _. apply dropBatchProof_drops. }
      specialize (Hp w4). rewrite Hdrop in Hp. apply Hp. exists c2. split; [exact Z3|].
      exists (fc_avoid c2). done. }
    pose proof (chain_of_on fc fc (fc_set_pending []) w5) as Z4. rewrite E, decide_True, Hc3 in Z4 by done.
    eexists. split; [exact Z4|]. by exists m.
Qed.

(** C36: the escalation of failing folds is bounded.  A failed fold leaves the
    chain with fewer than three failures counted; it drops the pending batches
    only when the third fold job in a row failed and only if it has not done so
    since the last fold that went through, reports the head as suspect after
    that, and never moves the head of the chain. *)
Theorem foldFailed_bounded e (w w' : W) c :
  chain_of fc w = Some c -> (fc_foldFailures c < maxFoldFailures)%nat -> foldFailed fc e w = (Ok tt, w') ->
  exists c', chain_of fc w' = Some c' /\ (fc_foldFailures c' < maxFoldFailures)%nat /\
    (fc_lastFold c', fc_foldCount c', fc_batchesFolded c') = (fc_lastFold c, fc_foldCount c, fc_batchesFolded c) /\
    (fc_pending c' = fc_pending c \/
     fc_pending c' = [] /\ fc_reproved c = false /\ fc_reproved c' = true /\
       fc_foldFailures c = (maxFoldFailures - 1)%nat /\ errors_Is e errJobFailed = true) /\
    (fc_headSuspect c' = true -> fc_headSuspect c = true \/ fc_reproved c = true).
Proof.
  intros Hc Hn E. destruct (foldFailed_escalates _ _ _ _ Hc E) as (c' & Hc' & He). exists c'. split; [done|].
  unfold escalated, count_failure in He. unfold maxFoldFailures in *.
  destruct (errors_Is e errJobFailed) eqn:Hj; cbn [fc_foldFailures fc_set_failures fc_set_failing] in He.
  - destruct (S (fc_foldFailures c) <? 3)%nat eqn:Hlt.
    + apply Nat.ltb_lt in Hlt. subst c'. cbn. split; [done|]. split; [done|]. split; [by left|by left].
    + apply Nat.ltb_ge in Hlt. destruct (fc_reproved c) eqn:Hr.
      * subst c'. cbn. split; [lia|]. split; [done|]. split; [by left|by right].
      * destruct He as [m ->]. cbn. split; [lia|]. split; [done|]. split; [|by left]. right.
        split_and!; try done. lia.
  - destruct (fc_foldFailures c <? 3)%nat eqn:Hlt; [|apply Nat.ltb_ge in Hlt; lia].
    subst c'. split; [done|]. split; [done|]. split; [by left|by left].
Qed.
End escalation.
