(* ===== verification/Work.v ===== *)
(** * The engine's work

    Every step of the engine is a sequence of pieces of work: passes and
    finalizes of its scheduler, and writes of its own that leave the results,
    the chain objects and the batch objects alone. *)

From S2P Require Import Prelude Errors Effects Bytes Types Records KV Keys Artifacts Storage.
From S2P Require Import StorageRefine StorageSpec StorageProps Retries Workers Sdk Config Validate.
From S2P Require Import Seal Frame Chains Engine Finalize Lifecycle LifecycleProps Ingest.
From S2P Require Import EngineSteps Scheduler Fold Scatter JobSteps JobProps.

(** ** Storage calls that leave the results alone *)

Definition keep_results (t t' : TStorage) : Prop :=
  forall id, tmap t' !! KResults id = tmap t !! KResults id.

#[export] Instance keep_results_pre : PreOrder keep_results.
Proof. split; [by intros t id|]. intros t1 t2 t3 H1 H2 id. by rewrite H2, H1. Qed.

Lemma keep_same_map t t' : tmap t' = tmap t -> keep_results t t'.
Proof. by intros E id; rewrite E. Qed.
Lemma keep_frame t t' : frame t t' -> keep_results t t'.
Proof. intros Hf id. by apply (fr_other _ _ Hf). Qed.

Lemma via_commit ws :
  Forall (fun w => forall id, ~ touches w (KResults id)) ws -> via keep_results (commit ws).
Proof.
  intros Hws t id. destruct (commit_run ws t) as (t' & -> & Hm & _). cbn. rewrite Hm.
  destruct (next_fault _); [done|]. apply td_writes_untouched. eapply Forall_impl; [exact Hws|]. by intros w Hw.
Qed.
Lemma via_setArtifact k a : (forall id, k <> KResults id) -> via keep_results (setArtifact k a).
Proof. intros Hk. apply via_commit. constructor; [|done]. intros id. apply Hk. Qed.
Lemma via_deleteArtifact k : (forall id, k <> KResults id) -> via keep_results (deleteArtifact k).
Proof. intros Hk. apply via_commit. constructor; [|done]. intros id. apply Hk. Qed.
Lemma via_getArtifact k : via keep_results (getArtifact k).
Proof. by apply via_state; [apply _|]. Qed.
Lemma via_iterate p : via keep_results (iterateArtifacts p).
Proof. by apply via_state; [apply _|]. Qed.
Lemma via_set_auditSeq f : via keep_results (modify (fun s : TStorage => set_auditSeq (f s) s)).
Proof. by intros t id. Qed.
#[export] Hint Resolve via_setArtifact via_deleteArtifact via_getArtifact via_iterate via_set_auditSeq : via.
#[export] Hint Extern 1 (forall id, _ <> KResults id) => discriminate : via.

Lemma via_load {A} k (as_ : Artifact -> result A) : via keep_results (load k as_).
Proof. unfold load. via. Qed.
#[export] Hint Resolve via_load : via.

Lemma via_Election_ id : via keep_results (Election_ id).
Proof. apply via_load. Qed.
Lemma via_UpdateElection now id f : via keep_results (UpdateElection now id f).
Proof. unfold UpdateElection, Election_. via. Qed.
Lemma via_store_create now el snap : via keep_results (Storage.CreateElection now el snap).
Proof.
  unfold Storage.CreateElection, Election_. via. apply via_commit.
  repeat constructor; by intros id [=].
Qed.
Lemma via_voteSeq id : via keep_results (voteSeq id).
Proof. unfold voteSeq. via. Qed.
Lemma via_AddVote now id v : via keep_results (AddVote now id v).
Proof.
  unfold AddVote. via; [apply via_voteSeq|]. apply via_commit. repeat constructor; by intros id' [=].
Qed.
Lemma via_SetVoteStatus id v st : via keep_results (SetVoteStatus id v st).
Proof. intros t. apply keep_frame, SetVoteStatus_frame. Qed.
Lemma via_DeleteProofs id : via keep_results (DeleteProofs id).
Proof.
  unfold DeleteProofs. via. apply via_commit. apply Forall_fmap, Forall_true. by intros p id' [[] _].
Qed.
Lemma via_AppendAudit now r : via keep_results (AppendAudit now r).
Proof. unfold AppendAudit. via. Qed.
Lemma via_list_all {A} p (as_ : Artifact -> result A) : via keep_results (list_all p as_).
Proof. unfold list_all. via. Qed.
Lemma via_VoteExists id v : via keep_results (VoteExists id v).
Proof. unfold VoteExists, Vote_. via. Qed.
Lemma via_LockVoteID v : via keep_results (LockVoteID v).
Proof. intros t. unfold LockVoteID. by case_decide. Qed.
Lemma via_LockAddress id a : via keep_results (LockAddress id a).
Proof. intros t. unfold LockAddress. by case_decide. Qed.
Lemma via_votes_of id l : via keep_results (votes_of id l).
Proof. induction l as [|v l IH]; cbn [votes_of]; unfold Vote_; via. Qed.
Lemma via_runtimeFromStorage `{Chain} size el : via keep_results (runtimeFromStorage size el).
Proof.
  unfold runtimeFromStorage, unsealedVotes, VotesWithStatus, Snapshot, ListBatchInputs. via.
  - apply via_list_all.
  - apply via_votes_of.
Qed.
#[export] Hint Resolve via_runtimeFromStorage : via.
#[export] Hint Resolve via_Election_ via_UpdateElection via_store_create via_AddVote via_SetVoteStatus
  via_DeleteProofs via_AppendAudit via_list_all via_VoteExists via_LockVoteID via_LockAddress : via.

(** ** The engine's own writes *)

Section own.
Context `{Provers}.
Abbreviation W := (World TypedDB).
Abbreviation TSW := (SW TypedDB).

(** What the engine does to the world outside of its scheduler. *)
Record eng_own (w w' : W) : Prop := {
  eo_results : keep_results (w_store w) (w_store w');
  eo_chains id fc : sc_chains (w_sched w') !! id = Some fc -> sc_chains (w_sched w) !! id = Some fc;
  eo_fcs : sc_fcs (w_sched w') = sc_fcs (w_sched w);
  eo_objects : sc_objects (w_sched w') = sc_objects (w_sched w);
  eo_pool : addr_keep (pool_of w) (pool_of w');
}.

#[export] Instance eng_own_pre : PreOrder eng_own.
Proof.
  split; [by intros w|]. intros w1 w2 w3 [R1 C1 F1 O1 P1] [R2 C2 F2 O2 P2]. split; [by etrans| |congruence..|by etrans].
  intros id fc Hc. by apply C1, C2.
Qed.

Lemma own_sched (w w' : W) : w_sched w' = w_sched w -> w_pool w' = w_pool w ->
  keep_results (w_store w) (w_store w') -> eng_own w w'.
Proof. intros Hs Hp Hr. unfold pool_of. split; [done|by rewrite ?Hs..|]. unfold pool_of. by rewrite Hp. Qed.

Lemma via_own_store {A} (m : stE TStorage A) : via keep_results m -> via eng_own (on_store m : stE W A).
Proof.
  intros Hm w. specialize (Hm (w_store w)). unfold on_store, zoom. destruct (m (w_store w)). by apply own_sched.
Qed.

(** *** Under a runtime's mutex *)

Definition sw_keep (s s' : TSW) : Prop := keep_results (env_store (sw_env s)) (env_store (sw_env s')).

#[export] Instance sw_keep_pre : PreOrder sw_keep.
Proof. split; [by intros s|]. intros s1 s2 s3 K1 K2. unfold sw_keep. by etrans. Qed.

Lemma via_own_rt {A} l (m : stE TSW A) : via sw_keep m -> via eng_own (with_rt l m : stE W A).
Proof.
  intros Hm w. unfold with_rt. destruct (w_heap w !! l) as [rt|]; [|done].
  specialize (Hm (MkSW (w_env w) rt)). destruct (m _) as [r s]. by apply own_sched.
Qed.

Lemma via_in_store {A} (m : stE TStorage A) : via keep_results m -> via sw_keep (in_store m).
Proof.
  intros Hm s. specialize (Hm (env_store (sw_env s))). unfold in_store, zoom. by destruct (m _).
Qed.
Lemma via_on_rt f : via sw_keep (on_rt f).
Proof. by intros s. Qed.
Lemma via_rt_get {A} (f : Runtime -> A) : via sw_keep (rt_get f).
Proof. by intros s. Qed.
Lemma via_framed {A} (m : stE TSW A) : (forall t, preserves (framed t) m) -> via sw_keep m.
Proof. intros Hm s. by apply keep_frame, Hm. Qed.
Hint Resolve via_in_store via_on_rt via_rt_get : via.
Hint Extern 2 (via keep_results _) => solve [via] : via.

Lemma via_seal_all now : via sw_keep (sealAllLocked now).
Proof. apply via_framed. intros t. apply sealAllLocked_framed. Qed.
Lemma via_seal_full now : via sw_keep (sealFullLocked now).
Proof. apply via_framed. intros t. apply sealFullLocked_framed. Qed.
Lemma via_seal_stale now window : via sw_keep (sealIfStale now window).
Proof. apply via_framed. intros t. apply sealIfStale_framed. Qed.
Lemma via_audit now subject role action id : via sw_keep (audit now subject role action id).
Proof. unfold audit. via. Qed.
Hint Resolve via_seal_all via_seal_full via_seal_stale via_audit : via.

Lemma via_accept_vote now id v : via sw_keep (accept_vote now id v).
Proof. unfold accept_vote. via. Qed.
Lemma via_change_locked now to : via sw_keep (change_locked now to).
Proof. unfold change_locked. via. Qed.

Lemma via_own_modify (f : W -> W) :
  (forall w, w_sched (f w) = w_sched w /\ w_pool (f w) = w_pool w /\ w_store (f w) = w_store w) ->
  via eng_own (modify f).
Proof.
  intros Hf w. destruct (Hf w) as (Hs & Hp & He). apply own_sched; [done..|].
  apply keep_same_map. cbn. by rewrite He.
Qed.

Lemma via_own_get_st : via eng_own (get_st : stE W W).
Proof. by apply via_state; [apply _|]. Qed.
Lemma via_own_add_runtime rt : via eng_own (add_runtime rt : stE W unit).
Proof. by apply via_own_modify. Qed.
Lemma via_own_audit now subject role action id : via eng_own (w_audit now subject role action id : stE W unit).
Proof. apply via_own_store. via. Qed.
Lemma via_own_Notify id : via eng_own (w_Notify id : stE W unit).
Proof. apply via_own_modify. intros w. split_and!; [done..|]. unfold Notify_env, w_store. by repeat (case_match; simpl). Qed.
Lemma via_own_goBackground b : via eng_own (goBackground b : stE W bool).
Proof. intros w. unfold goBackground. destruct (w_bgStopped w); [done|]. by apply own_sched. Qed.
Lemma via_own_deleteProofs id : via eng_own (deleteProofs id : stE W unit).
Proof. apply via_own_store. via. Qed.
Lemma via_own_runtime id : via eng_own (runtime id : stE W (option nat)).
Proof. apply via_gets, _. Qed.
End own.

#[export] Hint Resolve via_own_rt via_seal_all via_seal_stale via_accept_vote via_change_locked via_rt_get : via.
#[export] Hint Resolve via_own_store via_own_modify via_own_get_st via_own_add_runtime via_own_audit via_own_Notify
  via_own_goBackground via_own_deleteProofs via_own_runtime : via.
#[export] Hint Extern 1 (forall w, w_sched _ = w_sched _ /\ _) => done : via.
#[export] Hint Extern 2 (via keep_results _) => solve [via] : via.

(** ** The operations without a pass *)

Section operations.
Context `{Provers} `{!Others TypedDB}.
Context (Validate : voteRules -> VoteSubmission -> result voteProofBundle) (WorkerID : string -> string).
Abbreviation W := (World TypedDB).

Lemma via_Forget id : via eng_own (Forget id : stE W unit).
Proof.
  change (via eng_own (Scheduler_Forget id : stE W unit)). unfold Scheduler_Forget, dispatcher_of. via.
  intros w. cbn. split; try done. intros id' fc Hc. cbn in Hc. by apply lookup_delete_Some in Hc as [_ Hc].
Qed.

Lemma via_CreateElection now subject el : via eng_own (Engine.CreateElection now subject el : stE W Election).
Proof. unfold Engine.CreateElection. via. Qed.

(** *** Workers *)

Lemma addr_keep_AddWorker address name p : addr_keep p (AddWorker address name p).2.
Proof.
  unfold AddWorker. destruct (GetWorker address p) as [l|]; cbn [snd].
  - apply addr_keep_on_worker. intros o. by case_match.
  - intros l o Ho. exists o. split; [|done]. cbn. rewrite lookup_insert_ne; [done|]. intros Heq.
    apply (is_fresh (dom (wm_objects p))). rewrite Heq. by apply elem_of_dom.
Qed.

Lemma own_pool (w : W) p' : addr_keep (pool_of w) p' -> eng_own w (w_set_pool (Some p') w).
Proof. by split. Qed.

Lemma via_on_pool f : (forall p, addr_keep p (f p)) -> via eng_own (on_pool f : stE W unit).
Proof.
  intros Hf w. unfold on_pool, modify. cbn. destruct (w_pool w) as [p|] eqn:Hp; cbn.
  - apply own_pool. unfold pool_of. by rewrite Hp.
  - split; try done. by unfold pool_of; rewrite Hp.
Qed.

Lemma addr_keep_RemoveWorker address p : addr_keep p (Workers.RemoveWorker address p).
Proof. apply (addr_keep_refl p). Qed.
Hint Resolve via_on_pool addr_keep_RemoveWorker via_Forget : via.

Lemma via_RegisterWorker now subject address name :
  via eng_own (RegisterWorker now subject address name : stE W nat).
Proof.
  intros w. unfold RegisterWorker, mbind at 1, stE_bind at 1, get_st.
  destruct (w_pool w) as [p|] eqn:Hp; [|done].
  pose proof (addr_keep_AddWorker address name p) as Hk. destruct (AddWorker address name p) as [l p'].
  unfold mbind at 1, stE_bind at 1, modify. etrans; [apply (own_pool w p'); unfold pool_of; by rewrite Hp|].
  lazymatch goal with |- eng_own _ (?m _).2 => enough (via eng_own m) as Hv by apply Hv end.
  destruct (wm_objects p' !! l); [|via]. via.
Qed.

Lemma via_RemoveWorker now subject id : via eng_own (RemoveWorker WorkerID now subject id : stE W unit).
Proof.
  unfold RemoveWorker, moveFoldChains, DeleteWorker. via.
Qed.

(** *** Votes *)

Lemma next_own {A} (m : stE W A) ok failed w : via eng_own m -> eng_own w (next_phase (m w) ok failed).2.
Proof. intros Hm. specialize (Hm w). by destruct (m w) as [[]]. Qed.

Lemma submit_step_own now id sub p w : eng_own w (submit_step Validate now id sub p w).2.
Proof.
  destruct p; cbn [submit_step]; try done.
  - apply next_own. unfold submit_open. via.
  - apply next_own. unfold submit_lock. via.
  - apply next_own. unfold submit_check. via.
  - apply next_own. unfold submit_address. via.
  - apply next_own. unfold submit_validate. via.
  - apply next_own. via.
Qed.

(** *** Statuses *)

Lemma via_setVotesStatus id st : via eng_own (setVotesStatus id st : stE W unit).
Proof. unfold setVotesStatus. via. Qed.
Hint Resolve via_setVotesStatus : via.
Lemma via_changeStatus now id l subject role to : via eng_own (changeStatus now id l subject role to : stE W unit).
Proof. unfold changeStatus, after_cancel, has_scheduler. via. Qed.
Hint Resolve via_changeStatus : via.
Lemma via_SetStatus now subject id to : via eng_own (SetStatus now subject id to : stE W unit).
Proof. unfold SetStatus. via. Qed.
Lemma via_SubmitDecryptionKey now subject id key :
  via eng_own (SubmitDecryptionKey now subject id key : stE W unit).
Proof.
  unfold SubmitDecryptionKey, has_scheduler, guard_finalizing, begin_finalize, release_finalizing. via.
Qed.
Lemma via_on_retries f : via eng_own (on_retries f : stE W unit).
Proof. unfold on_retries. via. Qed.
Hint Resolve via_on_retries : via.
Lemma via_tick now order : via eng_own (tick now order : stE W unit).
Proof. unfold tick, tick_election, endElection, retryDispatch. via. Qed.
Lemma via_Stop : via eng_own (Stop : stE W unit).
Proof. unfold Stop. via. Qed.
End operations.

#[export] Hint Resolve via_Forget via_setVotesStatus via_on_retries : via.

(** ** The pieces of work *)

Section work.
Context `{Provers} `{!Others TypedDB}.
Context (Validate : voteRules -> VoteSubmission -> result voteProofBundle) (WorkerID : string -> string).
Abbreviation W := (World TypedDB).

Inductive work : W -> W -> Prop :=
  | WkOwn w w' : eng_own w w' -> work w w'
  | WkPass id drain w : work w (drive id drain w).2
  | WkFinalize id key w : work w (Scheduler_Finalize id key w).2
  | WkOthers n w : work w (others n w).

Definition works : relation W := rtc work.

Lemma own_works w w' : eng_own w w' -> works w w'.
Proof. intros Ho. by apply rtc_once, WkOwn. Qed.
Lemma via_own {A} (m : stE W A) : via eng_own m -> via works m.
Proof. intros Hm w. apply own_works, Hm. Qed.
Lemma via_Drain id : via works (Drain id : stE W unit).
Proof. exact (fun w => rtc_once _ _ (WkPass id true w)). Qed.
Lemma via_Finalize_ id key : via works (Finalize id key : stE W Results).
Proof. exact (fun w => rtc_once _ _ (WkFinalize id key w)). Qed.

Lemma via_drainAndPublish now id l : via works (drainAndPublish now id l : stE W unit).
Proof.
  unfold drainAndPublish, drain, has_scheduler. via; try solve [apply via_own; via]. apply via_Drain.
Qed.
Lemma via_finalizeElection now id key : via works (finalizeElection now id key : stE W unit).
Proof.
  unfold finalizeElection, has_scheduler, release_finalizing. via; try solve [apply via_own; via]. apply via_Finalize_.
Qed.
Lemma via_run_background now i : via works (run_background now i : stE W unit).
Proof.
  unfold run_background. via; try solve [apply via_own; via].
  - apply via_drainAndPublish.
  - apply via_finalizeElection.
Qed.

(** An iteration of a dispatch loop. *)
Lemma via_works_yield : via works (yield : stE W unit).
Proof.
  intros w. etrans; [apply rtc_once, (WkOthers (sc_tick (w_sched w)))|]. by apply own_works.
Qed.
Lemma via_works_finished id : via works (finished id : stE W bool).
Proof.
  unfold finished, store_call, clock, sched. via; [apply via_works_yield|]. apply via_own, via_own_store. cbn [run_call]. via.
Qed.
Lemma via_own_forgetLocked id : via eng_own (forgetLocked id : stE W unit).
Proof.
  intros w. split; try done. intros id' fc Hc. cbn in Hc. by apply lookup_delete_Some in Hc as [_ Hc].
Qed.
Lemma via_own_dispatchers f : via eng_own (on_dispatchers f : stE W unit).
Proof. unfold on_dispatchers. via. Qed.
Lemma via_after_dispatch id r : via works (after_dispatch id r : stE W bool).
Proof.
  unfold after_dispatch, stopping, clock, sched. via; [apply via_works_finished|..]; apply via_own;
    auto using via_own_dispatchers, via_own_forgetLocked; via.
Qed.
Lemma via_dispatch_pass id : via works (dispatch_pass id : stE W bool).
Proof.
  unfold dispatch_pass, dispatcher_of. via.
  - apply via_own. by apply via_own_dispatchers.
  - exact (fun w => rtc_once _ _ (WkPass id false w)).
  - apply via_after_dispatch.
Qed.

(** Starting the engine. *)
Lemma via_restore now : via eng_own (restore now : stE W unit).
Proof.
  unfold restore, restore_election, reset_finalize. via; apply via_own_store; via.
Qed.

Lemma NewEngine_starts now (s : TStorage) opts pool (w : W) :
  NewEngine now s opts pool = Ok w -> eng_own (new_world now s opts pool) w.
Proof.
  unfold NewEngine. set (m := _ ≫= _).
  assert (via eng_own m) as Hm.
  { unfold m, restoreWorkers. via; try apply via_restore. apply via_on_pool. intros p. apply addr_keep_AddWorker. }
  specialize (Hm (new_world now s opts pool)). destruct (m _) as [[u|e] w1]; [|done]. by intros [= <-].
Qed.

(** Every step of the engine is work. *)
Lemma eng_step_works w w' : eng_step Validate WorkerID w w' -> works w w'.
Proof.
  destruct 1 as [now subject el w|now id sub p w|now subject id to w|now subject id key w|now order w
    |now i w|now subject address name w|now subject id w|w].
  - apply own_works, via_CreateElection.
  - apply own_works, submit_step_own.
  - apply own_works, via_SetStatus.
  - apply own_works, via_SubmitDecryptionKey.
  - apply own_works, via_tick.
  - apply via_run_background.
  - apply own_works, via_RegisterWorker.
  - apply own_works, via_RemoveWorker.
  - apply own_works, via_Stop.
Qed.
Lemma eng_steps_works w w' : rtc (eng_step Validate WorkerID) w w' -> works w w'.
Proof. induction 1 as [w|w1 w2 w3 Hs _ IH]; [done|]. etrans; [by apply eng_step_works|exact IH]. Qed.
End work.
