(* ===== verification/Apart.v ===== *)
(** * The elections' chains are apart (orchestrator/scheduler.go)

    The scheduler keeps one chain object per election and gives none to two:
    the work on other elections does not touch the chain a pass works on, so
    the election's drive lock is all that a pass needs to own it. *)

From S2P Require Import Prelude Errors Effects Bytes Types Records KV Keys Artifacts Storage.
From S2P Require Import StorageRefine StorageSpec StorageProps Retries Workers Sdk Config Validate.
From S2P Require Import Seal Frame Chains Engine Finalize Lifecycle LifecycleProps Ingest.
From S2P Require Import EngineSteps Scheduler Fold Scatter JobSteps JobProps ChainInv Work.

Section apart.
Context `{Provers} `{!Others TypedDB}.
Abbreviation W := (World TypedDB).

Abbreviation chains_of w := (sc_chains (w_sched (w : W))).

(** Every election of the map has a chain object of its own. *)
Record distinct (w : W) : Prop := {
  di_own id id' fc : chains_of w !! id = Some fc -> chains_of w !! id' = Some fc -> id' = id;
  di_alloc id fc : chains_of w !! id = Some fc -> is_Some (chain_of fc w);
}.

Definition keeps_distinct (w w' : W) : Prop := distinct w -> distinct w'.

#[export] Instance keeps_distinct_pre : PreOrder keeps_distinct.
Proof. split; [by intros w Hd|]. intros w1 w2 w3 K1 K2 Hd. by apply K2, K1. Qed.

Lemma distinct_sub (w w' : W) :
  (forall id fc, chains_of w' !! id = Some fc -> chains_of w !! id = Some fc) ->
  (forall fc, is_Some (chain_of fc w) -> is_Some (chain_of fc w')) -> keeps_distinct w w'.
Proof.
  intros Hc Hf [Ho Ha]. split.
  - intros id id' fc L1%Hc L2%Hc. by eapply Ho.
  - intros id fc L1%Hc. by eapply Hf, Ha.
Qed.

Lemma fresh_chain id (w : W) : chain_of (next_loc id (sc_fcs (w_sched w))) w = None.
Proof. apply next_loc_fresh. Qed.

Lemma new_chain_distinct id c (w : W) : keeps_distinct w (new_chain id c w).2.
Proof.
  intros [Ho Ha]. pose proof (fresh_chain id w) as Hfr. unfold new_chain. cbn.
  set (fc := next_loc _ _) in *.
  assert (forall id', chains_of w !! id' <> Some fc) as Hn.
  { intros id' [c' Hc']%Ha. by rewrite Hfr in Hc'. }
  split; cbn.
  - intros id1 id2 fc' [[<- <-]|[_ L1]]%lookup_insert_Some [[<- L2]|[_ L2]]%lookup_insert_Some; try done.
    + by apply Hn in L2.
    + subst. by apply Hn in L1.
    + by eapply Ho.
  - intros id1 fc' Hl. unfold chain_of. cbn. apply lookup_insert_is_Some.
    apply lookup_insert_Some in Hl as [[_ <-]|[_ Hl]]; [by left|]. right. split; [|by eapply Ha].
    intros <-. by apply Hn in Hl.
Qed.

(** The other goroutines keep the chains apart too. *)
Class DistinctOthers := { others_distinct n (w : W) : distinct w -> distinct (others n w) }.
Context `{!DistinctOthers}.

#[export] Instance distinct_jobs : PassRel keeps_distinct.
Proof.
  split; try (intros; by apply distinct_sub); [apply _| |].
  - intros d w. etrans; [exact (others_distinct (sc_tick (w_sched w)) w)|by apply distinct_sub].
  - intros A c w _. unfold on_store, zoom. destruct (run_call c (w_store w)). by apply distinct_sub.
Qed.
#[export] Instance distinct_chains : ChainRel keeps_distinct any_chain.
Proof.
  split; [apply _| |intros id c w; apply new_chain_distinct].
  intros fc f w _. apply distinct_sub; [done|]. intros fc' [c Hc]. rewrite chain_of_on. case_decide; [|by exists c].
  subst. by rewrite Hc.
Qed.
#[export] Instance distinct_final : FinalRel keeps_distinct.
Proof. intros now r w. unfold on_store, zoom. destruct (run_call _ (w_store w)). by apply distinct_sub. Qed.

Lemma own_distinct w w' : eng_own w w' -> keeps_distinct w w'.
Proof. intros [_ Hc Hf _ _]. apply distinct_sub; [done|]. intros fc. unfold chain_of. by rewrite Hf. Qed.

Lemma works_distinct w w' : works w w' -> keeps_distinct w w'.
Proof.
  induction 1 as [w|w1 w2 w3 Hs _ IH]; [done|]. etrans; [|exact IH]. destruct Hs as [w w' Ho|id drain w|id key w|n w].
  - by apply own_distinct.
  - apply (via_drive keeps_distinct).
  - apply (via_Finalize keeps_distinct).
  - exact (others_distinct n w).
Qed.

(** The chain an operation takes of its election is registered as its. *)
Lemma chain_registered id (w : W) fc w' : chain id w = (Ok fc, w') -> chains_of w' !! id = Some fc.
Proof.
  unfold chain. intros E. first_step E as known w1 [= <- <-].
  destruct (chains_of w !! id) as [fc'|] eqn:Hk; [by injection E as <- <-|].
  first_step E as el w2 Hel. first_step E as every w3 Hev. first_step E as r w4 Hr.
  first_step E as cp w5 Hcp. first_step E as c w6 Hc. unfold new_chain in E. injection E as <- <-.
  cbn. apply lookup_insert_eq.
Qed.

Lemma NewEngine_distinct now s opts pool (w : W) : NewEngine now s opts pool = Ok w -> distinct w.
Proof.
  intros Hn%NewEngine_starts. apply (own_distinct _ _ Hn). by split.
Qed.
End apart.

(** ** The work on other elections *)

Section spared.
Context `{Provers} `{!Others TypedDB} (id : ElectionID) (fc : chain_loc).
Abbreviation W := (World TypedDB).
Abbreviation chains_of w := (sc_chains (w_sched (w : W))).

(** No other election has the chain object [fc]. *)
Record apart (w : W) : Prop := {
  ap_others id' : chains_of w !! id' = Some fc -> id' = id;
  ap_alloc : is_Some (chain_of fc w);
}.

Lemma distinct_apart w : distinct w -> chains_of w !! id = Some fc -> apart w.
Proof. intros [Ho Ha] Hc. split; [|by eapply Ha]. intros id' Hc'. by eapply Ho. Qed.

(** The chain object is left alone, as long as it is apart. *)
Definition spares (w w' : W) : Prop := apart w -> apart w' /\ chain_of fc w' = chain_of fc w.

#[export] Instance spares_pre : PreOrder spares.
Proof. split; [by intros w|]. intros w1 w2 w3 S1 S2 (Ha & <-)%S1. by apply S2. Qed.

Lemma spares_sub (w w' : W) :
  (forall id', chains_of w' !! id' = Some fc -> chains_of w !! id' = Some fc) ->
  chain_of fc w' = chain_of fc w -> spares w w'.
Proof.
  intros Hc Hf [Ho Ha]. split; [|done]. split; [|by rewrite Hf]. intros id' Hl%Hc. by apply Ho.
Qed.

(** The other goroutines spare it. *)
Class SparingOthers := { others_spare n (w : W) : spares w (others n w) }.
Context `{!SparingOthers}.

#[export] Instance spares_jobs : PassRel spares.
Proof.
  split; try (intros; by apply spares_sub); [apply _| |].
  - intros d w. etrans; [exact (others_spare (sc_tick (w_sched w)) w)|by apply spares_sub].
  - intros A c w _. unfold on_store, zoom. destruct (run_call c (w_store w)). by apply spares_sub.
Qed.
#[export] Instance spares_chains : ChainRel spares (fun fc' => fc' <> fc).
Proof.
  split; [apply _|..].
  - intros fc' f w Hne. apply spares_sub; [done|]. rewrite chain_of_on. by rewrite decide_False.
  - intros id' c w [Ho Ha]. assert (next_loc id' (sc_fcs (w_sched w)) <> fc) as Hne.
    { intros He. pose proof (fresh_chain id' w) as Hn. rewrite He in Hn. destruct Ha as [c' Hc']. by rewrite Hc' in Hn. }
    assert (chain_of fc (new_chain id' c w).2 = chain_of fc w) as Hf.
    { unfold chain_of. cbn. by rewrite lookup_insert_ne. }
    split; [|done]. split; [|by rewrite Hf]. cbn. intros id1 [[_ ?]|[_ Hl]]%lookup_insert_Some; [done|]. by apply Ho.
Qed.
#[export] Instance spares_final : FinalRel spares.
Proof. intros now r w. unfold on_store, zoom. destruct (run_call _ (w_store w)). by apply spares_sub. Qed.

(** Another election's operation works on a chain of its own. *)
Lemma spares_own id' : id' <> id -> on_own_chain spares (P := fun fc' => fc' <> fc) id'.
Proof.
  intros Hne A k Hk w Hap.
  destruct (via_chain spares (P := fun fc' => fc' <> fc) id' w Hap) as [Hap1 Hf1].
  unfold mbind, stE_bind. destruct (chain id' w) as [[fc'|e] w1] eqn:E; [|done]. cbn [snd] in Hap1, Hf1.
  apply chain_registered in E. rewrite <- Hf1. apply Hk; [|done]. intros ->. by apply Hne, Hap1.
Qed.

Lemma own_spares w w' : eng_own w w' -> spares w w'.
Proof.
  intros [_ Hc Hf _ _]. apply spares_sub; [intros id'; apply Hc|unfold chain_of; by rewrite Hf].
Qed.

(** What runs while a pass of the election holds its drive lock: the engine's
    own writes, passes and finalizes of other elections, other goroutines. *)
Inductive other_work : W -> W -> Prop :=
  | OwOwn w w' : eng_own w w' -> other_work w w'
  | OwPass id' drain w : id' <> id -> other_work w (drive id' drain w).2
  | OwFinalize id' key w : id' <> id -> other_work w (Scheduler_Finalize id' key w).2
  | OwOthers n w : other_work w (others n w).

Lemma other_work_spares w w' : other_work w w' -> spares w w'.
Proof.
  destruct 1 as [w w' Ho|id' drain w Hne|id' key w Hne|n w].
  - by apply own_spares.
  - by apply (via_drive_own spares), spares_own.
  - by apply (via_Finalize_own spares), spares_own.
  - exact (others_spare n w).
Qed.

Context `{!CalmOthers TypedDB}.

Lemma own_calm w w' : eng_own w w' -> calm w w'.
Proof. intros [_ _ _ Ho Hp]. split; [done|]. rewrite Ho. intros b bi Hb. by exists bi. Qed.

Lemma other_work_calm w w' : other_work w w' -> calm w w'.
Proof.
  destruct 1 as [w w' Ho|id' drain w Hne|id' key w Hne|n w].
  - by apply own_calm.
  - apply (via_drive calm).
  - apply (via_Finalize calm).
  - apply others_calm.
Qed.

Lemma other_works_quiet w w' : rtc other_work w w' -> apart w -> quiet fc w w'.
Proof.
  induction 1 as [w|w1 w2 w3 Hs _ IH]; [done|]. intros Hap.
  destruct (other_work_spares _ _ Hs Hap) as [Hap2 Hf]. etrans; [|by apply IH].
  split; [by apply other_work_calm|done].
Qed.
End spared.

(** C11: two elections never share a fold chain.  In a run of the engine from
    its start, whatever it does in any order, the chain object a pass takes of
    its election is quiet under all the work on other elections: their passes,
    drains and finalizes, and the engine's own requests and sweeps, may not
    touch it, its batches nor the addresses of its workers.  So the drive lock
    of the election, which excludes its own passes, is enough for what is
    proved of a pass. *)
Theorem drive_lock_suffices `{Provers} `{!Others TypedDB} `{!DistinctOthers} `{!CalmOthers TypedDB}
    now s opts pool id fc `{!SparingOthers id fc} (w0 w w1 w2 : World TypedDB) :
  NewEngine now s opts pool = Ok w0 -> works w0 w -> chain id w = (Ok fc, w1) ->
  rtc (other_work id) w1 w2 -> quiet fc w1 w2.
Proof.
  intros Hn Hw Hc Hr. apply (other_works_quiet id fc); [done|]. apply distinct_apart; [|by eapply chain_registered].
  pose proof (via_chain keeps_distinct (P := any_chain) id w) as Hd. rewrite Hc in Hd. apply Hd.
  eapply works_distinct; [done|]. by eapply NewEngine_distinct.
Qed.
