(* ===== verification/Runtimes.v ===== *)
(** * The invariant of the whole engine

    What holds of the daemon's world whatever it has done since its start: each
    live runtime agrees with the storage, the batches the scheduler holds are
    the stored ones of its elections, and what runs in the background is of
    elections at the right point of their life.  The facts a goroutine may rely
    on while others run are the ones every step lets grow. *)

From S2P Require Import Prelude Errors Effects Bytes Types Records KV Keys Artifacts Storage.
From S2P Require Import StorageRefine StorageSpec StorageProps Retries Workers Sdk Config Validate.
From S2P Require Import Seal SealProps SealInv Frame Chains Engine Finalize Lifecycle LifecycleProps.
From S2P Require Import Ingest IngestProps Submissions Scheduler Fold Scatter JobSteps JobProps.
From S2P Require Import ChainInv Work Apart.

(** The statuses past the last seal of an election. *)
Definition past (st : Status) : bool :=
  match st with
  | StatusCanceled | StatusDecrypting | StatusFinalizing | StatusResults => true
  | _ => false
  end.

(** What names a batch and says what is in it. *)
Definition bi_key (b : BatchInput) : ElectionID * N * list VoteID :=
  (bi_ElectionID b, bi_Seq b, bi_VoteIDs b).

(** The object, or the record, of a batch is stored. *)
Definition stored (m : store) (b : BatchInput) : Prop :=
  bi_key <$> batch_at m (bi_ElectionID b) (bi_Seq b) = Some (bi_key b).

(** Nothing is stored of an election that was never created. *)
Definition blank (id : ElectionID) (m : store) : Prop :=
  counter_at m id = Some 0%N /\ (forall u, vote_at m id u = None) /\ (forall seq, batch_at m id seq = None).

Section worlds.
Context `{ChainLaws}.
Abbreviation W := (World TypedDB).
Abbreviation TSW := (SW TypedDB).
Abbreviation chains_of w := (sc_chains (w_sched (w : W))).

(** ** Facts *)

Definition is_closed (id : ElectionID) (w : W) : Prop :=
  exists st, status (wmap w) id = Some st /\ closed st = true.
Definition is_past (id : ElectionID) (w : W) : Prop :=
  exists st, status (wmap w) id = Some st /\ past st = true.

(** The runtime of the election is at [l]. *)
Definition rt_at (l : nat) (id : ElectionID) (w : W) : Prop :=
  exists rt, w_heap w !! l = Some rt /\ rt_id rt = id.

(** ... and holds no vote, for good. *)
Definition drained (l : nat) (id : ElectionID) (w : W) : Prop :=
  is_closed id w /\ exists rt, w_heap w !! l = Some rt /\ rt_id rt = id /\ rt_pending rt = [].

(** A batch object of the election. *)
Definition obj_of (id : ElectionID) (b : nat) (w : W) : Prop :=
  exists bi, object_of b w = Some bi /\ bi_ElectionID bi = id.

(** ** The invariant *)

Definition sw_of (w : W) (rt : Runtime) : TSW := MkSW (w_env w) rt.

(** A runtime agrees with the storage: its votes and batches ([rt_inv]), the
    log of its election, with room for its votes, and its status. *)
Record rt_ok (w : W) (rt : Runtime) : Prop := {
  ro_inv : rt_inv (sw_of w rt);
  ro_log : log_ok (rt_id rt) (wmap w);
  ro_room : exists n, counter_at (wmap w) (rt_id rt) = Some n /\ (room (sw_of w rt) <= n)%N;
  ro_status : exists st, status (wmap w) (rt_id rt) = Some st /\ (past st = true -> rt_pending rt = []);
}.

Record core (w : W) : Prop := {
  co_rt l rt : w_heap w !! l = Some rt -> rt_ok w rt;
  co_inj l l' rt rt' : w_heap w !! l = Some rt -> w_heap w !! l' = Some rt' -> rt_id rt' = rt_id rt -> l' = l;
  co_runtimes id l : w_runtimes w !! id = Some l -> rt_at l id w;
  co_blank id : status (wmap w) id = None -> blank id (wmap w);
  co_keyed : keyed_at (wmap w);
  co_objects b bi : object_of b w = Some bi -> stored (wmap w) bi;
  co_passes id s b : sc_passes (w_sched w) !! id = Some s -> b ∈ s_batches s -> obj_of id b w;
  co_chains id fc : chains_of w !! id = Some fc -> fc.1 = id;
  co_pending fc c b : chain_of fc w = Some c -> b ∈ fc_pending c -> obj_of fc.1 b w;
  co_drains l : BgDrain l ∈ w_background w -> exists id, rt_at l id w /\ is_closed id w;
  co_finals id : id ∈ finals w -> is_past id w;
}.

(** ** What others may do meanwhile *)

Record grows (w w' : W) : Prop := {
  gr_heap l rt : w_heap w !! l = Some rt -> exists rt', w_heap w' !! l = Some rt' /\
    rt_id rt' = rt_id rt /\ (is_closed (rt_id rt) w -> rt_pending rt = [] -> rt_pending rt' = []);
  gr_closed id : is_closed id w -> is_closed id w';
  gr_past id : is_past id w -> is_past id w';
  gr_batches b : stored (wmap w) b -> stored (wmap w') b;
  gr_objects b bi : object_of b w = Some bi -> bi_key <$> object_of b w' = Some (bi_key bi);
}.

Lemma stored_key m b b' : bi_key b' = bi_key b -> stored m b -> stored m b'.
Proof. unfold stored. intros E. pose proof E as [= -> -> _]. by rewrite E. Qed.

#[export] Instance grows_pre : PreOrder grows.
Proof.
  split.
  - intros w. split; try done; [intros l rt Hl; by exists rt|intros b bi Hb; by rewrite Hb].
  - intros w1 w2 w3 [H1' C1 P1 B1 O1] [H2' C2 P2 B2 O2]. split; auto.
    + intros l rt (rt2 & Hl2 & E2 & D2)%H1'. destruct (H2' _ _ Hl2) as (rt3 & Hl3 & E3 & D3).
      exists rt3. split; [done|]. split; [congruence|]. intros Hc Hp. apply D3; [rewrite E2; by apply C1|by apply D2].
    + intros b bi Hb. specialize (O1 _ _ Hb). destruct (object_of b w2) as [bi2|] eqn:E2; [|done].
      rewrite (O2 _ _ E2). exact O1.
Qed.

(** A fact that survives what others do. *)
Definition steadfast (F : W -> Prop) : Prop := forall w w', grows w w' -> F w -> F w'.

Lemma steadfast_closed id : steadfast (is_closed id).
Proof. intros w w' Hg. apply Hg. Qed.
Lemma steadfast_past id : steadfast (is_past id).
Proof. intros w w' Hg. apply Hg. Qed.
Lemma steadfast_rt l id : steadfast (rt_at l id).
Proof. intros w w' Hg (rt & Hl & <-). destruct (gr_heap _ _ Hg _ _ Hl) as (rt' & Hl' & E & _). by exists rt'. Qed.
Lemma steadfast_drained l id : steadfast (drained l id).
Proof.
  intros w w' Hg [Hc (rt & Hl & <- & Hp)]. split; [by apply (gr_closed _ _ Hg)|].
  destruct (gr_heap _ _ Hg _ _ Hl) as (rt' & Hl' & E & D). exists rt'. auto.
Qed.
Lemma steadfast_obj id b : steadfast (obj_of id b).
Proof.
  intros w w' Hg (bi & Hb & <-). pose proof (gr_objects _ _ Hg _ _ Hb) as E.
  destruct (object_of b w') as [bi'|] eqn:Hb'; [|done]. exists bi'. split; [done|]. by injection E.
Qed.
Lemma steadfast_stored b : steadfast (fun w => stored (wmap w) b).
Proof. intros w w' Hg. apply Hg. Qed.
Lemma steadfast_and F G : steadfast F -> steadfast G -> steadfast (fun w => F w /\ G w).
Proof. intros HF HG w w' Hg [Hf Hgw]. split; [by eapply HF|by eapply HG]. Qed.
Lemma steadfast_all {A} (F : A -> W -> Prop) : (forall x, steadfast (F x)) -> steadfast (fun w => forall x, F x w).
Proof. intros HF w w' Hg Hw x. by eapply HF. Qed.
Lemma steadfast_impl (P : Prop) F : steadfast F -> steadfast (fun w => P -> F w).
Proof. intros HF w w' Hg Hw HP. by eapply HF, Hw. Qed.
Lemma steadfast_true : steadfast (fun _ => True).
Proof. by intros w w'. Qed.
End worlds.

Create HintDb steadfast.
#[export] Hint Resolve steadfast_closed steadfast_past steadfast_rt steadfast_drained steadfast_obj
  steadfast_stored steadfast_and steadfast_all steadfast_impl steadfast_true : steadfast.

(** ** Writes that touch no buffered vote *)

(** The keys of the votes, their counters and the snapshots. *)
Definition log_key (k : Key) : bool :=
  match k with KVote _ _ | KVoteSeq _ | KSnapshot _ => true | _ => false end.

(** The votes and the snapshots stay, the batches keep what is in them, a
    vote leaves pending only if no runtime may buffer it, and no election
    passes its last seal or opens again. *)
Record mild_store (m m' : store) : Prop := {
  ms_keys k : log_key k = true -> m' !! k = m !! k;
  ms_batches id seq : bi_key <$> batch_at m' id seq = bi_key <$> batch_at m id seq;
  ms_votes id u : status_at m' id u = status_at m id u \/
    (exists st, status_at m' id u = Some st /\ st <> VoteStatusPending) /\
    (status_at m id u <> Some VoteStatusPending \/ exists st, status m id = Some st /\ past st = true);
  ms_past id : past <$> status m' id = past <$> status m id;
  ms_closed id st : status m id = Some st -> closed st = true ->
    exists st', status m' id = Some st' /\ closed st' = true;
}.

#[export] Instance mild_store_pre : PreOrder mild_store.
Proof.
  split; [intros m; split; eauto|].
  intros m1 m2 m3 [K1 B1 V1 P1 C1] [K2 B2 V2 P2 C2]. split.
  - intros k Hk. by rewrite K2, K1.
  - intros id seq. by rewrite B2, B1.
  - intros id u. destruct (V2 id u) as [->|[Hst Hd2]]; [done|]. right. split; [done|].
    destruct (V1 id u) as [<-|[(st & Hs & Hne) Hd1]]; [|done].
    destruct Hd2 as [Hd|(st & Hs & Hp)]; [by left|right].
    specialize (P1 id). rewrite Hs in P1. destruct (status m1 id) as [st1|]; [|done]. injection P1 as P1.
    exists st1. by rewrite <- P1.
  - intros id. by rewrite P2, P1.
  - intros id st Hst (st' & Hst' & Hc)%(C1 id st Hst). by eapply C2.
Qed.

Lemma mild_map (m m' : store) : m' = m -> mild_store m m'.
Proof. by intros ->. Qed.

(** The artifacts that matter to the invariant. *)
Definition core_key (k : Key) : bool :=
  match k with KBatch _ _ | KVoteStatus _ _ | KElection _ => true | _ => log_key k end.

Lemma mild_keys (m m' : store) : (forall k, core_key k = true -> m' !! k = m !! k) -> mild_store m m'.
Proof.
  intros Hk. assert (forall id, status m' id = status m id) as Hs
    by (intros id; unfold status, election_at; by rewrite Hk).
  split.
  - intros k Hl. apply Hk. by destruct k.
  - intros id seq. unfold batch_at. by rewrite Hk.
  - intros id u. left. unfold status_at. by rewrite Hk.
  - intros id. by rewrite Hs.
  - intros id st. rewrite Hs. eauto.
Qed.

Section mild.
Context `{ChainLaws}.
Abbreviation W := (World TypedDB).
Abbreviation chains_of w := (sc_chains (w_sched (w : W))).

(** A step with such writes that adds no runtime, no batch to a chain or a
    pass and nothing to the background. *)
Record gentle (w w' : W) : Prop := {
  ge_store : mild_store (wmap w) (wmap w');
  ge_heap : w_heap w' = w_heap w;
  ge_runtimes id l : w_runtimes w' !! id = Some l -> w_runtimes w !! id = Some l;
  ge_objects b : bi_key <$> object_of b w' = bi_key <$> object_of b w;
  ge_chains id fc : chains_of w' !! id = Some fc -> chains_of w !! id = Some fc;
  ge_pending fc c' : chain_of fc w' = Some c' -> exists c, chain_of fc w = Some c /\
    forall b, b ∈ fc_pending c' -> b ∈ fc_pending c;
  ge_passes id s' : sc_passes (w_sched w') !! id = Some s' -> exists s,
    sc_passes (w_sched w) !! id = Some s /\ s_batches s' = s_batches s;
  ge_background b : b ∈ w_background w' -> b ∈ w_background w;
}.

#[export] Instance gentle_pre : PreOrder gentle.
Proof.
  split; [intros w; split; eauto; reflexivity|].
  intros w1 w2 w3 [S1 H1' R1 O1 C1 F1 P1 B1] [S2 H2' R2 O2 C2 F2 P2 B2]. split; eauto.
  - by etrans.
  - congruence.
  - intros b. by rewrite O2, O1.
  - intros fc c3 (c2 & Hc2 & Hs2)%F2. destruct (F1 _ _ Hc2) as (c1 & Hc1 & Hs1). exists c1. auto.
  - intros id s3 (s2 & Hs2 & E2)%P2. destruct (P1 _ _ Hs2) as (s1 & Hs1 & E1). exists s1.
    split; [done|congruence].
Qed.

(** The case of a step outside the scheduler. *)
Lemma gentle_store (w w' : W) :
  w_heap w' = w_heap w -> w_runtimes w' = w_runtimes w -> w_sched w' = w_sched w ->
  w_background w' = w_background w -> mild_store (wmap w) (wmap w') -> gentle w w'.
Proof.
  intros Eh Er Es Eb Hm. split; unfold object_of, chain_of; rewrite ?Er, ?Es, ?Eb; eauto.
Qed.

(** ... and of one of the scheduler that changes no storage. *)
Lemma gentle_object_key (w w' : W) b bi : gentle w w' -> object_of b w = Some bi ->
  exists bi', object_of b w' = Some bi' /\ bi_key bi' = bi_key bi.
Proof.
  intros Hg Hb. pose proof (ge_objects _ _ Hg b) as E. rewrite Hb in E.
  destruct (object_of b w') as [bi'|]; [|done]. exists bi'. split; [done|]. by apply (inj Some).
Qed.

Lemma stored_mild m m' b : mild_store m m' -> stored m b -> stored m' b.
Proof. intros Hm Hb. unfold stored. by rewrite (ms_batches _ _ Hm). Qed.

Lemma blank_mild m m' id : mild_store m m' -> blank id m -> blank id m'.
Proof.
  intros Hm (Hc & Hv & Hb). split; [|split].
  - unfold counter_at. by rewrite (ms_keys _ _ Hm).
  - intros u. unfold vote_at. rewrite (ms_keys _ _ Hm) by done. apply Hv.
  - intros seq. pose proof (ms_batches _ _ Hm id seq) as E. rewrite Hb in E. by destruct (batch_at m' id seq).
Qed.

Lemma keyed_mild m m' : mild_store m m' -> keyed_at m -> keyed_at m'.
Proof.
  intros Hm Hk id seq b Hb. pose proof (ms_batches _ _ Hm id seq) as E. rewrite Hb in E.
  destruct (batch_at m id seq) as [b0|] eqn:Hb0; [|done]. injection E as -> -> _. by eapply Hk.
Qed.

Lemma rt_ok_mild (w w' : W) rt : mild_store (wmap w) (wmap w') -> rt_ok w rt -> rt_ok w' rt.
Proof.
  intros Hm [[(st0 & (blob & Hb & Hr) & Ha) Hv Hz] Hl (n & Hn & Hrm) (st & Hst & Hp)].
  cbn [sw_of sw_env sw_rt] in *. split.
  - split; [| |done].
    + exists st0. split; [|done]. exists blob. split; [|done].
      cbn. unfold snapshot_at. by rewrite (ms_keys _ _ Hm).
    + cbn. change (tmap (env_store (w_env w'))) with (wmap w'). eapply (votes_inv_shrink (wmap w)); [done|..|exact Hv].
      * intros u. unfold vote_at. by rewrite (ms_keys _ _ Hm).
      * intros p Hpp. destruct (ms_votes _ _ Hm (rt_id rt) (v_ID p)) as [E|[_ [E|(st' & Hst' & Hp')]]]; [done|..].
        -- exfalso. apply E. pose proof (vi_pending _ _ _ _ Hv) as Hf. rewrite Forall_forall in Hf. by apply Hf.
        -- rewrite Hst in Hst'. injection Hst' as <-. rewrite Hp in Hpp by done. by apply not_elem_of_nil in Hpp.
      * intros seq. pose proof (ms_batches _ _ Hm (rt_id rt) seq) as E.
        apply (f_equal (fmap snd)) in E. by rewrite <- !option_fmap_compose in E.
      * intros u st' Hu Hne. destruct (ms_votes _ _ Hm (rt_id rt) u) as [->|[? _]]; eauto.
  - eapply log_ok_ext; [..|exact Hl]; intros; by apply Hm.
  - exists n. unfold counter_at in *. by rewrite (ms_keys _ _ Hm).
  - pose proof (ms_past _ _ Hm (rt_id rt)) as E. rewrite Hst in E.
    destruct (status (wmap w') (rt_id rt)) as [st'|]; [|done]. exists st'. split; [done|].
    injection E as ->. done.
Qed.

Lemma gentle_grows (w w' : W) : gentle w w' -> grows w w'.
Proof.
  intros Hg. pose proof (ge_store _ _ Hg) as Hm. split.
  - intros l rt Hl. rewrite (ge_heap _ _ Hg). by exists rt.
  - intros id (st & Hst & Hc). by apply (ms_closed _ _ Hm _ _ Hst).
  - intros id (st & Hst & Hp). pose proof (ms_past _ _ Hm id) as E. rewrite Hst in E.
    destruct (status (wmap w') id) as [st'|] eqn:Hst'; [|done]. exists st'. injection E as E. by rewrite E.
  - intros b. by apply stored_mild.
  - intros b bi Hb. by rewrite (ge_objects _ _ Hg), Hb.
Qed.

Lemma gentle_core (w w' : W) : gentle w w' -> core w -> core w'.
Proof.
  intros Hg [Crt Cinj Crun Cbl Ck Cob Cpa Cch Cpe Cdr Cfi]. pose proof (ge_store _ _ Hg) as Hm.
  pose proof (gentle_grows _ _ Hg) as Hgr. split.
  - intros l rt. rewrite (ge_heap _ _ Hg). intros Hl. by eapply rt_ok_mild, Crt.
  - rewrite (ge_heap _ _ Hg). apply Cinj.
  - intros id l Hl%(ge_runtimes _ _ Hg). by eapply steadfast_rt, Crun.
  - intros id Hn. apply (blank_mild _ _ _ Hm), Cbl. pose proof (ms_past _ _ Hm id) as E. rewrite Hn in E.
    by destruct (status (wmap w) id).
  - by eapply keyed_mild.
  - intros b bi' Hb. pose proof (ge_objects _ _ Hg b) as E. rewrite Hb in E.
    destruct (object_of b w) as [bi|] eqn:Hbi; [|done]. apply (stored_mild _ _ _ Hm).
    eapply stored_key; [|by eapply Cob]. by apply (inj Some).
  - intros id s' b (s & Hs & E)%(ge_passes _ _ Hg). rewrite E. intros Hb. by eapply steadfast_obj, Cpa.
  - intros id fc Hc%(ge_chains _ _ Hg). by apply Cch.
  - intros fc c' b (c & Hc & Hs)%(ge_pending _ _ Hg) Hb. by eapply steadfast_obj, Cpe; [|exact Hc|apply Hs].
  - intros l (id & Hr & Hc)%(ge_background _ _ Hg)%Cdr. exists id.
    split; [by eapply steadfast_rt|by eapply steadfast_closed].
  - intros id (b & Hb & Hin)%list_elem_of_omap. eapply steadfast_past, Cfi; [done|].
    apply list_elem_of_omap. exists b. split; [by apply (ge_background _ _ Hg)|done].
Qed.
End mild.
