(* ===== verification/RuntimeSteps.v ===== *)
(** * Steps that keep the invariant of the engine

    The storage calls and the engine's own writes that touch no buffered vote
    keep the invariant of Runtimes.v whatever the world; for the others, a
    small logic of postconditions carries the facts they need, which other
    goroutines only let grow. *)

From S2P Require Import Prelude Errors Effects Bytes Types Records KV Keys Artifacts Storage.
From S2P Require Import StorageRefine StorageSpec StorageProps Retries Workers Sdk Config Validate.
From S2P Require Import Seal SealProps SealInv Frame Chains Engine Finalize Lifecycle LifecycleProps.
From S2P Require Import Ingest IngestProps Submissions Scheduler Fold Scatter JobSteps JobProps.
From S2P Require Import ChainInv Work Apart Runtimes.

(** ** Storage calls *)

(** Mild writes that release no vote ID. *)
Record mild_call (t t' : TStorage) : Prop := {
  mc_store : mild_store (tmap t) (tmap t');
  mc_locks : s_processingVoteIDs t ⊆ s_processingVoteIDs t';
}.

#[export] Instance mild_call_pre : PreOrder mild_call.
Proof. split; [by intros t|]. intros t1 t2 t3 [M1 L1] [M2 L2]. split; by etrans. Qed.

Lemma mild_proc t t' : mild_store (tmap t) (tmap t') -> proc_same t t' -> mild_call t t'.
Proof. intros Hm Hp. split; [done|]. by rewrite (ps_voteIDs _ _ Hp). Qed.

Lemma mild_commit ws :
  Forall (fun w => forall k, touches w k -> core_key k = false) ws -> via mild_call (commit ws).
Proof.
  intros Hws t. apply mild_proc; [|apply commit_proc]. apply mild_keys. intros k Hk.
  destruct (commit_run ws t) as (t' & -> & Hm & _). cbn. rewrite Hm.
  destruct (next_fault _); [done|]. apply td_writes_untouched. eapply Forall_impl; [exact Hws|].
  intros w Hw Ht%Hw. congruence.
Qed.
Lemma mild_setArtifact k a : core_key k = false -> via mild_call (setArtifact k a).
Proof. intros Hk. apply mild_commit. constructor; [|done]. by intros k' <-. Qed.
Lemma mild_deleteArtifact k : core_key k = false -> via mild_call (deleteArtifact k).
Proof. intros Hk. apply mild_commit. constructor; [|done]. by intros k' <-. Qed.
Lemma mild_getArtifact k : via mild_call (getArtifact k).
Proof. by apply via_state; [apply _|]. Qed.
Lemma mild_iterate p : via mild_call (iterateArtifacts p).
Proof. by apply via_state; [apply _|]. Qed.
Lemma mild_modify (f : TStorage -> TStorage) :
  (forall t, tmap (f t) = tmap t /\ s_processingVoteIDs t ⊆ s_processingVoteIDs (f t)) -> via mild_call (modify f).
Proof. intros Hf t. destruct (Hf t) as [Hm Hl]. by split; [apply mild_map|]. Qed.
#[export] Hint Resolve mild_setArtifact mild_deleteArtifact mild_getArtifact mild_iterate mild_modify : via.
#[export] Hint Extern 1 (core_key _ = false) => done : via.
#[export] Hint Extern 1 (forall t, tmap _ = tmap t /\ _) => done : via.

Lemma mild_load {A} k (as_ : Artifact -> result A) : via mild_call (load k as_).
Proof. unfold load. via. Qed.
Lemma mild_list_all {A} p (as_ : Artifact -> result A) : via mild_call (list_all p as_).
Proof. unfold list_all. via. Qed.
#[export] Hint Resolve mild_load mild_list_all : via.

Lemma mild_DeleteProofs id : via mild_call (DeleteProofs id).
Proof.
  unfold DeleteProofs. via. apply mild_commit, Forall_fmap, Forall_true. by intros p [] [Hs _].
Qed.
Lemma mild_AppendAudit now r : via mild_call (AppendAudit now r).
Proof. unfold AppendAudit. via. Qed.
Lemma mild_LockVoteID v : via mild_call (LockVoteID v).
Proof. intros t. unfold LockVoteID. case_decide; [done|]. split; [done|]. cbn. set_solver. Qed.
Lemma mild_LockAddress id a : via mild_call (LockAddress id a).
Proof. intros t. unfold LockAddress. by case_decide. Qed.
Lemma mild_VoteExists id v : via mild_call (VoteExists id v).
Proof. unfold VoteExists, Vote_. via. Qed.
#[export] Hint Resolve mild_DeleteProofs mild_AppendAudit mild_LockVoteID mild_LockAddress mild_VoteExists : via.

(** An update that keeps the election on its side of the last seal. *)
Definition mild_update (f : Election -> result Election) : Prop := forall el el', f el = Ok el' ->
  past (el_Status el') = past (el_Status el) /\ (closed (el_Status el) = true -> closed (el_Status el') = true).

Lemma update_mild now id f (t : TStorage) :
  (forall el el', election_at (tmap t) id = Some el -> f el = Ok el' ->
     past (el_Status el') = past (el_Status el) /\ (closed (el_Status el) = true -> closed (el_Status el') = true)) ->
  mild_call t (UpdateElection now id f t).2.
Proof.
  intros Hf. pose proof (UpdateElection_status now id f t) as Hs.
  destruct (UpdateElection_run now id f t) as [e0 E]. rewrite E in Hs |- *.
  destruct (election_at (tmap t) id) as [el|] eqn:He; [|done]. destruct (f el) as [el'|e] eqn:Ef; [|done].
  destruct (Hf el el' eq_refl Ef) as [Hp Hc]. apply mild_proc; [|apply commit_proc].
  destruct (commit_run [WPut (KElection id) (AElection (el_set_updated now el'))] t) as (t' & E' & Hm & _).
  rewrite E' in Hs |- *. cbn [snd]. destruct (next_fault _); [by apply mild_map|].
  destruct Hs as (el1 & el1' & [= <-] & Ef' & Hs). rewrite Ef in Ef'. injection Ef' as <-.
  assert (forall k, (forall id', k <> KElection id') -> tmap t' !! k = tmap t !! k) as Hk.
  { intros k Hne. rewrite Hm. cbn. by rewrite lookup_insert_ne by congruence. }
  assert (status (tmap t) id = Some (el_Status el)) as Hst by (unfold status; by rewrite He).
  split.
  - intros k Hl. apply Hk. by intros id' ->.
  - intros id' seq. unfold batch_at. by rewrite Hk.
  - intros id' u. left. unfold status_at. by rewrite Hk.
  - intros id'. rewrite Hs. case_decide as Hd; [subst; rewrite Hst; cbn; by rewrite Hp|done].
  - intros id' st Hst' Hcl. rewrite Hs. case_decide as Hd; [|by exists st].
    subst. rewrite Hst in Hst'. injection Hst' as <-. eauto.
Qed.
Lemma mild_UpdateElection now id f : mild_update f -> via mild_call (UpdateElection now id f).
Proof. intros Hf t. apply update_mild. intros el el' _. apply Hf. Qed.
#[export] Hint Resolve mild_UpdateElection : via.

(** A vote that no runtime may buffer leaves pending. *)
Lemma status_mild id v st (t : TStorage) :
  st <> VoteStatusPending ->
  (status_at (tmap t) id v <> Some VoteStatusPending \/ exists s, status (tmap t) id = Some s /\ past s = true) ->
  mild_call t (SetVoteStatus id v st t).2.
Proof.
  intros Hne Hd. destruct (SetVoteStatus_state id v st t) as (Em & _ & Hp). apply mild_proc; [|done]. rewrite Em.
  destruct (may_move _ _ _ _ && _); [|by apply mild_map].
  assert (forall k, k <> KVoteStatus id v -> <[KVoteStatus id v := AVoteStatus st]> (tmap t) !! k = tmap t !! k) as Hk
    by (intros k Hk; by rewrite lookup_insert_ne).
  assert (forall id', status (<[KVoteStatus id v := AVoteStatus st]> (tmap t)) id' = status (tmap t) id') as Hs
    by (intros id'; unfold status, election_at; by rewrite Hk).
  split.
  - intros k Hl. apply Hk. by intros ->.
  - intros id' seq. unfold batch_at. by rewrite Hk.
  - intros id' u. destruct (decide (KVoteStatus id' u = KVoteStatus id v)) as [[= -> ->]|Hn].
    + right. split; [|done]. exists st. split; [|done]. unfold status_at. by rewrite lookup_insert_eq.
    + left. unfold status_at. by rewrite Hk.
  - intros id'. by rewrite Hs.
  - intros id' s. rewrite Hs. eauto.
Qed.

(** A batch written again with what is in it. *)
Lemma batch_mild ws b a (t : TStorage) :
  stored (tmap t) b -> bi_key a = bi_key b ->
  (forall k, core_key k = true -> td_writes ws (tmap t) !! k =
     if decide (k = KBatch (bi_ElectionID b) (bi_Seq b)) then Some (ABatch a) else tmap t !! k) ->
  mild_call t (commit ws t).2.
Proof.
  intros Hb Ha Hw. apply mild_proc; [|apply commit_proc].
  destruct (commit_run ws t) as (t' & -> & Hm & _). cbn [snd]. rewrite Hm. clear Hm.
  destruct (next_fault _); [done|].
  assert (forall k, core_key k = true -> (forall id seq, k <> KBatch id seq) ->
    td_writes ws (tmap t) !! k = tmap t !! k) as Hk.
  { intros k Hc Hne. rewrite Hw by done. by rewrite decide_False. }
  assert (forall id, status (td_writes ws (tmap t)) id = status (tmap t) id) as Hs
    by (intros id; unfold status, election_at; by rewrite Hk).
  split.
  - intros k Hl. apply Hk; [by destruct k|]. by intros id seq ->.
  - intros id seq. unfold batch_at at 1. rewrite Hw by done.
    case_decide as Hd; [|done]. injection Hd as -> ->. rewrite Hb. exact (f_equal Some Ha).
  - intros id u. left. unfold status_at. by rewrite Hk.
  - intros id. by rewrite Hs.
  - intros id s. rewrite Hs. eauto.
Qed.

Lemma kept_stamp_key now b : bi_key (kept_BatchInput (stamp_sealed now b)) = bi_key b.
Proof. unfold stamp_sealed. by destruct (IsZero (bi_SealedAt b)). Qed.

Lemma set_batch_mild now b (t : TStorage) : stored (tmap t) b -> mild_call t (SetBatchInput now b t).2.
Proof.
  intros Hb. apply (batch_mild _ b (kept_BatchInput (stamp_sealed now b))); [done|apply kept_stamp_key|].
  intros k _. cbn. case_decide as Hd; [subst; by rewrite lookup_insert_eq|by rewrite lookup_insert_ne].
Qed.
Lemma reset_batch_mild b (t : TStorage) : stored (tmap t) b -> mild_call t (ResetBatch b t).2.
Proof.
  intros Hb. apply (batch_mild _ b (kept_BatchInput b)); [done..|].
  intros k Hk. cbn. rewrite lookup_delete_ne by (by intros <-).
  case_decide as Hd; [subst; by rewrite lookup_insert_eq|by rewrite lookup_insert_ne].
Qed.

(** ** Steps of the engine *)

Section steps.
Context `{ChainLaws}.
Abbreviation W := (World TypedDB).
Abbreviation TSW := (SW TypedDB).

Record mild (w w' : W) : Prop := {
  mi_gentle : gentle w w';
  mi_locks : locks w ⊆ locks w';
}.

#[export] Instance mild_pre : PreOrder mild.
Proof. split; [by intros w|]. intros w1 w2 w3 [G1 L1] [G2 L2]. split; by etrans. Qed.

(** A step that is good from a world: the invariant holds after it, and it
    leaves the facts of the others true. *)
Record good (w w' : W) : Prop := {
  go_core : core w';
  go_grows : grows w w';
  go_tolerant : tolerant w w';
}.

Lemma good_refl w : core w -> good w w.
Proof. by split. Qed.
Lemma good_trans w1 w2 w3 : good w1 w2 -> good w2 w3 -> good w1 w3.
Proof. intros [_ G1 T1] [C2 G2 T2]. split; [done|by etrans..]. Qed.

(** ... and good from every world of the invariant. *)
Definition safely (w w' : W) : Prop := core w -> good w w'.

#[export] Instance safely_pre : PreOrder safely.
Proof.
  split; [intros w Hc; by apply good_refl|]. intros w1 w2 w3 S1 S2 Hc. specialize (S1 Hc).
  eapply good_trans; [done|]. apply S2, S1.
Qed.

Lemma mild_safely w w' : mild w w' -> safely w w'.
Proof.
  intros [Hg Hl] Hc. split; [by eapply gentle_core|by apply gentle_grows|]. pose proof (ge_store _ _ Hg) as Hm.
  assert (forall id u, votes w' id u = votes w id u) as Hv.
  { intros id u. unfold votes, vote_at. fold (wmap w) (wmap w'). by rewrite (ms_keys _ _ Hm). }
  split; [|intros id u x; by rewrite Hv]. intros u Hu. split; [by apply Hl|done].
Qed.
Lemma via_mild {A} (m : stE W A) : via mild m -> via safely m.
Proof. intros Hm w. apply mild_safely, Hm. Qed.

Lemma mild_keep (w w' : W) :
  w_heap w' = w_heap w -> w_runtimes w' = w_runtimes w -> w_sched w' = w_sched w ->
  w_background w' = w_background w -> mild_call (w_store w) (w_store w') -> mild w w'.
Proof. intros ? ? ? ? [Hm Hl]. split; [by apply gentle_store|done]. Qed.

Lemma on_store_mild {A} (m : stE TStorage A) (w : W) :
  mild_call (w_store w) (m (w_store w)).2 -> mild w (on_store m w).2.
Proof. intros Hm. unfold on_store, zoom. destruct (m (w_store w)). by apply mild_keep. Qed.
Lemma mild_on_store {A} (m : stE TStorage A) : via mild_call m -> via mild (on_store m : stE W A).
Proof. intros Hm w. apply on_store_mild, Hm. Qed.
Lemma mild_on_world (f : W -> W) :
  (forall w, w_heap (f w) = w_heap w /\ w_runtimes (f w) = w_runtimes w /\ w_sched (f w) = w_sched w /\
     w_background (f w) = w_background w /\ w_store (f w) = w_store w) -> via mild (modify f).
Proof.
  intros Hf w. destruct (Hf w) as (E1 & E2 & E3 & E4 & E5). apply mild_keep; [done..|]. cbn. by rewrite E5.
Qed.
Lemma mild_get_st : via mild (get_st : stE W W).
Proof. by apply via_state; [apply _|]. Qed.
Lemma mild_runtime id : via mild (runtime id : stE W (option nat)).
Proof. apply via_gets, _. Qed.
Lemma mild_audit now subject role action id : via mild (w_audit now subject role action id : stE W unit).
Proof. apply mild_on_store. via. Qed.
Lemma mild_Notify id : via mild (w_Notify id : stE W unit).
Proof.
  apply mild_on_world. intros w. split_and!; [done..|]. unfold Notify_env, w_store. by repeat (case_match; simpl).
Qed.
Lemma mild_deleteProofs id : via mild (deleteProofs id : stE W unit).
Proof. apply mild_on_store. via. Qed.
Lemma mild_drop_runtime id : via mild (modify (fun w : W => w_set_runtimes (delete id (w_runtimes w)) w)).
Proof.
  intros w. split; [|done]. split; eauto; cbn; [reflexivity|].
  - intros id' l. by intros [_ ?]%lookup_delete_Some.
Qed.

(** ** Postconditions *)

(** From a world of the invariant where [F] holds the run is good, and [Q]
    holds of what it returns and the world then. *)
Definition post {A} (F : W -> Prop) (m : stE W A) (Q : A -> W -> Prop) : Prop := forall w, core w -> F w ->
  good w (m w).2 /\ forall a, (m w).1 = Ok a -> Q a (m w).2.

Lemma post_via {A} F (m : stE W A) : steadfast F -> via safely m -> post F m (fun _ => F).
Proof.
  intros HF Hm w Hc Hf. specialize (Hm w Hc). split; [done|]. intros _ _. eapply HF; [apply Hm|done].
Qed.
Lemma post_any {A} F (m : stE W A) : via safely m -> post F m (fun _ _ => True).
Proof. intros Hm w Hc _. split; [by apply Hm|done]. Qed.
Lemma post_safely {A} (m : stE W A) Q : post (fun _ => True) m Q -> via safely m.
Proof. intros Hm w Hc. by apply Hm. Qed.
Lemma post_weaken {A} (F F' : W -> Prop) (m : stE W A) (Q Q' : A -> W -> Prop) :
  post F m Q -> (forall w, core w -> F' w -> F w) -> (forall a w, core w -> Q a w -> Q' a w) -> post F' m Q'.
Proof.
  intros Hm HF HQ w Hc Hf. destruct (Hm w Hc) as [Hg Hq]; [by apply HF|]. split; [done|].
  intros a Ha. apply HQ; [apply Hg|by apply Hq].
Qed.
Lemma post_pre {A} (F F' : W -> Prop) (m : stE W A) Q :
  (forall w, core w -> F' w -> F w) -> post F m Q -> post F' m Q.
Proof. intros HF Hm. by apply (post_weaken F F' m Q). Qed.
(** A fact that does not depend on the world. *)
Lemma post_assume {A} (P : Prop) F (m : stE W A) Q :
  (forall w, core w -> F w -> P) -> (P -> post F m Q) -> post F m Q.
Proof. intros HP Hm w Hc HF. by apply Hm; [eapply HP|..]. Qed.
Lemma post_bind {A B} F (m : stE W A) (f : A -> stE W B) Q T :
  post F m Q -> (forall a, post (Q a) (f a) T) -> post F (m ≫= f) T.
Proof.
  intros Hm Hf w Hc HF. destruct (Hm w Hc HF) as [Hg Hq]. unfold mbind, stE_bind.
  destruct (m w) as [[a|e] w1]; [|done]. cbn [fst snd] in *.
  destruct (Hf a w1 (go_core _ _ Hg) (Hq a eq_refl)) as [Hg2 Hq2]. split; [by eapply good_trans|done].
Qed.
(** ... keeping the fact. *)
Lemma post_and {A} F (m : stE W A) Q : steadfast F -> post F m Q -> post F m (fun a w => F w /\ Q a w).
Proof.
  intros HF Hm w Hc Hf. destruct (Hm w Hc Hf) as [Hg Hq]. split; [done|]. intros a Ha.
  split; [eapply HF; [apply Hg|done]|by apply Hq].
Qed.
Lemma post_frame {A} F G (m : stE W A) Q :
  steadfast G -> post F m Q -> post (fun w => F w /\ G w) m (fun a w => Q a w /\ G w).
Proof.
  intros HG Hm w Hc [Hf Hgw]. destruct (Hm w Hc Hf) as [Hg Hq]. split; [done|]. intros a Ha.
  split; [by apply Hq|]. eapply HG; [apply Hg|done].
Qed.
Lemma post_attempt {A} F (m : stE W A) Q :
  steadfast F -> post F m Q -> post F (attempt m) (fun r w => F w /\ forall a, r = Ok a -> Q a w).
Proof.
  intros HF Hm w Hc Hf. destruct (Hm w Hc Hf) as [Hg Hq]. unfold attempt.
  destruct (m w) as [r w1]. cbn [fst snd] in *. split; [done|]. intros r' [= <-].
  split; [eapply HF; [apply Hg|done]|done].
Qed.
Lemma post_try {A} F (m : stE W A) Q : post F m Q -> post F (attempt m) (fun _ _ => True).
Proof. intros Hm w Hc Hf. destruct (Hm w Hc Hf) as [Hg _]. unfold attempt. by destruct (m w). Qed.
Lemma post_ignore {A} F (m : stE W A) Q : steadfast F -> post F m Q -> post F (ignore m) (fun _ => F).
Proof.
  intros HF Hm w Hc Hf. destruct (Hm w Hc Hf) as [Hg _]. split; [done|]. intros _ _. eapply HF; [apply Hg|done].
Qed.
Lemma post_rethrow {A} F g (m : stE W A) Q : post F m Q -> post F (rethrow g m) Q.
Proof.
  intros Hm w Hc Hf. destruct (Hm w Hc Hf) as [Hg Hq]. unfold rethrow. by destruct (m w) as [[a|e] w1].
Qed.
Lemma post_for_each {A} F (l : list A) (m : A -> stE W unit) :
  steadfast F -> (forall x, x ∈ l -> post F (m x) (fun _ _ => True)) -> post F (for_each l m) (fun _ => F).
Proof.
  intros HF. induction l as [|x l IH]; intros Hm; [by apply post_via; [|apply via_ret, _]|].
  eapply (post_bind _ _ _ (fun _ w => F w /\ True)); [apply post_and; [done|apply Hm; set_solver]|].
  intros _. eapply post_weaken; [apply IH; intros y Hy; apply Hm; set_solver|by intros w _ [? _]|done].
Qed.
(** A read of the world. *)
Lemma post_read {A} F (m : stE W A) Q :
  (forall w, core w -> F w -> (m w).2 = w /\ forall a, (m w).1 = Ok a -> Q a w) -> post F m Q.
Proof. intros Hm w Hc Hf. destruct (Hm w Hc Hf) as [-> Hq]. split; [by apply good_refl|done]. Qed.
Lemma post_ret {A} (F : W -> Prop) (a : A) (Q : A -> W -> Prop) :
  (forall w, core w -> F w -> Q a w) -> post F (mret a) Q.
Proof. intros HQ. apply post_read. intros w Hc Hf. split; [done|]. intros a' [= <-]. by apply HQ. Qed.
Lemma post_throw {A} F e (Q : A -> W -> Prop) : post F (throw e) Q.
Proof. by apply post_read. Qed.
Lemma post_lift {A} F (r : result A) : post F (lift r) (fun a w => F w /\ r = Ok a).
Proof. apply post_read. intros w Hc Hf. split; [done|]. by intros a Ha. Qed.
(** A step that is mild where [F] holds. *)
Lemma post_mild {A} F (m : stE W A) Q :
  (forall w, core w -> F w -> mild w (m w).2 /\ forall a, (m w).1 = Ok a -> Q a (m w).2) -> post F m Q.
Proof. intros Hm w Hc Hf. destruct (Hm w Hc Hf) as [Hmi Hq]. split; [by apply mild_safely|done]. Qed.
End steps.

(** Keep a fact over a step that needs none. *)
Ltac keep_fact :=
  eapply post_bind; [apply post_via; [solve [auto with steadfast]|solve [via]]|intros ?; cbv beta].

#[export] Hint Resolve mild_on_store mild_on_world mild_get_st mild_runtime mild_audit mild_Notify mild_deleteProofs
  mild_drop_runtime : via.
#[export] Hint Extern 1 (forall w, w_heap _ = w_heap _ /\ _) => done : via.
#[export] Hint Extern 2 (via mild_call _) => solve [via] : via.
#[export] Hint Extern 3 (via safely _) => apply via_mild; solve [via] : via.
