(* ===== verification/RuntimeSeals.v ===== *)
(** * The work on a runtime keeps the invariant of the engine

    Under a runtime's mutex the engine seals, accepts votes and empties the
    buffer: what it writes is of the runtime's own election, so the other
    runtimes and the scheduler keep what they rely on.  A new election starts
    with a runtime that agrees with the storage. *)

From S2P Require Import Prelude Errors Effects Bytes Types Records KV Keys Artifacts Storage.
From S2P Require Import StorageRefine StorageSpec StorageProps Retries Workers Sdk Config Validate.
From S2P Require Import Seal SealProps SealInv SealAccount Frame Chains Engine Finalize Lifecycle.
From S2P Require Import LifecycleProps Ingest IngestProps Submissions Scheduler Fold Scatter JobSteps.
From S2P Require Import JobProps ChainInv Work Apart Runtimes RuntimeSteps.

(** The artifacts of an election, but for its record. *)
Definition own_key (id : ElectionID) (k : Key) : bool :=
  match k with
  | KVote id' _ | KVoteSeq id' | KVoteStatus id' _ | KBatch id' _ | KSnapshot id' => bool_decide (id' = id)
  | KAudit _ _ => true
  | _ => false
  end.

(** The side conditions on a key of the election. *)
Ltac own_side := first [done | by apply bool_decide_true | by intros []].

Section own.
Context `{ChainLaws}.
Abbreviation W := (World TypedDB).
Abbreviation TSW := (SW TypedDB).

(** A runtime whose election's artifacts did not change, but for its status. *)
Lemma rt_ok_own (w w' : W) rt :
  (forall k, own_key (rt_id rt) k = true -> ~ in_scan ScanAudit k -> wmap w' !! k = wmap w !! k) ->
  (exists st, status (wmap w') (rt_id rt) = Some st /\ (past st = true -> rt_pending rt = [])) ->
  rt_ok w rt -> rt_ok w' rt.
Proof.
  intros Hk' Hst [[(st0 & (blob & Hb & Hr) & Ha) Hv Hz] Hl (n & Hn & Hrm) _].
  cbn [sw_of sw_env sw_rt] in *. split; [| | |done].
  - split; [| |done].
    + exists st0. split; [|done]. exists blob. split; [|done]. cbn. unfold snapshot_at. by rewrite Hk' by own_side.
    + cbn. change (tmap (env_store (w_env w'))) with (wmap w').
      eapply (votes_inv_shrink (wmap w)); [done|..|exact Hv]; unfold vote_at, status_at, batch_at; intros;
        try rewrite Hk' by own_side; eauto.
  - eapply log_ok_ext; [..|exact Hl]; intros; apply Hk'; own_side.
  - exists n. unfold counter_at in *. by rewrite Hk' by own_side.
Qed.

Lemma rt_ok_ext (w w' : W) rt :
  (forall k, k = KElection (rt_id rt) \/ own_key (rt_id rt) k = true -> ~ in_scan ScanAudit k ->
     wmap w' !! k = wmap w !! k) ->
  rt_ok w rt -> rt_ok w' rt.
Proof.
  intros Hk Hrt. apply (rt_ok_own w); [auto| |done]. destruct (ro_status _ _ Hrt) as (st & Hst & Hp).
  exists st. unfold status, election_at in *. by rewrite Hk by (by left || by intros []).
Qed.

(** The world after work on the runtime at [l]. *)
Definition put (l : nat) (s : TSW) (w : W) : W :=
  w_set_heap (<[l := sw_rt s]> (w_heap w)) (w_set_env (sw_env s) w).

Lemma put_put l s s' w : put l s' (put l s w) = put l s' w.
Proof. unfold put. cbn. by rewrite insert_insert_eq. Qed.

Lemma with_rt_put {A} l (m : stE TSW A) (w : W) rt : w_heap w !! l = Some rt ->
  with_rt l m w = ((m (sw_of w rt)).1, put l (m (sw_of w rt)).2 w).
Proof. intros Hl. unfold with_rt. rewrite Hl. unfold sw_of. by destruct (m _). Qed.

Lemma sw_of_put l s (w : W) : sw_of (put l s w) (sw_rt s) = s.
Proof. by destruct s. Qed.

(** What the work may do to the world. *)
Record own_work (w : W) (l : nat) (rt : Runtime) (s : TSW) : Prop := {
  ow_rt : rt_ok (put l s w) (sw_rt s);
  ow_id : rt_id (sw_rt s) = rt_id rt;
  ow_drained : is_closed (rt_id rt) w -> rt_pending rt = [] -> rt_pending (sw_rt s) = [];
  ow_keys k : own_key (rt_id rt) k = false -> smap s !! k = wmap w !! k;
  ow_batches seq b : batch_at (wmap w) (rt_id rt) seq = Some b -> batch_at (smap s) (rt_id rt) seq = Some b;
  ow_new seq b : batch_at (smap s) (rt_id rt) seq = Some b ->
    batch_at (wmap w) (rt_id rt) seq = Some b \/ bi_ElectionID b = rt_id rt /\ bi_Seq b = seq;
}.

Section put.
Context (w : W) (l : nat) (rt : Runtime) (s : TSW).
Context (Hc : core w) (Hl : w_heap w !! l = Some rt) (Ho : own_work w l rt s).

Lemma put_other id k : id <> rt_id rt -> own_key id k = true -> ~ in_scan ScanAudit k ->
  smap s !! k = wmap w !! k.
Proof.
  intros Hne Hk Ha. apply (ow_keys _ _ _ _ Ho). destruct k; cbn in *; try done;
    apply bool_decide_eq_true in Hk as ->; by apply bool_decide_eq_false.
Qed.

Lemma put_status id : status (wmap (put l s w)) id = status (wmap w) id.
Proof. unfold status, election_at. change (wmap (put l s w)) with (smap s). by rewrite (ow_keys _ _ _ _ Ho). Qed.

Lemma put_closed id : is_closed id (put l s w) <-> is_closed id w.
Proof. unfold is_closed. by rewrite put_status. Qed.
Lemma put_past id : is_past id (put l s w) <-> is_past id w.
Proof. unfold is_past. by rewrite put_status. Qed.

Lemma put_stored b : stored (wmap w) b -> stored (wmap (put l s w)) b.
Proof.
  unfold stored. change (wmap (put l s w)) with (smap s). destruct (decide (bi_ElectionID b = rt_id rt)) as [->|Hne].
  - destruct (batch_at (wmap w) (rt_id rt) (bi_Seq b)) as [b0|] eqn:E; [|done].
    by rewrite (ow_batches _ _ _ _ Ho _ _ E).
  - unfold batch_at. by rewrite (put_other (bi_ElectionID b)) by own_side.
Qed.

Lemma put_heap l' rt' : w_heap (put l s w) !! l' = Some rt' ->
  l' = l /\ rt' = sw_rt s \/ l' <> l /\ w_heap w !! l' = Some rt'.
Proof. cbn. rewrite lookup_insert_Some. naive_solver. Qed.

Lemma put_rt_at l' id : rt_at l' id w -> rt_at l' id (put l s w).
Proof.
  intros (rt' & Hl' & <-). destruct (decide (l' = l)) as [->|Hne].
  - rewrite Hl in Hl'. injection Hl' as <-. exists (sw_rt s). split; [apply lookup_insert_eq|apply (ow_id _ _ _ _ Ho)].
  - exists rt'. split; [|done]. by cbn; rewrite lookup_insert_ne.
Qed.

Lemma put_grows : grows w (put l s w).
Proof.
  split.
  - intros l' rt' Hl'. destruct (decide (l' = l)) as [->|Hne].
    + rewrite Hl in Hl'. injection Hl' as <-. exists (sw_rt s). split; [apply lookup_insert_eq|].
      split; apply Ho.
    + exists rt'. split; [by cbn; rewrite lookup_insert_ne|done].
  - intros id. apply put_closed.
  - intros id. apply put_past.
  - apply put_stored.
  - intros b bi Hb. change (object_of b (put l s w)) with (object_of b w). by rewrite Hb.
Qed.

Lemma put_core : core (put l s w).
Proof.
  pose proof Hc as [Crt Cinj Crun Cbl Ck Cob Cpa Cch Cpe Cdr Cfi]. split.
  - intros l' rt' [[-> ->]|[Hne Hl']]%put_heap; [apply Ho|].
    assert (rt_id rt' <> rt_id rt) as Hid by (intros E; apply Hne; by eapply Cinj).
    eapply rt_ok_ext, Crt, Hl'. intros k [->|Hk] Ha; [by apply (ow_keys _ _ _ _ Ho)|by eapply put_other].
  - assert (forall l' rt', w_heap (put l s w) !! l' = Some rt' ->
      exists rt0, w_heap w !! l' = Some rt0 /\ rt_id rt' = rt_id rt0) as Hh.
    { intros l' rt' [[-> ->]|[Hne Hl']]%put_heap; [exists rt; split; [done|apply Ho]|by exists rt']. }
    intros l1 l2 rt1 rt2 (r1 & H1' & E1)%Hh (r2 & H2' & E2)%Hh E. apply (Cinj _ _ _ _ H1' H2'). congruence.
  - intros id l' Hr. by apply put_rt_at, Crun.
  - intros id Hn. rewrite put_status in Hn. destruct (Cbl id Hn) as (Bc & Bv & Bb).
    assert (id <> rt_id rt) as Hne.
    { intros ->. destruct (ro_status _ _ (Crt _ _ Hl)) as (st & Hst & _). by rewrite Hst in Hn. }
    change (wmap (put l s w)) with (smap s).
    unfold blank, counter_at, vote_at, batch_at in *. split; [|split].
    + by rewrite (put_other id) by own_side.
    + intros u. by rewrite (put_other id) by own_side.
    + intros seq. by rewrite (put_other id) by own_side.
  - intros id seq b Hb. change (wmap (put l s w)) with (smap s) in Hb. destruct (decide (id = rt_id rt)) as [->|Hne].
    + destruct (ow_new _ _ _ _ Ho _ _ Hb) as [Hb0|]; [by eapply Ck|done].
    + unfold batch_at in Hb. rewrite (put_other id) in Hb by own_side.
      by apply (Ck id seq b).
  - intros b bi Hb. by eapply put_stored, Cob.
  - exact Cpa.
  - exact Cch.
  - exact Cpe.
  - intros l' (id & Hr & Hcl)%Cdr. exists id. split; [by apply put_rt_at|by apply put_closed].
  - intros id Hf. by apply put_past, Cfi.
Qed.
End put.

Lemma put_good w l rt s : core w -> w_heap w !! l = Some rt -> own_work w l rt s ->
  (forall id u, vote_at (smap s) id u = votes w id u) -> s_processingVoteIDs (env_store (sw_env s)) = locks w ->
  good w (put l s w).
Proof.
  intros Hc Hl Ho Hv Hk. split; [by eapply put_core|by eapply put_grows|]. by apply quiet_tolerant.
Qed.

(** ** Seals *)

(** What a seal does, on every path. *)
Record seals (s s' : TSW) : Prop := {
  sl_inv : rt_inv s';
  sl_room : (room s' <= room s)%N;
  sl_id : rt_id (sw_rt s') = rt_id (sw_rt s);
  sl_pending : rt_pending (sw_rt s') `sublist_of` rt_pending (sw_rt s);
  sl_frame : frame (env_store (sw_env s)) (env_store (sw_env s'));
  sl_keys k : own_key (rt_id (sw_rt s)) k = false -> smap s' !! k = smap s !! k;
  sl_batches seq b : batch_at (smap s) (rt_id (sw_rt s)) seq = Some b ->
    batch_at (smap s') (rt_id (sw_rt s)) seq = Some b;
  sl_new seq b : batch_at (smap s') (rt_id (sw_rt s)) seq = Some b ->
    batch_at (smap s) (rt_id (sw_rt s)) seq = Some b \/ bi_ElectionID b = rt_id (sw_rt s) /\ bi_Seq b = seq;
}.

Lemma seals_refl s : rt_inv s -> seals s s.
Proof. split; try done. by left. Qed.

Lemma seals_trans s1 s2 s3 : seals s1 s2 -> seals s2 s3 -> seals s1 s3.
Proof.
  intros [I1 R1 E1 P1 F1 K1 B1 N1] [I2 R2 E2 P2 F2 K2 B2 N2]. rewrite E1 in *. split; [done|lia|congruence|..].
  - by etrans.
  - by etrans.
  - intros k Hk. by rewrite K2, K1.
  - intros seq b Hb. by apply B2, B1.
  - intros seq b [Hb|?]%N2; [by apply N1|by right].
Qed.

(** Votes were dropped, nothing else. *)
Lemma marks_keys id l t t' k : marks id l t t' -> own_key id k = false -> tmap t' !! k = tmap t !! k.
Proof.
  intros Hm Hk. apply (marks_other _ _ _ _ Hm). intros v _ ->. cbn in Hk. by apply bool_decide_eq_false in Hk.
Qed.
Lemma marks_batches id l t t' seq : marks id l t t' -> batch_at (tmap t') id seq = batch_at (tmap t) id seq.
Proof. intros Hm. unfold batch_at. by rewrite (marks_other _ _ _ _ Hm). Qed.

Lemma sealLocked_keys now (s : TSW) : rt_inv s -> (room s < two64)%N ->
  let s' := (sealLocked now s).2 in let id := rt_id (sw_rt s) in
  (forall k, own_key id k = false -> smap s' !! k = smap s !! k) /\
  (forall seq b, batch_at (smap s) id seq = Some b -> batch_at (smap s') id seq = Some b) /\
  (forall seq b, batch_at (smap s') id seq = Some b ->
     batch_at (smap s) id seq = Some b \/ bi_ElectionID b = id /\ bi_Seq b = seq).
Proof.
  intros Hinv Hroom. cbv zeta. destruct (ri_sound _ Hinv) as [st0 Hs].
  pose proof (sealLocked_outcome now st0 s Hs) as Ho. cbv zeta in Ho.
  destruct (nextBatch (rt_pending (sw_rt s)) (rt_batchSize (sw_rt s))) as [batch rest]. cbn [fst snd] in Ho.
  set (q := sealLocked now s) in *.
  assert (forall l s', unsealed s l s' ->
    (forall k, own_key (rt_id (sw_rt s)) k = false -> smap s' !! k = smap s !! k) /\
    (forall seq, batch_at (smap s') (rt_id (sw_rt s)) seq = batch_at (smap s) (rt_id (sw_rt s)) seq)) as Hun'.
  { intros l s' [_ _ Hm]. split; [intros k; by eapply marks_keys|intros seq; by eapply marks_batches]. }
  destruct Ho as [s' Hb Hun Hso|e l s' Hl Hun Hso|s1 s' Hb Hnil Hun Hso ->
                 |data st stx n b snap req vk t c s' Hb Hx Happ Hreq Hsnap Eb Hst ->].
  - destruct (Hun' _ _ Hun) as [Hk E]. split; [done|]. split; intros seq b; rewrite E; auto.
  - destruct (Hun' _ _ Hun) as [Hk E]. split; [done|]. split; intros seq b; rewrite E; auto.
  - destruct (Hun' _ _ Hun) as [Hk E]. split; [exact Hk|].
    split; intros seq b' Hb'; [rewrite <- E in Hb'; exact Hb'|left; rewrite <- E; exact Hb'].
  - destruct (stamp_batch_input now (set_chain st true (sw_rt s)) req
      (sealed_ids (rt_cfg (sw_rt s)) st0 batch)) as (Eid & Eseq & _).
    unfold sealed_ids in Eid, Eseq. rewrite <- Eb in Eid, Eseq. cbn in Eid, Eseq.
    destruct Hst as [S1 S2 _ _ _ S6 _]. unfold smap. cbn [sw_env]. rewrite env_store_Notify. cbn.
    assert (forall k, own_key (rt_id (sw_rt s)) k = false -> tmap t !! k = tmap (env_store (sw_env s)) !! k) as Hk.
    { intros k Hk. apply S6; [..|intros u _|]; try (intros ->; cbn in Hk; by rewrite bool_decide_true in Hk).
      intros Hin. by destruct k. }
    assert (forall seq, seq <> rt_batchSeq (sw_rt s) -> batch_at (tmap t) (rt_id (sw_rt s)) seq
      = batch_at (tmap (env_store (sw_env s))) (rt_id (sw_rt s)) seq) as Hbo.
    { intros seq Hne. unfold batch_at. rewrite S6; [done|congruence|done..|by intros []]. }
    assert (batch_at (tmap (env_store (sw_env s))) (rt_id (sw_rt s)) (rt_batchSeq (sw_rt s)) = None) as Hn.
    { apply eq_None_not_Some. rewrite (vi_batches _ _ _ _ (ri_votes _ Hinv)). lia. }
    split; [exact Hk|]. split; intros seq b' Hb'.
    + rewrite Hbo; [done|]. intros ->. by rewrite Hn in Hb'.
    + destruct (decide (seq = rt_batchSeq (sw_rt s))) as [->|Hne]; [right|left; by rewrite <- Hbo].
      rewrite <- Eseq, S1 in Hb'. injection Hb' as <-. by split.
Qed.

Lemma sealLocked_seals_ now (s : TSW) : rt_inv s -> (room s < two64)%N -> seals s (sealLocked now s).2.
Proof.
  intros Hi Hr. destruct (sealLocked_step now s Hi Hr) as (I & R & E & _ & P & _).
  destruct (sealLocked_keys now s Hi Hr) as (K & B & N). split; try done.
  by apply (sealLocked_framed now (env_store (sw_env s))).
Qed.

Lemma seal_while_seals go now fuel (s : TSW) : rt_inv s -> (room s < two64)%N ->
  seals s (seal_while go fuel now s).2.
Proof.
  revert s. induction fuel as [|fuel IH]; intros s Hi Hr; [by apply seals_refl|].
  rewrite seal_while_S. destruct (go (sw_rt s)); [|by apply seals_refl].
  pose proof (sealLocked_seals_ now s Hi Hr) as Hs. unfold mbind, stE_bind.
  destruct (sealLocked now s) as [[[]|e] s1]; [|done]. cbn [snd] in *.
  eapply seals_trans; [done|]. apply IH; [apply Hs|]. pose proof (sl_room _ _ Hs). lia.
Qed.

Lemma sealAll_seals now (s : TSW) : rt_inv s -> (room s < two64)%N ->
  let '(r, s') := sealAllLocked now s in
  seals s s' /\ (r = Ok tt -> rt_pending (sw_rt s') = []).
Proof.
  intros Hi Hr. unfold sealAllLocked, mbind, stE_bind. cbn [rt_get gets]. rewrite sealAll_while.
  pose proof (seal_while_seals some_pending now (S (length (rt_pending (sw_rt s)))) s Hi Hr) as Hs.
  destruct (seal_while_run some_pending now (S (length (rt_pending (sw_rt s)))) s)
    as (_ & _ & _ & _ & Hok & _); [apply some_pending_ok|done..|lia|].
  destruct (seal_while _ _ _ _) as [r s']. split; [done|]. intros Er%Hok. unfold some_pending in Er. cbn in Er.
  by destruct (rt_pending (sw_rt s')).
Qed.
Lemma sealFull_seals now (s : TSW) : rt_inv s -> (room s < two64)%N -> seals s (sealFullLocked now s).2.
Proof.
  intros Hi Hr. unfold sealFullLocked, mbind, stE_bind. cbn [rt_get gets snd]. rewrite sealFull_while.
  by apply seal_while_seals.
Qed.
Lemma sealStale_seals now window (s : TSW) : rt_inv s -> (room s < two64)%N -> seals s (sealIfStale now window s).2.
Proof.
  intros Hi Hr. unfold sealIfStale, ignore, mbind, stE_bind. cbn [rt_get gets snd]. rewrite sealIfStale_while.
  by apply seal_while_seals.
Qed.

(** A seal of a runtime, in the world. *)
Lemma rt_room (w : W) rt : rt_ok w rt -> (room (sw_of w rt) < two64)%N.
Proof.
  intros [_ [(n & Hn & Hb & _) _ _] (n' & Hn' & Hr) _]. rewrite Hn in Hn'. injection Hn' as <-. lia.
Qed.

Lemma seals_own (w : W) l rt s : rt_ok w rt -> seals (sw_of w rt) s -> own_work w l rt s.
Proof.
  intros [Hi Hlog (n & Hn & Hrm) (st & Hst & Hp)] [I R E P F K B N]. cbn [sw_of sw_rt sw_env] in *.
  assert (forall k, seal_key k = false -> wmap (put l s w) !! k = wmap w !! k) as Hk by apply F.
  split; try done.
  - split.
    + by rewrite sw_of_put.
    + rewrite E. eapply log_ok_ext; [..|exact Hlog]; intros; by apply Hk.
    + rewrite sw_of_put, E. exists n. split; [|lia]. unfold counter_at in *. by rewrite Hk.
    + rewrite E. exists st. split; [unfold status, election_at in *; by rewrite Hk|].
      intros Hps%Hp. rewrite Hps in P. by apply sublist_nil_r in P.
  - intros _ Hps. rewrite Hps in P. by apply sublist_nil_r in P.
Qed.

Lemma seals_good (w : W) l rt s : core w -> w_heap w !! l = Some rt -> seals (sw_of w rt) s -> good w (put l s w).
Proof.
  intros Hc Hl Hs. eapply put_good; [done..| |intros id u; by apply (frame_vote _ _ _ _ (sl_frame _ _ Hs))|].
  - apply seals_own; [by eapply co_rt|done].
  - apply (ps_voteIDs _ _ (fr_proc _ _ (sl_frame _ _ Hs))).
Qed.

Lemma safely_seal {A} l (m : stE TSW A) :
  (forall s, rt_inv s -> (room s < two64)%N -> seals s (m s).2) -> via safely (with_rt l m : stE W A).
Proof.
  intros Hm w Hc. destruct (w_heap w !! l) as [rt|] eqn:Hl.
  - rewrite (with_rt_put _ _ _ _ Hl). eapply seals_good; [done..|].
    pose proof (co_rt _ Hc _ _ Hl) as Hrt. apply Hm; [apply Hrt|by apply rt_room].
  - unfold with_rt. rewrite Hl. by apply good_refl.
Qed.

(** ** Votes *)

Lemma audit_seals now subject role action id (s : TSW) : rt_inv s -> seals s (audit now subject role action id s).2.
Proof.
  intros Hi. destruct (audit_inv now subject role action id s []) as (Hi' & _ & Ert).
  pose proof (audit_framed now subject role action id (env_store (sw_env s)) s (frame_refl _)) as Hf.
  destruct (audit_run now subject role action id s) as (t & E & Ht & _). rewrite E in *. cbn [snd] in *.
  assert (forall seq, batch_at (smap (MkSW (set_store t (sw_env s)) (sw_rt s))) (rt_id (sw_rt s)) seq
    = batch_at (smap s) (rt_id (sw_rt s)) seq) as Hb
    by (intros seq; unfold batch_at, smap; cbn; by rewrite Ht by by intros []).
  split; try done; [by apply Hi'| |intros seq b; by rewrite Hb|intros seq b; rewrite Hb; by left].
  intros k Hk. apply Ht. intros Hs. by destruct k.
Qed.

Lemma received_own (w : W) l rt now n v (t : TStorage) el :
  rt_ok w rt -> election_at (wmap w) (rt_id rt) = Some el -> el_Status el = StatusActive ->
  counter_at (wmap w) (rt_id rt) = Some n -> (n + 1 < two64)%N -> votes w (rt_id rt) (v_ID v) = None ->
  tmap t = td_writes (add_writes now (rt_id rt) n v) (wmap w) ->
  own_work w l rt (received now n v t (sw_of w rt)).
Proof.
  intros [Hi Hlog (n' & Hn' & Hrm) (st & Hst & Hp)] Hel Ha Hn Hlt Hv Ht.
  rewrite Hn in Hn'. injection Hn' as <-. unfold status in Hst. rewrite Hel in Hst. cbn in Hst. injection Hst as <-.
  destruct (received_inv now n v t (sw_of w rt)) as [Hi' Hlog']; [done..|].
  set (s := received now n v t (sw_of w rt)) in *.
  assert (wmap (put l s w) = td_writes (add_writes now (rt_id rt) n v) (wmap w)) as Em by done.
  assert (forall k, k <> KVoteSeq (rt_id rt) -> (forall u, k <> KVote (rt_id rt) u) ->
    (forall u, k <> KVoteStatus (rt_id rt) u) -> wmap (put l s w) !! k = wmap w !! k) as Hk.
  { intros k H1' H2' H3'. rewrite Em. apply td_writes_untouched. repeat constructor; cbn; congruence. }
  assert (status (wmap (put l s w)) (rt_id rt) = Some StatusActive) as Hst'.
  { unfold status, election_at. rewrite Hk by done.
    change (el_Status <$> election_at (wmap w) (rt_id rt) = Some StatusActive). rewrite Hel. cbn. by rewrite Ha. }
  split; try done.
  - assert (rt_id (sw_rt s) = rt_id rt) as Eid by done. split; rewrite ?Eid.
    + by rewrite sw_of_put.
    + by rewrite Em, <- Ht.
    + exists (u64_succ n). unfold u64_succ. rewrite u64_small by done. split.
      * rewrite Em. unfold add_writes, u64_succ. rewrite u64_small by done.
        by destruct (add_writes_lookup now (rt_id rt) (n + 1)%N v (wmap w)) as (Hc & _).
      * rewrite sw_of_put. unfold room in *. cbn in *. rewrite length_app. cbn. lia.
    + exists StatusActive. by split.
  - intros (st & Hst & Hc). unfold status in Hst. rewrite Hel in Hst. cbn in Hst. injection Hst as <-. by rewrite Ha in Hc.
  - intros k Hk'. apply Hk; [intros ->|intros u ->|intros u ->]; cbn in Hk'; by rewrite bool_decide_true in Hk'.
  - intros seq b. unfold batch_at. by rewrite Hk by done.
  - intros seq b. unfold batch_at. rewrite Hk by done. by left.
Qed.

(** The acceptance of a vote that is not stored yet. *)
Lemma accept_good now l id v (w : W) : core w -> rt_at l id w -> votes w id (v_ID v) = None ->
  (forall n, counter_at (wmap w) id = Some n -> (n + 1 < two64)%N) ->
  let w' := (with_rt l (accept_vote now id v) w).2 in core w' /\ grows w w'.
Proof.
  intros Hc (rt & Hl & <-) Hv Hn. rewrite (with_rt_put _ _ _ _ Hl). cbn [snd].
  pose proof (co_rt _ Hc _ _ Hl) as Hrt.
  pose proof (accept_vote_accepted now (rt_id rt) v (sw_of w rt)) as Ha.
  destruct (accept_vote now (rt_id rt) v (sw_of w rt)) as [r s']. cbn [snd].
  destruct Ha as [e s' Ert Em _ Hp|el n t s' Hel Hst Hcn Hf Ec ->].
  - assert (seals (sw_of w rt) s') as Hs.
    { split; try (by rewrite Ert).
      - eapply rt_inv_ext; [done..|apply Hrt].
      - unfold room. by rewrite Ert.
      - split; [|done]. intros k _. by rewrite Em.
      - intros k _. unfold smap. by rewrite Em.
      - intros seq b. unfold smap. by rewrite Em.
      - intros seq b. unfold smap. rewrite Em. by left. }
    by destruct (seals_good w l rt s' Hc Hl Hs).
  - destruct (tmap_commit (add_writes now (rt_id rt) n v) (w_store w) Hf) as [_ Ht].
    cbn [sw_of sw_env] in Ec. fold (w_store w) in Ec. rewrite Ec in Ht. cbn [snd] in Ht.
    pose proof (received_own w l rt now n v t el Hrt Hel Hst Hcn (Hn n Hcn) Hv Ht) as Ho.
    set (s1 := received now n v t (sw_of w rt)) in *.
    pose proof (put_core w l rt s1 Hc Hl Ho) as Hc1. pose proof (put_grows w l rt s1 Hl Ho) as Hg1.
    pose proof (ow_rt _ _ _ _ Ho) as Hrt1.
    pose proof (ro_inv _ _ Hrt1) as Hi1. pose proof (rt_room _ _ Hrt1) as Hr1. rewrite sw_of_put in Hi1, Hr1.
    pose proof (sealFull_seals now s1 Hi1 Hr1) as Hs2.
    pose proof (seals_trans _ _ _ Hs2 (audit_seals now "voter" "voter" "submit_vote" (rt_id rt) _ (sl_inv _ _ Hs2))) as Hs3.
    destruct (seals_good (put l s1 w) l (sw_rt s1) _ Hc1 (lookup_insert_eq _ _ _)
      (eq_rect_r (fun x => seals x _) Hs3 (sw_of_put l s1 w))) as [Hc3 Hg3 _].
    rewrite put_put in Hc3, Hg3. split; [done|by etrans].
Qed.

(** ** The buffer emptied *)

Lemma emptied_own (w : W) l rt : rt_ok w rt -> own_work w l rt (sw_of w (set_pending [] rt)).
Proof.
  intros [[Hs Hv Hz] Hlog (n & Hn & Hrm) (st & Hst & Hp)].
  assert (wmap (put l (sw_of w (set_pending [] rt)) w) = wmap w) as Em by done.
  split; try done; [split; rewrite ?Em; try done|by left].
  - split; [exact Hs| |done]. eapply votes_inv_shrink; [apply sublist_nil_l|..|exact Hv]; eauto.
  - exists n. split; [done|]. unfold room in *. cbn in *. lia.
  - exists st. by split.
Qed.

Lemma post_emptied l id : post (rt_at l id) (with_rt l (on_rt (set_pending [])) : stE W unit)
  (fun _ w => exists rt, w_heap w !! l = Some rt /\ rt_id rt = id /\ rt_pending rt = []).
Proof.
  intros w Hc (rt & Hl & <-). rewrite (with_rt_put _ _ _ _ Hl). cbn [fst snd on_rt modify].
  split.
  - eapply put_good; [done..|apply emptied_own; by eapply co_rt|done|done].
  - intros _ _. exists (set_pending [] rt). split; [apply lookup_insert_eq|done].
Qed.

(** ... by a seal of everything that succeeded. *)
Lemma post_sealed now l id : post (fun w => rt_at l id w /\ is_closed id w)
  (with_rt l (sealAllLocked now) : stE W unit) (fun _ => drained l id).
Proof.
  intros w Hc [(rt & Hl & <-) Hcl]. rewrite (with_rt_put _ _ _ _ Hl). cbn [fst snd].
  pose proof (co_rt _ Hc _ _ Hl) as Hrt. pose proof (sealAll_seals now (sw_of w rt) (ro_inv _ _ Hrt) (rt_room _ _ Hrt)) as Hs.
  destruct (sealAllLocked now (sw_of w rt)) as [r s']. cbn [fst snd]. destruct Hs as [Hs Hok].
  pose proof (seals_good w l rt s' Hc Hl Hs) as Hg. split; [done|]. intros [] Er. split.
  - by eapply steadfast_closed; [apply Hg|].
  - exists (sw_rt s'). split; [apply lookup_insert_eq|]. split; [apply (sl_id _ _ Hs)|by apply Hok].
Qed.
End own.
