(* ===== verification/RuntimeEngine.v ===== *)
(** * The engine's operations keep its invariant

    The creation of an election, the changes of its status, the drain, the
    finalize, the sweeps and the workers: each keeps the invariant of
    Runtimes.v and the facts of the others, given a scheduler that does
    ([SafeScheduler]). *)

From S2P Require Import Prelude Errors Effects Bytes Types Records KV Keys Artifacts Storage.
From S2P Require Import StorageRefine StorageSpec StorageProps Retries Workers Sdk Config Validate.
From S2P Require Import Seal SealProps SealInv Frame Chains Engine Finalize Lifecycle LifecycleProps.
From S2P Require Import Ingest IngestProps Submissions EngineSteps Scheduler Fold Scatter JobSteps.
From S2P Require Import JobProps ChainInv Work Apart Runtimes RuntimeSteps RuntimeSeals.

Section elections.
Context `{ChainLaws}.
Abbreviation W := (World TypedDB).
Abbreviation TSW := (SW TypedDB).

(** ** The record of an election changes *)

(** Only the records of elections, forward, and never past the last seal with
    a vote in the buffer. *)
Record ahead (w w' : W) : Prop := {
  tu_heap : w_heap w' = w_heap w;
  tu_runtimes : w_runtimes w' = w_runtimes w;
  tu_sched : w_sched w' = w_sched w;
  tu_background : w_background w' = w_background w;
  tu_locks : locks w' = locks w;
  tu_keys k : (forall id, k <> KElection id) -> wmap w' !! k = wmap w !! k;
  tu_status id st : status (wmap w) id = Some st -> exists st', status (wmap w') id = Some st' /\
    (closed st = true -> closed st' = true) /\ (past st = true -> past st' = true);
  tu_past l rt st : w_heap w !! l = Some rt -> status (wmap w') (rt_id rt) = Some st -> past st = true ->
    rt_pending rt = [];
}.

Lemma ahead_good w w' : ahead w w' -> core w -> good w w'.
Proof.
  intros [Eh Er Es Eb El Ek Hst Hpa] Hc. pose proof Hc as [Crt Cinj Crun Cbl Ck Cob Cpa Cch Cpe Cdr Cfi].
  assert (forall id seq, batch_at (wmap w') id seq = batch_at (wmap w) id seq) as Hb
    by (intros id seq; unfold batch_at; by rewrite Ek).
  assert (forall b, stored (wmap w) b -> stored (wmap w') b) as Hs by (intros b; unfold stored; by rewrite Hb).
  assert (forall id, is_closed id w -> is_closed id w') as Hcl.
  { intros id (st & E & Hcs). destruct (Hst _ _ E) as (st' & E' & Hc' & _). exists st'. auto. }
  assert (forall id, is_past id w -> is_past id w') as Hps.
  { intros id (st & E & Hcs). destruct (Hst _ _ E) as (st' & E' & _ & Hp'). exists st'. auto. }
  assert (forall l id, rt_at l id w -> rt_at l id w') as Hrt by (intros l id; unfold rt_at; by rewrite Eh).
  split; [split| |].
  - intros l rt. rewrite Eh. intros Hl. pose proof (Crt _ _ Hl) as Hok. apply (rt_ok_own w); [| |done].
    + intros k Hk _. apply Ek. by intros id ->.
    + destruct (ro_status _ _ Hok) as (st & E & _). destruct (Hst _ _ E) as (st' & E' & _). exists st'.
      split; [done|]. by eapply Hpa.
  - by rewrite Eh.
  - intros id l. rewrite Er. auto.
  - intros id Hn. assert (status (wmap w) id = None) as Hn0.
    { destruct (status (wmap w) id) as [st|] eqn:E; [|done]. destruct (Hst _ _ E) as (st' & E' & _). congruence. }
    destruct (Cbl id Hn0) as (Bc & Bv & Bb). unfold blank, counter_at, vote_at, batch_at in *.
    split; [by rewrite Ek|]. split; intros; by rewrite Ek.
  - intros id seq b. rewrite Hb. apply Ck.
  - unfold object_of in *. rewrite Es. eauto.
  - unfold obj_of, object_of in *. rewrite Es. eauto.
  - rewrite Es. exact Cch.
  - unfold chain_of, obj_of, object_of in *. rewrite Es. eauto.
  - rewrite Eb. intros l (id & ? & ?)%Cdr. exists id. auto.
  - unfold finals. rewrite Eb. intros id Hf. by apply Hps, Cfi.
  - split; auto.
    + intros l rt Hl. rewrite Eh. by exists rt.
    + unfold object_of. rewrite Es. by intros b bi ->.
  - apply quiet_tolerant. split; [|done]. intros id u. unfold votes, vote_at. fold (wmap w) (wmap w'). by rewrite Ek.
Qed.

(** An update of an election whose buffer is empty. *)
Definition ends_update (f : Election -> result Election) : Prop := forall el el', f el = Ok el' ->
  past (el_Status el') = true /\ closed (el_Status el') = true.

Lemma post_ended now id f : ends_update f ->
  post (fun w => forall l rt, w_heap w !! l = Some rt -> rt_id rt = id -> rt_pending rt = [])
    (on_store (UpdateElection now id f) : stE W unit) (fun _ => is_past id).
Proof.
  intros Hf w Hc He. pose proof (UpdateElection_status now id f (w_store w)) as Hs.
  pose proof (on_store_store (UpdateElection now id f) w) as Est.
  assert (proc_same (w_store w) (UpdateElection now id f (w_store w)).2) as Hp.
  { destruct (UpdateElection_run now id f (w_store w)) as [e0 ->].
    destruct (election_at _ id) as [el|]; [|done]. destruct (f el); [apply commit_proc|done]. }
  assert (forall k, (forall id, k <> KElection id) ->
    tmap (UpdateElection now id f (w_store w)).2 !! k = tmap (w_store w) !! k) as Hk.
  { intros k Hne. apply (call_preserves (fun m => m !! k = tmap (w_store w) !! k) (CUpdateElection now id f)); [|done].
    intros ws (e & e' & _ & _ & ->) _. cbn. by rewrite lookup_insert_ne by congruence. }
  unfold on_store, zoom in *. destruct (UpdateElection now id f (w_store w)) as [[[]|e] t]; cbn [fst snd] in *.
  - destruct Hs as (el & el' & Hel & Ef & Hs). destruct (Hf _ _ Ef) as [Hpa Hcl].
    assert (status (tmap (w_store w)) id = Some (el_Status el)) as Hst by (unfold status; by rewrite Hel).
    split; [|intros [] _; exists (el_Status el'); split; [|done]; unfold wmap; rewrite Est, Hs; by rewrite decide_True].
    apply ahead_good; [|done]. split; try done; unfold wmap; rewrite ?Est.
    + unfold locks. rewrite Est. apply Hp.
    + intros id' st Hst'. rewrite Hs. case_decide as Hd; [subst; by exists (el_Status el')|by exists st].
    + intros l rt st Hl. rewrite Hs. case_decide as Hd; [intros _ _; by eapply He|].
      destruct (ro_status _ _ (co_rt _ Hc _ _ Hl)) as (st0 & Hst0 & Hp0). unfold wmap in Hst0. rewrite Hst0.
      intros [= <-]. exact Hp0.
  - split; [|done]. apply mild_safely; [|done]. apply mild_keep; [done..|]. rewrite Est.
    apply mild_proc; [by apply mild_map|done].
Qed.

(** An update of an election past its last seal. *)
Lemma post_past_update now id f :
  (forall el el', f el = Ok el' -> past (el_Status el') = true /\ closed (el_Status el') = true) ->
  post (is_past id) (on_store (UpdateElection now id f) : stE W unit) (fun _ => is_past id).
Proof.
  intros Hf. eapply post_weaken; [by apply post_ended| |done]. intros w Hc (st & Hst & Hp) l rt Hl <-.
  destruct (ro_status _ _ (co_rt _ Hc _ _ Hl)) as (st' & Hst' & Hp'). apply Hp'. by simplify_eq.
Qed.

Lemma post_mild_update now id f F : mild_update f -> steadfast F ->
  post F (on_store (UpdateElection now id f) : stE W unit) (fun _ => F).
Proof. intros Hf HF. apply post_via; [done|]. apply via_mild, mild_on_store. by apply mild_UpdateElection. Qed.

Lemma post_on_ignore {A} (m : stE TStorage A) F Q :
  post F (on_store m : stE W A) Q -> post F (on_store (ignore m) : stE W unit) (fun _ _ => True).
Proof. intros Hm w Hc HF. destruct (Hm w Hc HF) as [Hg _]. rewrite on_store_ignore. by split. Qed.

(** An election that is read, with the status it then has. *)
Lemma post_Election id F : post F (attempt (on_store (Election_ id)) : stE W (result Election))
  (fun r w => F w /\ forall el, r = Ok el -> status (wmap w) id = Some (el_Status el)).
Proof.
  apply post_read. intros w Hc HF. unfold attempt, on_store, zoom.
  destruct (Election_run id (w_store w)) as [e E]. rewrite E. cbn.
  split; [by destruct w as [[]]|]. intros r [= <-]. split; [done|]. intros el. unfold status, wmap.
  destruct (election_at _ _) as [el'|]; [|done]. by intros [= <-].
Qed.

(** ** The background *)

Lemma background_core (w : W) b : core w ->
  match b with
  | BgDrain l => exists id, rt_at l id w /\ is_closed id w
  | BgFinalize id _ => is_past id w
  end -> good w (w_set_background (w_background w ++ [b]) false w).
Proof.
  intros Hc Hb. pose proof Hc as [Crt Cinj Crun Cbl Ck Cob Cpa Cch Cpe Cdr Cfi]. set (w' := w_set_background _ _ w).
  split; [split| |]; try done.
  - intros l rt Hl. apply (rt_ok_ext w); [done|]. by eapply Crt.
  - intros l [Hin|Hin]%elem_of_app; [by apply Cdr|]. apply list_elem_of_singleton in Hin. by subst b.
  - intros id. unfold finals. cbn. rewrite omap_app, elem_of_app. intros [Hin|Hin]; [by apply Cfi|].
    destruct b; cbn in Hin; [by apply not_elem_of_nil in Hin|].
    apply list_elem_of_singleton in Hin. by subst.
  - split; try done.
    + intros l rt Hl. by exists rt.
    + intros b' bi Hb'. by change (object_of b' w') with (object_of b' w); rewrite Hb'.
Qed.

Lemma post_goBackground b :
  post (fun w => match b with BgDrain l => exists id, rt_at l id w /\ is_closed id w | BgFinalize id _ => is_past id w end)
    (goBackground b : stE W bool) (fun _ _ => True).
Proof.
  intros w Hc Hb. unfold goBackground. destruct (w_bgStopped w); (split; [|done]).
  - by apply good_refl.
  - by apply background_core.
Qed.

(** ** Changes of status *)

(** Work under a runtime's mutex, step by step. *)
Lemma post_with_bind {A B} F l (m : stE TSW A) (f : A -> stE TSW B) Q T :
  post F (with_rt l m) Q -> (forall a, post (Q a) (with_rt l (f a)) T) -> post F (with_rt l (m ≫= f) : stE W B) T.
Proof.
  intros Hm Hf w Hc HF.
  assert (with_rt l (m ≫= f) w = (with_rt l m ≫= fun a => with_rt l (f a)) w) as E.
  { unfold mbind at 2, stE_bind. destruct (w_heap w !! l) as [rt|] eqn:Hl.
    - rewrite !(with_rt_put _ _ _ _ Hl). unfold mbind, stE_bind. destruct (m (sw_of w rt)) as [[a|e] s]; [|done].
      cbn [fst snd]. rewrite (with_rt_put _ _ _ (sw_rt s)) by apply lookup_insert_eq. by rewrite sw_of_put, put_put.
    - unfold with_rt. by rewrite Hl. }
  rewrite E. by apply (post_bind _ _ _ _ _ Hm Hf).
Qed.

Lemma put_same l rt (w : W) : w_heap w !! l = Some rt -> put l (sw_of w rt) w = w.
Proof. intros Hl. unfold put. cbn. rewrite insert_id by done. by destruct w. Qed.

Lemma post_with_pure {A} F l id (m : stE TSW A) : (forall s, (m s).2 = s) ->
  post (fun w => rt_at l id w /\ F w) (with_rt l m)
    (fun a w => (rt_at l id w /\ F w) /\ exists s, rt_id (sw_rt s) = id /\ (m s).1 = Ok a).
Proof.
  intros Hm. apply post_read. intros w Hc [(rt & Hl & <-) HF]. rewrite (with_rt_put _ _ _ _ Hl). rewrite Hm.
  cbn [fst snd]. split; [by apply put_same|]. intros a Ha. split; [|by exists (sw_of w rt)].
  split; [by exists rt|done].
Qed.

Lemma post_with_throw {A} F l e Q : post F (with_rt l (throw (A := A) e) : stE W A) Q.
Proof.
  apply post_read. intros w _ _. unfold with_rt. destruct (w_heap w !! l) as [rt|] eqn:Hl; [|done].
  cbn. split; [by apply (put_same l rt)|done].
Qed.

Lemma post_with_store {A} F l id (m : stE TStorage A) Q :
  post (fun w => rt_at l id w /\ F w) (on_store m : stE W A) Q ->
  post (fun w => rt_at l id w /\ F w) (with_rt l (in_store m) : stE W A) Q.
Proof.
  intros Hm w Hc HF. pose proof HF as [(rt & Hl & _) _]. specialize (Hm w Hc HF).
  assert (with_rt l (in_store m) w = on_store m w) as ->; [|done].
  unfold with_rt, in_store, on_store, zoom. rewrite Hl. cbn. unfold w_store. destruct (m _) as [r t]. cbn.
  f_equal. unfold w_set_heap, w_set_env. cbn. by rewrite insert_id.
Qed.
End elections.

(** What the engine relies on in the scheduler: for its requests and sweeps ... *)
Class SafeForget `{ChainLaws} `{!SchedulerOps TypedDB} := { Forget_safely id : via safely (Forget id) }.

(** ... and for its background. *)
Class SafeScheduler `{ChainLaws} `{!SchedulerOps TypedDB} := {
  safe_forget :: SafeForget;
  Drain_safely id : via safely (Drain id);
  Finalize_safely id key : via safely (Finalize id key);
}.

#[export] Hint Resolve Drain_safely Finalize_safely Forget_safely safely_seal : via.
#[export] Hint Extern 1 (SafeForget) => tc_solve : via.

Section statuses.
Context `{ChainLaws} `{!SchedulerOps TypedDB} `{!SafeForget}.
Abbreviation W := (World TypedDB).
Abbreviation TSW := (SW TypedDB).

Lemma requested_from (st to : Status) : to ∈ statusChanges st -> closed st = false /\ past st = false.
Proof. by destruct st; cbn; rewrite ?elem_of_nil. Qed.
Lemma requested_to (st to : Status) : to ∈ statusChanges st -> to <> StatusCanceled -> past to = false.
Proof. destruct st; cbn; try set_solver; intros Hin Hne; by destruct to. Qed.

(** The change of a runtime's election; a cancel empties the buffer first. *)
Lemma post_move_status now to from l id : to ∈ statusChanges from ->
  post (fun w => rt_at l id w /\ (to = StatusCanceled ->
      exists rt, w_heap w !! l = Some rt /\ rt_id rt = id /\ rt_pending rt = []))
    (on_store (UpdateElection now id (move_status from to)) : stE W unit)
    (fun _ w => to = StatusCanceled -> is_past id w).
Proof.
  intros Hin. destruct (requested_from _ _ Hin) as [Hcf Hpf]. destruct (decide (to = StatusCanceled)) as [->|Hne].
  - eapply post_weaken; [apply post_ended| |intros [] w _ Hp _; exact Hp].
    + intros el el'. unfold move_status. case_decide; [|done]. by intros [= <-].
    + intros w Hc [_ (rt & Hl & <- & Hp)]%(fun F => conj (proj1 F) (proj2 F eq_refl)) l' rt' Hl' E.
      assert (l' = l) as -> by (by eapply (co_inj _ Hc)). by rewrite Hl in Hl'; injection Hl' as <-.
  - eapply post_weaken; [apply (post_mild_update now id _ (fun _ => True)); [|auto with steadfast]|done|done].
    intros el el'. unfold move_status. case_decide as Hd; [|done]. intros [= <-]. cbn. rewrite Hd, Hpf, Hcf.
    by rewrite (requested_to _ _ Hin Hne).
Qed.

(** What happens to the buffer before. *)
Lemma post_buffer now to l id :
  post (fun w => rt_at l id w /\ True)
    (with_rt l (match to with
                | StatusEnded => ignore (sealAllLocked now)
                | StatusCanceled => on_rt (set_pending [])
                | _ => mret tt
                end) : stE W unit)
    (fun _ w => rt_at l id w /\ (to = StatusCanceled ->
      exists rt, w_heap w !! l = Some rt /\ rt_id rt = id /\ rt_pending rt = [])).
Proof.
  apply (post_pre (rt_at l id)); [by intros w _ [? _]|]. destruct (decide (to = StatusCanceled)) as [->|Hne].
  - eapply post_weaken; [by apply post_emptied|done|]. intros [] w _ (rt & Hl & E & Hp).
    split; [by exists rt|by exists rt].
  - apply (post_weaken (rt_at l id) _ _ (fun _ => rt_at l id)); [|done|by intros [] w _ Hr].
    apply post_via; [auto with steadfast|]. apply safely_seal. intros s Hi Hr.
    destruct to; try done; try by apply seals_refl. unfold ignore. cbn [snd].
    pose proof (sealAll_seals now s Hi Hr) as Hs. by destruct (sealAllLocked now s) as [r s'], Hs.
Qed.

Lemma post_change_locked now to l id :
  post (rt_at l id) (with_rt l (change_locked now to) : stE W unit)
    (fun _ w => to = StatusCanceled -> is_past id w).
Proof.
  unfold change_locked. apply (post_pre (fun w => rt_at l id w /\ True)); [done|].
  eapply post_with_bind; [by apply (post_with_pure (fun _ => True))|]. intros id'. cbv beta.
  apply (post_assume (id' = id)); [by intros w _ [_ (s & <- & [= <-])]|]. intros ->.
  apply (post_pre (fun w => rt_at l id w /\ True)); [by intros w _ [? _]|].
  eapply post_with_bind.
  { apply (post_with_pure (fun _ => True)). intros s. unfold attempt, in_store, zoom.
    destruct (Election_run id (env_store (sw_env s))) as [e ->]. by destruct s as [[]]. }
  intros r. cbv beta. apply (post_pre (fun w => rt_at l id w /\ True)); [by intros w _ [? _]|].
  destruct r as [el|e]; [|by eapply post_with_throw].
  eapply post_with_bind.
  { apply (post_with_pure (fun _ => True)). intros s. by destruct (bool_decide _). }
  intros []. cbv beta. apply (post_assume (to ∈ statusChanges (el_Status el))).
  { intros w _ [_ (s & _ & Hs)]. destruct (bool_decide (to ∉ _)) eqn:Eb; [done|].
    by apply bool_decide_eq_false, dec_stable in Eb. }
  intros Hin. apply (post_pre (fun w => rt_at l id w /\ True)); [by intros w _ [? _]|].
  eapply post_with_bind; [by apply post_buffer|]. intros []. apply post_with_store. by apply post_move_status.
Qed.

Lemma post_set_votes id st : st <> VoteStatusPending ->
  post (is_past id) (setVotesStatus id st : stE W unit) (fun _ => is_past id).
Proof.
  intros Hne. unfold setVotesStatus. keep_fact. destruct a as [vs|e]; [|by apply post_ret].
  apply post_for_each; [auto with steadfast|]. intros v _. apply post_mild. intros w _ Hp.
  split; [|done]. apply on_store_mild. unfold ignore. cbn. apply status_mild; [done|by right].
Qed.

Lemma post_after_cancel id : post (is_past id) (after_cancel id : stE W unit) (fun _ _ => True).
Proof.
  unfold after_cancel. keep_fact. eapply post_bind; [by apply post_set_votes|]. intros [].
  apply post_any. unfold has_scheduler. via.
Qed.

Lemma post_changeStatus now id l subject role to :
  post (rt_at l id) (changeStatus now id l subject role to : stE W unit) (fun _ _ => True).
Proof.
  unfold changeStatus. eapply post_bind; [by apply post_change_locked|]. intros [].
  apply (post_bind _ _ _ (fun _ _ => True)); [|intros _; apply post_any; via]. case_decide as Hd.
  - eapply post_pre; [|apply post_after_cancel]. by intros w _ Hp; apply Hp.
  - by apply post_ret.
Qed.

(** The runtime the engine's map has of an election. *)
Lemma post_runtime F id : post F (runtime id : stE W (option nat)) (fun r w => F w /\ forall l, r = Some l -> rt_at l id w).
Proof.
  apply post_read. intros w Hc HF. split; [done|]. intros r [= <-]. split; [done|]. intros l. by apply co_runtimes.
Qed.

Lemma safely_SetStatus now subject id to : via safely (SetStatus now subject id to : stE W unit).
Proof.
  apply (post_safely _ (fun _ _ => True)). unfold SetStatus. keep_fact. destruct a as [el|e]; [|apply post_throw].
  eapply post_bind; [apply post_runtime|]. intros [l|]; [|apply post_throw].
  eapply post_pre; [|apply post_changeStatus]. intros w _ [_ Hl]. by apply Hl.
Qed.

(** ** The finalize *)

(** The election moves on, and it is past its last seal. *)
Lemma post_finalizing now id :
  post (fun _ => True) (on_store (UpdateElection now id move_finalizing) : stE W unit) (fun _ => is_past id).
Proof.
  intros w Hc _. split.
  - apply mild_safely; [|done]. apply mild_on_store, mild_UpdateElection. intros el el'. unfold move_finalizing.
    case_decide as Hd; [|done]. intros [= <-]. cbn. by rewrite Hd.
  - intros [] E. pose proof (UpdateElection_status now id move_finalizing (w_store w)) as Hs.
    pose proof (on_store_store (UpdateElection now id move_finalizing) w) as Est. unfold is_past, wmap. rewrite Est.
    unfold on_store, zoom in E. destruct (UpdateElection _ _ _ _) as [r t]. cbn in E. subst r.
    destruct Hs as (el & el' & _ & Ef & Hs). cbn [snd]. rewrite Hs, decide_True by done. exists (el_Status el').
    split; [done|]. revert Ef. unfold move_finalizing. case_decide; [|done]. by intros [= <-].
Qed.

Lemma post_begin_finalize now subject id key F :
  post F (begin_finalize now subject id key : stE W unit) (fun _ _ => True).
Proof.
  unfold begin_finalize, release_finalizing. apply (post_pre (fun _ => True)); [done|].
  eapply post_bind; [apply post_attempt; [apply steadfast_true|apply post_finalizing]|].
  intros [[]|e]; cbv beta; [|apply post_any; via]. apply (post_pre (is_past id)); [by intros w _ [_ Hp]; apply (Hp tt)|].
  keep_fact. eapply post_bind; [apply (post_goBackground (BgFinalize id key))|]. intros b. apply post_any. via.
Qed.

Lemma safely_SubmitDecryptionKey now subject id key :
  via safely (SubmitDecryptionKey now subject id key : stE W unit).
Proof.
  unfold SubmitDecryptionKey, has_scheduler, guard_finalizing. via.
  apply (post_safely _ (fun _ _ => True)), post_begin_finalize.
Qed.

(** ** The sweeps *)

Lemma safely_retryDispatch now id : via safely (retryDispatch now id : stE W unit).
Proof. unfold retryDispatch. via. Qed.

Lemma post_endElection now id l : post (rt_at l id) (endElection now id l : stE W unit) (fun _ _ => True).
Proof.
  unfold endElection, on_retries. keep_fact. destruct (due _ _ _ _); [|by apply post_ret].
  eapply post_bind; [eapply post_try, post_changeStatus|]. intros r. apply post_any. via.
Qed.

Lemma post_tick_election now id l : post (rt_at l id) (tick_election now id l : stE W unit) (fun _ _ => True).
Proof.
  unfold tick_election. eapply post_bind; [apply post_Election|]. intros [el|e]; cbv beta; [|by apply post_ret].
  assert (post (rt_at l id) (w ← get_st; _ ← with_rt l (sealIfStale now (o_window (w_opts w)));
    retryDispatch now id : stE W unit) (fun _ _ => True)) as Hseal.
  { apply post_any. via; [apply safely_seal; intros s; apply sealStale_seals|apply safely_retryDispatch]. }
  destruct (el_Status el) eqn:Est; try by apply post_ret.
  - eapply post_pre; [|case_match; [apply post_endElection|apply Hseal]]. by intros w _ [? _].
  - apply (post_pre (fun w => rt_at l id w /\ is_closed id w)).
    { intros w _ [Hr Hs]. split; [done|]. exists StatusEnded. split; [|done]. rewrite <- Est. by apply Hs. }
    keep_fact. destruct (due _ _ _ _); [|by apply post_ret].
    eapply post_bind; [eapply post_pre, post_goBackground|intros b; apply post_any; via].
    intros w _ [Hr Hcl]. by exists id.
  - apply post_any, safely_retryDispatch.
  - eapply post_pre; [|case_match; [apply post_endElection|apply Hseal]]. by intros w _ [? _].
Qed.

(** A sweep over entries of the engine's map. *)
Lemma post_tick now order :
  post (fun w => forall p, p ∈ order -> rt_at p.2 p.1 w) (tick now order : stE W unit) (fun _ _ => True).
Proof.
  unfold tick. set (F := fun w => _). apply (post_weaken F F _ (fun _ => F)); [|done|done]. apply post_for_each.
  { intros w w' Hg Hr p Hp. by eapply steadfast_rt, Hr. }
  intros [id l] Hin. eapply post_pre; [|apply post_tick_election]. intros w _ Hr. exact (Hr (id, l) Hin).
Qed.

End statuses.

(** ** The background *)

Section background.
Context `{ChainLaws} `{!SchedulerOps TypedDB} `{!SafeScheduler}.
Abbreviation W := (World TypedDB).

Lemma post_drain now id l : post (fun w => rt_at l id w /\ is_closed id w) (drain now id l : stE W unit) (fun _ _ => True).
Proof.
  unfold drain. eapply post_bind; [apply post_sealed|]. intros []. keep_fact.
  apply (post_bind _ _ _ (fun _ _ => True)); [|intros _; apply post_any; via].
  eapply post_weaken; [apply (post_ended now id)| |done].
  - intros el el'. unfold move_status. case_decide; [|done]. by intros [= <-].
  - intros w Hc [_ (rt & Hl & Eid & Hp)] l' rt' Hl' E. assert (l' = l) as ->.
    { apply (co_inj _ Hc _ _ _ _ Hl Hl'). congruence. }
    rewrite Hl in Hl'. by injection Hl' as <-.
Qed.

Lemma post_drainAndPublish now id l :
  post (fun w => rt_at l id w /\ is_closed id w) (drainAndPublish now id l : stE W unit) (fun _ _ => True).
Proof.
  unfold drainAndPublish, has_scheduler. keep_fact. case_decide; [by apply post_ret|]. do 2 keep_fact.
  apply (post_bind _ _ _ (fun _ _ => True)); [|intros _; apply post_any; via].
  destruct a1; [|by apply post_ret].
  apply (post_bind _ _ _ (fun _ _ => True)); [|intros r; apply post_any; unfold on_retries; via].
  eapply post_try, post_drain.
Qed.

Lemma post_finalizeElection now id key : post (is_past id) (finalizeElection now id key : stE W unit) (fun _ _ => True).
Proof.
  unfold finalizeElection, release_finalizing, has_scheduler. keep_fact. keep_fact. destruct a as [res|e].
  - eapply post_bind; [by apply post_set_votes|]. intros [].
    apply (post_bind _ _ _ (fun _ _ => True)); [|intros r; apply post_any; via].
    eapply post_try, (post_past_update now id). by intros el el' [= <-].
  - keep_fact. eapply post_on_ignore, (post_past_update now id). by intros el el' [= <-].
Qed.

(** A goroutine of the background. *)
Lemma safely_run_background now i : via safely (run_background now i : stE W unit).
Proof.
  intros w Hc. unfold run_background, mbind at 1, stE_bind at 1, get_st.
  destruct (w_background w !! i) as [b|] eqn:Hb; [|by apply good_refl].
  unfold mbind at 1, stE_bind at 1, modify. set (w1 := w_set_background _ _ w).
  assert (mild w w1) as Hm.
  { split; [|done]. split; eauto; cbn; [reflexivity|]. intros b' Hin.
    eapply elem_of_submseteq; [exact Hin|]. apply sublist_submseteq, sublist_delete. }
  destruct (mild_safely _ _ Hm Hc) as [Hc1 Hg1 Ht1]. pose proof (list_elem_of_lookup_2 _ _ _ Hb) as Hin.
  eapply good_trans; [by split|]. destruct b as [l|id key].
  - destruct (co_drains _ Hc _ Hin) as (id & Hr & Hcl). pose proof Hr as (rt & Hl & Eid).
    change (w_heap w1) with (w_heap w). rewrite Hl. cbn [fmap option_fmap option_map]. rewrite Eid.
    apply post_drainAndPublish; [done|]. split; [by eapply steadfast_rt|by eapply steadfast_closed].
  - apply post_finalizeElection; [done|]. eapply steadfast_past; [done|]. apply (co_finals _ Hc).
    apply list_elem_of_omap. by exists (BgFinalize id key).
Qed.
End background.

(** ** New elections *)

Section births.
Context `{ChainLaws}.
Abbreviation W := (World TypedDB).

(** A stored election that has no runtime yet, nor a vote. *)
Definition newborn (id : ElectionID) (snap : bytes) (w : W) : Prop :=
  blank id (wmap w) /\ snapshot_at (wmap w) id = Some snap /\ is_Some (status (wmap w) id) /\
  forall l, ~ rt_at l id w.

Lemma birth_good (w : W) (t : TStorage) id el snap : core w -> status (wmap w) id = None ->
  tmap t = <[KSnapshot id := ABlob snap]> (<[KElection id := AElection el]> (wmap w)) ->
  proc_same (w_store w) t ->
  let w' := w_set_env (set_store t (w_env w)) w in good w w' /\ newborn id snap w'.
Proof.
  intros Hc Hn Ht Hp w'. pose proof Hc as [Crt Cinj Crun Cbl Ck Cob Cpa Cch Cpe Cdr Cfi].
  assert (forall l, ~ rt_at l id w) as Hno.
  { intros l (rt & Hl & <-). destruct (ro_status _ _ (Crt _ _ Hl)) as (st & Hst & _). congruence. }
  assert (forall k, k <> KElection id -> k <> KSnapshot id -> wmap w' !! k = wmap w !! k) as Hk.
  { intros k H1' H2'. change (wmap w') with (tmap t). rewrite Ht. by rewrite !lookup_insert_ne by congruence. }
  assert (forall id', id' <> id -> status (wmap w') id' = status (wmap w) id') as Hs.
  { intros id' Hne. unfold status, election_at. by rewrite Hk by congruence. }
  assert (forall id' st, status (wmap w) id' = Some st -> status (wmap w') id' = Some st) as Hs'.
  { intros id' st Hst. rewrite Hs; [done|]. intros ->. congruence. }
  assert (forall id' seq, batch_at (wmap w') id' seq = batch_at (wmap w) id' seq) as Hb
    by (intros id' seq; unfold batch_at; by rewrite Hk).
  assert (forall b, stored (wmap w) b -> stored (wmap w') b) as Hst by (intros b; unfold stored; by rewrite Hb).
  assert (forall id', blank id' (wmap w) -> blank id' (wmap w')) as Hbl.
  { intros id' (Bc & Bv & Bb). unfold blank, counter_at, vote_at, batch_at in *.
    split; [by rewrite Hk|]. split; intros; by rewrite Hk. }
  split; [split; [split| |]|split_and!]; try done.
  - intros l rt Hl. apply (rt_ok_ext w); [|by eapply Crt]. assert (rt_id rt <> id) as Hne.
    { intros E. apply (Hno l). by exists rt. }
    intros k [->|Ho] _; apply Hk; try congruence; intros ->; cbn in Ho; [done|].
    by apply bool_decide_eq_true in Ho.
  - intros id' Hn'. apply Hbl, Cbl. destruct (decide (id' = id)) as [->|Hne]; [done|by rewrite <- Hs].
  - intros id' seq b. rewrite Hb. apply Ck.
  - intros b bi Hbi. by eapply Hst, Cob.
  - intros l (id' & Hr & st & Hst' & Hcl)%Cdr. exists id'. split; [done|]. exists st. auto.
  - intros id' (st & Hst' & Hcl)%Cfi. exists st. auto.
  - split; try done.
    + intros l rt Hl. by exists rt.
    + intros id' (st & Hst' & Hcl). exists st. auto.
    + intros id' (st & Hst' & Hcl). exists st. auto.
    + intros b bi Hbi. change (object_of b w') with (object_of b w). by rewrite Hbi.
  - apply quiet_tolerant. split; [|apply Hp]. intros id' u. unfold votes, vote_at. fold (wmap w) (wmap w'). by rewrite Hk.
  - by apply Hbl, Cbl.
  - unfold snapshot_at. change (wmap w') with (tmap t). by rewrite Ht, lookup_insert_eq.
  - unfold status, election_at. change (wmap w') with (tmap t).
    rewrite Ht, lookup_insert_ne, lookup_insert_eq by done. by eexists.
Qed.

Lemma create_run now el snap (t : TStorage) : exists r t',
  Storage.CreateElection now el snap t = (r, t') /\ proc_same t t' /\
  match r with
  | Ok el' => el_ID el' = el_ID el /\ status (tmap t) (el_ID el) = None /\
      tmap t' = <[KSnapshot (el_ID el) := ABlob snap]> (<[KElection (el_ID el) := AElection (kept_Election el')]> (tmap t))
  | Err _ => tmap t' = tmap t
  end.
Proof.
  unfold Storage.CreateElection. unfold mbind at 1, stE_bind at 1, attempt.
  destruct (Election_run (el_ID el) t) as [e0 ->]. unfold status.
  destruct (election_at (tmap t) (el_ID el)) as [x|]; [by exists (Err [ErrKeyAlreadyExists]), t|].
  unfold mbind, stE_bind. cbn [is_ok throw_if mret stE_ret].
  set (ws := [WPut _ _; WPut _ _]). pose proof (commit_proc ws t) as Hp.
  destruct (commit_run ws t) as (t' & E & Hm & _). rewrite E in Hp |- *.
  destruct (next_fault _); [by exists (Err errorf), t'|]. exists (Ok (el_set_created now el)), t'.
  split; [done|]. split; [exact Hp|]. split; [done|]. by split.
Qed.

Lemma post_store_create now el snap :
  post (fun _ => True) (on_store (Storage.CreateElection now el snap) : stE W Election)
    (fun el' w => newborn (el_ID el') snap w).
Proof.
  intros w Hc _. unfold on_store, zoom.
  destruct (create_run now el snap (w_store w)) as (r & t & -> & Hp & Hr). cbn [fst snd].
  destruct r as [el'|e].
  - destruct Hr as (Eid & Hn & Ht). rewrite <- Eid in Hn, Ht.
    destruct (birth_good w t _ _ snap Hc Hn Ht Hp) as [Hg Hb]. split; [done|]. by intros a [= <-].
  - split; [|done]. apply mild_safely; [|done]. apply mild_keep; [done..|]. apply mild_proc; [by apply mild_map|done].
Qed.

Lemma post_add_runtime rt snap st :
  RestoreState (rt_cfg rt) snap = Some st -> (forall n vs, applies (rt_state rt) n vs = applies st n vs) ->
  rt_pending rt = [] -> rt_batchSeq rt = 0%N -> (0 < rt_batchSize rt)%Z ->
  post (newborn (rt_id rt) snap) (add_runtime rt : stE W unit) (fun _ _ => True).
Proof.
  intros Hr Ha Hps Hseq Hz w Hc ((Bc & Bv & Bb) & Hsn & [s0 Hs0] & Hno). split; [|done].
  pose proof Hc as [Crt Cinj Crun Cbl Ck Cob Cpa Cch Cpe Cdr Cfi]. unfold add_runtime, modify. cbn [snd].
  pose proof (is_fresh (dom (w_heap w))) as Hf. set (l := fresh _) in *. rewrite not_elem_of_dom in Hf.
  set (w' := w_set_runtimes _ _).
  assert (forall l' id, rt_at l' id w -> rt_at l' id w') as Hrt.
  { intros l' id (rt' & Hl' & E). exists rt'. split; [|done]. cbn. rewrite lookup_insert_ne; congruence. }
  assert (rt_ok w' rt) as Hok.
  { split; [split| | |].
    - exists st. split; [by exists snap|]. by intros _ n vs.
    - cbn. change (tmap (env_store (w_env w))) with (wmap w). rewrite Hps, Hseq. split; try (by constructor).
      + intros seq. rewrite Bb. split; [by intros [? ?]|lia].
      + intros seq b u. by rewrite Bb.
      + intros seq b. by rewrite Bb.
      + intros seq1 seq2 b1 b2 u. by rewrite Bb.
      + intros seq b u. by rewrite Bb.
    - done.
    - change (wmap w') with (wmap w). split; [exists 0%N; split; [done|]; split; [done|]|..]; intros *; rewrite ?Bv; done.
    - exists 0%N. split; [done|]. unfold room. cbn. by rewrite Hps, Hseq.
    - exists s0. by rewrite Hps. }
  split; [split| |]; try done.
  - intros l' rt'. cbn. intros [[<- <-]|[_ Hl']]%lookup_insert_Some; [done|]. apply (rt_ok_ext w); [done|by eapply Crt].
  - assert (forall l' rt', w_heap w !! l' = Some rt' -> rt_id rt' <> rt_id rt) as Hne.
    { intros l' rt' Hl' E. apply (Hno l'). by exists rt'. }
    cbn. intros l1 l2 r1 r2 [[<- <-]|[_ L1]]%lookup_insert_Some [[<- <-]|[_ L2]]%lookup_insert_Some E; [done|..].
    + by destruct (Hne _ _ L2).
    + by destruct (Hne _ _ L1).
    + by eapply Cinj.
  - cbn. intros id l' [[<- <-]|[_ Hl']]%lookup_insert_Some; [|by apply Hrt, Crun].
    exists rt. split; [apply lookup_insert_eq|done].
  - intros l' (id & Hr' & Hcl)%Cdr. exists id. auto.
  - split; try done.
    + intros l' rt' Hl'. exists rt'. split; [|done]. cbn. rewrite lookup_insert_ne; congruence.
    + intros b bi Hbi. change (object_of b w') with (object_of b w). by rewrite Hbi.
Qed.

Lemma safely_CreateElection now subject el : via safely (Engine.CreateElection now subject el : stE W Election).
Proof.
  apply (post_safely _ (fun _ _ => True)). unfold Engine.CreateElection. keep_fact. keep_fact. keep_fact.
  eapply post_bind; [apply post_lift|]. intros snap. cbv beta.
  apply (post_assume (State_Snapshot a1 = Some snap)); [by intros w _ [_ Hs%of_option_Ok]|]. intros Hs.
  apply (post_pre (fun _ => True)); [done|]. keep_fact. cbv zeta. set (size := if (el_BatchSize el <=? 0)%Z then _ else _).
  set (every := if (el_FoldEvery el <=? 0)%Z then _ else _).
  apply (post_bind _ _ _ (fun _ _ => (minBatchSize <= size)%Z)).
  { destruct (size <? minBatchSize)%Z eqn:Hz; [apply post_throw|]. apply post_ret. lia. }
  intros []. apply (post_assume (minBatchSize <= size)%Z); [done|]. intros Hz. unfold minBatchSize in Hz.
  apply (post_pre (fun _ => True)); [done|]. keep_fact.
  eapply post_bind; [apply post_store_create|]. intros el'. cbv beta.
  destruct (restore_snapshot (vr_cfg a0) a1 snap Hs) as (st & Hr & _ & Ha).
  eapply post_bind; [|intros []; apply post_any; via].
  match goal with |- post _ (add_runtime ?rt) _ => apply (post_add_runtime rt snap st) end;
    cbn [rt_id rt_rules rt_state rt_pending rt_batchSeq rt_batchSize]; [exact Hr|by intros n vs; rewrite Ha|done..|lia].
Qed.
End births.

(** ** Workers and votes *)

Section workers.
Context `{ChainLaws}.
Context (Validate : voteRules -> VoteSubmission -> result voteProofBundle) (WorkerID : string -> string).
Abbreviation W := (World TypedDB).

Lemma safely_RegisterWorker now subject address name :
  via safely (RegisterWorker now subject address name : stE W nat).
Proof.
  unfold RegisterWorker. apply via_bind; [apply _|via|]. intros w. destruct (w_pool w) as [p|]; [|via].
  cbv zeta. destruct (AddWorker address name p) as [l p']. unfold on_pool, SetWorker. via.
Qed.

Lemma safely_RemoveWorker now subject id : via safely (RemoveWorker WorkerID now subject id : stE W unit).
Proof. unfold RemoveWorker, moveFoldChains, DeleteWorker, on_pool, Election_. via. Qed.

Lemma safely_Stop : via safely (Stop : stE W unit).
Proof. apply via_mild, mild_on_world. done. Qed.
End workers.
