(* ===== verification/RuntimePasses.v ===== *)
(** * The scheduler's operations keep the invariant of the engine

    A pass, a drain and a finalize, whatever the other goroutines do between
    their steps that keeps the invariant too: the batches they put in a chain
    or a pass are stored batches of the election, so the votes a fold marks
    are sealed ones. *)

From S2P Require Import Prelude Errors Effects Bytes Types Records KV Keys Artifacts Storage.
From S2P Require Import StorageRefine StorageSpec StorageProps Retries Workers Sdk Config Validate.
From S2P Require Import Seal SealProps SealInv Frame Chains Engine Finalize Lifecycle LifecycleProps.
From S2P Require Import Ingest IngestProps Submissions EngineSteps Scheduler Fold Scatter JobSteps.
From S2P Require Import JobProps ChainInv Runtimes RuntimeSteps RuntimeSeals RuntimeEngine.

(** ** The storage calls of a pass *)

Lemma mild_pinned now id a : via mild_call (UpdateElection now id (set_FoldWorker a)).
Proof. apply mild_UpdateElection. by intros el el' [= <-]. Qed.

Lemma mild_CommitFold now c proof folded : via mild_call (CommitFold now c proof folded).
Proof.
  unfold CommitFold. apply via_bind; [apply _|apply via_throw_if, _|intros _]. apply mild_commit.
  do 2 (apply Forall_cons; split; [by intros k <-|]). apply Forall_fmap, Forall_true. by intros seq k <-.
Qed.
#[export] Hint Resolve mild_pinned mild_CommitFold : via.

Lemma mild_job_call {A} (c : call A) : job_call c -> via mild_call (run_call c).
Proof.
  intros Hc. destruct c; cbn [job_call pass_call] in Hc; try done; cbn [run_call];
    try (match type of Hc with ex _ => destruct Hc as [a ->]; apply mild_pinned end);
    unfold Election_, BatchInput_, ListBatchInputs, ReserveBatch, ReleaseBatch, IsBatchReserved,
      setReservation, deleteReservation, isReserved, SetFoldCheckpoint, FoldCheckpoint_, SetBatchProof, DeleteBatchProof, BatchProof, FoldProof; via.
Qed.

(** The batches a scan returns are stored ones. *)
Lemma listed_stored id (t : TStorage) l : keyed_at (tmap t) -> (ListBatchInputs id t).1 = Ok l ->
  forall b, b ∈ l -> stored (tmap t) b /\ bi_ElectionID b = id.
Proof.
  intros Hk. unfold ListBatchInputs, list_all, mbind, stE_bind. rewrite iterate_run.
  destruct (td_readable (s_db t)); [|done]. intros [= <-] b.
  intros (p & Hin & E)%list_elem_of_omap. apply list_elem_of_fmap in Hin as (k & -> & Hin).
  apply elem_of_td_scan_keys in Hin as [Hs _].
  destruct k as [| | | | |id' seq| | | | | | |]; try done. cbn in Hs. subst id'. cbn [snd] in E.
  assert (batch_at (tmap t) id seq = Some b) as Hb.
  { unfold batch_at. by destruct (tmap t !! KBatch id seq) as [[]|]. }
  destruct (Hk _ _ _ Hb) as [E1 E2]. split; [|done]. unfold stored. by rewrite E1, E2, Hb.
Qed.

Lemma read_stored id seq (t : TStorage) b : keyed_at (tmap t) -> (BatchInput_ id seq t).1 = Ok b ->
  stored (tmap t) b /\ bi_ElectionID b = id.
Proof.
  intros Hk. unfold BatchInput_. rewrite load_run. cbn [fst]. intros E.
  assert (batch_at (tmap t) id seq = Some b) as Hb.
  { unfold batch_at. destruct (tmap t !! KBatch id seq) as [[]|]; try done. by injection E as ->. }
  destruct (Hk _ _ _ Hb) as [E1 E2]. split; [|done]. unfold stored. by rewrite E1, E2, Hb.
Qed.

Section passes.
Context `{Provers} `{!ChainLaws} `{!Others TypedDB}.
Abbreviation W := (World TypedDB).

(** The other goroutines keep the invariant, and the facts of a pass. *)
Class SoundOthers := { others_safely n (w : W) : safely w (others n w) }.
Context `{!SoundOthers}.

(** ** The steps that add no batch *)

Lemma mild_sched (w : W) s :
  (forall b, bi_key <$> sc_objects s !! b = bi_key <$> object_of b w) ->
  (forall id fc, sc_chains s !! id = Some fc -> sc_chains (w_sched w) !! id = Some fc) ->
  (forall fc c', sc_fcs s !! fc = Some c' -> exists c, chain_of fc w = Some c /\
     forall b, b ∈ fc_pending c' -> b ∈ fc_pending c) ->
  (forall id s', sc_passes s !! id = Some s' -> exists s0, sc_passes (w_sched w) !! id = Some s0 /\
     s_batches s' = s_batches s0) ->
  mild w (w_set_sched s w).
Proof. intros Ho Hc Hf Hp. split; [|done]. by split. Qed.

Lemma mild_clock (w w' : W) d : mild w' (w_set_sched (tick_clock d (sc_keep (w_sched w) (w_sched w'))) w').
Proof. apply mild_sched; eauto. Qed.

Lemma stored_object b (w : W) (c : BatchInput -> call unit) :
  core w -> (forall bi t, stored (tmap t) bi -> mild_call t (run_call (c bi) t).2) ->
  mild w ((bi ← object b; on_store (run_call (c bi))) w).2.
Proof.
  intros Hc Hm. unfold mbind, stE_bind, object. destruct (sc_objects (w_sched w) !! b) as [bi|] eqn:Hb; [|done].
  apply on_store_mild, Hm. by apply (co_objects _ Hc b).
Qed.

#[export] Instance safely_jobs : JobRel safely.
Proof.
  split.
  - apply _.
  - intros d w. etrans; [exact (others_safely (sc_tick (w_sched w)) w)|]. by apply mild_safely, mild_clock.
  - intros p p' w _ _. by apply mild_safely, mild_keep.
  - intros A c w Hc. apply mild_safely, on_store_mild. by apply mild_job_call.
  - intros now b w Hc. refine (mild_safely _ _ (stored_object b w (CSetBatchInput now) Hc _) Hc).
    intros bi t. apply set_batch_mild.
  - intros b w Hc. refine (mild_safely _ _ (stored_object b w CResetBatch Hc _) Hc).
    intros bi t. apply reset_batch_mild.
  - intros b f w Hf. apply mild_safely, mild_sched; eauto. intros b'. unfold object_of. cbn.
    destruct (decide (b' = b)) as [->|Hne]; [|by rewrite lookup_alter_ne]. rewrite lookup_alter_eq.
    destruct (sc_objects _ !! b) as [bi|]; [|done]. cbn. by destruct (Hf bi) as (a & j & i & wk & ->).
  - intros f id w Hf. apply mild_safely, mild_sched; eauto. cbn. intros id' s'.
    destruct (decide (id' = id)) as [->|Hne]; [|rewrite lookup_alter_ne by done; eauto].
    rewrite lookup_alter_eq. intros (s & Hs & ->)%fmap_Some. eauto.
  - intros id w. apply mild_safely, mild_sched; eauto. cbn. intros id' s' [_ Hs]%lookup_delete_Some. eauto.
Qed.

#[export] Instance safely_heads : HeadRel safely any_chain.
Proof.
  split; [apply _|]. intros fc f w _ Hf. apply mild_safely, mild_sched; eauto. cbn. intros fc' c'.
  destruct (decide (fc' = fc)) as [->|Hne]; [|rewrite lookup_alter_ne by done; eauto].
  rewrite lookup_alter_eq. intros (c & Hc & ->)%fmap_Some. exists c. split; [done|].
  destruct (Hf c) as [->| ->]; [done|]. by intros b ?%not_elem_of_nil.
Qed.

(** ** Stored batches, objects and chains *)

(** Batches of the election that are stored. *)
Definition of_store (id : ElectionID) (bi : BatchInput) (w : W) : Prop :=
  stored (wmap w) bi /\ bi_ElectionID bi = id.

Lemma steadfast_const (P : Prop) : steadfast (fun _ => P).
Proof. by intros w w' _ HP. Qed.
Lemma steadfast_of_store id bi : steadfast (of_store id bi).
Proof. apply steadfast_and; [apply steadfast_stored|apply steadfast_const]. Qed.
Hint Resolve steadfast_const steadfast_of_store : steadfast.

(** A storage call of a pass that reads. *)
Lemma post_store_read {A} F (c : call A) Q : steadfast F -> job_call c ->
  (forall w a, core w -> F w -> (run_call c (w_store w)).1 = Ok a -> (run_call c (w_store w)).2 = w_store w -> Q a w) ->
  (forall t, (run_call c t).2 = t) ->
  post F (store_call (fun _ => c) : stE W A) (fun a w => F w /\ Q a w).
Proof.
  intros HF Hc HQ Hs. unfold store_call. do 2 keep_fact. apply post_and; [done|]. apply post_read.
  intros w Hw HFw. unfold on_store, zoom. specialize (HQ w). pose proof (Hs (w_store w)) as E.
  destruct (run_call c (w_store w)) as [r t]. cbn [fst snd] in *. subst t.
  assert (w_set_env (set_store (w_store w) (w_env w)) w = w) as -> by by destruct w as [[]].
  split; [done|]. intros x ->. by apply HQ.
Qed.

Lemma post_list_batches F id : steadfast F ->
  post F (store_call (fun _ => CListBatchInputs id) : stE W (list BatchInput))
    (fun l w => F w /\ forall bi, bi ∈ l -> of_store id bi w).
Proof.
  intros HF. apply post_store_read; [done..| |].
  - intros w l Hw _ E _ bi. eapply listed_stored; [apply (co_keyed _ Hw)|exact E].
  - intros t. cbn. unfold ListBatchInputs, list_all, mbind, stE_bind. rewrite iterate_run. by destruct (td_readable _).
Qed.

Lemma post_read_batch F id seq : steadfast F ->
  post F (store_call (fun _ => CBatchInput id seq) : stE W BatchInput) (fun bi w => F w /\ of_store id bi w).
Proof.
  intros HF. apply post_store_read; [done..| |].
  - intros w bi Hw _ E _. by eapply read_stored; [apply (co_keyed _ Hw)|exact E].
  - intros t. apply load_state.
Qed.

(** A new object of a stored batch. *)
Lemma new_object_good id bi (w : W) : core w -> of_store id bi w ->
  good w (new_object bi w).2 /\ forall b, (new_object bi w).1 = Ok b -> obj_of id b (new_object bi w).2.
Proof.
  intros Hc [Hst <-]. pose proof Hc as [Crt Cinj Crun Cbl Ck Cob Cpa Cch Cpe Cdr Cfi].
  pose proof (is_fresh (dom (sc_objects (w_sched w)))) as Hf. unfold new_object. cbn [fst snd].
  set (l := fresh _) in *. rewrite not_elem_of_dom in Hf. set (w' := w_set_sched _ w).
  assert (forall b bi', object_of b w = Some bi' -> object_of b w' = Some bi') as Ho.
  { intros b bi' Hb. unfold object_of. cbn. rewrite lookup_insert_ne; [done|]. intros <-.
    unfold object_of in Hb. congruence. }
  assert (forall id b, obj_of id b w -> obj_of id b w') as Hob.
  { intros id b (bi' & Hb & E). exists bi'. auto. }
  split; [split; [split| |]|]; try done.
  - intros l' rt Hl. apply (rt_ok_ext w); [done|]. by eapply Crt.
  - intros b bi'. unfold object_of. cbn. intros [[<- <-]|[_ Hb]]%lookup_insert_Some; [done|by eapply Cob].
  - intros id s b Hs Hb. eapply Hob, Cpa; eauto.
  - intros fc c b Hfc Hb. eapply Hob, Cpe; eauto.
  - split; try done; [intros l' rt Hl; by exists rt|]. intros b bi' Hb. by rewrite (Ho _ _ Hb).
  - intros b [= <-]. exists bi. split; [|done]. unfold object_of. cbn. by rewrite lookup_insert_eq.
Qed.

Lemma post_new_object F id bi : steadfast F ->
  post (fun w => F w /\ of_store id bi w) (new_object bi : stE W nat) (fun b w => F w /\ obj_of id b w).
Proof.
  intros HF w Hc [Hfw Ho]. destruct (new_object_good id bi w Hc Ho) as [Hg Hq]. split; [done|].
  intros b Hb. split; [eapply HF; [apply Hg|done]|by apply Hq].
Qed.

Lemma post_new_objects F id l : steadfast F ->
  post (fun w => F w /\ forall bi, bi ∈ l -> of_store id bi w) (new_objects l : stE W (list nat))
    (fun bs w => F w /\ forall b, b ∈ bs -> obj_of id b w).
Proof.
  revert F. induction l as [|bi l IH]; intros F HF; cbn [new_objects].
  { apply post_ret. intros w _ [Hf _]. split; [done|]. by intros b ?%not_elem_of_nil. }
  set (G := fun w => F w /\ forall bi', bi' ∈ l -> of_store id bi' w).
  assert (steadfast G) as HG by (apply steadfast_and; [done|auto with steadfast]).
  eapply post_bind.
  { eapply post_pre; [|apply (post_new_object G id bi HG)]. intros w _ [Hf Hl].
    split; [split; [done|]|]; intros; apply Hl; set_solver. }
  intros b. cbv beta. eapply post_bind.
  { eapply post_pre; [|apply (IH (fun w => F w /\ obj_of id b w))]; [by intros w _ [[Hf Hl] Hb]|].
    apply steadfast_and; auto with steadfast. }
  intros bs. apply post_ret. intros w _ [[Hf Hb] Hbs]. split; [done|].
  intros b' [->|Hin]%elem_of_cons; auto.
Qed.

(** A change of the scheduler that adds only batches of the elections. *)
Lemma sched_good (w : W) s : core w -> sc_objects s = sc_objects (w_sched w) ->
  (forall id fc, sc_chains s !! id = Some fc -> fc.1 = id) ->
  (forall fc c b, sc_fcs s !! fc = Some c -> b ∈ fc_pending c -> obj_of fc.1 b w) ->
  (forall id s' b, sc_passes s !! id = Some s' -> b ∈ s_batches s' -> obj_of id b w) ->
  good w (w_set_sched s w).
Proof.
  intros Hc Eo Hch Hpe Hpa. pose proof Hc as [Crt Cinj Crun Cbl Ck Cob Cpa Cch Cpe Cdr Cfi].
  set (w' := w_set_sched s w). assert (forall b, object_of b w' = object_of b w) as Ho.
  { intros b. unfold object_of. cbn. by rewrite Eo. }
  assert (forall id b, obj_of id b w -> obj_of id b w') as Hob by (intros id b; unfold obj_of; by rewrite Ho).
  split; [split| |]; try done.
  - intros l' rt Hl. apply (rt_ok_ext w); [done|]. by eapply Crt.
  - intros b bi. rewrite Ho. apply Cob.
  - intros id s' b Hs Hb. eapply Hob, Hpa; eauto.
  - intros fc c b Hfc Hb. eapply Hob, Hpe; eauto.
  - split; try done; [intros l' rt Hl; by exists rt|]. intros b bi Hb. by rewrite Ho, Hb.
Qed.

Lemma post_append id fc b : fc.1 = id -> post (obj_of id b) (on_chain fc (append_pending b) : stE W unit) (fun _ _ => True).
Proof.
  intros <- w Hc Hb. split; [|done]. apply sched_good; [done..|apply (co_chains _ Hc)| |apply (co_passes _ Hc)].
  intros fc' c b'. cbn. destruct (decide (fc' = fc)) as [->|Hne].
  - rewrite lookup_alter_eq. intros (c0 & Hc0 & ->)%fmap_Some. cbn. rewrite elem_of_app, list_elem_of_singleton.
    intros [Hin| ->]; [by eapply (co_pending _ Hc)|done].
  - rewrite lookup_alter_ne by done. apply (co_pending _ Hc).
Qed.

Lemma post_new_chain id c : fc_pending c = [] ->
  post (fun _ => True) (new_chain id c : stE W chain_loc) (fun fc _ => fc.1 = id).
Proof.
  intros Hp w Hc _. unfold new_chain. cbn [fst snd]. split; [|by intros fc [= <-]].
  apply sched_good; [done..| | |apply (co_passes _ Hc)]; cbn.
  - intros id' fc [[<- <-]|[_ Hfc]]%lookup_insert_Some; [done|by apply (co_chains _ Hc)].
  - intros fc c' b [[<- <-]|[_ Hfc]]%lookup_insert_Some; [|by apply (co_pending _ Hc)].
    rewrite Hp. by intros ?%not_elem_of_nil.
Qed.

Lemma post_on_passes (F : W -> Prop) f :
  (forall w id s' b, core w -> F w -> f (sc_passes (w_sched w)) !! id = Some s' -> b ∈ s_batches s' -> obj_of id b w) ->
  post F (on_passes f : stE W unit) (fun _ _ => True).
Proof.
  intros Hf w Hc HF. split; [|done].
  apply sched_good; [done..|apply (co_chains _ Hc)|apply (co_pending _ Hc)|]. intros id s' b. by apply Hf.
Qed.

Lemma post_newScatter id bs :
  post (fun w => forall b, b ∈ bs -> obj_of id b w) (newScatter id bs : stE W unit) (fun _ _ => True).
Proof.
  apply post_on_passes. intros w id' s' b Hc Hbs [[<- <-]|[_ Hs]]%lookup_insert_Some; [apply Hbs|].
  by eapply (co_passes _ Hc).
Qed.

Lemma post_add_batch id b :
  post (obj_of id b) (on_passes (alter (add_batch b) id) : stE W unit) (fun _ _ => True).
Proof.
  apply post_on_passes. intros w id' s' b' Hc Hb. destruct (decide (id' = id)) as [->|Hne].
  - rewrite lookup_alter_eq. intros (s & Hs & ->)%fmap_Some. cbn. rewrite elem_of_app, list_elem_of_singleton.
    intros [Hin| ->]; [by eapply (co_passes _ Hc)|done].
  - rewrite lookup_alter_ne by done. by eapply (co_passes _ Hc).
Qed.

(** ** The operations *)

Lemma safely_topUp_loop fuel id seq : via safely (topUp_loop fuel id seq : stE W unit).
Proof.
  revert seq. induction fuel as [|fuel IH]; intros seq; [apply via_throw, _|].
  apply (post_safely _ (fun _ _ => True)). cbn [topUp_loop].
  eapply post_bind; [apply post_attempt, (post_read_batch (fun _ => True)); apply steadfast_true|].
  intros [bi|e]; cbv beta; [|by apply post_ret].
  eapply post_bind; [eapply post_pre, (post_new_object (fun _ => True) id bi); [|apply steadfast_true]|].
  { intros w _ [_ Hb]. split; [done|]. by apply Hb. }
  intros b. cbv beta. eapply post_bind; [eapply post_pre, post_add_batch; by intros w _ [_ Hb]|].
  intros []. apply post_any, IH.
Qed.

Lemma safely_topUp id : via safely (topUp id : stE W unit).
Proof. unfold topUp. via. apply safely_topUp_loop. Qed.

Lemma safely_proof id fc i seq : via safely (proof id fc i seq : stE W bytes).
Proof.
  unfold proof. via; [apply safely_topUp|]. generalize (rounds (D := TypedDB)). intros fuel.
  induction fuel as [|fuel IH]; cbn [proof_loop]; via; auto using safely_topUp.
Qed.

Lemma safely_head fc f : shrinks f -> via safely (on_chain fc f : stE W unit).
Proof. intros Hf. by apply (via_head safely (P := any_chain)). Qed.
Lemma safely_foldWorker id fc : via safely (foldWorker id fc : stE W nat).
Proof. by apply (via_foldWorker safely (P := any_chain)). Qed.
Lemma safely_dropBatchProof fc b : via safely (dropBatchProof fc b : stE W unit).
Proof. by apply (via_dropBatchProof safely (P := any_chain)). Qed.
Lemma safely_import_last_fold id fc wk : via safely (import_last_fold id fc wk : stE W unit).
Proof. by apply (via_import_last_fold safely (P := any_chain)). Qed.
Lemma safely_run_fold fc wk req : via safely (run_fold fc wk req : stE W string).
Proof. by apply (via_run_fold safely (P := any_chain)). Qed.
Lemma safely_bootstrap fc wk cfg jobs : via safely (bootstrap fc wk cfg jobs : stE W unit).
Proof. by apply (via_bootstrap safely (P := any_chain)). Qed.
Hint Resolve safely_head safely_foldWorker safely_dropBatchProof safely_import_last_fold safely_run_fold
  safely_bootstrap safely_proof : via.

(** The chain of an election is its own. *)
Lemma post_chain F id : steadfast F -> post F (chain id : stE W chain_loc) (fun fc w => F w /\ fc.1 = id).
Proof.
  intros HF. unfold chain.
  apply (post_bind _ _ _ (fun known w => F w /\ forall fc, known = Some fc -> fc.1 = id)).
  { apply post_read. intros w Hc Hf. split; [done|]. intros known [= <-]. split; [done|]. intros fc.
    apply (co_chains _ Hc). }
  intros [fc|]; cbv beta; [apply post_ret; intros w _ [Hf Hk]; split; [done|by apply Hk]|].
  apply (post_pre F); [by intros w _ [? _]|]. do 3 keep_fact.
  eapply (post_bind _ _ _ (fun _ => F)).
  { apply post_via; [done|]. via. }
  intros cp. apply (post_bind _ _ _ (fun c w => F w /\ fc_pending c = [])).
  { unfold legacy_chain. destruct cp as [cp|]; [|by apply post_ret].
    destruct (cp_Version cp =? 0)%N; [|by apply post_ret]. unfold legacyBatchesFolded. keep_fact. by apply post_ret. }
  intros c. cbv beta. apply (post_assume (fc_pending c = [])); [by intros w _ [_ ?]|]. intros Hp.
  apply (post_pre F); [by intros w _ [? _]|]. apply post_and; [done|]. by eapply post_pre, post_new_chain.
Qed.

(** *** The sync *)

Lemma post_importBatch id fc wk b p : fc.1 = id -> post (obj_of id b) (importBatch fc wk b p : stE W unit) (fun _ _ => True).
Proof.
  intros Hid. unfold importBatch. do 3 keep_fact. destruct (vk_ok _ _); [|apply post_any; via].
  do 4 keep_fact. by apply post_append.
Qed.

Lemma post_sync_loop id fc wk force bs : fc.1 = id ->
  post (fun w => forall b, b ∈ bs -> obj_of id b w) (sync_loop id fc wk force bs : stE W unit) (fun _ _ => True).
Proof.
  intros Hid. induction bs as [|b bs IH]; [by apply post_ret|]. cbn [sync_loop].
  assert (steadfast (fun w : W => forall b', b' ∈ b :: bs -> obj_of id b' w)) as HF by auto with steadfast.
  assert (post (fun w => forall b', b' ∈ b :: bs -> obj_of id b' w) (sync_loop id fc wk force bs : stE W unit)
    (fun _ _ => True)) as Hrest by (eapply post_pre, IH; intros w _ Hb b' Hin; apply Hb; set_solver).
  do 3 keep_fact. destruct (_ <? _)%N; [exact Hrest|]. destruct (negb _); [apply post_throw|].
  destruct (negb force && _ && _).
  - eapply post_bind; [apply post_and; [exact HF|]; eapply post_pre, post_append, Hid; intros w _ Hb; apply Hb; set_solver|].
    intros []. eapply post_pre, Hrest. by intros w _ [? _].
  - keep_fact. destruct a2 as [p|e]; [|destruct (errors_Is e ErrNotFound); [by apply post_ret|apply post_throw]].
    eapply post_bind; [apply post_and; [exact HF|]; eapply post_pre, post_importBatch, Hid; intros w _ Hb; apply Hb; set_solver|].
    intros []. eapply post_pre, Hrest. by intros w _ [? _].
Qed.

Lemma safely_sync id fc wk : fc.1 = id -> via safely (sync id fc wk : stE W unit).
Proof.
  intros Hid. apply (post_safely _ (fun _ _ => True)). unfold sync. do 3 keep_fact.
  eapply post_bind; [apply (post_list_batches (fun _ => True)), steadfast_true|]. intros batches. cbv beta.
  eapply post_bind; [apply (post_new_objects (fun _ => True)), steadfast_true|]. intros bs. cbv beta.
  eapply post_bind; [apply post_via; [apply steadfast_and; auto with steadfast|via]|]. intros []. cbv beta.
  eapply post_bind; [eapply post_pre, post_sync_loop, Hid; by intros w _ [_ ?]|]. intros [].
  apply post_any. via.
Qed.
Hint Resolve safely_sync : via.

Lemma safely_withFoldWorker {A} id fc (op : nat -> stE W A) : fc.1 = id ->
  (forall wk, via safely (op wk)) -> via safely (withFoldWorker id fc op).
Proof.
  intros Hid Hop. unfold withFoldWorker. generalize 1%nat. intros n.
  induction n as [|n IH]; cbn [withFoldWorker_loop]; unfold on_fold_worker; via.
Qed.

(** *** The folds *)

Lemma post_object id b :
  post (obj_of id b) (object b : stE W BatchInput) (fun bi => of_store id bi).
Proof.
  apply post_read. intros w Hc (bi & Hb & Eid). unfold object. unfold object_of in Hb. rewrite Hb.
  split; [done|]. intros bi' [= <-]. split; [by apply (co_objects _ Hc b)|done].
Qed.

Lemma post_objects F id l : steadfast F ->
  post (fun w => F w /\ forall b, b ∈ l -> obj_of id b w) (objects l : stE W (list BatchInput))
    (fun bis w => F w /\ forall bi, bi ∈ bis -> of_store id bi w).
Proof.
  revert F. induction l as [|b l IH]; intros F HF; cbn [objects].
  { apply post_ret. intros w _ [Hf _]. split; [done|]. by intros bi ?%not_elem_of_nil. }
  set (G := fun w => F w /\ forall b', b' ∈ l -> obj_of id b' w).
  assert (steadfast G) as HG by (apply steadfast_and; [done|auto with steadfast]).
  eapply post_bind.
  { eapply post_pre; [|apply post_frame; [exact HG|apply (post_object id b)]]. intros w _ [Hf Hl].
    split; [|split; [done|]]; intros; apply Hl; set_solver. }
  intros bi. cbv beta. eapply post_bind.
  { eapply post_pre; [|apply (IH (fun w => F w /\ of_store id bi w))]; [by intros w _ [Hb [Hf Hl]]|].
    apply steadfast_and; auto with steadfast. }
  intros bis. apply post_ret. intros w _ [[Hf Hb] Hbs]. split; [done|].
  intros bi' [->|Hin]%elem_of_cons; auto.
Qed.

(** The votes of a stored batch are sealed. *)
Lemma folded_mild l id bi v (w : W) : core w -> rt_at l id w -> of_store id bi w -> v ∈ bi_VoteIDs bi ->
  mild w (on_store (SetVoteStatus id v VoteStatusFolded) w).2.
Proof.
  intros Hc (rt & Hl & <-) [Hst Eid] Hv. apply on_store_mild, status_mild; [done|left]. unfold stored in Hst. rewrite Eid in Hst.
  destruct (batch_at (wmap w) (rt_id rt) (bi_Seq bi)) as [b|] eqn:Hb; [|done]. injection Hst as _ _ Ev.
  pose proof (ri_votes _ (ro_inv _ _ (co_rt _ Hc _ _ Hl))) as Hi. rewrite <- Ev in Hv.
  destruct (vi_sealed _ _ _ _ Hi _ _ _ Hb Hv) as (st & Hs & Hne). intros E.
  apply Hne. apply (inj Some). rewrite <- E. symmetry. exact Hs.
Qed.

Lemma post_commit_fold l id fc wk bis job pr :
  post (fun w => rt_at l id w /\ forall bi, bi ∈ bis -> of_store id bi w)
    (commit_fold id fc wk bis job pr : stE W unit) (fun _ _ => True).
Proof.
  set (F := fun w => _). assert (steadfast F) as HF by (apply steadfast_and; auto with steadfast).
  unfold commit_fold. do 4 keep_fact.
  eapply post_weaken; [apply (post_for_each F); [exact HF|]|done|done]. intros bi Hbi.
  eapply post_weaken; [apply (post_for_each F); [exact HF|]|done|done]. intros v Hv.
  eapply post_weaken; [eapply (post_ignore F _ (fun _ _ => True)); [exact HF|]|done|done].
  unfold store_call. do 2 keep_fact.
  apply post_mild. intros w Hc [Hr Hs]. split; [|done]. eapply folded_mild; eauto.
Qed.

Lemma post_fold_claimed l id fc wk cfg : fc.1 = id ->
  post (rt_at l id) (fold_claimed id fc wk cfg : stE W unit) (fun _ _ => True).
Proof.
  intros Hid. unfold fold_claimed.
  apply (post_bind _ _ _ (fun c w => rt_at l id w /\ forall b, b ∈ fc_pending c -> obj_of id b w)).
  { apply post_read. intros w Hc Hr. unfold chain_at. destruct (sc_fcs (w_sched w) !! fc) as [c|] eqn:Hfc; [|done].
    split; [done|]. intros c' [= <-]. split; [done|]. rewrite <- Hid. intros b. by apply (co_pending _ Hc fc). }
  intros c. eapply post_bind; [apply post_objects, steadfast_rt|]. intros bis. cbv beta zeta.
  assert (steadfast (fun w : W => rt_at l id w /\ forall bi, bi ∈ bis -> of_store id bi w)) as HF
    by (apply steadfast_and; auto with steadfast).
  do 5 keep_fact. apply post_commit_fold.
Qed.

Lemma safely_fold id fc wk : fc.1 = id -> via safely (fold id fc wk : stE W unit).
Proof.
  intros Hid. apply (post_safely _ (fun _ _ => True)). unfold fold. keep_fact. case_decide; [by apply post_ret|].
  keep_fact. destruct a0; [by apply post_ret|].
  eapply post_bind; [apply (post_runtime (fun _ => True))|]. intros [l|]; cbv beta; [|by apply post_ret].
  apply (post_pre (rt_at l id)); [by intros w _ [_ Hr]; apply Hr|]. do 2 keep_fact. unfold claimed.
  eapply post_bind; [eapply post_try, post_fold_claimed, Hid|]. intros r. apply post_any. via.
Qed.
Hint Resolve safely_fold safely_withFoldWorker : via.

(** *** The passes *)

Lemma post_gather id fc wk fuel i : fc.1 = id -> forall F, steadfast F ->
  post F (gather fuel id fc wk i : stE W bool) (fun _ => F).
Proof.
  intros Hid F HF. revert i. induction fuel as [|fuel IH]; intros i; cbn [gather]; [apply post_throw|].
  eapply (post_bind _ _ _ (fun s w => F w /\ forall b, b ∈ s_batches s -> obj_of id b w)).
  { apply post_read. intros w Hc Hf. unfold pass. destruct (sc_passes (w_sched w) !! id) as [s|] eqn:Hs; [|done].
    split; [done|]. intros s' [= <-]. split; [done|]. intros b. by apply (co_passes _ Hc id s). }
  intros s. destruct (s_batches s !! i) as [b|] eqn:Hb; [|apply post_ret; by intros w _ [? _]].
  apply (post_pre (fun w => F w /\ obj_of id b w)).
  { intros w _ [Hf Ho]. split; [done|]. apply Ho. by eapply list_elem_of_lookup_2. }
  assert (steadfast (fun w => F w /\ obj_of id b w)) as HG by (apply steadfast_and; auto with steadfast).
  assert (forall i, post (fun w => F w /\ obj_of id b w) (gather fuel id fc wk i : stE W bool) (fun _ => F)) as Hrest
    by (intros i'; eapply post_pre, IH; by intros w _ [? _]).
  unfold fold_if. do 3 keep_fact. destruct (_ <? _)%N; [apply Hrest|]. destruct (negb _); [apply post_throw|].
  keep_fact. destruct a2; [apply post_ret; by intros w _ [? _]|]. do 2 keep_fact.
  destruct a3; [apply post_ret; by intros w _ [? _]|]. keep_fact.
  eapply post_bind; [apply post_and; [exact HG|]; eapply post_pre, post_importBatch, Hid; by intros w _ [_ ?]|].
  intros []. eapply post_pre, IH. by intros w _ [[? _] _].
Qed.

Lemma post_pass_on id fc bs drain wk : fc.1 = id ->
  post (fun w => forall b, b ∈ bs -> obj_of id b w) (pass_on id fc bs drain wk : stE W unit) (fun _ _ => True).
Proof.
  intros Hid. unfold pass_on, gather_and_fold, fold_if. eapply post_bind; [apply post_newScatter|]. intros [].
  apply post_any. via. eapply post_safely, (post_gather id fc wk _ _ Hid (fun _ => True)), steadfast_true.
Qed.

(** An operation on the fold worker that needs a fact. *)
Lemma post_withFoldWorker F {A} id fc (op : nat -> stE W A) : steadfast F -> fc.1 = id ->
  (forall wk, post F (op wk) (fun _ _ => True)) -> post F (withFoldWorker id fc op) (fun _ _ => True).
Proof.
  intros HF Hid Hop. unfold withFoldWorker. generalize 1%nat. intros n.
  induction n as [|n IH]; cbn [withFoldWorker_loop]; keep_fact;
    (apply (post_bind _ _ _ (fun _ => F));
     [eapply post_weaken; [apply post_attempt; [exact HF|]|done|by intros r w _ [? _]];
      unfold on_fold_worker; keep_fact; eapply post_bind; [apply post_via; [exact HF|via]|intros []; apply Hop]
     |intros [x|e]; [by apply post_ret|]; destruct (negb _); [apply post_throw|]; do 2 keep_fact]).
  - apply post_throw.
  - destruct a1; [apply post_throw|exact IH].
Qed.

Lemma safely_advance id fc drain : fc.1 = id -> via safely (advance id fc drain : stE W unit).
Proof.
  intros Hid. apply (post_safely _ (fun _ _ => True)). unfold advance.
  eapply post_bind; [apply (post_list_batches (fun _ => True)), steadfast_true|]. intros batches. cbv beta.
  destruct batches as [|bi batches]; [by apply post_ret|].
  eapply post_bind; [apply (post_new_objects (fun _ => True)), steadfast_true|]. intros bs. cbv beta.
  apply (post_pre (fun w => forall b, b ∈ bs -> obj_of id b w)); [by intros w _ [_ ?]|].
  apply post_withFoldWorker; [auto with steadfast|done|]. intros wk. by apply post_pass_on.
Qed.
Hint Resolve safely_advance : via.

(** ... on the chain of an election. *)
Lemma post_on_chain {A} id (k : chain_loc -> stE W A) :
  (forall fc, fc.1 = id -> via safely (k fc)) -> via safely (chain id ≫= k).
Proof.
  intros Hk. apply (post_safely _ (fun _ _ => True)).
  eapply post_bind; [apply (post_chain (fun _ => True)), steadfast_true|]. intros fc. cbv beta.
  apply (post_assume (fc.1 = id)); [by intros w _ [_ ?]|]. intros Hid. by apply post_any, Hk.
Qed.

Lemma safely_drive id drain : via safely (drive id drain : stE W unit).
Proof.
  unfold drive. apply via_bind; [apply _|via|]. intros [|]; [via|]. apply post_on_chain. intros fc Hid. via.
Qed.

Lemma safely_finalize_results id key : via safely (finalize_results id key : stE W Results).
Proof.
  unfold finalize_results. apply via_bind; [apply _|via|]. intros [l|]; [|via].
  apply post_on_chain. intros fc Hid. via. apply safely_withFoldWorker; [done|]. intros wk.
  unfold finalizeOn, claimed, finalize_claimed. via.
Qed.

Lemma safely_Finalize id key : via safely (Scheduler_Finalize id key : stE W Results).
Proof.
  unfold Scheduler_Finalize, store_call. via. apply safely_finalize_results.
Qed.

(** ** The dispatch loop *)

Lemma mild_on_dispatchers f : via mild (on_dispatchers f : stE W unit).
Proof. by apply mild_on_world. Qed.
Lemma mild_forgetLocked id : via mild (forgetLocked id : stE W unit).
Proof.
  intros w. apply mild_sched; eauto. cbn. by intros id' fc [_ ?]%lookup_delete_Some.
Qed.
Hint Resolve mild_on_dispatchers mild_forgetLocked : via.

Lemma mild_Forget id : via mild (Scheduler_Forget id : stE W unit).
Proof. unfold Scheduler_Forget, dispatcher_of. via. Qed.

#[export] Instance safe_forgetting : SafeForget.
Proof. split. intros id. apply via_mild, (mild_Forget id). Qed.

#[export] Instance safe_scheduler : SafeScheduler.
Proof.
  split.
  - apply _.
  - intros id. apply (safely_drive id true).
  - intros id key. apply safely_Finalize.
Qed.

Lemma safely_dispatch_pass id : via safely (dispatch_pass id : stE W bool).
Proof. unfold dispatch_pass, Dispatch, dispatcher_of, after_dispatch. via. apply safely_drive. Qed.
End passes.
