(* ===== verification/Reachable.v ===== *)
(** * Every reachable world of the daemon

    The daemon is started over an empty store; submissions arrive and take
    their steps one by one, requests are served, the monitor sweeps, and the
    background and the dispatch loops run their passes, in any order.  The
    invariant of Runtimes.v holds of every world it reaches. *)

From S2P Require Import Prelude Errors Effects Bytes Types Records KV Keys Artifacts Storage.
From S2P Require Import StorageRefine StorageSpec StorageProps Retries Workers Sdk Config Validate.
From S2P Require Import Seal SealProps SealInv Frame Chains Engine Finalize Lifecycle LifecycleProps.
From S2P Require Import Ingest IngestProps Submissions Scheduler Fold Scatter JobSteps JobProps.
From S2P Require Import ChainInv Runtimes RuntimeSteps RuntimeSeals RuntimeEngine RuntimePasses.

(** ** The steps of a submission *)

Section submission.
Context `{ChainLaws}.
Context (Validate : voteRules -> VoteSubmission -> result voteProofBundle).
Abbreviation W := (World TypedDB).

(** The runtime a submission goes to. *)
Definition phase_rt (p : Phase) : option nat :=
  match p with
  | POpen l | PLocked l | PChecked l | PAddressed l | PValidated l _ => Some l
  | _ => None
  end.

(** The counter of the election's votes is not exhausted. *)
Definition has_number (id : ElectionID) (w : W) : Prop :=
  forall n, counter_at (wmap w) id = Some n -> (n + 1 < two64)%N.

(** What a submission of the election relies on at a phase. *)
Record on_course (id : ElectionID) (u : VoteID) (p : Phase) (w : W) : Prop := {
  oc_runtime l : phase_rt p = Some l -> rt_at l id w;
  oc_named : vote_named u p;
  oc_new : checked p = true -> votes w id u = None;
}.

(** A step that only takes locks, or none. *)
Record waits (w w' : W) : Prop := {
  wa_gentle : gentle w w';
  wa_map : wmap w' = wmap w;
}.

#[export] Instance waits_pre : PreOrder waits.
Proof. split; [by intros w|]. intros w1 w2 w3 [G1 M1] [G2 M2]. split; [by etrans|congruence]. Qed.

Lemma waits_store {A} (m : stE TStorage A) : (forall t, tmap (m t).2 = tmap t) -> via waits (on_store m : stE W A).
Proof.
  intros Hm w. assert (wmap (on_store m w).2 = wmap w) as E by (unfold wmap; by rewrite on_store_store, Hm).
  split; [|done]. apply gentle_store; try (unfold on_store, zoom; by destruct (m (w_store w))). by apply mild_map.
Qed.
Lemma waits_get_st : via waits (get_st : stE W W).
Proof. by apply via_state; [apply _|]. Qed.
Hint Resolve waits_get_st : via.

Lemma waits_lock sub : via waits (submit_lock sub : stE W unit).
Proof. unfold submit_lock. via. apply waits_store. intros t. unfold LockVoteID. by case_decide. Qed.
Lemma waits_check id sub : via waits (submit_check id sub : stE W unit).
Proof.
  unfold submit_check. via. apply waits_store. intros t.
  unfold VoteExists, Vote_, mbind, stE_bind, attempt. by rewrite load_run.
Qed.
Lemma waits_address id sub : via waits (submit_address id sub : stE W unit).
Proof. unfold submit_address. via. apply waits_store. intros t. unfold LockAddress. by case_decide. Qed.
Lemma waits_validate now l sub : via waits (submit_validate Validate now l sub : stE W Vote).
Proof. unfold submit_validate. via. Qed.

Lemma open_at id (w : W) : core w ->
  (submit_open id w).2 = w /\ forall l, (submit_open id w).1 = Ok l -> rt_at l id w.
Proof.
  intros Hc. unfold submit_open, mbind, stE_bind, attempt, on_store, zoom.
  destruct (Election_run id (w_store w)) as [e ->].
  assert (w_set_env (set_store (w_store w) (w_env w)) w = w) as E by by destruct w as [[]].
  destruct (election_at _ _) as [el|]; [|done]. cbn. destruct (bool_decide _); [done|]. cbn. unfold runtime, gets.
  rewrite E. destruct (w_runtimes w !! id) as [l|] eqn:Hl; [|done]. split; [done|]. intros l' [= <-].
  by apply (co_runtimes _ Hc).
Qed.

(** What a step leaves. *)
Definition leaves (id : ElectionID) (w : W) (q : Phase * W) : Prop :=
  core q.2 /\ grows w q.2 /\ (forall l, phase_rt q.1 = Some l -> rt_at l id q.2) /\
  (phase_rt q.1 <> None -> wmap q.2 = wmap w).

Lemma kept_waits id p p' (w w' : W) : core w -> waits w w' -> (forall l, phase_rt p = Some l -> rt_at l id w) ->
  phase_rt p' = phase_rt p \/ phase_rt p' = None -> leaves id w (p', w').
Proof.
  intros Hc [Hg Hm] Hr Hp. pose proof (gentle_grows _ _ Hg) as Hgr. split_and!; [by eapply gentle_core|done| |done].
  cbn. intros l Hl. eapply steadfast_rt; [done|]. apply Hr. destruct Hp as [E|E]; congruence.
Qed.

Lemma kept_next {A} id p (m : stE W A) ok failed (w : W) : core w -> via waits m ->
  (forall l, phase_rt p = Some l -> rt_at l id w) ->
  (forall a, phase_rt (ok a) = phase_rt p) -> (forall r, phase_rt (failed r) = None) ->
  leaves id w (next_phase (m w) ok failed).
Proof.
  intros Hc Hm Hr Hok Hf. specialize (Hm w). unfold next_phase. destruct (m w) as [[a|e] w'];
    by apply (kept_waits id p); [..|rewrite ?Hok, ?Hf; auto].
Qed.

Lemma submit_step_kept now id sub p (w : W) :
  core w -> on_course id (sub_VoteID sub) p w -> (checked p = true -> has_number id w) ->
  leaves id w (submit_step Validate now id sub p w).
Proof.
  intros Hc [Hr Hv Hn] Hnum. destruct p as [|l|l|l|l|l v|r|r|r]; cbn [submit_step].
  - destruct (open_at id w Hc) as [E Hl]. unfold next_phase. destruct (submit_open id w) as [[l|e] w']; cbn [fst snd] in *;
      subst w'; split_and!; try done. by intros l' [= <-]; apply Hl.
  - by apply (kept_next id (POpen l)); [|apply waits_lock|..].
  - by apply (kept_next id (PLocked l)); [|apply waits_check|..].
  - by apply (kept_next id (PChecked l)); [|apply waits_address|..].
  - by apply (kept_next id (PAddressed l)); [|apply waits_validate|..].
  - cbn in Hv. rewrite <- Hv in Hn.
    destruct (accept_good now l id v w Hc (Hr l eq_refl) (Hn eq_refl) (Hnum eq_refl)) as [Hc' Hg].
    unfold next_phase. by destruct (with_rt l (accept_vote now id v) w) as [[x|e] w'].
  - apply (kept_waits id (PReleaseAddress r)); [done| |done|by left]. by apply waits_store.
  - apply (kept_waits id (PReleaseVoteID r)); [done| |done|by left]. by apply waits_store.
  - by apply (kept_waits id (PDone r)); [| |done|left].
Qed.

(** *** A submission that others do not interleave with *)

(** The world [w] of a submission that started at [w0]. *)
Record alone (id : ElectionID) (u : VoteID) (p : Phase) (w0 w : W) : Prop := {
  al_core : core w;
  al_grows : grows w0 w;
  al_course : on_course id u p w;
  al_map : p = PStart \/ phase_rt p <> None -> wmap w = wmap w0;
  al_locks : if holds p then u ∉ locks w0 /\ locks w = {[u]} ∪ locks w0 else locks w = locks w0;
  al_votes id' u' : votes w id' u' = votes w0 id' u' \/ u' = u /\ u ∉ locks w0 /\ votes w0 id' u' = None;
}.

Lemma step_goes_on now id sub p (w : W) : let p' := (submit_step Validate now id sub p w).1 in
  p' <> PStart /\ (phase_rt p' <> None -> p = PStart \/ phase_rt p <> None).
Proof.
  cbv zeta. destruct p; cbn [submit_step]; unfold next_phase; repeat case_match; cbn; try done; split; try done;
    intros _; first [by left|by right].
Qed.

Lemma alone_step now id sub p w0 (w : W) : has_number id w0 -> alone id (sub_VoteID sub) p w0 w ->
  let '(p', w') := submit_step Validate now id sub p w in alone id (sub_VoteID sub) p' w0 w'.
Proof.
  intros Hnum [Hc Hg Ho Hm Hl Hv]. set (u := sub_VoteID sub) in *.
  assert (checked p = true -> has_number id w) as Hnw.
  { intros Hp n. rewrite Hm; [apply Hnum|]. right. by destruct p. }
  pose proof (submit_step_kept now id sub p w Hc Ho Hnw) as (Kc & Kg & Kr & Km).
  pose proof (submit_step_effect Validate now id sub p w (oc_named _ _ _ _ Ho)) as He.
  destruct (step_goes_on now id sub p w) as [Hne Hon].
  destruct (submit_step Validate now id sub p w) as [p' w']. cbn [fst snd] in *. destruct He as [He Hn]. fold u in He.
  pose proof (oc_new _ _ _ _ Ho) as Hnew. split; [done|by etrans|split; [done..|]| | |].
  - intros Hck. destruct He as [[Ev _] _ _ Hcc|_ _ _ _ _ _ Hf|? _ Hf _ _ _ _ _|_ _ _ _ Hf _]; try congruence.
    rewrite Ev. by destruct (Hcc Hck) as [?%Hnew|].
  - intros [?|Hp]; [done|]. rewrite Km by done. by apply Hm, Hon.
  - destruct He as [[_ El] Eh _ _|Hin El _ Eh _ Ea _|? _ _ Eh Eh' _ El _|Eh Eh' El _ _ _].
    + by rewrite Eh, El.
    + rewrite Eh, El. destruct (holds p); [set_solver|]. by rewrite <- Hl.
    + rewrite Eh', El. by rewrite Eh in Hl.
    + rewrite Eh', El. rewrite Eh in Hl. destruct Hl as [Hu ->]. set_solver.
  - intros id' u'. destruct He as [[Ev _] _ _ _|_ _ Ev _ _ _ _|x Hck _ Eh _ _ _ Ev|_ _ _ _ _ Ev]; rewrite Ev; try apply Hv.
    case_decide as Hd; [|apply Hv]. injection Hd as -> ->. right. rewrite Eh in Hl. split; [done|]. split; [apply Hl|].
    by destruct (Hv id u) as [<-|(_ & _ & ?)]; [apply Hnew|].
Qed.

Lemma alone_steps n now id sub p w0 (w : W) : has_number id w0 -> alone id (sub_VoteID sub) p w0 w ->
  let '(p', w') := submit_steps Validate n now id sub p w in alone id (sub_VoteID sub) p' w0 w'.
Proof.
  intros Hnum. revert p w. induction n as [|n IH]; intros p w Ha; cbn [submit_steps]; [done|].
  pose proof (alone_step now id sub p w0 w Hnum Ha) as Hs. destruct (submit_step _ _ _ _ _ _) as [p' w'].
  by apply IH.
Qed.

Lemma SubmitVote_good now id sub (w : W) : core w -> has_number id w ->
  good w (SubmitVote Validate now id sub w).2.
Proof.
  intros Hc Hnum. pose proof (SubmitVote_steps Validate now id sub w) as E.
  pose proof (alone_steps 8 now id sub PStart w w Hnum) as Ha. destruct (SubmitVote Validate now id sub w) as [r w'].
  rewrite E in Ha. destruct Ha as [Kc Kg _ _ Kl Kv]; [by split; try done; left|]. cbn [snd]. split; [done..|].
  cbn [holds snd] in *. split.
  - intros u Hu. rewrite Kl. split; [done|]. intros id'. by destruct (Kv id' u) as [|(-> & Hn & _)].
  - intros id' u x Hx. destruct (Kv id' u) as [->|(_ & _ & Hn)]; [done|congruence].
Qed.
End submission.

(** ** The daemon *)

Section daemon.
Context `{Provers} `{!ChainLaws} `{!Others TypedDB}.
Context (Validate : voteRules -> VoteSubmission -> result voteProofBundle) (WorkerID : string -> string).
Abbreviation W := (World TypedDB).

(** A request that is served, a sweep of the monitor, or a vote that others do
    not interleave with. *)
Inductive request : W -> W -> Prop :=
  | ReqCreate now subject el w : request w (Engine.CreateElection now subject el w).2
  | ReqSetStatus now subject id to w : request w (SetStatus now subject id to w).2
  | ReqKey now subject id key w : request w (SubmitDecryptionKey now subject id key w).2
  | ReqTick now order w :
      (forall p, p ∈ order -> w_runtimes w !! p.1 = Some p.2) -> request w (tick now order w).2
  | ReqRegisterWorker now subject address name w : request w (RegisterWorker now subject address name w).2
  | ReqRemoveWorker now subject id w : request w (RemoveWorker WorkerID now subject id w).2
  | ReqVote now id sub w : has_number id w -> request w (SubmitVote Validate now id sub w).2
  | ReqStop w : request w (Stop w).2.

Lemma request_safely w w' : request w w' -> safely w w'.
Proof.
  destruct 1 as [now subject el w|now subject id to w|now subject id key w|now order w Ho
    |now subject address name w|now subject id w|now id sub w Hn|w].
  - apply safely_CreateElection.
  - apply safely_SetStatus.
  - apply safely_SubmitDecryptionKey.
  - intros Hc. apply (post_tick now order); [done|]. intros p Hp. by apply (co_runtimes _ Hc), Ho.
  - apply safely_RegisterWorker.
  - apply safely_RemoveWorker.
  - intros Hc. by apply SubmitVote_good.
  - apply safely_Stop.
Qed.

(** The other goroutines of a pass may serve requests. *)
Lemma requests_sound : (forall n w, rtc request w (others n w)) -> SoundOthers.
Proof.
  intros Hr. split. intros n w. specialize (Hr n w). induction Hr as [w|w1 w2 w3 Hs _ IH]; [done|].
  etrans; [by apply request_safely|exact IH].
Qed.

Context `{!SoundOthers}.

(** The steps of the daemon, with the submissions in progress. *)
Inductive daemon_step : System -> System -> Prop :=
  | DaemonArrives w subs t id sub :
      subs !! t = None -> daemon_step (MkSystem w subs) (MkSystem w (<[t := MkSub id sub PStart]> subs))
  | DaemonSubmission w subs t x now p' w' :
      subs !! t = Some x -> (checked (s_phase x) = true -> has_number (s_id x) w) ->
      submit_step Validate now (s_id x) (s_sub x) (s_phase x) w = (p', w') ->
      daemon_step (MkSystem w subs) (MkSystem w' (<[t := MkSub (s_id x) (s_sub x) p']> subs))
  | DaemonRequest w w' subs : request w w' -> daemon_step (MkSystem w subs) (MkSystem w' subs)
  | DaemonBackground now i w subs : daemon_step (MkSystem w subs) (MkSystem (run_background now i w).2 subs)
  | DaemonDispatch id w subs : daemon_step (MkSystem w subs) (MkSystem (dispatch_pass id w).2 subs)
  | DaemonOthers n w subs : daemon_step (MkSystem w subs) (MkSystem (others n w) subs).

(** Its invariant. *)
Record daemon_inv (s : System) : Prop := {
  da_core : core (sys_world s);
  da_subs : sys_inv (sys_world s) (sys_subs s);
  da_runtimes t x l : sys_subs s !! t = Some x -> phase_rt (s_phase x) = Some l -> rt_at l (s_id x) (sys_world s);
}.

Lemma good_inv w w' subs : good w w' -> daemon_inv (MkSystem w subs) -> daemon_inv (MkSystem w' subs).
Proof.
  intros [Hc Hg Ht] [_ Hs Hr]. cbn [sys_world sys_subs] in *. split; cbn [sys_world sys_subs]; [done| |].
  - by apply (sys_step_inv Validate (MkSystem w subs) (MkSystem w' subs)); [apply SysOther|].
  - intros t x l Hx Hl. eapply steadfast_rt; eauto.
Qed.

Lemma daemon_step_inv s s' : daemon_step s s' -> daemon_inv s -> daemon_inv s'.
Proof.
  destruct 1 as [w subs t id sub Ht|w subs t x now p' w' Hx Hn Hs|w w' subs Hq|now i w subs|id w subs|n w subs];
    intros Hi; try (eapply good_inv; [|exact Hi]; pose proof (da_core _ Hi) as Hc; cbn [sys_world] in Hc).
  - destruct Hi as [Hc Hsub Hr]. cbn [sys_world sys_subs] in *. split; cbn [sys_world sys_subs]; [done| |].
    + by apply (sys_step_inv Validate (MkSystem w subs) (MkSystem w _)); [apply SysArrives|].
    + intros t' x l [[-> ->]|[_ Hx]]%updated Hl; [done|]. by eapply Hr.
  - destruct Hi as [Hc Hsub Hr]. cbn [sys_world sys_subs] in *.
    pose proof (submit_step_kept Validate now (s_id x) (s_sub x) (s_phase x) w Hc) as Hk. rewrite Hs in Hk.
    destruct Hk as (Kc & Kg & Kr & _); [|done|].
    { destruct Hsub as [_ [I1 I4 _ _]]. split; [by intros l; apply (Hr t)|by apply (I1 t)|by apply (I4 t)]. }
    split; cbn [sys_world sys_subs]; [done| |].
    + eapply (sys_step_inv Validate (MkSystem w subs) (MkSystem w' _)); [by eapply SysSubmission|done].
    + intros t' y l [[-> ->]|[_ Hy]]%updated Hl; [by apply Kr|]. eapply steadfast_rt; eauto.
  - by apply request_safely.
  - by apply safely_run_background.
  - by apply safely_dispatch_pass.
  - by apply others_safely.
Qed.

(** *** The start *)

Lemma empty_core (w : W) : wmap w = ∅ -> w_heap w = ∅ -> w_runtimes w = ∅ -> w_background w = [] ->
  sc_chains (w_sched w) = ∅ -> sc_fcs (w_sched w) = ∅ -> sc_objects (w_sched w) = ∅ -> sc_passes (w_sched w) = ∅ ->
  core w.
Proof.
  intros Em Eh Er Eb Ec Ef Eo Ep.
  split; unfold chain_of, object_of, finals, keyed_at, blank, counter_at, vote_at, batch_at;
    rewrite ?Em, ?Eh, ?Er, ?Eb, ?Ec, ?Ef, ?Eo, ?Ep.
  - done.
  - done.
  - done.
  - done.
  - done.
  - done.
  - done.
  - done.
  - done.
  - by intros l ?%not_elem_of_nil.
  - by intros id ?%not_elem_of_nil.
Qed.

(** Nothing is restored from an empty store. *)
Lemma NewEngine_empty now (s : TStorage) opts pool (w : W) : tmap s = ∅ -> NewEngine now s opts pool = Ok w ->
  w = new_world now s opts pool.
Proof.
  intros Hs. unfold NewEngine. set (w0 := new_world now s opts pool).
  assert (wmap w0 = ∅) as Hm by by destruct pool.
  assert (forall A p (as_ : Artifact -> result A), td_scan p ∅ = [] ->
    (on_store (list_all p as_) w0).2 = w0 /\ forall l, (on_store (list_all p as_) w0).1 = Ok l -> l = []) as Hl.
  { intros A p as_ Hp. unfold on_store, zoom, list_all, mbind, stE_bind. rewrite iterate_run. unfold wmap in Hm.
    rewrite Hm, Hp. destruct (td_readable _); (split; [by destruct w0 as [[]]|]); [by intros l [= <-]|done]. }
  assert ((restore now w0).2 = w0) as Hr.
  { unfold restore, ListElections, mbind, stE_bind. destruct (Hl _ ScanElections as_election eq_refl) as [E1 E2].
    destruct (on_store (list_all ScanElections as_election) w0) as [[l|e] w1]; cbn [fst snd] in *; subst w1; [|done].
    by rewrite (E2 l eq_refl). }
  unfold mbind at 1, stE_bind at 1. destruct pool as [p|].
  - unfold restoreWorkers, ListWorkers, mbind, stE_bind. destruct (Hl _ ScanWorkers as_worker eq_refl) as [E1 E2].
    destruct (on_store (list_all ScanWorkers as_worker) w0) as [[l|e] w1]; cbn [fst snd] in *; subst w1; [|done].
    rewrite (E2 l eq_refl). cbn [for_each mret stE_ret]. destruct (restore now w0) as [[]]; [|done].
    cbn [snd] in Hr. by intros [= <-].
  - cbn [mret stE_ret]. destruct (restore now w0) as [[]]; [|done]. cbn [snd] in Hr. by intros [= <-].
Qed.

Lemma start_inv now (s : TStorage) opts pool (w : W) : tmap s = ∅ -> NewEngine now s opts pool = Ok w ->
  daemon_inv (MkSystem w ∅).
Proof.
  intros Hs ->%NewEngine_empty; [|done]. split; cbn [sys_world sys_subs].
  - by apply empty_core; [destruct pool|..].
  - split; split; intros *; by rewrite lookup_empty.
  - intros t x l. by rewrite lookup_empty.
Qed.

Lemma daemon_reachable s s' : rtc daemon_step s s' -> daemon_inv s -> daemon_inv s'.
Proof. induction 1; eauto using daemon_step_inv. Qed.
End daemon.

(** C2: every live runtime of the daemon agrees with the storage.  Start it over
    an empty store, and let submissions interleave step by step, requests be
    served, the monitor sweep, and the background and the dispatch loops run
    their passes, in any order, whatever the provers answer and whichever
    storage writes fail.  Then the engine's map names the runtime of each
    election; the votes it buffers are stored, pending and in no batch, in
    order and each once; its batches are numbered without a gap and no vote is
    in two; the votes' sequence numbers are distinct; once an election is
    canceled, published or finalized its buffer is empty; and every batch that
    waits in a fold chain is a stored batch of the chain's election. *)
Theorem daemon_keeps_its_books `{Provers} `{!ChainLaws} `{!Others TypedDB} `{!SoundOthers}
    Validate WorkerID now s opts pool (w0 : World TypedDB) sys :
  tmap s = ∅ -> NewEngine now s opts pool = Ok w0 ->
  rtc (daemon_step Validate WorkerID) (MkSystem w0 ∅) sys ->
  let w := sys_world sys in
  (forall id l, w_runtimes w !! id = Some l -> exists rt st,
     w_heap w !! l = Some rt /\ rt_id rt = id /\ status (wmap w) id = Some st /\
     rt_inv (sw_of w rt) /\ log_ok id (wmap w) /\ (room (sw_of w rt) < two64)%N /\
     (past st = true -> rt_pending rt = [])) /\
  (forall fc c b, chain_of fc w = Some c -> b ∈ fc_pending c -> exists bi,
     object_of b w = Some bi /\ bi_ElectionID bi = fc.1 /\ stored (wmap w) bi).
Proof.
  intros Hs Hn Hr w. pose proof (daemon_reachable Validate WorkerID _ _ Hr (start_inv _ _ _ _ _ Hs Hn)) as [Hc _ _].
  fold w in Hc. split.
  - intros id l Hl. destruct (co_runtimes _ Hc _ _ Hl) as (rt & Hrt & <-). pose proof (co_rt _ Hc _ _ Hrt) as Hok.
    destruct (ro_status _ _ Hok) as (st & Hst & Hp). exists rt, st.
    split_and!; [done..|apply Hok|apply Hok|by apply rt_room|done].
  - intros fc c b Hfc Hb. destruct (co_pending _ Hc _ _ _ Hfc Hb) as (bi & Hbi & E). exists bi.
    split; [done|]. split; [done|]. by apply (co_objects _ Hc b).
Qed.
