(* ===== verification/ApiErrors.v ===== *)
(** * The API's errors (api/errors.go, errors_definition.go, helpers.go)

    The typed errors of the HTTP surface and the table that maps the engine's
    errors to them. *)

From S2P Require Import Prelude Errors.

(** The message of an error: a fixed text, the message of an engine error,
    or a message with another appended. *)
Inductive message :=
  | Text (s : string)
  | MessageOf (e : error)
  | Appended (m : message) (what : message).

(** [Error] *)
Record Error := MkError { e_Err : message; e_Code : Z; e_HTTPstatus : Z }.

(** [With], [Withf] and [WithErr] *)
Definition With (e : Error) (s : string) : Error :=
  MkError (Appended (e_Err e) (Text s)) (e_Code e) (e_HTTPstatus e).
Definition WithErr (e : Error) (err : error) : Error :=
  MkError (Appended (e_Err e) (MessageOf err)) (e_Code e) (e_HTTPstatus e).

(** ** The statuses of net/http that are used *)

Definition StatusOK : Z := 200.
Definition StatusAccepted : Z := 202.
Definition StatusBadRequest : Z := 400.
Definition StatusUnauthorized : Z := 401.
Definition StatusForbidden : Z := 403.
Definition StatusNotFound : Z := 404.
Definition StatusConflict : Z := 409.
Definition StatusInternalServerError : Z := 500.

(** ** The errors (errors_definition.go) *)

Definition ErrResourceNotFound := MkError (Text "resource not found") 40001 StatusNotFound.
Definition ErrMalformedBody := MkError (Text "malformed JSON body") 40002 StatusBadRequest.
Definition ErrMalformedParam := MkError (Text "malformed parameter") 40003 StatusBadRequest.
Definition ErrUnauthorized := MkError (Text "unauthorized") 40004 StatusForbidden.
Definition ErrInvalidToken := MkError (Text "invalid or expired token") 40005 StatusUnauthorized.
Definition ErrElectionNotFound := MkError (Text "election not found") 40006 StatusNotFound.
Definition ErrElectionExists := MkError (Text "election already exists") 40007 StatusConflict.
Definition ErrElectionNotAcceptingVotes :=
  MkError (Text "election is not accepting votes") 40008 StatusBadRequest.
Definition ErrInvalidBallotProof := MkError (Text "invalid ballot proof") 40009 StatusBadRequest.
Definition ErrInvalidSignature := MkError (Text "invalid signature") 40010 StatusBadRequest.
Definition ErrInvalidCensusProof := MkError (Text "invalid census proof") 40011 StatusBadRequest.
Definition ErrVoteAlreadySubmitted := MkError (Text "vote already submitted") 40012 StatusConflict.
Definition ErrVoteNotFound := MkError (Text "vote not found") 40013 StatusNotFound.
Definition ErrResultsNotReady := MkError (Text "results not ready") 40014 StatusConflict.
Definition ErrWorkerNotFound := MkError (Text "worker not found") 40015 StatusNotFound.
Definition ErrMalformedWorkerInfo := MkError (Text "malformed worker info") 40016 StatusBadRequest.
Definition ErrInvalidStatusTransition :=
  MkError (Text "invalid election status transition") 40017 StatusConflict.
Definition ErrInvalidDecryptionKey := MkError (Text "invalid decryption key") 40018 StatusBadRequest.
Definition ErrMarshalingServerJSONFailed :=
  MkError (Text "marshaling (server-side) JSON failed") 50001 StatusInternalServerError.
Definition ErrGenericInternalServerError :=
  MkError (Text "internal server error") 50002 StatusInternalServerError.

(** Every error of the definitions above. *)
Definition api_errors : list Error :=
  [ErrResourceNotFound; ErrMalformedBody; ErrMalformedParam; ErrUnauthorized; ErrInvalidToken;
   ErrElectionNotFound; ErrElectionExists; ErrElectionNotAcceptingVotes; ErrInvalidBallotProof;
   ErrInvalidSignature; ErrInvalidCensusProof; ErrVoteAlreadySubmitted; ErrVoteNotFound;
   ErrResultsNotReady; ErrWorkerNotFound; ErrMalformedWorkerInfo; ErrInvalidStatusTransition;
   ErrInvalidDecryptionKey; ErrMarshalingServerJSONFailed; ErrGenericInternalServerError].

(** ** The engine's errors (helpers.go) *)

(** [engineErrors] *)
Definition engineErrors : list (sentinel * Error) :=
  [(Errors.ErrElectionNotFound, ErrElectionNotFound);
   (ErrNotAcceptingVotes, ErrElectionNotAcceptingVotes);
   (Errors.ErrVoteAlreadySubmitted, ErrVoteAlreadySubmitted);
   (Errors.ErrInvalidBallotProof, ErrInvalidBallotProof);
   (Errors.ErrInvalidSignature, ErrInvalidSignature);
   (Errors.ErrInvalidCensusProof, ErrInvalidCensusProof);
   (ErrMalformedVote, ErrMalformedBody);
   (ErrInvalidTransition, ErrInvalidStatusTransition);
   (Errors.ErrInvalidDecryptionKey, ErrInvalidDecryptionKey);
   (Errors.ErrWorkerNotFound, ErrWorkerNotFound)].

(** [engineError] *)
Fixpoint engineError_in (table : list (sentinel * Error)) (err : error) : Error :=
  match table with
  | [] => WithErr ErrGenericInternalServerError err
  | (s, apiErr) :: table =>
      if errors_Is err s then MkError (MessageOf err) (e_Code apiErr) (e_HTTPstatus apiErr)
      else engineError_in table err
  end.
Definition engineError (err : error) : Error := engineError_in engineErrors err.

(** ** Well-formed errors *)

(** An error with the code and the status of a defined one. *)
Definition declared (e : Error) : bool :=
  existsb (fun d => bool_decide (e_Code d = e_Code e /\ e_HTTPstatus d = e_HTTPstatus e)) api_errors.

Lemma declared_With e s : declared e = true -> declared (With e s) = true.
Proof. done. Qed.

Lemma declared_WithErr e err : declared e = true -> declared (WithErr e err) = true.
Proof. done. Qed.

Lemma declared_engineError err : declared (engineError err) = true.
Proof.
  unfold engineError. assert (Forall (fun p => declared p.2 = true) engineErrors) as Ht
    by (unfold engineErrors; repeat constructor).
  induction Ht as [|[s a] l Ha _ IH]; [done|]. cbn [engineError_in].
  destruct (errors_Is err s); [exact Ha|exact IH].
Qed.

(** The codes never collide, and a code tells whose fault the error is. *)
Lemma codes_distinct : NoDup (e_Code <$> api_errors).
Proof. by apply (bool_decide_unpack (NoDup (e_Code <$> api_errors))). Qed.

(** Whose fault an error is, by its code and by its status. *)
Definition caller_fault (e : Error) : bool :=
  ((40000 <? e_Code e) && (e_Code e <? 50000) && (400 <=? e_HTTPstatus e) && (e_HTTPstatus e <? 500))%Z.
Definition server_fault (e : Error) : bool :=
  ((50000 <? e_Code e) && (e_Code e <? 60000) && (e_HTTPstatus e =? StatusInternalServerError))%Z.

Lemma api_errors_faults : forallb (fun e => caller_fault e || server_fault e) api_errors = true.
Proof. reflexivity. Qed.

Lemma declared_fault e : declared e = true -> caller_fault e || server_fault e = true.
Proof.
  unfold declared. rewrite existsb_exists. intros (d & Hd & Heq%bool_decide_eq_true).
  pose proof api_errors_faults as Hf. rewrite forallb_forall in Hf. apply Hf in Hd.
  unfold caller_fault, server_fault in *. destruct Heq as [<- <-]. exact Hd.
Qed.
