(* ===== verification/Api.v ===== *)
(** * The HTTP API (api/)

    The routes with their roles, the authentication, the handlers and what the
    logging shows.  A request is served on the engine's world.  The router, the
    JWT library and the JSON decoding are parameters. *)

From S2P Require Import Prelude Errors Effects Bytes Types Records Artifacts Storage Workers.
From S2P Require Import Sdk Config Validate Seal Engine Finalize Lifecycle Ingest ApiErrors.
From Stdlib Require Import Strings.Byte.

Definition maxRequestBodyLog : nat := 512.
Definition maxRequestBody : nat := N.to_nat (2 ^ 20).

(** ** Requests and responses *)

(** What a reader gives: some bytes, then the end of the data or, if it breaks
    off, an error. *)
Record Stream := MkStream { st_bytes : bytes; st_broken : bool }.

(** [io.LimitReader], [io.ReadAll] and [io.MultiReader] of bytes and a rest. *)
Definition LimitReader (n : nat) (s : Stream) : Stream :=
  MkStream (take n (st_bytes s)) (st_broken s && (length (st_bytes s) <? n)%nat).
Definition ReadAll (s : Stream) : result bytes := if st_broken s then Err errorf else Ok (st_bytes s).
Definition after_reading (read : bytes) (s : Stream) : Stream :=
  MkStream (read ++ drop (length read) (st_bytes s)) (st_broken s).

(** A body sent whole. *)
Definition whole (b : bytes) : Stream := MkStream b false.

(** [rq_ContentLength] is negative when unknown. *)
Record Request := MkRequest {
  rq_Method : string;
  rq_Path : string;
  rq_Authorization : string;
  rq_ContentLength : Z;
  rq_Body : Stream;
}.

Definition MethodGet : string := "GET".
Definition MethodPost : string := "POST".
Definition MethodDelete : string := "DELETE".

(** The bodies of the requests (types.go). *)
Record ElectionCreateRequest := {
  cr_ProcessID : string;
  cr_BallotMode : string;
  cr_EncX : string;
  cr_EncY : string;
  cr_CensusOrigin : N;
  cr_CensusRoot : string;
  cr_VK : bytes;
  cr_BatchSize : Z;
  cr_FoldEvery : Z;
  cr_EndTime : time;
}.
Record ElectionStatusRequest := { sr_Status : string }.
Record DecryptionKeyRequest := { kr_Key : string }.
Record WorkerRegisterRequest := { wq_Address : string; wq_Name : string }.

(** The bodies of the responses (types.go). *)
Record ElectionResponse := {
  er_ID : bytes;
  er_Status : string;
  er_BatchSize : Z;
  er_FoldEvery : Z;
  er_EndTime : time;
  er_CreatedAt : time;
  er_FoldWorker : string;
  er_FinalizeError : string;
}.
Record ResultsResponse := {
  rr_ElectionID : bytes;
  rr_Tally : list N;
  rr_ProgramVK : string;
  rr_RootCVadcopFinal : string;
  rr_PublicValues : string;
  rr_ProofBytes : string;
}.

Inductive Body :=
  | BodyEmpty
  | BodyError (e : Error)
  | BodyInfo (batchSize foldEvery : Z) (nWorkers nElections : nat)
  | BodyElection (e : ElectionResponse)
  | BodyElections (l : list ElectionResponse)
  | BodyReceipt (voteID : bytes) (status : string)
  | BodyVote (voteID : bytes) (status : string) (seq : N)
  | BodyEncrypted (electionID : bytes) (ciphertext : list string)
  | BodyResults (r : ResultsResponse)
  | BodyWorkers (l : list WorkerInfo)
  | BodyWorker (i : WorkerInfo)
  | BodyText (text : string).

Record Response := MkResponse { rp_status : Z; rp_body : Body }.

(** [Error.Write] *)
Definition write_error (e : Error) : Response := MkResponse (e_HTTPstatus e) (BodyError e).

(** ** Writing JSON (helpers.go) *)

(** A [time.Time] is marshalled only if its year has at most four digits. *)
Definition year_ok (t : time) : bool :=
  ((- 366 * 86400 * second <=? t) && (t <? 3652059 * 86400 * second))%Z.
Definition election_marshals (e : ElectionResponse) : bool :=
  year_ok (er_EndTime e) && year_ok (er_CreatedAt e).
Definition marshals (b : Body) : bool :=
  match b with
  | BodyElection e => election_marshals e
  | BodyElections l => forallb election_marshals l
  | _ => true
  end.

(** [httpWriteJSONStatus], [httpWriteJSON] and [httpWriteOK] *)
Definition httpWriteJSONStatus (status : Z) (b : Body) : Response :=
  if marshals b then MkResponse status b
  else write_error (WithErr ErrMarshalingServerJSONFailed errorf).
Definition httpWriteJSON : Body -> Response := httpWriteJSONStatus StatusOK.
Definition httpWriteOK : Response := MkResponse StatusOK BodyEmpty.

(** [electionResponse]; the times are in UTC. *)
Definition electionResponse (el : Election) : ElectionResponse :=
  {| er_ID := ElectionID_String (el_ID el); er_Status := Status_String (el_Status el);
     er_BatchSize := el_BatchSize el; er_FoldEvery := el_FoldEvery el; er_EndTime := el_EndTime el;
     er_CreatedAt := el_CreatedAt el; er_FoldWorker := el_FoldWorker el;
     er_FinalizeError := el_FinalizeError el |}.

(** [resultsResponse] *)
Definition resultsResponse (r : Results) : ResultsResponse :=
  {| rr_ElectionID := ElectionID_String (rs_ElectionID r); rr_Tally := rs_Tally r;
     rr_ProgramVK := rs_ProgramVK r; rr_RootCVadcopFinal := rs_RootCVadcopFinal r;
     rr_PublicValues := rs_PublicValues r; rr_ProofBytes := rs_ProofBytes r |}.

(** ** The libraries *)

(** [jwt], the router, [encoding/json] and [net/url]; a decoder reads a stream. *)
Class Http := {
  SigningMethod : Type;
  IsHMAC : SigningMethod -> bool;
  MapClaims : Type;
  ParseWithClaims : time -> string -> (SigningMethod -> option bytes) -> option (MapClaims * bool);
  VerifyExpiresAt : MapClaims -> Z -> bool -> bool;
  claim_string : MapClaims -> string -> string;
  Find : list (string * string) -> string -> string -> option (string * (string -> string));
  NoRoute : string -> string -> Z;
  decode_create : Stream -> result ElectionCreateRequest;
  decode_status : Stream -> result ElectionStatusRequest;
  decode_vote : Stream -> result VoteSubmission;
  decode_key : Stream -> result DecryptionKeyRequest;
  decode_worker : Stream -> result WorkerRegisterRequest;
  url_Parse : string -> option (string * string);
}.

(** [httpReadJSON] *)
Definition httpReadJSON {A} (decode : Stream -> result A) (rq : Request) : result A :=
  decode (LimitReader maxRequestBody (rq_Body rq)).

(** ** Authentication (middleware.go) *)

Definition RoleAdmin : string := "admin".
Definition RoleKeywarden : string := "keywarden".

(** [strings.SplitN(h, " ", 2)] *)
Fixpoint cut_space (h : bytes) : option (bytes * bytes) :=
  match h with
  | [] => None
  | c :: h =>
      if decide (c = x20) then Some ([], h)
      else p ← cut_space h; Some (c :: p.1, p.2)
  end.

(** [bearerToken] *)
Definition bearerToken (rq : Request) : bytes :=
  match cut_space (lit (rq_Authorization rq)) with
  | Some (scheme, token) =>
      if decide (lower_byte <$> scheme = lower_byte <$> lit "Bearer") then TrimSpace token else []
  | None => []
  end.

(** [API]: its secret and what [info] shows.  It shares the engine's pool
    (service/orchestrator.go, cmd/davinci-fold/main.go). *)
Record API := MkAPI { jwtSecret : bytes; batchSize : Z; foldEvery : Z }.

Section auth.
Context `{Http}.

(** The key of a token: only HMAC methods have one. *)
Definition keyfunc (a : API) (m : SigningMethod) : option bytes :=
  if IsHMAC m then Some (jwtSecret a) else None.

(** [jwtAuth]: the subject of a valid token of the role, or the response. *)
Definition jwtAuth (a : API) (now : time) (role : string) (rq : Request) : Response + string :=
  let raw := bearerToken rq in
  if decide (raw = []) then inl (write_error (With ErrInvalidToken "missing bearer token"))
  else
    match ParseWithClaims now (String.string_of_list_byte raw) (keyfunc a) with
    | None | Some (_, false) => inl (write_error ErrInvalidToken)
    | Some (claims, true) =>
        if negb (VerifyExpiresAt claims (Unix now) true)
        then inl (write_error (With ErrInvalidToken "the token must carry an exp claim"))
        else if decide (claim_string claims "role" = role) then inr (claim_string claims "sub")
        else inl (write_error (With ErrUnauthorized "role not permitted"))
    end.
End auth.

(** ** The handlers *)

Section handlers.
Context {D : Type} `{ADB D} `{Chain} `{!SchedulerOps D} `{!Http}.
Context (Validate : voteRules -> VoteSubmission -> result voteProofBundle).
Context (WorkerID : string -> string).
Abbreviation W := (World D).

(** A handler, given the subject and the parameters of the path. *)
Definition handler : Type := time -> string -> Request -> (string -> string) -> stE W Response.

(** A call of the engine: a panic is not an error the handler sees. *)
Definition engine_call {A} (m : stE W A) : stE W (result A) :=
  r ← attempt m;
  match r with
  | Err e => if errors_Is e Panic || errors_Is e Diverges then throw e else mret r
  | Ok _ => mret r
  end.

(** A parameter of the path in hex, [electionIDFromURL] and [voteIDFromURL]. *)
Definition hex_param (s : string) : result bytes :=
  of_option (hex_decode (TrimPrefix (lit s) (lit "0x"))) errorf.
Definition electionIDFromURL (ps : string -> string) : result ElectionID := hex_param (ps "id").
Definition voteIDFromURL (ps : string -> string) : result VoteID := hex_param (ps "voteID").

(** The value of a step, or the response its failure is written as. *)
Definition or_respond {A} (r : result A) (fail : error -> Error) (k : A -> stE W Response) :
    stE W Response :=
  match r with
  | Err e => mret (write_error (fail e))
  | Ok a => k a
  end.

(** The election as it now is. *)
Definition respond_election (status : Z) (id : ElectionID) : stE W Response :=
  got ← engine_call (Engine_Election id);
  or_respond got (WithErr ErrGenericInternalServerError) (fun el =>
  mret (httpWriteJSONStatus status (BodyElection (electionResponse el)))).

(** [ping] and [info] (api.go) *)
Definition ping : handler := fun _ _ _ _ => mret httpWriteOK.

Definition info (a : API) : handler := fun now _ _ _ =>
  w ← get_st;
  els ← engine_call Engine_ListElections;
  let nWorkers := match w_pool w with Some p => length (ListWorkerStats WorkerID now p) | None => 0 end in
  let nElections := match els with Ok l => length l | Err _ => 0 end in
  mret (httpWriteJSON (BodyInfo (batchSize a) (foldEvery a) nWorkers nElections)).

(** [createElection] (elections.go) *)
Definition new_election (id : ElectionID) (req : ElectionCreateRequest) : Election :=
  {| el_ID := id; el_Status := StatusCreated;
     el_Config := {| ProcessID := cr_ProcessID req; BallotMode := cr_BallotMode req;
                     EncX := cr_EncX req; EncY := cr_EncY req;
                     CensusOrigin := cr_CensusOrigin req; CensusRoot := cr_CensusRoot req;
                     ec_VK := cr_VK req |};
     el_BatchSize := cr_BatchSize req; el_FoldEvery := cr_FoldEvery req;
     el_EndTime := cr_EndTime req; el_CreatedAt := zero_time; el_UpdatedAt := zero_time;
     el_FoldWorker := ""; el_FinalizeError := "" |}.

Definition create_failed (e : error) : Error :=
  if errors_Is e ErrKeyAlreadyExists then WithErr ErrElectionExists e else WithErr ErrMalformedParam e.

Definition process_id (s : string) : result ElectionID :=
  id ← hex_param s;
  if decide (id = []) then Err errorf else Ok id.

Definition createElection : handler := fun now subject rq _ =>
  or_respond (httpReadJSON decode_create rq) (WithErr ErrMalformedBody) (fun req =>
  or_respond (process_id (cr_ProcessID req))
    (fun _ => With ErrMalformedParam "processID must be non-empty hex") (fun id =>
  r ← engine_call (Engine.CreateElection now subject (new_election id req));
  or_respond r create_failed (fun _ => respond_election StatusOK id))).

(** [listElections] and [getElection] *)
Definition listElections : handler := fun _ _ _ _ =>
  r ← engine_call Engine_ListElections;
  or_respond r (WithErr ErrGenericInternalServerError) (fun els =>
  mret (httpWriteJSON (BodyElections (electionResponse <$> els)))).

Definition getElection : handler := fun _ _ _ ps =>
  or_respond (electionIDFromURL ps) (WithErr ErrMalformedParam) (fun id =>
  r ← engine_call (Engine_Election id);
  or_respond r (WithErr ErrElectionNotFound) (fun el =>
  mret (httpWriteJSON (BodyElection (electionResponse el))))).

(** [setElectionStatus] *)
Definition settableStatuses : list (string * Status) :=
  (fun st => (Status_String st, st)) <$> [StatusActive; StatusPaused; StatusEnded; StatusCanceled].

Definition settable (s : string) : result Status :=
  of_option (snd ∘ snd <$> list_find (fun p => p.1 = s) settableStatuses) errorf.

Definition setElectionStatus : handler := fun now subject rq ps =>
  or_respond (electionIDFromURL ps) (WithErr ErrMalformedParam) (fun id =>
  or_respond (httpReadJSON decode_status rq) (WithErr ErrMalformedBody) (fun req =>
  or_respond (settable (sr_Status req))
    (fun _ => With ErrMalformedParam "status must be active, paused, ended or canceled") (fun st =>
  r ← engine_call (SetStatus now subject id st);
  or_respond r engineError (fun _ => respond_election StatusOK id)))).

(** [newVote] and [getVote] (votes.go) *)
Definition newVote : handler := fun now _ rq ps =>
  or_respond (electionIDFromURL ps) (WithErr ErrMalformedParam) (fun id =>
  or_respond (httpReadJSON decode_vote rq) (WithErr ErrMalformedBody) (fun sub =>
  r ← engine_call (SubmitVote Validate now id sub);
  or_respond r engineError (fun v =>
  mret (httpWriteJSON (BodyReceipt (VoteID_String (v_ID v)) "accepted"))))).

Definition getVote : handler := fun _ _ _ ps =>
  or_respond (electionIDFromURL ps) (WithErr ErrMalformedParam) (fun id =>
  or_respond (voteIDFromURL ps) (WithErr ErrMalformedParam) (fun voteID =>
  r ← engine_call (VoteRecord id voteID);
  or_respond r (WithErr ErrVoteNotFound) (fun p =>
  mret (httpWriteJSON (BodyVote (VoteID_String (v_ID p.1)) (VoteStatus_String p.2) (v_Seq p.1)))))).

(** [encryptedResults], [decryptionKey] and [results] (results.go) *)
Definition encryptedResults : handler := fun _ _ _ ps =>
  or_respond (electionIDFromURL ps) (WithErr ErrMalformedParam) (fun id =>
  r ← engine_call (EncryptedResults_ id);
  or_respond r (WithErr ErrResultsNotReady) (fun ct =>
  mret (httpWriteJSON (BodyEncrypted (ElectionID_String id) ct)))).

Definition decryptionKey : handler := fun now subject rq ps =>
  or_respond (electionIDFromURL ps) (WithErr ErrMalformedParam) (fun id =>
  or_respond (httpReadJSON decode_key rq) (WithErr ErrMalformedBody) (fun req =>
  or_respond (of_option (SetString 16 (TrimPrefix (lit (kr_Key req)) (lit "0x"))) errorf)
    (fun _ => With ErrMalformedParam "key must be 0x big-endian hex") (fun key =>
  r ← engine_call (SubmitDecryptionKey now subject id key);
  or_respond r engineError (fun _ => respond_election StatusAccepted id)))).

Definition results : handler := fun _ _ _ ps =>
  or_respond (electionIDFromURL ps) (WithErr ErrMalformedParam) (fun id =>
  r ← engine_call (Engine_Results id);
  or_respond r (WithErr ErrResultsNotReady) (fun res =>
  mret (httpWriteJSON (BodyResults (resultsResponse res))))).

(** [listWorkers], [registerWorker] and [removeWorker] (workers.go) *)
Definition listWorkers : handler := fun now _ _ _ =>
  w ← get_st;
  mret (httpWriteJSON (BodyWorkers
    (match w_pool w with Some p => ListWorkerStats WorkerID now p | None => [] end))).

Definition check_worker (req : WorkerRegisterRequest) : Error + unit :=
  if decide (wq_Address req = ""%string) then inl (With ErrMalformedWorkerInfo "missing worker address")
  else
    match url_Parse (wq_Address req) with
    | Some (scheme, host) =>
        if decide ((scheme = "http" \/ scheme = "https") /\ host <> "")%string then inr tt
        else inl (With ErrMalformedWorkerInfo "worker address must be an http(s) URL")
    | None => inl (With ErrMalformedWorkerInfo "worker address must be an http(s) URL")
    end.

(** The worker object as it now is. *)
Definition respond_worker (now : time) (l : nat) : stE W Response := fun w =>
  match w_pool w ≫= fun p => wm_objects p !! l with
  | Some o => (Ok (httpWriteJSON (BodyWorker (Info WorkerID now DefaultWorkerBanRules o))), w)
  | None => (Err [Panic], w)
  end.

Definition registerWorker : handler := fun now subject rq _ =>
  w ← get_st;
  match w_pool w with
  | None => mret (write_error (With ErrGenericInternalServerError "no worker pool configured"))
  | Some _ =>
      or_respond (httpReadJSON decode_worker rq) (WithErr ErrMalformedBody) (fun req =>
      match check_worker req with
      | inl e => mret (write_error e)
      | inr _ =>
          r ← engine_call (RegisterWorker now subject (wq_Address req) (wq_Name req));
          or_respond r (WithErr ErrGenericInternalServerError) (respond_worker now)
      end)
  end.

Definition removeWorker : handler := fun now subject _ ps =>
  w ← get_st;
  match w_pool w with
  | None => mret (write_error ErrWorkerNotFound)
  | Some _ =>
      r ← engine_call (RemoveWorker WorkerID now subject (ps "workerID"));
      or_respond r engineError (fun _ => mret httpWriteOK)
  end.
End handlers.

(** ** The routes (routes.go, api.go) *)

Definition PingEndpoint : string := "/ping".
Definition InfoEndpoint : string := "/info".
Definition ElectionsEndpoint : string := "/elections".
Definition ElectionEndpoint : string := "/elections/{id}".
Definition ElectionStatusEndpoint : string := "/elections/{id}/status".
Definition VotesEndpoint : string := "/elections/{id}/votes".
Definition VoteEndpoint : string := "/elections/{id}/votes/{voteID}".
Definition EncryptedResultsEndpoint : string := "/elections/{id}/encrypted-results".
Definition DecryptionKeyEndpoint : string := "/elections/{id}/decryption-key".
Definition ResultsEndpoint : string := "/elections/{id}/results".
Definition WorkersEndpoint : string := "/workers".
Definition WorkerRegisterEndpoint : string := "/workers/register".
Definition WorkerEndpoint : string := "/workers/{workerID}".

(** [LogRedactedRoutes] *)
Definition LogRedactedRoutes : list (string * string) := [(MethodPost, DecryptionKeyEndpoint)].

Section serve.
Context {D : Type} `{ADB D} `{Chain} `{!SchedulerOps D} `{!Http}.
Context (Validate : voteRules -> VoteSubmission -> result voteProofBundle).
Context (WorkerID : string -> string).
Abbreviation W := (World D).

(** A registered route; with a role, its handler runs behind [jwtAuth]. *)
Record Route := MkRoute {
  ro_method : string;
  ro_pattern : string;
  ro_role : option string;
  ro_handler : handler (D := D);
}.

(** [registerHandlers] *)
Definition routes (a : API) : list Route :=
  [MkRoute MethodGet PingEndpoint None ping;
   MkRoute MethodGet InfoEndpoint None (info WorkerID a);
   MkRoute MethodPost ElectionsEndpoint (Some RoleAdmin) createElection;
   MkRoute MethodGet ElectionsEndpoint None listElections;
   MkRoute MethodGet ElectionEndpoint None getElection;
   MkRoute MethodPost ElectionStatusEndpoint (Some RoleAdmin) setElectionStatus;
   MkRoute MethodPost VotesEndpoint None (newVote Validate);
   MkRoute MethodGet VoteEndpoint None getVote;
   MkRoute MethodGet EncryptedResultsEndpoint (Some RoleKeywarden) encryptedResults;
   MkRoute MethodPost DecryptionKeyEndpoint (Some RoleKeywarden) decryptionKey;
   MkRoute MethodGet ResultsEndpoint None results;
   MkRoute MethodGet WorkersEndpoint None (listWorkers WorkerID);
   MkRoute MethodPost WorkerRegisterEndpoint (Some RoleAdmin) (registerWorker WorkerID);
   MkRoute MethodDelete WorkerEndpoint (Some RoleAdmin) (removeWorker WorkerID)].

Definition endpoint (r : Route) : string * string := (ro_method r, ro_pattern r).

(** The route of a request, with the parameters of its path. *)
Definition routed (a : API) (rq : Request) : option (Route * (string -> string)) :=
  p ← Find (endpoint <$> routes a) (rq_Method rq) (rq_Path rq);
  r ← list_find (fun r => endpoint r = (rq_Method rq, p.1)) (routes a);
  Some (r.2, p.2).

(** [middleware.Recoverer] *)
Definition Recoverer (m : stE W Response) : stE W Response :=
  r ← attempt m;
  match r with
  | Ok resp => mret resp
  | Err e =>
      if errors_Is e Panic then mret (MkResponse StatusInternalServerError BodyEmpty) else throw e
  end.

(** A request through the router. *)
Definition handle (a : API) (now : time) (rq : Request) : stE W Response :=
  match routed a rq with
  | None => mret (MkResponse (NoRoute (rq_Method rq) (rq_Path rq)) BodyEmpty)
  | Some (r, ps) =>
      match ro_role r with
      | None => ro_handler r now "" rq ps
      | Some role =>
          match jwtAuth a now role rq with
          | inl resp => mret resp
          | inr subject => ro_handler r now subject rq ps
          end
      end
  end.
Definition serve (a : API) (now : time) (rq : Request) : stE W Response :=
  Recoverer (handle a now rq).

(** ** Logging (middleware.go) *)

(** A line of the log: an error, a request, what a handler writes, and the
    response. *)
Inductive LogLine :=
  | LogFailure
  | LogRequest (method path : string) (body : bytes)
  | LogData (b : Body)
  | LogResponse (method path : string) (status : Z).

(** [redactedRoute] *)
Definition redactedRoute (a : API) (rq : Request) : bool :=
  match Find (endpoint <$> routes a) (rq_Method rq) (rq_Path rq) with
  | None => true
  | Some (pattern, _) => bool_decide (pattern = ""%string \/ (rq_Method rq, pattern) ∈ LogRedactedRoutes)
  end.

(** [jsonRegex]: a brace or a bracket after white space. *)
Fixpoint json_start (b : bytes) : bool :=
  match b with
  | [] => false
  | c :: b =>
      if bool_decide (Byte.to_N c ∈ [9; 10; 12; 13; 32]%N) then json_start b
      else bool_decide (Byte.to_N c ∈ [91; 123]%N)
  end.

Definition drop_quotes (b : bytes) : bytes := filter (fun c => c <> x22) b.

(** What is logged of the bytes read ahead. *)
Definition logged_body (read : bytes) : bytes :=
  if json_start read then
    drop_quotes (if (maxRequestBodyLog <? length read)%nat
                 then take maxRequestBodyLog read ++ lit "..." else read)
  else [].

(** The part of a body that is read ahead, one byte more than is logged: what of
    it is logged, and the request the handlers get, which reads those bytes and
    then the others.  It may fail. *)
Definition read_ahead (rq : Request) : result (bytes * Request) :=
  if (0 <? rq_ContentLength rq)%Z then
    read ← ReadAll (LimitReader (S maxRequestBodyLog) (rq_Body rq));
    Ok (logged_body read,
        MkRequest (rq_Method rq) (rq_Path rq) (rq_Authorization rq) (rq_ContentLength rq)
          (after_reading read (rq_Body rq)))
  else Ok ([], rq).

(** [responseLogged]: an empty response is never logged. *)
Definition logged_data (redact : bool) (b : Body) : list LogLine :=
  match b with
  | BodyEmpty => []
  | _ => if redact then [] else [LogData b]
  end.

(** [loggingMiddleware] around the other middleware; [debug] is unset when
    logging is disabled or not at the debug level. *)
Definition loggingMiddleware (debug : bool) (a : API) (now : time) (rq : Request) :
    stE W (Response * list LogLine) :=
  if negb debug then resp ← serve a now rq; mret (resp, [])
  else
    let redact := redactedRoute a rq in
    match (if redact then Ok (lit "(redacted)", rq) else read_ahead rq) with
    | Err _ => mret (MkResponse StatusInternalServerError (BodyText "unable to read request body"), [LogFailure])
    | Ok (bodyStr, rq') =>
        resp ← serve a now rq';
        mret (resp, LogRequest (rq_Method rq) (rq_Path rq) bodyStr :: logged_data redact (rp_body resp)
                    ++ [LogResponse (rq_Method rq) (rq_Path rq) (rp_status resp)])
    end.
End serve.
