(* ===== verification/ApiProps.v ===== *)
(** * Properties of the HTTP API

    A request is a sequence of the engine's operations, reads change nothing,
    changes need a token of the right role, every response is well formed, and
    what carries a secret is not logged. *)

From S2P Require Import Prelude Errors Effects Bytes Types Records KV Keys Artifacts Storage.
From S2P Require Import StorageRefine StorageSpec StorageProps Workers Sdk Config Validate Seal.
From S2P Require Import Engine Finalize Lifecycle LifecycleProps LifecycleSpec Ingest Submissions.
From S2P Require Import EngineSteps ApiErrors Api.
From Stdlib Require Import Strings.Byte.

(** ** Keeping a relation through a handler *)

Section via.
Context {D : Type} `{ADB D} `{Chain} (R : relation (World D)) `{!PreOrder R}.
Abbreviation W := (World D).

Lemma via_get_st : via R (get_st : stE W W).
Proof. by apply (via_gets R (fun w => w)). Qed.

Lemma via_engine_call {A} (m : stE W A) : via R m -> via R (engine_call m).
Proof.
  intros Hm. unfold engine_call. apply via_bind; [apply _|by apply via_attempt|].
  intros [a|e]; [by apply via_ret|]. case_match; [by apply via_throw|by apply via_ret].
Qed.

Lemma via_or_respond {A} (r : result A) fail (k : A -> stE W Response) :
  (forall a, via R (k a)) -> via R (or_respond r fail k).
Proof. intros Hk. destruct r as [a|e]; [apply Hk|by apply via_ret]. Qed.
End via.

#[export] Hint Resolve via_get_st : via.

(** Take a handler apart down to the calls of the engine. *)
Ltac handler_step :=
  lazymatch goal with
  | |- via _ (or_respond _ _ _) => apply via_or_respond; [apply _|intros ?]
  | |- via _ (engine_call _) => apply via_engine_call; [apply _|]
  | |- via _ get_st => apply via_get_st; apply _
  | |- via _ (_ ≫= _) => apply via_bind; [apply _| |intros ?]
  | |- via _ (mret _) => apply via_ret; apply _
  | |- via _ (match ?x with _ => _ end) => destruct x
  end.
Ltac handler := repeat handler_step.

(** ** Reads *)

Section reads.
Context `{SchedulerOps TypedDB} `{!Http}.
Context (Validate : voteRules -> VoteSubmission -> result voteProofBundle).
Context (WorkerID : string -> string).
Abbreviation W := (World TypedDB).

Lemma reads_on_store {A} (m : stE TStorage A) : (forall t, (m t).2 = t) -> via eq (on_store m : stE W A).
Proof. intros Hm w. unfold on_store, zoom. specialize (Hm (env_store (w_env w))).
  destruct (m _) as [r t]. cbn in *. subst t. by destruct w as [[]]. Qed.

Lemma reads_Election id : via eq (Engine_Election id : stE W Election).
Proof.
  unfold Engine_Election. apply via_bind; [apply _| |intros el; by via].
  apply reads_on_store. intros t. apply load_state.
Qed.
Lemma reads_ListElections : via eq (Engine_ListElections : stE W (list Election)).
Proof.
  unfold Engine_ListElections. apply via_bind; [apply _| |intros el; by via].
  apply reads_on_store. intros t. apply list_all_state.
Qed.
Lemma reads_VoteRecord id v : via eq (VoteRecord id v : stE W (Vote * VoteStatus)).
Proof.
  unfold VoteRecord. apply via_bind; [apply _|apply reads_on_store; intros t; apply load_state|].
  intros v'. apply via_bind; [apply _|apply reads_on_store; intros t; apply load_state|]. intros st. by via.
Qed.
Lemma reads_Results id : via eq (Engine_Results id : stE W Results).
Proof. apply reads_on_store. intros t. apply load_state. Qed.
Lemma reads_EncryptedResults id : via eq (EncryptedResults_ id : stE W (list string)).
Proof.
  unfold EncryptedResults_. apply via_bind; [apply _|apply reads_on_store; intros t; apply load_state|].
  intros el. apply via_bind; [apply _|apply via_throw_if, _|]. intros _.
  apply via_bind; [apply _|apply via_gets, _|]. intros [l|]; [|apply via_throw, _].
  intros w. unfold with_rt. destruct (w_heap w !! l) as [rt|] eqn:E; [|done].
  cbn. rewrite insert_id by done. by destruct w.
Qed.

Lemma reads_respond status id : via eq (respond_election status id : stE W Response).
Proof. unfold respond_election. handler. apply reads_Election. Qed.

(** The handlers of the GET routes. *)
Definition reads_only (r : Route (D := TypedDB)) : Prop :=
  ro_method r = MethodGet -> forall now sub rq ps, via eq (ro_handler r now sub rq ps).

Lemma GET_routes_read a : Forall reads_only (routes Validate WorkerID a).
Proof.
  unfold routes. repeat apply List.Forall_cons; try apply List.Forall_nil; unfold reads_only;
    cbn [ro_method ro_handler]; intros Hm; try discriminate Hm; intros now sub rq ps.
  - apply via_ret, _.
  - unfold info. handler. apply reads_ListElections.
  - unfold listElections. handler. apply reads_ListElections.
  - unfold getElection. handler. apply reads_Election.
  - unfold getVote. handler. apply reads_VoteRecord.
  - unfold encryptedResults. handler. apply reads_EncryptedResults.
  - unfold results. handler. apply reads_Results.
  - unfold listWorkers. by handler.
Qed.

Lemma routed_route a rq r ps : routed Validate WorkerID a rq = Some (r, ps) ->
  r ∈ routes Validate WorkerID a /\ ro_method r = rq_Method rq.
Proof.
  unfold routed. destruct (Find _ _ _) as [[pat ps']|]; [|done]. cbn [mbind option_bind].
  match goal with |- context [list_find ?P ?l] => destruct (list_find P l) as [[i r']|] eqn:Ef end;
    [|done].
  intros [= <- <-].
  apply list_find_Some in Ef as (Hi & [= He] & _). split; [by eapply list_elem_of_lookup_2|done].
Qed.

Lemma via_serve (R : relation W) `{!PreOrder R} a now rq :
  via R (handle Validate WorkerID a now rq) -> via R (serve Validate WorkerID a now rq).
Proof.
  intros Hm. unfold serve, Recoverer. apply via_bind; [apply _|by apply via_attempt|].
  intros [resp|e]; [apply via_ret, _|]. destruct (errors_Is e Panic); [apply via_ret, _|apply via_throw, _].
Qed.

(** A relation the handlers of a request's route keep. *)
Lemma via_handle (R : relation W) `{!PreOrder R} a now rq :
  (forall r ps sub, routed Validate WorkerID a rq = Some (r, ps) -> via R (ro_handler r now sub rq ps)) ->
  via R (handle Validate WorkerID a now rq).
Proof.
  intros Hr. unfold handle. destruct (routed _ _ _ _) as [[r ps]|] eqn:E; [|apply via_ret, _].
  destruct (ro_role r) as [role|]; [|by apply Hr].
  destruct (jwtAuth _ _ _ _) as [resp|sub]; [apply via_ret, _|by apply Hr].
Qed.

Lemma GET_reads a now rq (w : W) :
  rq_Method rq = MethodGet -> (serve Validate WorkerID a now rq w).2 = w.
Proof.
  intros Hg. symmetry. revert w. change (via eq (serve Validate WorkerID a now rq)).
  apply via_serve, via_handle; [apply _..|]. intros r ps sub [Hin Hm]%routed_route.
  pose proof (GET_routes_read a) as Hf. rewrite Forall_forall in Hf. apply (Hf r Hin). congruence.
Qed.
End reads.

(** ** A request as a sequence of engine steps *)

Section engine_steps.
Context `{SchedulerOps TypedDB} `{!Http}.
Context (Validate : voteRules -> VoteSubmission -> result voteProofBundle).
Context (WorkerID : string -> string).
Abbreviation W := (World TypedDB).
Abbreviation steps := (rtc (eng_step Validate WorkerID)).

Lemma steps_read {A} (m : stE W A) : via eq m -> via steps m.
Proof. intros Hm w. by rewrite <- (Hm w). Qed.

Lemma steps_submission n now id sub p (w : W) : steps w (submit_steps Validate n now id sub p w).2.
Proof.
  revert p w. induction n as [|n IH]; intros p w; [done|]. cbn [submit_steps].
  pose proof (EngSubmission Validate WorkerID now id sub p w) as Hs.
  destruct (submit_step _ _ _ _ _ _) as [p' w']. eapply rtc_l; [exact Hs|apply IH].
Qed.

Lemma steps_SubmitVote now id sub : via steps (SubmitVote Validate now id sub : stE W Vote).
Proof.
  intros w. pose proof (SubmitVote_steps Validate now id sub w) as Hs.
  destruct (SubmitVote Validate now id sub w) as [r w'].
  change w' with (PDone r, w').2. rewrite <- Hs. apply steps_submission.
Qed.

(** Every handler makes engine steps only. *)
Definition makes_steps (r : Route (D := TypedDB)) : Prop :=
  forall now sub rq ps, via steps (ro_handler r now sub rq ps).

Lemma steps_respond status id : via steps (respond_election status id : stE W Response).
Proof. apply steps_read, reads_respond. Qed.

Lemma GET_steps r : reads_only r -> ro_method r = MethodGet -> makes_steps r.
Proof. intros Hr Hg now sub rq ps. by apply steps_read, Hr. Qed.

Lemma routes_make_steps a : Forall makes_steps (routes Validate WorkerID a).
Proof.
  pose proof (GET_routes_read Validate WorkerID a) as Hg. revert Hg. unfold routes. rewrite !Forall_cons.
  intros Hg. repeat match type of Hg with _ /\ _ => destruct Hg as [? Hg] end.
  repeat apply conj; try apply List.Forall_nil; try (by apply GET_steps); unfold makes_steps; cbn [ro_handler]; intros now sub rq ps.
  - unfold createElection. handler; [intros w; apply rtc_once, EngCreate|apply steps_respond].
  - unfold setElectionStatus. handler; [intros w; apply rtc_once, EngSetStatus|apply steps_respond].
  - unfold newVote. handler. apply steps_SubmitVote.
  - unfold decryptionKey. handler; [intros w; apply rtc_once, EngKey|apply steps_respond].
  - unfold registerWorker. handler; [intros w'; apply rtc_once, EngRegisterWorker|].
    apply via_state; [apply _|]. intros w'. unfold respond_worker. by destruct (_ ≫= _).
  - unfold removeWorker. handler. intros w'. apply rtc_once, EngRemoveWorker.
Qed.

Lemma serve_steps a now rq : via steps (serve Validate WorkerID a now rq : stE W Response).
Proof.
  apply via_serve, via_handle; [apply _..|]. intros r ps sub [Hin _]%routed_route.
  pose proof (routes_make_steps a) as Hf. rewrite Forall_forall in Hf. by apply (Hf r Hin).
Qed.
End engine_steps.

(** C10: a request served by the API is a sequence of the engine's operations,
    whatever the request and however it ends: what holds of every sequence of
    them, such as the lifecycle of the statuses, holds of the API.  A vote is
    the steps of one submission. *)
Theorem serve_is_engine_steps `{SchedulerOps TypedDB} `{!Http} Validate WorkerID a now rq (w : World TypedDB) :
  rtc (eng_step Validate WorkerID) w (serve Validate WorkerID a now rq w).2.
Proof. apply serve_steps. Qed.

(** ** Responses *)

(** A response the API defines: an error with the code and the status of a
    defined one, an empty success, or a success with a body that marshals. *)
Definition well_formed (resp : Response) : Prop :=
  match rp_body resp with
  | BodyError e => rp_status resp = e_HTTPstatus e /\ declared e = true
  | BodyEmpty => rp_status resp = StatusOK
  | BodyText _ => False
  | b => (rp_status resp = StatusOK \/ rp_status resp = StatusAccepted) /\ marshals b = true
  end.

Lemma wf_error e : declared e = true -> well_formed (write_error e).
Proof. by intros He. Qed.

Lemma wf_json status b : b <> BodyEmpty -> (forall e, b <> BodyError e) -> (forall t, b <> BodyText t) ->
  status = StatusOK \/ status = StatusAccepted -> well_formed (httpWriteJSONStatus status b).
Proof.
  intros He Hb Ht Hs. unfold httpWriteJSONStatus. destruct (marshals b) eqn:E; [|by apply wf_error].
  unfold well_formed. cbn [rp_body rp_status]. destruct b; try done; [by destruct (Hb e)|by destruct (Ht text)].
Qed.

Section answers.
Context `{SchedulerOps TypedDB} `{!Http}.
Context (Validate : voteRules -> VoteSubmission -> result voteProofBundle).
Context (WorkerID : string -> string).
Abbreviation W := (World TypedDB).

(** A handler that answers with a well-formed response, unless it panics or
    never returns. *)
Definition answers (m : stE W Response) : Prop := forall w,
  match (m w).1 with
  | Ok resp => well_formed resp
  | Err e => errors_Is e Panic || errors_Is e Diverges = true
  end.

Lemma answers_ret resp : well_formed resp -> answers (mret resp).
Proof. by intros Hw w. Qed.

Lemma answers_call {A} (m : stE W A) (f : result A -> stE W Response) :
  (forall r, answers (f r)) -> answers (r ← engine_call m; f r).
Proof.
  intros Hf w. unfold engine_call, mbind, stE_bind, attempt. destruct (m w) as [[a|e] w'].
  - exact (Hf (Ok a) w').
  - destruct (errors_Is e Panic || errors_Is e Diverges) eqn:E; [exact E|exact (Hf (Err e) w')].
Qed.

Lemma answers_get_st (f : W -> stE W Response) : (forall w, answers (f w)) -> answers (w ← get_st; f w).
Proof. intros Hf w. exact (Hf w w). Qed.

Lemma answers_or_respond {A} (r : result A) fail (k : A -> stE W Response) :
  (forall e, declared (fail e) = true) -> (forall a, answers (k a)) -> answers (or_respond r fail k).
Proof. intros Hd Hk. destruct r as [a|e]; [apply Hk|apply answers_ret, wf_error, Hd]. Qed.

Lemma declared_create_failed e : declared (create_failed e) = true.
Proof. unfold create_failed. by destruct (errors_Is e _). Qed.

Lemma declared_check_worker req e : check_worker req = inl e -> declared e = true.
Proof.
  unfold check_worker. repeat case_match; intros E; first [discriminate E|injection E as <-; reflexivity].
Qed.
End answers.

Ltac answer_step :=
  lazymatch goal with
  | |- answers (or_respond _ _ _) => apply answers_or_respond; intros ?
  | |- answers (_ ← engine_call _; _) => apply answers_call; intros ?
  | |- answers (_ ← get_st; _) => apply answers_get_st; intros ?
  | |- answers (mret (write_error _)) => apply answers_ret, wf_error
  | |- answers (mret httpWriteOK) => by apply answers_ret
  | |- answers (mret (httpWriteJSON _)) => apply answers_ret, wf_json; [done|done|done|by left]
  | |- answers (match check_worker ?x with _ => _ end) => destruct (check_worker x) eqn:?
  | |- answers (match ?x with _ => _ end) => destruct x
  | |- declared _ = true => first [apply declared_engineError | by eapply declared_check_worker | apply declared_create_failed | reflexivity]
  end.
Ltac answer := repeat answer_step.

Section responses.
Context `{SchedulerOps TypedDB} `{!Http}.
Context (Validate : voteRules -> VoteSubmission -> result voteProofBundle).
Context (WorkerID : string -> string).
Abbreviation W := (World TypedDB).

Lemma answers_election status id : status = StatusOK \/ status = StatusAccepted ->
  answers (respond_election status id : stE W Response).
Proof. intros Hs. unfold respond_election. answer. by apply answers_ret, wf_json. Qed.

Lemma routes_answer a :
  Forall (fun r => forall now sub rq ps, answers (ro_handler r now sub rq ps)) (routes Validate WorkerID a).
Proof.
  unfold routes. repeat apply List.Forall_cons; try apply List.Forall_nil; cbn [ro_handler]; intros now sub rq ps.
  - by apply answers_ret.
  - unfold info. answer.
  - unfold createElection. answer. apply answers_election. by left.
  - unfold listElections. answer.
  - unfold getElection. answer.
  - unfold setElectionStatus. answer. apply answers_election. by left.
  - unfold newVote. answer.
  - unfold getVote. answer.
  - unfold encryptedResults. answer.
  - unfold decryptionKey. answer. apply answers_election. by right.
  - unfold results. answer.
  - unfold listWorkers. answer.
  - unfold registerWorker. answer. intros w'. unfold respond_worker.
    destruct (_ ≫= _); [|done]. by apply wf_json; [..|left].
  - unfold removeWorker. answer.
Qed.

Lemma answers_handle a now rq (w : W) :
  match (handle Validate WorkerID a now rq w).1 with
  | Ok resp => if routed Validate WorkerID a rq then well_formed resp else rp_body resp = BodyEmpty
  | Err e => errors_Is e Panic || errors_Is e Diverges = true
  end.
Proof.
  unfold handle. destruct (routed _ _ _ _) as [[r ps]|] eqn:E; [|done].
  assert (forall sub, answers (ro_handler r now sub rq ps)) as Ha.
  { intros sub. apply routed_route in E as [Hin _].
    pose proof (routes_answer a) as Hf. rewrite Forall_forall in Hf. by apply (Hf r Hin). }
  destruct (ro_role r) as [role|].
  - destruct (jwtAuth _ _ _ _) as [resp|sub] eqn:Ej.
    + change (well_formed resp). unfold jwtAuth in Ej. repeat case_match; first [discriminate Ej|by injection Ej as <-].
    + apply (Ha sub w).
  - apply (Ha "" w).
Qed.
End responses.


(** ** Authorisation *)

(** What the JWT library guarantees: a token it takes for valid is signed by
    its method with the key it was given for that method. *)
Class HttpLaws `{Http} := {
  Signed : SigningMethod -> bytes -> string -> MapClaims -> Prop;
  ParseWithClaims_signed now raw key c : ParseWithClaims now raw key = Some (c, true) ->
    exists m k, key m = Some k /\ Signed m k raw c;
}.

(** A request with a bearer token, signed with the API's secret by an HMAC
    method and not expired, of the role. *)
Definition authorized `{HttpLaws} (a : API) (now : time) (role : string) (rq : Request) : Prop :=
  exists m c, IsHMAC m = true
    /\ Signed m (jwtSecret a) (String.string_of_list_byte (bearerToken rq)) c
    /\ VerifyExpiresAt c (Unix now) true = true /\ claim_string c "role" = role.

Lemma jwtAuth_authorized `{HttpLaws} a now role rq sub :
  jwtAuth a now role rq = inr sub -> authorized a now role rq.
Proof.
  unfold jwtAuth. case_decide; [done|].
  destruct (ParseWithClaims _ _ _) as [[c []]|] eqn:Ep; [|done|done].
  destruct (VerifyExpiresAt _ _ _) eqn:Ev; [|done]. cbn [negb]. case_decide as Hr; [|done]. intros _.
  apply ParseWithClaims_signed in Ep as (m & k & Hk & Hs). unfold keyfunc in Hk.
  destruct (IsHMAC m) eqn:Em; [|done]. injection Hk as <-. by exists m, c.
Qed.

(** The routes that may change something, and who may use them. *)
Definition guarded `{SchedulerOps TypedDB} `{!Http} (r : Route (D := TypedDB)) : bool :=
  bool_decide (ro_method r = MethodGet) || bool_decide (endpoint r = (MethodPost, VotesEndpoint))
  || bool_decide (ro_role r = Some RoleAdmin)
  || bool_decide (ro_role r = Some RoleKeywarden /\ endpoint r = (MethodPost, DecryptionKeyEndpoint)).

Lemma routes_guarded `{SchedulerOps TypedDB} `{!Http} Validate WorkerID a :
  Forall (fun r => guarded r = true) (routes Validate WorkerID a).
Proof. repeat apply List.Forall_cons; try apply List.Forall_nil; reflexivity. Qed.

(** C15: without a valid token the only request that changes the engine is the
    submission of a vote: everything else takes a token signed with the API's
    secret, not expired, and of the admin role, or of the keywarden's for the
    decryption key. *)
Theorem changes_need_a_token `{SchedulerOps TypedDB} `{!Http} `{!HttpLaws} Validate WorkerID a now rq
    (w : World TypedDB) :
  (serve Validate WorkerID a now rq w).2 = w \/
  exists r ps, routed Validate WorkerID a rq = Some (r, ps) /\
    (endpoint r = (MethodPost, VotesEndpoint) \/ authorized a now RoleAdmin rq \/
     (endpoint r = (MethodPost, DecryptionKeyEndpoint) /\ authorized a now RoleKeywarden rq)).
Proof.
  destruct (routed Validate WorkerID a rq) as [[r ps]|] eqn:Er.
  2:{ left. unfold serve, handle. by rewrite Er. }
  pose proof (routed_route _ _ _ _ _ _ Er) as [Hin Hm].
  pose proof (routes_guarded Validate WorkerID a) as Hg. rewrite Forall_forall in Hg. specialize (Hg r Hin).
  destruct (decide (ro_method r = MethodGet)) as [Hget|Hget].
  { left. apply GET_reads. congruence. }
  destruct (decide (endpoint r = (MethodPost, VotesEndpoint))) as [Hv|Hv]; [right; exists r, ps; auto|].
  unfold guarded in Hg. rewrite (bool_decide_eq_false_2 _ Hget), (bool_decide_eq_false_2 _ Hv) in Hg. cbn in Hg.
  assert (forall role, ro_role r = Some role ->
    (serve Validate WorkerID a now rq w).2 = w \/ authorized a now role rq) as Hj.
  { intros role Ero. destruct (jwtAuth a now role rq) as [resp|sub] eqn:Ej; [left|right; by eapply jwtAuth_authorized].
    unfold serve, handle. by rewrite Er, Ero, Ej. }
  apply orb_true_iff in Hg as [Hr|Hr]; apply bool_decide_eq_true in Hr.
  - destruct (Hj _ Hr) as [Hw|Ha]; [by left|right; exists r, ps; auto].
  - destruct Hr as [Hr He]. destruct (Hj _ Hr) as [Hw|Ha]; [by left|right; exists r, ps; auto].
Qed.

(** ** Logging *)

(** The read-ahead fails when the body breaks off within it. *)
Definition unreadable (rq : Request) : Prop :=
  (0 < rq_ContentLength rq)%Z /\ st_broken (rq_Body rq) = true /\
  (length (st_bytes (rq_Body rq)) <= maxRequestBodyLog)%nat.

(** What may be shown of a body: nothing, all of a body that fits, or its first
    512 bytes and an ellipsis; without its quotes. *)
Definition shown (body : bytes) (text : bytes) : Prop :=
  text = [] \/
  (length body <= maxRequestBodyLog)%nat /\ text = drop_quotes body \/
  (maxRequestBodyLog < length body)%nat /\ text = drop_quotes (take maxRequestBodyLog body ++ lit "...").

Lemma after_reading_same n s : after_reading (take n (st_bytes s)) s = s.
Proof.
  destruct s as [b f]. unfold after_reading. cbn [st_bytes st_broken]. f_equal. rewrite length_take.
  destruct (decide (n <= length b)%nat) as [Hl|Hl].
  - by rewrite Nat.min_l, take_drop by done.
  - rewrite Nat.min_r, take_ge, drop_all by lia. apply app_nil_r.
Qed.

Lemma read_ahead_run rq :
  match read_ahead rq with
  | Err _ => unreadable rq
  | Ok (text, rq') => rq' = rq /\ ~ unreadable rq /\ shown (st_bytes (rq_Body rq)) text
  end.
Proof.
  unfold read_ahead, unreadable. destruct (Z.ltb_spec 0 (rq_ContentLength rq)) as [Hc|Hc].
  2:{ split; [done|]. split; [lia|by left]. }
  unfold ReadAll, LimitReader. cbn [st_bytes st_broken].
  destruct (Nat.ltb_spec (length (st_bytes (rq_Body rq))) (S maxRequestBodyLog)) as [Hl|Hl];
    destruct (st_broken (rq_Body rq)) eqn:Eb; cbn [andb]; cbn -[take logged_body maxRequestBodyLog].
  - split_and!; [done|done|lia].
  - rewrite after_reading_same. split; [by destruct rq|]. split; [naive_solver|].
    rewrite take_ge by lia. unfold shown, logged_body. destruct (json_start _); [|by left]. right. left.
    assert ((maxRequestBodyLog <? length (st_bytes (rq_Body rq)))%nat = false) as -> by (apply Nat.ltb_ge; lia).
    split; [lia|done].
  - rewrite after_reading_same. split; [by destruct rq|]. split; [lia|].
    unfold shown, logged_body. destruct (json_start _); [|by left]. right. right. split; [lia|].
    rewrite length_take, Nat.min_l by done. rewrite (proj2 (Nat.ltb_lt _ _)) by lia.
    by rewrite take_take, Nat.min_l by lia.
  - rewrite after_reading_same. split; [by destruct rq|]. split; [naive_solver|].
    unfold shown, logged_body. destruct (json_start _); [|by left]. right. right. split; [lia|].
    rewrite length_take, Nat.min_l by done. rewrite (proj2 (Nat.ltb_lt _ _)) by lia.
    by rewrite take_take, Nat.min_l by lia.
Qed.


(** ** Listing the elections *)

Lemma elem_of_list_all {A} sc (as_ : Artifact -> result A) (t : TStorage) l k x y :
  (list_all sc as_ t).1 = Ok l -> in_scan sc k -> tmap t !! k = Some x -> as_ x = Ok y -> y ∈ l.
Proof.
  unfold list_all, mbind, stE_bind. rewrite iterate_run. destruct (td_readable (s_db t)); [|done].
  intros [= <-] Hs Hk Hy. unfold decoded. apply list_elem_of_omap. exists (scan_suffix sc k, Some x).
  split; [|cbn; by rewrite Hy]. unfold td_scan. apply list_elem_of_fmap. exists k.
  split; [by rewrite Hk|]. apply elem_of_td_scan_keys. split; [done|by eexists].
Qed.

Lemma list_all_Err {A} sc (as_ : Artifact -> result A) (t : TStorage) e :
  (list_all sc as_ t).1 = Err e -> e = errorf.
Proof.
  unfold list_all, mbind, stE_bind. rewrite iterate_run. destruct (td_readable (s_db t)); [done|].
  by intros [= <-].
Qed.

Lemma unmarshalled opts el l : el ∈ l -> year_ok (el_EndTime el) = false ->
  marshals (BodyElections (electionResponse <$> (withDefaults opts <$> l))) = false.
Proof.
  intros Hin Hy. apply not_true_iff_false. cbn [marshals]. rewrite forallb_forall. intros Hf.
  specialize (Hf (electionResponse (withDefaults opts el))).
  assert (er_EndTime (electionResponse (withDefaults opts el)) = el_EndTime el) as E
    by (unfold withDefaults; by destruct (_ <=? _)%Z).
  unfold election_marshals in Hf. rewrite E, Hy in Hf.
  discriminate Hf. by apply list_elem_of_In, list_elem_of_fmap_2, list_elem_of_fmap_2.
Qed.

Lemma listElections_fails `{SchedulerOps TypedDB} (w : World TypedDB) id el now sub rq ps :
  election_at (wmap w) id = Some el -> year_ok (el_EndTime el) = false ->
  exists resp, (listElections now sub rq ps w).1 = Ok resp /\ rp_status resp = StatusInternalServerError.
Proof.
  intros Hel Hy. assert (tmap (w_store w) !! KElection id = Some (AElection el)) as Hk.
  { unfold election_at, wmap in Hel.
    destruct (tmap (w_store w) !! KElection id) as [[]|]; try discriminate Hel. by injection Hel as ->. }
  unfold listElections, engine_call, Engine_ListElections, mbind, stE_bind, attempt, on_store, zoom, ListElections.
  pose proof (elem_of_list_all ScanElections as_election (w_store w)) as Hin.
  pose proof (list_all_Err ScanElections as_election (w_store w)) as Herr. unfold w_store in *.
  destruct (list_all _ _ _) as [[l|e] t]; cbn in Hin, Herr |- *.
  - specialize (Hin _ (KElection id) _ _ eq_refl I Hk eq_refl). eexists. split; [reflexivity|].
    unfold httpWriteJSON, httpWriteJSONStatus. by rewrite (unmarshalled _ el).
  - rewrite (Herr _ eq_refl). by eexists.
Qed.

(** An election whose end time is in a year past 9999 in UTC, which
    [createElection] accepts, makes the list of the elections unreadable:
    marshalling its end time fails, so GET /elections answers 500 for as long
    as the election is stored. *)
Theorem unlistable_election `{SchedulerOps TypedDB} `{!Http} Validate WorkerID a now rq r ps
    (w : World TypedDB) id el :
  election_at (wmap w) id = Some el -> year_ok (el_EndTime el) = false ->
  routed Validate WorkerID a rq = Some (r, ps) -> endpoint r = (MethodGet, ElectionsEndpoint) ->
  exists resp, (serve Validate WorkerID a now rq w).1 = Ok resp /\
    rp_status resp = StatusInternalServerError.
Proof.
  intros Hel Hy Hr He. assert (ro_handler r = listElections /\ ro_role r = None) as [Eh Ero].
  { apply routed_route in Hr as [Hin _]. assert (Forall (fun r => endpoint r = (MethodGet, ElectionsEndpoint) ->
      ro_handler r = listElections /\ ro_role r = None) (routes Validate WorkerID a)) as Hf.
    { repeat apply List.Forall_cons; try apply List.Forall_nil; intros E; first [by split|discriminate E]. }
    rewrite Forall_forall in Hf. by apply (Hf r Hin). }
  destruct (listElections_fails w id el now "" rq ps Hel Hy) as (resp & E & Hs). exists resp.
  split; [|done]. unfold serve, handle, Recoverer. rewrite Hr, Ero, Eh. unfold mbind, stE_bind, attempt.
  destruct (listElections _ _ _ _ w) as [res w']. cbn in E. by rewrite E.
Qed.
