(* ===== verification/Served.v ===== *)
(** * Published results were checked

    From the start of the engine on, whatever the requests, the sweeps, the
    background work and the dispatch loops do, in any order, the results
    stored of an election come from a finalize of it that checked them. *)

From S2P Require Import Prelude Errors Effects Bytes Types Records KV Keys Artifacts Storage.
From S2P Require Import StorageRefine StorageSpec StorageProps Retries Workers Sdk Config Validate.
From S2P Require Import Seal Frame Chains Engine Finalize Lifecycle LifecycleProps Ingest.
From S2P Require Import EngineSteps Scheduler Fold Scatter JobSteps JobProps ChainInv FoldSpec.
From S2P Require Import ApiErrors Api ApiProps Work.

Section served.
Context `{Provers} `{!Others TypedDB}.
Abbreviation W := (World TypedDB).

(** A finalize of the election with a decryption key gave these results. *)
Definition finalized_by (id : ElectionID) (res : Results) : Prop := exists key state payload,
  State_ResultsPayload state key = Some (payload, rs_Tally res) /\ checked_results id state payload res.

Definition results_ok (m : store) : Prop := forall id a,
  m !! KResults id = Some a -> exists res, a = AResults res /\ finalized_by id res.

(** The time of a record is not part of what was checked. *)
Lemma finalized_by_time id now res : finalized_by id res -> finalized_by id (rs_set_finalized now res).
Proof. intros (key & st & p & Hp & [Hid Hc]). by exists key, st, p. Qed.
Lemma finalized_by_kept id res : finalized_by id res -> finalized_by id (kept_Results res).
Proof. apply finalized_by_time. Qed.

Lemma results_ok_keep (t t' : TStorage) : keep_results t t' -> results_ok (tmap t) -> results_ok (tmap t').
Proof. intros Hk Hr id a Ha. apply Hr. by rewrite <- Hk. Qed.

(** The other goroutines store no unchecked results either. *)
Class CheckedOthers := { others_results n (w : W) : results_ok (wmap w) -> results_ok (wmap (others n w)) }.
Context `{!CheckedOthers}.

Definition still_ok (w w' : W) : Prop := results_ok (wmap w) -> results_ok (wmap w').

#[export] Instance still_ok_pre : PreOrder still_ok.
Proof. split; [by intros w Hr|]. intros w1 w2 w3 K1 K2 Hr. by apply K2, K1. Qed.

Lemma still_same (w w' : W) : wmap w' = wmap w -> still_ok w w'.
Proof. intros E Hr. by rewrite E. Qed.
Lemma still_keep (w w' : W) : keep_results (w_store w) (w_store w') -> still_ok w w'.
Proof. intros Hk Hr. exact (results_ok_keep _ _ Hk Hr). Qed.

Lemma pass_keeps_results {A} (c : call A) (t : TStorage) : pass_call c -> keep_results t (run_call c t).2.
Proof.
  intros Hc id. pose proof (call_effect c t) as He. unfold effect in He.
  assert (forall ws, call_writes c (tmap t) ws -> td_writes ws (tmap t) !! KResults id = tmap t !! KResults id) as Hw.
  { intros ws Hw. destruct c; cbn [pass_call call_writes] in Hc, Hw; break; subst; try done;
      apply td_writes_untouched; untouched. }
  destruct (run_call c t).1; [destruct He as [(ws & Hws & ->)|[_ ->]]; [by apply Hw|done]|by rewrite He].
Qed.

#[export] Instance ok_jobs : PassRel still_ok.
Proof.
  split; try (intros; by apply still_same); [apply _| |].
  - intros d w Hr. apply (others_results (sc_tick (w_sched w))) in Hr. exact Hr.
  - intros A c w Hc. apply still_keep. rewrite on_store_store. by apply pass_keeps_results.
Qed.
#[export] Instance ok_chains : ChainRel still_ok any_chain.
Proof. split; [apply _|..]; intros; by apply still_same. Qed.

(** ** Finalizes *)

Context `{!CalmOthers TypedDB}.

Lemma results_stored_ok id now res (w : W) :
  finalized_by id res -> rs_ElectionID res = id -> still_ok w (on_store (run_call (CSetResults now res)) w).2.
Proof.
  intros Hf Hid Hr. unfold wmap. rewrite on_store_store. cbn [run_call]. unfold SetResults, setArtifact.
  set (r := if IsZero _ then _ else _).
  assert (finalized_by id r /\ rs_ElectionID r = id) as [Hf' Hid'].
  { unfold r. destruct (IsZero _); [|done]. split; [by apply finalized_by_time|done]. }
  clearbody r. match goal with |- context [commit ?ws ?t] => destruct (commit_run ws t) as (t' & -> & Hm & _) end.
  cbn [snd]. rewrite Hm. destruct (next_fault _); [exact Hr|]. intros id' a. cbn [td_writes foldl td_write].
  intros [[Hk <-]|[_ Ha]]%lookup_insert_Some; [|by apply Hr]. injection Hk as <-. rewrite Hid'.
  eexists. split; [done|]. by apply finalized_by_kept.
Qed.

Lemma Finalize_still_ok id key (w : W) : still_ok w (Scheduler_Finalize id key w).2.
Proof.
  unfold Scheduler_Finalize, mbind at 1, stE_bind at 1.
  pose proof (via_finalize_results still_ok id key w) as Hv.
  destruct (finalize_results id key w) as [[res|e] w1] eqn:E; [|exact Hv]. etrans; [exact Hv|]. cbn [snd].
  apply finalize_results_ok in E as (st & p & Hp & Hc & _).
  assert (finalized_by id res) as Hf by (by exists key, st, p). pose proof (fr_id _ _ _ _ Hc) as Hid.
  assert (via still_ok (_ ← store_call (fun now => CSetResults now res); mret res : stE W Results)) as Hs; [|apply Hs].
  unfold store_call. via. intros w2. by apply (results_stored_ok id).
Qed.

(** ** The system *)

Lemma work_still_ok w w' : work w w' -> still_ok w w'.
Proof.
  destruct 1 as [w w' Ho|id drain w|id key w|n w].
  - apply still_keep, Ho.
  - apply (via_drive still_ok).
  - apply Finalize_still_ok.
  - exact (others_results n w).
Qed.
Lemma works_still_ok w w' : works w w' -> still_ok w w'.
Proof. induction 1 as [w|w1 w2 w3 Hs _ IH]; [done|]. etrans; [by apply work_still_ok|done]. Qed.

Context `{!Http} (Validate : voteRules -> VoteSubmission -> result voteProofBundle) (WorkerID : string -> string).

(** What runs once the engine is started: operations of the engine, requests
    of the API, iterations of the dispatch loops and other goroutines. *)
Inductive sys_step : W -> W -> Prop :=
  | SysEngine w w' : eng_step Validate WorkerID w w' -> sys_step w w'
  | SysServe a now rq w : sys_step w (serve Validate WorkerID a now rq w).2
  | SysDispatch id w : sys_step w (dispatch_pass id w).2
  | SysOthers n w : sys_step w (others n w).

Lemma sys_step_works w w' : sys_step w w' -> works w w'.
Proof.
  destruct 1 as [w w' Hs|a now rq w|id w|n w].
  - by eapply eng_step_works.
  - eapply eng_steps_works, serve_steps.
  - apply via_dispatch_pass.
  - apply rtc_once, WkOthers.
Qed.

Lemma sys_steps_ok w w' : rtc sys_step w w' -> still_ok w w'.
Proof.
  induction 1 as [w|w1 w2 w3 Hs _ IH]; [done|]. etrans; [by apply works_still_ok, sys_step_works|exact IH].
Qed.

Lemma NewEngine_own now (s : TStorage) opts pool (w : W) :
  NewEngine now s opts pool = Ok w -> keep_results s (w_store w).
Proof.
  intros Hn%NewEngine_starts. etrans; [|apply (eo_results _ _ Hn)]. apply keep_same_map. by destruct pool.
Qed.
End served.

(** C3: the results the engine serves were checked.  Start it over a storage
    whose results come from finalizes, such as an empty one, and let it run:
    whatever the requests, the sweeps, the background goroutines and the
    dispatch loops do, in any order and whichever storage writes fail, a
    results record it returns for an election is that election's, its tally is
    what the decryption key gave on a state, and its proof is one a worker
    returned for a finalize job it reported done over that state, with a digest
    that passed every check against the state and the tally. *)
Theorem served_results_checked `{Provers} `{!Others TypedDB} `{!CheckedOthers} `{!CalmOthers TypedDB} `{!Http}
    Validate WorkerID now s opts pool (w w' : World TypedDB) :
  results_ok (tmap s) -> NewEngine now s opts pool = Ok w -> rtc (sys_step Validate WorkerID) w w' ->
  forall id res, (Engine_Results id w').1 = Ok res -> finalized_by id res.
Proof.
  intros Hs Hn Hr id res Hres. assert (results_ok (wmap w)) as Hw.
  { exact (results_ok_keep _ _ (NewEngine_own _ _ _ _ _ Hn) Hs). }
  assert (results_ok (wmap w')) as Hok.
  { apply (sys_steps_ok Validate WorkerID w); done. }
  unfold Engine_Results, on_store, zoom, Results_ in Hres. rewrite load_run in Hres. cbn in Hres.
  destruct (tmap (w_store w') !! KResults id) as [a|] eqn:Ha; [|done].
  destruct (Hok _ _ Ha) as (res' & -> & Hf). by injection Hres as <-.
Qed.
