(* ===== verification/Triggers.v ===== *)
(** * No notification is lost (orchestrator/dispatch.go)

    What a dispatch loop keeps of its trigger: between two of its iterations,
    whatever the engine, the API and the loops of other elections do; and
    during one, when another goroutine notifies the election at any of the
    moments at which the iteration lets the others run. *)

From S2P Require Import Prelude Errors Effects Bytes Types Records KV Keys Artifacts Storage.
From S2P Require Import StorageRefine Retries Workers Sdk Config Validate Seal Chains Engine Finalize.
From S2P Require Import Lifecycle Ingest EngineSteps Scheduler Fold Scatter JobSteps Api ApiProps.

(** ** One way only *)

Section forward.
Context {D : Type} `{ADB D} `{Provers} `{!Others D} (id : ElectionID).
Abbreviation W := (World D).
Abbreviation RW := (SW D).

Definition trigger_of (e : Env D) : Prop := (env_dispatchers e ≫= fun d => d !! id) = Some true.

(** The trigger of the election's dispatcher is in its channel. *)
Definition triggered (w : W) : Prop := trigger_of (w_env w).

(** The scheduler stays, and so does the trigger; a stop is not undone. *)
Record env_forward (e e' : Env D) : Prop := {
  ef_scheduler : is_Some (env_dispatchers e) -> is_Some (env_dispatchers e');
  ef_stopping : env_stopping e = true -> env_stopping e' = true;
  ef_trigger : trigger_of e -> trigger_of e';
}.

#[export] Instance env_forward_pre : PreOrder env_forward.
Proof. split; [by intros e|]. intros e1 e2 e3 [D1 S1 T1] [D2 S2 T2]. split; auto. Qed.

Lemma env_forward_same e e' : env_dispatchers e' = env_dispatchers e -> env_stopping e' = env_stopping e ->
  env_forward e e'.
Proof. intros Hd Hs. split; unfold trigger_of; by rewrite ?Hd, ?Hs. Qed.

Lemma Notify_env_forward id' e : env_forward e (Notify_env id' e).
Proof.
  unfold Notify_env. destruct (env_dispatchers e) as [d|] eqn:Hd; [|done]. destruct (env_stopping e) eqn:Hs; [done|].
  split; unfold trigger_of; cbn; [done|by rewrite Hs|]. rewrite Hd. cbn.
  intros Ht. destruct (decide (id' = id)) as [->|Hne]; [by rewrite lookup_insert_eq|by rewrite lookup_insert_ne].
Qed.

Definition forward (w w' : W) : Prop := env_forward (w_env w) (w_env w').

#[export] Instance forward_pre : PreOrder forward.
Proof. split; [by intros w|]. intros w1 w2 w3 K1 K2. unfold forward. by etrans. Qed.

Lemma forward_same w w' : w_env w' = w_env w -> forward w w'.
Proof. unfold forward. by intros ->. Qed.

Lemma via_forward_store {A} (m : stE (Storage D) A) : via forward (on_store m : stE W A).
Proof. intros w. unfold on_store, zoom. destruct (m (w_store w)). by apply env_forward_same. Qed.
Lemma via_forward_modify (f : W -> W) : (forall w, w_env (f w) = w_env w) -> via forward (modify f).
Proof. intros Hf w. apply forward_same, Hf. Qed.
Lemma via_forward_get_st : via forward (get_st : stE W W).
Proof. by apply via_state; [apply _|]. Qed.
Lemma via_forward_Notify id' : via forward (w_Notify id' : stE W unit).
Proof. intros w. apply Notify_env_forward. Qed.
Lemma via_forward_pool f : via forward (on_pool f : stE W unit).
Proof. by apply via_forward_modify. Qed.

(** The dispatchers are changed for other elections, or a trigger is added. *)
Lemma via_forward_dispatchers f :
  (forall d, d !! id = Some true -> f d !! id = Some true) -> via forward (on_dispatchers f : stE W unit).
Proof.
  intros Hf w. split; unfold trigger_of; cbn; [by destruct (env_dispatchers _)|done|].
  destruct (env_dispatchers _); [apply Hf|done].
Qed.

(** *** Under a runtime's mutex *)

Definition sw_forward (s s' : RW) : Prop := env_forward (sw_env s) (sw_env s').

#[export] Instance sw_forward_pre : PreOrder sw_forward.
Proof. split; [by intros s|]. intros s1 s2 s3 K1 K2. unfold sw_forward. by etrans. Qed.

Lemma via_forward_rt {A} l (m : stE RW A) : via sw_forward m -> via forward (with_rt l m : stE W A).
Proof.
  intros Hm w. unfold with_rt. destruct (w_heap w !! l) as [rt|]; [|done].
  specialize (Hm (MkSW (w_env w) rt)). by destruct (m _) as [r s].
Qed.

Lemma via_forward_in_store {A} (m : stE (Storage D) A) : via sw_forward (in_store m : stE RW A).
Proof. intros s. unfold in_store, zoom. destruct (m _). by apply env_forward_same. Qed.
Lemma via_forward_on_rt f : via sw_forward (on_rt f : stE RW unit).
Proof. by intros s. Qed.
Lemma via_forward_rt_get {A} (f : Runtime -> A) : via sw_forward (rt_get f : stE RW A).
Proof. by intros s. Qed.
Lemma via_forward_apply vs : via sw_forward (apply_call vs : stE RW _).
Proof. intros s. unfold apply_call. destruct (ApplyBatch _ _ _); by apply env_forward_same. Qed.
Lemma via_forward_seal_Notify id' : via sw_forward (Notify id' : stE RW unit).
Proof. intros s. apply Notify_env_forward. Qed.
End forward.

#[export] Hint Resolve via_forward_store via_forward_get_st via_forward_Notify via_forward_pool via_forward_rt
  via_forward_in_store via_forward_on_rt via_forward_rt_get via_forward_apply via_forward_seal_Notify : via.
#[export] Hint Extern 3 (via (forward _) (modify _)) => apply via_forward_modify; done : via.

(** ** Between two iterations *)

Section between.
Context `{Provers} `{!Others TypedDB} (id : ElectionID).
Context `{!Http} (Validate : voteRules -> VoteSubmission -> result voteProofBundle) (WorkerID : string -> string).
Abbreviation W := (World TypedDB).
Abbreviation RW := (SW TypedDB).
Abbreviation fwd := (forward (D := TypedDB) id).
Abbreviation sfwd := (sw_forward (D := TypedDB) id).

(** *** Sealing *)

Lemma via_sfwd_audit now subject role action id' : via sfwd (audit now subject role action id' : stE RW unit).
Proof. unfold audit. via. Qed.
Lemma via_sfwd_restoreState : via sfwd (restoreState : stE RW unit).
Proof. unfold restoreState. via. Qed.
Lemma via_sfwd_dropVote v : via sfwd (dropVote v : stE RW unit).
Proof. unfold dropVote. via. Qed.
Hint Resolve via_sfwd_audit via_sfwd_restoreState via_sfwd_dropVote : via.
Lemma via_sfwd_bisect fuel batch lo hi : via sfwd (bisect fuel batch lo hi : stE RW nat).
Proof. revert lo hi. induction fuel; intros lo hi; cbn [bisect]; via. Qed.
Hint Resolve via_sfwd_bisect : via.
Lemma via_sfwd_applyBatch votes : via sfwd (applyBatch votes : stE RW _).
Proof.
  unfold applyBatch. generalize (length votes) at 1, (seq 0 (length votes)), (∅ : gset nat).
  intros fuel. induction fuel as [|fuel IH]; intros idx refused; cbn; via.
Qed.
Lemma via_sfwd_decode batch : via sfwd (decode_batch batch : stE RW _).
Proof. induction batch; cbn [decode_batch]; via. Qed.
Lemma via_sfwd_refused refused i l : via sfwd (drop_refused refused i l : stE RW _).
Proof. revert i. induction l; intros i; cbn [drop_refused]; via. Qed.
Lemma via_sfwd_persist now vk data sealed rest : via sfwd (persist_batch now vk data sealed rest : stE RW unit).
Proof. unfold persist_batch. via. Qed.
Hint Resolve via_sfwd_applyBatch via_sfwd_decode via_sfwd_refused via_sfwd_persist : via.
Lemma via_sfwd_seal now : via sfwd (sealLocked now : stE RW unit).
Proof. unfold sealLocked, restore_if_dirty. via. Qed.
Hint Resolve via_sfwd_seal : via.
Lemma via_sfwd_full now : via sfwd (sealFullLocked now : stE RW unit).
Proof.
  unfold sealFullLocked. via. lazymatch goal with |- via _ (sealFull_loop ?n _) => generalize n end.
  intros fuel. induction fuel; cbn [sealFull_loop]; via.
Qed.
Lemma via_sfwd_all now : via sfwd (sealAllLocked now : stE RW unit).
Proof.
  unfold sealAllLocked. via. lazymatch goal with |- via _ (sealAll_loop ?n _) => generalize n end.
  intros fuel. induction fuel; cbn [sealAll_loop]; via.
Qed.
Lemma via_sfwd_stale now window : via sfwd (sealIfStale now window : stE RW unit).
Proof.
  unfold sealIfStale. via. lazymatch goal with |- via _ (sealIfStale_loop ?n _ _) => generalize n end.
  intros fuel. induction fuel; cbn [sealIfStale_loop]; via.
Qed.
Hint Resolve via_sfwd_full via_sfwd_all via_sfwd_stale : via.
Lemma via_sfwd_accept now id' v : via sfwd (accept_vote now id' v : stE RW _).
Proof. unfold accept_vote. via. Qed.
Lemma via_sfwd_change now to : via sfwd (change_locked now to : stE RW _).
Proof. unfold change_locked. via. Qed.
Hint Resolve via_sfwd_accept via_sfwd_change : via.

(** *** The engine's operations *)

Lemma via_fwd_runtime id' : via fwd (runtime id' : stE W _).
Proof. apply via_gets, _. Qed.
Lemma via_fwd_add_runtime rt : via fwd (add_runtime rt : stE W unit).
Proof. unfold add_runtime. via. Qed.
Lemma via_fwd_background b : via fwd (goBackground b : stE W bool).
Proof. intros w. unfold goBackground. by destruct (w_bgStopped w). Qed.
Lemma via_fwd_retries f : via fwd (on_retries f : stE W unit).
Proof. unfold on_retries. via. Qed.
Lemma via_fwd_audit now subject role action id' : via fwd (w_audit now subject role action id' : stE W unit).
Proof. unfold w_audit. via. Qed.
Lemma via_fwd_deleteProofs id' : via fwd (deleteProofs id' : stE W unit).
Proof. unfold deleteProofs. via. Qed.
Lemma via_fwd_votes id' st : via fwd (setVotesStatus id' st : stE W unit).
Proof. unfold setVotesStatus. via. Qed.
Lemma via_fwd_Forget id' : via fwd (Forget id' : stE W unit).
Proof.
  change (via fwd (Scheduler_Forget id' : stE W unit)). unfold Scheduler_Forget, dispatcher_of, forgetLocked, on_sched.
  via. apply via_forward_dispatchers. intros d Hd.
  destruct (decide (id' = id)) as [->|Hne]; [by rewrite lookup_insert_eq|by rewrite lookup_insert_ne].
Qed.
Hint Resolve via_fwd_runtime via_fwd_add_runtime via_fwd_background via_fwd_retries via_fwd_audit
  via_fwd_deleteProofs via_fwd_votes via_fwd_Forget : via.

Lemma via_fwd_changeStatus now id' l subject role to : via fwd (changeStatus now id' l subject role to : stE W unit).
Proof. unfold changeStatus, after_cancel, has_scheduler. via. Qed.
Hint Resolve via_fwd_changeStatus : via.

Lemma next_fwd {A} (m : stE W A) ok failed w : via fwd m -> fwd w (next_phase (m w) ok failed).2.
Proof. intros Hm. specialize (Hm w). by destruct (m w) as [[]]. Qed.
Lemma submit_step_fwd now id' sub p w : fwd w (submit_step Validate now id' sub p w).2.
Proof.
  destruct p; cbn [submit_step]; try done; apply next_fwd;
    unfold submit_open, submit_lock, submit_check, submit_address, submit_validate; via.
Qed.

Lemma via_fwd_Register now subject address name : via fwd (RegisterWorker now subject address name : stE W nat).
Proof. unfold RegisterWorker. via. Qed.
Lemma via_fwd_Remove now subject worker : via fwd (RemoveWorker WorkerID now subject worker : stE W unit).
Proof. unfold RemoveWorker, DeleteWorker, moveFoldChains. via. Qed.
Lemma via_fwd_Create now subject el : via fwd (Engine.CreateElection now subject el : stE W Election).
Proof. unfold Engine.CreateElection. via. Qed.
Lemma via_fwd_SetStatus now subject id' to : via fwd (SetStatus now subject id' to : stE W unit).
Proof. unfold SetStatus. via. Qed.
Lemma via_fwd_Key now subject id' key : via fwd (SubmitDecryptionKey now subject id' key : stE W unit).
Proof.
  unfold SubmitDecryptionKey, has_scheduler, guard_finalizing, begin_finalize, release_finalizing. via.
Qed.
Lemma via_fwd_tick now order : via fwd (tick now order : stE W unit).
Proof. unfold tick, tick_election, endElection, retryDispatch. via. Qed.
Lemma via_fwd_Stop : via fwd (Stop : stE W unit).
Proof. by intros w. Qed.

(** *** The passes *)

(** The triggers of the election are taken by its dispatch loop alone, and
    nothing undoes a stop: the other goroutines keep them. *)
Class OneLoop := others_forward n (w : W) : fwd w (others n w).
Context `{!OneLoop}.

#[export] Instance forward_passes : PassRel fwd.
Proof.
  split; try (intros; by apply forward_same); [apply _| |].
  - intros d w. etrans; [apply (others_forward (sc_tick (w_sched w)))|done].
  - intros A c w _. apply via_forward_store.
Qed.
#[export] Instance forward_chains : ChainRel fwd any_chain.
Proof. split; [apply _|..]; intros; by apply forward_same. Qed.
#[export] Instance forward_final : FinalRel fwd.
Proof. intros now r. apply via_forward_store. Qed.

Lemma via_fwd_Drain id' : via fwd (Drain id' : stE W unit).
Proof. exact (via_drive fwd id' true). Qed.
Lemma via_fwd_Finalize id' key : via fwd (Finalize id' key : stE W Results).
Proof. exact (via_Finalize fwd id' key). Qed.
Hint Resolve via_fwd_Drain via_fwd_Finalize : via.

Lemma via_fwd_run now i : via fwd (run_background now i : stE W unit).
Proof.
  unfold run_background, drainAndPublish, drain, finalizeElection, has_scheduler, release_finalizing. via.
Qed.

Lemma eng_step_fwd w w' : eng_step Validate WorkerID w w' -> fwd w w'.
Proof.
  destruct 1 as [now subject el w|now id' sub p w|now subject id' to w|now subject id' key w|now order w
    |now i w|now subject address name w|now subject worker w|w].
  - apply via_fwd_Create.
  - apply submit_step_fwd.
  - apply via_fwd_SetStatus.
  - apply via_fwd_Key.
  - apply via_fwd_tick.
  - apply via_fwd_run.
  - apply via_fwd_Register.
  - apply via_fwd_Remove.
  - apply via_fwd_Stop.
Qed.

Lemma via_fwd_dispatch id' : id' <> id -> via fwd (dispatch_pass id' : stE W bool).
Proof.
  intros Hne. unfold dispatch_pass, Dispatch, dispatcher_of, after_dispatch, forgetLocked, on_sched, stopping, clock, sched.
  via; try exact (via_drive fwd id' false); try exact (via_finished fwd id');
    apply via_forward_dispatchers; intros d Hd; by rewrite ?lookup_insert_ne, ?lookup_delete_ne.
Qed.

(** What runs between two iterations of the election's dispatch loop:
    operations of the engine, requests of the API, whole iterations of the
    loops of other elections, and other goroutines. *)
Inductive between : W -> W -> Prop :=
  | BtEngine w w' : eng_step Validate WorkerID w w' -> between w w'
  | BtServe a now rq w : between w (serve Validate WorkerID a now rq w).2
  | BtDispatch id' w : id' <> id -> between w (dispatch_pass id' w).2
  | BtOthers n w : between w (others n w).

Lemma eng_steps_fwd w w' : rtc (eng_step Validate WorkerID) w w' -> fwd w w'.
Proof. induction 1 as [w|w1 w2 w3 Hs _ IH]; [done|]. etrans; [by apply eng_step_fwd|exact IH]. Qed.

Lemma between_fwd w w' : rtc between w w' -> fwd w w'.
Proof.
  induction 1 as [w|w1 w2 w3 Hs _ IH]; [done|]. etrans; [|exact IH]. destruct Hs as [w w' Hs|a now rq w|id' w Hne|n w].
  - by apply eng_step_fwd.
  - apply eng_steps_fwd, serve_steps.
  - by apply via_fwd_dispatch.
  - apply others_forward.
Qed.

(** ** During an iteration *)

(** The other goroutines notify the election at the moment [k]. *)
Definition notified_at (k : nat) : Prop := forall v : W,
  is_Some (env_dispatchers (w_env v)) -> env_stopping (w_env v) = false -> triggered id (others k v).

Definition tick_of (w : W) : nat := sc_tick (w_sched w).

(** Every notification in between left its trigger. *)
Record heard (w w' : W) : Prop := {
  hd_forward : fwd w w';
  hd_tick : tick_of w <= tick_of w';
  hd_trigger k : notified_at k -> tick_of w <= k < tick_of w' -> is_Some (env_dispatchers (w_env w)) ->
    triggered id w' \/ env_stopping (w_env w') = true;
}.

Lemma heard_same w w' : w_env w' = w_env w -> tick_of w' = tick_of w -> heard w w'.
Proof. intros He Ht. split; [by apply forward_same|lia|lia]. Qed.

#[export] Instance heard_pre : PreOrder heard.
Proof.
  split; [by intros w; apply heard_same|]. intros w1 w2 w3 [F1 T1 K1] [F2 T2 K2]. split; [by etrans|lia|].
  intros k Hk Hr Hd. destruct (decide (k < tick_of w2)).
  - destruct (K1 k Hk ltac:(lia) Hd) as [Ht|Hs]; [left; by apply F2|right; by apply F2].
  - apply (K2 k Hk ltac:(lia)), F1, Hd.
Qed.

Lemma heard_store {A} (m : stE (Storage TypedDB) A) : via heard (on_store m : stE W A).
Proof.
  intros w. unfold on_store, zoom. destruct (m (w_store w)).
  split; [by apply env_forward_same|done|unfold tick_of; cbn; lia].
Qed.

#[export] Instance heard_passes : PassRel heard.
Proof.
  split; try (intros; by apply heard_same); [apply _| |].
  - intros d w. assert (fwd w (yield_for d w).2) as Hf.
    { etrans; [apply (others_forward (sc_tick (w_sched w)))|done]. }
    assert (tick_of (yield_for d w).2 = S (tick_of w)) as Ht by done. split; [exact Hf|lia|].
    intros k Hk Hr Hd. assert (k = tick_of w) as -> by lia.
    destruct (env_stopping (w_env w)) eqn:Hs; [right; by apply Hf|left; exact (Hk w Hd Hs)].
  - intros A c w _. apply heard_store.
Qed.
#[export] Instance heard_chains : ChainRel heard any_chain.
Proof. split; [apply _|..]; intros; by apply heard_same. Qed.

Definition untrigger (w : W) : W := (on_dispatchers <[id := false]> w).2.

Lemma dispatch_pass_triggered (w : W) : triggered id w ->
  dispatch_pass id w = (r ← attempt (Dispatch id); after_dispatch id r) (untrigger w).
Proof.
  unfold triggered, trigger_of. intros Ht. unfold dispatch_pass, mbind at 1, stE_bind at 1, dispatcher_of, gets.
  by rewrite Ht.
Qed.

Lemma Notify_triggers (w : W) ds :
  env_dispatchers (w_env w) = Some ds -> env_stopping (w_env w) = false -> triggered id (w_Notify id w).2.
Proof.
  intros Hd Hs. unfold w_Notify, modify, triggered, trigger_of, Notify_env. cbn. rewrite Hd, Hs. cbn.
  by rewrite lookup_insert_eq.
Qed.

(** The loop ended, because it found the election over. *)
Definition loop_ended (b : bool) : Prop := b = false /\ exists v : W, (finished id v).1 = Ok true.

Lemma after_dispatch_heard r b (w w' : W) :
  after_dispatch id r w = (Ok b, w') -> heard w w' \/ loop_ended b.
Proof.
  unfold after_dispatch. intros E. pose proof (via_finished heard id) as Hf.
  first_step E as st w1 E1. pose proof (via_stopping heard w) as K1. rewrite E1 in K1. cbn in K1.
  destruct st; [left; by injection E as _ <-|].
  first_step E as fin w2 E2. specialize (Hf w1). rewrite E2 in Hf. cbn in Hf.
  destruct fin.
  - right. split; [|exists w1; by rewrite E2]. by injection E as <- _.
  - left. etrans; [exact K1|]. etrans; [exact Hf|]. injection E as _ <-. by apply heard_same.
Qed.

Lemma dispatch_pass_heard k b (w w' : W) :
  notified_at k -> is_Some (env_dispatchers (w_env w)) -> tick_of w <= k < tick_of w' ->
  dispatch_pass id w = (Ok b, w') -> (triggered id w' \/ env_stopping (w_env w') = true) \/ loop_ended b.
Proof.
  intros Hk Hd Hr. destruct (decide ((env_dispatchers (w_env w) ≫= fun d => d !! id) = Some true)) as [Ht|Ht].
  - rewrite dispatch_pass_triggered by done. intros E. first_step E as r w1 E1.
    assert (heard (untrigger w) w1) as K1.
    { pose proof (via_drive heard id false (untrigger w)) as Hv. revert E1. unfold attempt, Dispatch.
      destruct (drive id false (untrigger w)) as [r0 w0]. by intros [= _ <-]. }
    apply after_dispatch_heard in E as [K2|Hl]; [left|by right].
    assert (heard (untrigger w) w') as Hh by (by etrans).
    apply (hd_trigger _ _ Hh k Hk Hr). unfold untrigger. cbn. by apply fmap_is_Some.
  - intros E. assert (w' = w) as ->; [|lia]. revert E. unfold dispatch_pass, mbind at 1, stE_bind at 1, dispatcher_of, gets.
    destruct (env_dispatchers (w_env w) ≫= _) as [[]|]; [done|by intros [= _ <-]..].
Qed.

End between.
