(* ===== verification/FakeProver.v ===== *)
(** * The fake prover of the tests (tests/helpers/fakeprover.go)

    An in-process prover whose proofs are records of what they attest.  Several
    of them share a ledger of the proofs they made, from which a test walks the
    fold chain behind a finalize.  A handler runs under the prover's mutex and
    takes the moment it runs at; the requests come decoded. *)

From S2P Require Import Prelude Errors Bytes Types Records Config Sdk Finalize Scheduler.

(** ** Proofs *)

Definition JobBatch : string := "batch".
Definition JobFold : string := "fold".
Definition JobFinalize : string := "finalize".

Record FakeProof (Config : Type) := MkFakeProof {
  fp_Kind : string;
  fp_OldRoot : string;
  fp_NewRoot : string;
  fp_Voters : N;
  fp_Overwrites : N;
  fp_Steps : N;
  fp_Prev : string;
  fp_Batches : list string;
  fp_FoldVK : string;
  fp_Config : option Config;
  fp_VK : string;
  fp_Rejected : bool;
}.
Arguments MkFakeProof {_}.
Arguments fp_Kind {_}. Arguments fp_OldRoot {_}. Arguments fp_NewRoot {_}. Arguments fp_Voters {_}.
Arguments fp_Overwrites {_}. Arguments fp_Steps {_}. Arguments fp_Prev {_}. Arguments fp_Batches {_}.
Arguments fp_FoldVK {_}. Arguments fp_Config {_}. Arguments fp_VK {_}. Arguments fp_Rejected {_}.

(** What the prover takes from the SDK and the standard library: the chain
    configuration and its commitment, JSON and SHA-256. *)
Class FakeSdk `{FinalizeSdk} := {
  ChainParams : Type;
  ChainParams_eq :: EqDecision ChainParams;
  marshal_proof : FakeProof ChainParams -> bytes;
  unmarshal_proof : bytes -> option (FakeProof ChainParams);
  Sum256 : bytes -> bytes;
  CanonicalConfigCommitment : ChainParams -> list N -> list N -> option bytes;
  config_ascii : ChainParams -> bool;
}.

(** Text in ASCII, which JSON keeps; in any other, it may replace bytes. *)
Definition ascii (s : string) : bool :=
  forallb (fun c => (Byte.to_N c <? 128)%N) (String.list_byte_of_string s).

(** The program vks of the pinned release, empty if none is. *)
Definition release_batchVK `{FakeSdk} : string := default ""%string (rel_BatchVK <$> CircuitRelease).
Definition release_aggVK `{FakeSdk} : string := default ""%string (rel_AggVK <$> CircuitRelease).

Definition proof_ascii `{FakeSdk} (p : FakeProof ChainParams) : bool :=
  forallb ascii ([fp_Kind p; fp_OldRoot p; fp_NewRoot p; fp_Prev p; fp_FoldVK p; fp_VK p] ++ fp_Batches p)
  && from_option config_ascii true (fp_Config p).

(** JSON reads back the ASCII it wrote, a SHA-256 sum has 32 bytes, and the
    vks of a release are hexadecimal. *)
Class FakeLaws `{FakeSdk} := {
  unmarshal_marshal p : proof_ascii p = true -> unmarshal_proof (marshal_proof p) = Some p;
  Sum256_length b : length (Sum256 b) = 32;
  release_ascii : ascii release_batchVK = true /\ ascii release_aggVK = true;
}.

(** ** Intervals *)

Definition u32 (n : N) : N := (n mod 2 ^ 32)%N.

(** When a job ran; the zero time is no end. *)
Record Interval := MkInterval { iv_Start : time; iv_End : time }.

(** The events of [MaxConcurrent]: a moment and a change of the number. *)
Definition iv_events (iv : Interval) : list (time * Z) :=
  if IsZero (iv_End iv) then [(iv_Start iv, 1%Z)]
  else if (iv_Start iv <? iv_End iv)%Z then [(iv_Start iv, 1%Z); (iv_End iv, (-1)%Z)]
  else [].

(** An end comes before a start at the same instant. *)
Definition event_le (a b : time * Z) : Prop := (a.1 < b.1)%Z \/ a.1 = b.1 /\ (a.2 <= b.2)%Z.
#[export] Instance event_le_dec a b : Decision (event_le a b).
Proof. unfold event_le. apply _. Defined.

(** The loop over the sorted events: the number of jobs, and the most so far. *)
Definition count_event (s : Z * Z) (e : time * Z) : Z * Z := (s.1 + e.2, Z.max s.2 (s.1 + e.2))%Z.

Definition MaxConcurrent (ivs : list Interval) : Z :=
  (foldl count_event (0, 0)%Z (merge_sort event_le (ivs ≫= iv_events))).2.

Section fake.
Context `{FakeSdk}.
Abbreviation Proof_ := (FakeProof ChainParams).

Definition fakeProofMagic : bytes := lit "FAKESTARK".

(** [FakeProof.encode] and [decodeFakeProof] *)
Definition encode (p : Proof_) : bytes := fakeProofMagic ++ marshal_proof p.
Definition decodeFakeProof (raw : bytes) : option Proof_ :=
  match strip_prefix fakeProofMagic raw with Some body => unmarshal_proof body | None => None end.

Definition proofHash (raw : bytes) : string := String.string_of_list_byte (hex_encode (Sum256 raw)).

(** ** The ledger *)

Record Ledger := MkLedger {
  lg_proofs : gmap string Proof_;
  lg_finalized : list string;
}.

Definition NewLedger : Ledger := MkLedger ∅ [].
Definition ledger_add (raw : bytes) (p : Proof_) (l : Ledger) : Ledger :=
  MkLedger (<[proofHash raw := p]> (lg_proofs l)) (lg_finalized l).

(** [Ledger.FinalChain]: the walk back to the genesis fold; one that takes more
    steps than there are proofs comes back to a fold, and goes on forever, ... *)
Fixpoint walk_back (fuel : nat) (m : gmap string Proof_) (h : string) (folds : list Proof_) : result (list Proof_) :=
  if decide (h = ""%string) then Ok folds
  else match fuel with
       | O => Err [Diverges]
       | S fuel =>
           match m !! h with
           | Some f => if decide (fp_Kind f = JobFold) then walk_back fuel m (fp_Prev f) (f :: folds) else Err errorf
           | None => Err errorf
           end
       end.

(** ... the batches of a fold, from the root it starts at, ... *)
Fixpoint walk_batches (m : gmap string Proof_) (hs : list string) (root : string) (acc : list Proof_) :
    result (string * list Proof_) :=
  match hs with
  | [] => Ok (root, acc)
  | bh :: hs =>
      match m !! bh with
      | Some b =>
          if decide (fp_Kind b = JobBatch) then
            if decide (fp_OldRoot b = root) then walk_batches m hs (fp_NewRoot b) (acc ++ [b]) else Err errorf
          else Err errorf
      | None => Err errorf
      end
  end.

(** ... and the checks of the folds in order. *)
Fixpoint walk_folds (m : gmap string Proof_) (i : N) (folds : list Proof_) (root : string) (acc : list Proof_) :
    result (list Proof_) :=
  match folds with
  | [] => Ok acc
  | f :: folds =>
      if decide (fp_Steps f = u32 (i + 1)) then
        p ← walk_batches m (fp_Batches f) root acc;
        if decide (fp_NewRoot f = p.1) then walk_folds m (i + 1) folds p.1 p.2 else Err errorf
      else Err errorf
  end.

Definition FinalChain (l : Ledger) : result (list Proof_) :=
  match last (lg_finalized l) with
  | None => Err errorf
  | Some h =>
      folds ← walk_back (S (size (lg_proofs l))) (lg_proofs l) h [];
      match folds with
      | [] => Err [Panic]
      | f :: _ => walk_folds (lg_proofs l) 0 folds (fp_OldRoot f) []
      end
  end.

(** ** Jobs *)

Record fakeJob := MkFakeJob {
  j_kind : string;
  j_status : JobStatus;
  j_final : JobStatus;
  j_err : bool;
  j_proof : bytes;
  j_publics : bytes;
  j_snark : list (string * string);
  j_held : bool;
  j_doneAt : time;
  j_start : time;
  j_end : time;
}.

Definition j_ended (st : JobStatus) (held : bool) (at_ : time) (j : fakeJob) : fakeJob :=
  MkFakeJob (j_kind j) st (j_final j) (j_err j) (j_proof j) (j_publics j) (j_snark j) held (j_doneAt j) (j_start j) at_.

#[export] Instance JobStatus_eq : EqDecision JobStatus.
Proof. solve_decision. Defined.

(** [fakeJob.settle] *)
Definition settle (now : time) (j : fakeJob) : fakeJob :=
  if decide (j_status j = JobRunning) then
    if negb (j_held j) && negb (IsZero (j_doneAt j)) && negb (now <? j_doneAt j)%Z
    then j_ended (j_final j) (j_held j) (j_doneAt j) j else j
  else j.

(** [davinci.FoldRequest] with its configuration, and what the prover reads of
    the other requests. *)
Abbreviation FoldReq := (FoldRequest ChainParams).
Record StateBlock := MkStateBlock {
  sb_OldStateRoot : string;
  sb_NewStateRoot : string;
  sb_VotersCount : N;
  sb_OverwrittenCount : N;
}.
Record ProveBody := MkProveBody { pb_State : option StateBlock; pb_Output : string }.
Abbreviation FinalizeReq := (FinalizeRequest ChainParams (list N)).

(** [FakeProver]; its counters and controls are maps with a default. *)
Record FakeProver := MkFakeProver {
  p_next : N;
  p_jobs : gmap string fakeJob;
  p_queueLen : Z;
  p_hold : gmap string bool;
  p_delay : duration;
  p_fail : gmap string Z;
  p_counts : gmap string N;
  p_folds : list FoldReq;
  p_imported : list Proof_;
  p_batchVK : string;
  p_aggVK : string;
  p_poison : Z;
}.

Definition NewFakeProver : FakeProver :=
  MkFakeProver 0%N ∅ 0%Z ∅ 0%Z ∅ ∅ [] [] release_batchVK release_aggVK 0%Z.

(** What the handlers run on. *)
Record St := MkSt { st_ledger : Ledger; st_prover : FakeProver }.

Definition p_set_jobs (m : gmap string fakeJob) (p : FakeProver) : FakeProver :=
  MkFakeProver (p_next p) m (p_queueLen p) (p_hold p) (p_delay p) (p_fail p) (p_counts p) (p_folds p)
    (p_imported p) (p_batchVK p) (p_aggVK p) (p_poison p).
Definition p_take_job (n : N) (m : gmap string fakeJob) (fail : gmap string Z) (p : FakeProver) : FakeProver :=
  MkFakeProver n m (p_queueLen p) (p_hold p) (p_delay p) fail (p_counts p) (p_folds p)
    (p_imported p) (p_batchVK p) (p_aggVK p) (p_poison p).
Definition p_set_controls (q : Z) (hold : gmap string bool) (delay : duration) (fail : gmap string Z)
    (batchVK aggVK : string) (poison : Z) (p : FakeProver) : FakeProver :=
  MkFakeProver (p_next p) (p_jobs p) q hold delay fail (p_counts p) (p_folds p) (p_imported p) batchVK aggVK poison.
Definition p_took (what : string) (folds : list FoldReq) (imported : list Proof_) (p : FakeProver) : FakeProver :=
  MkFakeProver (p_next p) (p_jobs p) (p_queueLen p) (p_hold p) (p_delay p) (p_fail p)
    (<[what := (default 0 (p_counts p !! what) + 1)%N]> (p_counts p)) (p_folds p ++ folds)
    (p_imported p ++ imported) (p_batchVK p) (p_aggVK p) (p_poison p).

(** ** The controls of a test *)

Definition SetQueueLen (n : Z) (p : FakeProver) : FakeProver :=
  p_set_controls n (p_hold p) (p_delay p) (p_fail p) (p_batchVK p) (p_aggVK p) (p_poison p) p.
Definition Hold (kind : string) (p : FakeProver) : FakeProver :=
  p_set_controls (p_queueLen p) (<[kind := true]> (p_hold p)) (p_delay p) (p_fail p) (p_batchVK p) (p_aggVK p)
    (p_poison p) p.
Definition Release (now : time) (kind : string) (p : FakeProver) : FakeProver :=
  p_set_jobs ((fun j => if bool_decide (j_kind j = kind) && j_held j then j_ended (j_final j) false now j else j)
    <$> p_jobs p)
    (p_set_controls (p_queueLen p) (<[kind := false]> (p_hold p)) (p_delay p) (p_fail p) (p_batchVK p) (p_aggVK p)
      (p_poison p) p).
Definition SetDelay (d : duration) (p : FakeProver) : FakeProver :=
  p_set_controls (p_queueLen p) (p_hold p) d (p_fail p) (p_batchVK p) (p_aggVK p) (p_poison p) p.
Definition SetVKs (batchVK aggVK : string) (p : FakeProver) : FakeProver :=
  p_set_controls (p_queueLen p) (p_hold p) (p_delay p) (p_fail p) batchVK aggVK (p_poison p) p.
Definition Poison (n : Z) (p : FakeProver) : FakeProver :=
  p_set_controls (p_queueLen p) (p_hold p) (p_delay p) (p_fail p) (p_batchVK p) (p_aggVK p) n p.
Definition FailNext (kind : string) (n : Z) (p : FakeProver) : FakeProver :=
  p_set_controls (p_queueLen p) (p_hold p) (p_delay p) (<[kind := n]> (p_fail p)) (p_batchVK p) (p_aggVK p)
    (p_poison p) p.

(** What a test reads; the jobs come in no order. *)
Definition of_kinds (kinds : list string) (j : fakeJob) : bool := bool_decide (kinds = [] \/ j_kind j ∈ kinds).
Definition Intervals (now : time) (kinds : list string) (p : FakeProver) : list Interval * FakeProver :=
  let jobs := (fun j => if of_kinds kinds j then settle now j else j) <$> p_jobs p in
  ((fun q => MkInterval (j_start q.2) (j_end q.2)) <$> filter (fun q => of_kinds kinds q.2 = true) (map_to_list jobs),
   p_set_jobs jobs p).
Definition Running (now : time) (kind : string) (p : FakeProver) : nat * FakeProver :=
  let jobs := settle now <$> p_jobs p in
  (length (filter (fun q => j_kind q.2 = kind /\ j_status q.2 = JobRunning) (map_to_list jobs)), p_set_jobs jobs p).
Definition Count (what : string) (p : FakeProver) : N := default 0%N (p_counts p !! what).
Definition Imported (p : FakeProver) : list Proof_ := p_imported p.
Definition Folds (p : FakeProver) : list FoldReq := p_folds p.

(** ** Submitting *)

(** [fmt.Sprintf("%s-%d", kind, n)] *)
Definition job_id (kind : string) (n : N) : string := kind +:+ "-" +:+ String.string_of_list_byte (fmt_d n).

(** [addJob] *)
Definition addJob (now : time) (kind : string) (proof publics : bytes) (snark : list (string * string))
    (failure : bool) (p : FakeProver) : string * FakeProver :=
  let n := (p_next p + 1)%N in
  let id := job_id kind n in
  let left := default 0%Z (p_fail p !! kind) in
  let injected := (0 <? left)%Z in
  let fail := if injected then <[kind := (left - 1)%Z]> (p_fail p) else p_fail p in
  let failure := injected || failure in
  let final := if failure then JobFailed else JobDone in
  let '(st, held, doneAt, at_) :=
    if default false (p_hold p !! kind) then (JobRunning, true, zero_time, zero_time)
    else if (0 <? p_delay p)%Z then (JobRunning, false, (now + p_delay p)%Z, zero_time)
    else (final, false, zero_time, now) in
  let j := MkFakeJob kind st final failure proof publics snark held doneAt now at_ in
  (id, p_take_job n (<[id := j]> (p_jobs p)) fail p).

(** [doneJob]: the job, settled, if it is done and of one of the kinds. *)
Definition doneJob (now : time) (id : string) (kinds : list string) (p : FakeProver) : option fakeJob * FakeProver :=
  match p_jobs p !! id with
  | None => (None, p)
  | Some j =>
      let j := settle now j in
      (if bool_decide (j_status j = JobDone) && bool_decide (j_kind j ∈ kinds) then Some j else None,
       p_set_jobs (<[id := j]> (p_jobs p)) p)
  end.

(** ** The handlers *)

(** The answers, without the texts of errors; the status is 0 where the handler
    panics and the server closes the connection. *)
Inductive FakeBody :=
  | FbError
  | FbHealth (queueLen : Z)
  | FbAccepted (id : string)
  | FbJob (id : string) (st : JobStatus) (err : bool)
  | FbStark (programVK : string)
  | FbRaw (b : bytes)
  | FbSnark (m : list (string * string)).
Definition Answer : Type := N * FakeBody.

Definition health (s : St) : Answer := (200%N, FbHealth (p_queueLen (st_prover s))).

(** [prove]; [None] is a body that does not decode. *)
Definition prove (now : time) (req : option ProveBody) (s : St) : Answer * St :=
  match req with
  | Some (MkProveBody (Some sb) out) =>
      if decide (out = "stark"%string) then
        let p := st_prover s in
        let proof := MkFakeProof JobBatch (sb_OldStateRoot sb) (sb_NewStateRoot sb) (sb_VotersCount sb)
          (sb_OverwrittenCount sb) 0 "" [] "" None (p_batchVK p) (0 <? p_poison p)%Z in
        let p := if (0 <? p_poison p)%Z then Poison (p_poison p - 1) p else p in
        let raw := encode proof in
        let '(id, p) := addJob now JobBatch raw [] [] false (p_took "prove" [] [] p) in
        ((202%N, FbAccepted id), MkSt (ledger_add raw proof (st_ledger s)) p)
      else ((400%N, FbError), s)
  | _ => ((400%N, FbError), s)
  end.

(** [importProof] with the query's kind, if it has one, and the body. *)
Definition importProof (now : time) (query : option string) (raw : bytes) (s : St) : Answer * St :=
  let kind := default JobBatch query in
  if bool_decide (kind <> JobBatch /\ kind <> JobFold) then ((400%N, FbError), s)
  else
    match decodeFakeProof raw with
    | None => ((422%N, FbError), s)
    | Some proof =>
        let p := p_took ("import:" +:+ kind) [] (if decide (kind = JobBatch) then [proof] else []) (st_prover s) in
        let p := if bool_decide (fp_Kind proof = JobBatch /\ fp_VK proof <> release_batchVK)
                 then p_took "import:foreign" [] [] p else p in
        let n := (p_next p + 1)%N in
        let id := job_id "import" n in
        let j := MkFakeJob kind JobDone JobOther false raw [] [] false zero_time now now in
        ((200%N, FbAccepted id),
         MkSt (ledger_add raw proof (st_ledger s)) (p_take_job n (<[id := j]> (p_jobs p)) (p_fail p) p))
    end.

(** The jobs of a fold, with their proofs; the first that is not done fails. *)
Fixpoint batch_jobs (now : time) (ids : list string) (p : FakeProver) : option (list bytes) * FakeProver :=
  match ids with
  | [] => (Some [], p)
  | id :: ids =>
      let '(j, p) := doneJob now id [JobBatch] p in
      match j with
      | None => (None, p)
      | Some j =>
          let '(raws, p) := batch_jobs now ids p in
          ((fun raws => j_proof j :: raws) <$> raws, p)
      end
  end.

Definition fp_set_chain (old new : string) (voters overwrites steps : N) (prev foldVK : string) (f : Proof_) : Proof_ :=
  MkFakeProof (fp_Kind f) old new voters overwrites steps prev (fp_Batches f) foldVK (fp_Config f) (fp_VK f)
    (fp_Rejected f).

(** The proof starts at the genesis, or continues the previous fold's. *)
Definition continue_fold (req : FoldReq) (prev : option Proof_) (hash : string) (out : Proof_) : Proof_ * bool :=
  match prev with
  | None => (out, true)
  | Some f =>
      if bool_decide (fp_Kind f <> JobFold) then (out, true)
      else if bool_decide (fp_Config f <> Some (fr_Config _ req)) then (out, true)
      else if bool_decide (fr_FoldVK _ req <> ""%string /\ fr_FoldVK _ req <> fp_FoldVK f) then (out, true)
      else (fp_set_chain (fp_OldRoot f) (fp_NewRoot f) (fp_Voters f) (fp_Overwrites f) (u32 (fp_Steps f + 1)) hash
              (fp_FoldVK f) out, false)
  end.

(** The batches, up to one that fails the fold. *)
Fixpoint fold_batches (bs : list (option Proof_)) (out : Proof_) : Proof_ * bool :=
  match bs with
  | [] => (out, false)
  | None :: _ => (out, true)
  | Some b :: bs =>
      if bool_decide (fp_Kind b <> JobBatch) then (out, true)
      else if bool_decide (fp_VK b <> release_batchVK) then (out, true)
      else if fp_Rejected b then (out, true)
      else if bool_decide (fp_OldRoot b <> fp_NewRoot out) then (out, true)
      else fold_batches bs (fp_set_chain (fp_OldRoot out) (fp_NewRoot b) (u64 (fp_Voters out + fp_Voters b))
             (u64 (fp_Overwrites out + fp_Overwrites b)) (fp_Steps out) (fp_Prev out) (fp_FoldVK out) out)
  end.

(** The rest of [fold], from the proof before its batches. *)
Definition fold_from (now : time) (req : FoldReq) (bs : list (option Proof_)) (out : Proof_) (failed : bool)
    (l : Ledger) (p : FakeProver) : Answer * St :=
  let '(out, failed') := fold_batches bs out in
  let failure := failed || failed' in
  let raw := encode out in
  let '(id, p) := addJob now JobFold raw [] [] failure (p_took "fold" [req] [] p) in
  ((202%N, FbAccepted id), MkSt (if failure then l else ledger_add raw out l) p).

(** [fold] *)
Definition fold (now : time) (req : option FoldReq) (s : St) : Answer * St :=
  match req with
  | None => ((400%N, FbError), s)
  | Some req =>
      if decide (fr_BatchJobs _ req = []) then ((400%N, FbError), s)
      else
        let '(raws, p) := batch_jobs now (fr_BatchJobs _ req) (st_prover s) in
        match raws with
        | None => ((400%N, FbError), MkSt (st_ledger s) p)
        | Some raws =>
            let bs := decodeFakeProof <$> raws in
            let out := MkFakeProof JobFold "" "" 0 0 1 "" (proofHash <$> raws) (fr_FoldVK _ req)
              (Some (fr_Config _ req)) "" false in
            if decide (fr_PrevFoldJob _ req = ""%string) then
              match bs with
              | Some b :: _ =>
                  let out := fp_set_chain (fp_OldRoot b) (fp_OldRoot b) 0 0 1 "" (fr_FoldVK _ req) out in
                  fold_from now req bs out false (st_ledger s) p
              | _ => ((0%N, FbError), MkSt (st_ledger s) p)
              end
            else
              let '(j, p) := doneJob now (fr_PrevFoldJob _ req) [JobFold] p in
              match j with
              | None => ((400%N, FbError), MkSt (st_ledger s) p)
              | Some j =>
                  let '(out, failed) := continue_fold req (decodeFakeProof (j_proof j)) (proofHash (j_proof j)) out in
                  fold_from now req bs out failed (st_ledger s) p
              end
        end
  end.

(** *** The final proof *)

(** A word in little endian, and back. *)
Definition le_bytes (w : nat) (n : N) : bytes := rev (fill_bytes w n).
Definition le_word (b : bytes) : N := bytes_to_N (rev (take 4 b)).

(** [put] and [putVK]: words over the ones at an offset. *)
Fixpoint words_of (n : nat) (b : bytes) : list N :=
  match n with O => [] | S n => le_word b :: words_of n (drop 4 b) end.
Definition put (off : nat) (b : bytes) (words : list N) : list N :=
  list_inserts off (words_of (Nat.div (length b) 4) b) words.
Definition putVK (off : nat) (vk : list N) (words : list N) : list N :=
  list_inserts off (vk ≫= fun v => [u32 v; u32 (N.shiftr v 32)]) words.

(** The 64 words of the aggregator's digest. *)
Definition digest_words (fold : Proof_) (batchWords foldWords : list N) (commitment root : bytes) (results : list N) :
    list N :=
  let words := [le_word (lit "DAG1"); ModeFinalize; fp_Steps fold; u32 (fp_Voters fold); u32 (fp_Overwrites fold)]
    ++ replicate 59 0%N in
  let words := putVK 29 foldWords (putVK 21 batchWords (put 13 root (put 5 commitment words))) in
  list_inserts 37 (u32 <$> take (N.to_nat NumFields) results) words.

(** The proof's bytes: hashes of the seed and a counter, of 32 bytes each. *)
Definition proof_bytes (seed : bytes) : bytes :=
  take (24 * 32) (seq 0 24 ≫= fun i => Sum256 (seed ++ [byte_of (N.of_nat i)])).

(** [finalizeOutput]: the publics and the PLONK payload. *)
Definition finalizeOutput (fold : Proof_) (req : FinalizeReq) : option (bytes * list (string * string)) :=
  batchWords ← VKWords release_batchVK;
  foldWords ← VKWords (fp_FoldVK fold);
  commitment ← CanonicalConfigCommitment (zr_Config _ _ req) batchWords foldWords;
  root ← hex_decode (TrimPrefix (lit (fp_NewRoot fold)) (lit "0x"));
  if negb (length root =? 32)%nat then None
  else
    let words := digest_words fold batchWords foldWords commitment root (zr_Results _ _ req) in
    let publics := words ≫= le_bytes 4 in
    let values := words ≫= le_bytes 8 in
    let seed := Sum256 publics in
    let hex0x b := "0x" +:+ String.string_of_list_byte (hex_encode b) in
    Some (publics,
      [("program_vk", fp_FoldVK fold); ("root_c_vadcop_final", hex0x seed);
       ("public_values", hex0x values); ("proof_bytes", hex0x (proof_bytes seed))]%string).

(** [finalize] *)
Definition finalize (now : time) (req : option FinalizeReq) (s : St) : Answer * St :=
  match req with
  | None => ((400%N, FbError), s)
  | Some req =>
      let '(j, p) := doneJob now (zr_FoldJob _ _ req) [JobFold] (st_prover s) in
      match j with
      | None => ((400%N, FbError), MkSt (st_ledger s) p)
      | Some j =>
          let out :=
            match decodeFakeProof (j_proof j) with
            | None => None
            | Some f =>
                if bool_decide (fp_Kind f <> JobFold) then None
                else if bool_decide (fp_Config f <> Some (zr_Config _ _ req)) then None
                else if bool_decide (zr_FoldVK _ _ req <> ""%string /\ zr_FoldVK _ _ req <> fp_FoldVK f) then None
                else finalizeOutput f req
            end in
          let l := match out with
                   | None => st_ledger s
                   | Some _ => MkLedger (lg_proofs (st_ledger s)) (lg_finalized (st_ledger s) ++ [proofHash (j_proof j)])
                   end in
          let '(publics, snark) := default ([], []) out in
          let '(id, p) := addJob now JobFinalize [] publics snark (bool_decide (out = None)) (p_took "finalize" [] [] p) in
          ((202%N, FbAccepted id), MkSt l p)
      end
  end.

(** *** The reads *)

(** [job] *)
Definition job (now : time) (id : string) (p : FakeProver) : Answer * FakeProver :=
  match p_jobs p !! id with
  | None => ((404%N, FbError), p)
  | Some j =>
      let j := settle now j in
      ((200%N, FbJob id (j_status j) (bool_decide (j_status j = JobFailed))), p_set_jobs (<[id := j]> (p_jobs p)) p)
  end.

(** [stark], [raw], [publics] and [snark], of a done job; the program vk of a
    batch job is the one in its proof. *)
Definition read_job (now : time) (id : string) (kinds : list string) (body : fakeJob -> Answer) (p : FakeProver) :
    Answer * FakeProver :=
  let '(j, p) := doneJob now id kinds p in
  (match j with None => (404%N, FbError) | Some j => body j end, p).

Definition stark (now : time) (id : string) (p : FakeProver) : Answer * FakeProver :=
  read_job now id [JobBatch; JobFold] (fun j =>
    if decide (j_kind j = JobBatch) then
      match decodeFakeProof (j_proof j) with
      | Some f => (200%N, FbStark (fp_VK f))
      | None => (0%N, FbError)
      end
    else (200%N, FbStark (p_aggVK p))) p.
Definition raw (now : time) (id : string) : FakeProver -> Answer * FakeProver :=
  read_job now id [JobBatch; JobFold] (fun j => (200%N, FbRaw (j_proof j))).
Definition publics (now : time) (id : string) : FakeProver -> Answer * FakeProver :=
  read_job now id [JobFinalize] (fun j => (200%N, FbRaw (j_publics j))).
Definition snark (now : time) (id : string) : FakeProver -> Answer * FakeProver :=
  read_job now id [JobFinalize] (fun j => (200%N, FbSnark (j_snark j))).

(** ** Provers that share a ledger *)

(** What a test and the orchestrator do to one prover. *)
Inductive fake_op :=
  | OpHealth
  | OpProve (req : option ProveBody)
  | OpImport (query : option string) (raw : bytes)
  | OpFold (req : option FoldReq)
  | OpFinalize (req : option FinalizeReq)
  | OpJob (id : string)
  | OpStark (id : string)
  | OpRaw (id : string)
  | OpPublics (id : string)
  | OpSnark (id : string)
  | OpSetQueueLen (n : Z)
  | OpHold (kind : string)
  | OpRelease (kind : string)
  | OpSetDelay (d : duration)
  | OpSetVKs (batchVK aggVK : string)
  | OpPoison (n : Z)
  | OpFailNext (kind : string) (n : Z)
  | OpIntervals (kinds : list string)
  | OpRunning (kind : string).

Definition on_prover (f : FakeProver -> FakeProver) (s : St) : St := MkSt (st_ledger s) (f (st_prover s)).

Definition fake_step (now : time) (op : fake_op) (s : St) : St :=
  match op with
  | OpHealth => s
  | OpProve req => (prove now req s).2
  | OpImport query b => (importProof now query b s).2
  | OpFold req => (fold now req s).2
  | OpFinalize req => (finalize now req s).2
  | OpJob id => on_prover (fun p => (job now id p).2) s
  | OpStark id => on_prover (fun p => (stark now id p).2) s
  | OpRaw id => on_prover (fun p => (raw now id p).2) s
  | OpPublics id => on_prover (fun p => (publics now id p).2) s
  | OpSnark id => on_prover (fun p => (snark now id p).2) s
  | OpSetQueueLen n => on_prover (SetQueueLen n) s
  | OpHold kind => on_prover (Hold kind) s
  | OpRelease kind => on_prover (Release now kind) s
  | OpSetDelay d => on_prover (SetDelay d) s
  | OpSetVKs b a => on_prover (SetVKs b a) s
  | OpPoison n => on_prover (Poison n) s
  | OpFailNext kind n => on_prover (FailNext kind n) s
  | OpIntervals kinds => on_prover (fun p => (Intervals now kinds p).2) s
  | OpRunning kind => on_prover (fun p => (Running now kind p).2) s
  end.

Record Fakes := MkFakes { fk_ledger : Ledger; fk_provers : gmap nat FakeProver }.

(** The requests are in ASCII, and only proofs of these provers are imported. *)
Definition polite (l : Ledger) (op : fake_op) : Prop :=
  match op with
  | OpProve (Some (MkProveBody (Some sb) _)) =>
      ascii (sb_OldStateRoot sb) = true /\ ascii (sb_NewStateRoot sb) = true
  | OpImport _ b => is_Some (lg_proofs l !! proofHash b)
  | OpFold (Some req) => ascii (fr_FoldVK _ req) = true /\ config_ascii (fr_Config _ req) = true
  | OpSetVKs b _ => ascii b = true
  | _ => True
  end.

Inductive fakes_step : Fakes -> Fakes -> Prop :=
  | fakes_new f i : fakes_step f (MkFakes (fk_ledger f) (<[i := NewFakeProver]> (fk_provers f)))
  | fakes_op f i p now op s :
      fk_provers f !! i = Some p -> polite (fk_ledger f) op -> fake_step now op (MkSt (fk_ledger f) p) = s ->
      fakes_step f (MkFakes (st_ledger s) (<[i := st_prover s]> (fk_provers f))).

(** The batch and fold proofs the provers hold. *)
Definition proofs_in (K : bytes -> Prop) (f : Fakes) : Prop :=
  forall i p id j, fk_provers f !! i = Some p -> p_jobs p !! id = Some j ->
    j_kind j = JobBatch \/ j_kind j = JobFold -> K (j_proof j).

(** The states from the first prover on, in which every proof is of [K]. *)
Inductive fakes_reach (K : bytes -> Prop) : Fakes -> Prop :=
  | fakes_start : fakes_reach K (MkFakes NewLedger ∅)
  | fakes_next f f' : fakes_reach K f -> fakes_step f f' -> proofs_in K f' -> fakes_reach K f'.

(** ** What a chain of folds attests *)

(** Batches that continue each other's state roots. *)
Fixpoint continues (root : string) (bs : list Proof_) (final : string) : Prop :=
  match bs with
  | [] => root = final
  | b :: bs => fp_OldRoot b = root /\ continues (fp_NewRoot b) bs final
  end.

Definition total (field : Proof_ -> N) (bs : list Proof_) : N := u64 (foldr (fun b n => field b + n)%N 0%N bs).

(** A batch of the pinned circuit that folds take. *)
Definition accepted (b : Proof_) : Prop :=
  fp_Kind b = JobBatch /\ fp_VK b = release_batchVK /\ fp_Rejected b = false.
End fake.
