(* ===== verification/FakeProps.v ===== *)
(** * What the fake prover and its ledger guarantee

    [MaxConcurrent] counts the jobs that run at one instant, and a finalize on
    provers that share a ledger leaves a chain of folds that [FinalChain] walks. *)

From S2P Require Import Prelude Errors Bytes Types Records Config Sdk Finalize Scheduler FakeProver.

(** ** Intervals *)

Ltac time_lia := unfold time in *; lia.

(** What [MaxConcurrent] is meant to be the maximum of: the intervals that have
    started and not ended at an instant. *)
Definition overlaps (t : time) (iv : Interval) : Prop :=
  (iv_Start iv <= t)%Z /\ (IsZero (iv_End iv) = true \/ (t < iv_End iv)%Z).
#[export] Instance overlaps_dec t iv : Decision (overlaps t iv).
Proof. unfold overlaps. apply _. Defined.

Definition at_once (t : time) (ivs : list Interval) : Z := Z.of_nat (length (filter (overlaps t) ivs)).

Definition sum_events (es : list (time * Z)) : Z := foldr (fun e n => e.2 + n)%Z 0%Z es.
Definition until (t : time) (es : list (time * Z)) : list (time * Z) := filter (fun e => (e.1 <= t)%Z) es.

#[export] Instance event_le_trans : Transitive event_le.
Proof. intros a b c [?|[??]] [?|[??]]; unfold event_le; lia. Qed.
#[export] Instance event_le_total : Total event_le.
Proof. intros a b. unfold event_le. lia. Qed.

Lemma sum_events_cons e es : sum_events (e :: es) = (e.2 + sum_events es)%Z.
Proof. done. Qed.
Lemma sum_events_app es fs : sum_events (es ++ fs) = (sum_events es + sum_events fs)%Z.
Proof. induction es as [|e es IH]; [done|]. unfold sum_events in *. simpl. rewrite IH. lia. Qed.

#[export] Instance sum_events_perm : Proper ((≡ₚ) ==> (=)) sum_events.
Proof. unfold sum_events. intros es fs Hp. 
  induction Hp; simpl; lia. Qed.

Lemma until_app t es fs : until t (es ++ fs) = until t es ++ until t fs.
Proof. exact (filter_app (fun e : time * Z => (e.1 <= t)%Z) es fs). Qed.
Lemma until_cons t e es : until t (e :: es) = if decide (e.1 <= t)%Z then e :: until t es else until t es.
Proof. exact (filter_cons (fun e : time * Z => (e.1 <= t)%Z) e es). Qed.
Lemma until_all t es : Forall (fun e => e.1 <= t)%Z es -> until t es = es.
Proof. induction 1 as [|e es He ? IH]; [done|]. rewrite until_cons, decide_True by done. by rewrite IH. Qed.
Lemma until_none t es : Forall (fun e => t < e.1)%Z es -> until t es = [].
Proof. induction 1 as [|e es He ? IH]; [done|]. rewrite until_cons, decide_False; [exact IH|]. time_lia. Qed.

(** At an instant, the changes so far add up to the intervals that overlap it. *)
Lemma sum_until_at_once t ivs : sum_events (until t (ivs ≫= iv_events)) = at_once t ivs.
Proof.
  unfold at_once. induction ivs as [|iv ivs IH]; [done|]. rewrite bind_cons.
  rewrite until_app, sum_events_app, IH, filter_cons.
  destruct iv as [b e]. case_decide as Ho; unfold overlaps, IsZero, zero_time in Ho; cbn in Ho;
    unfold iv_events, IsZero, zero_time; cbn [iv_Start iv_End length].
  all: destruct (e =? 0)%Z eqn:E0, (b <? e)%Z eqn:Ebe; rewrite ?until_cons; cbn [fst];
    repeat case_decide; cbn -[Z.of_nat] in *; time_lia.
Qed.

(** In order, no moment has more jobs than an instant does: where the last
    change is a start, those that follow at the same moment are starts too. *)
Lemma prefix_until es1 es2 :
  StronglySorted event_le (es1 ++ es2) -> Forall (fun e => e.2 = 1%Z \/ e.2 = (-1)%Z) (es1 ++ es2) ->
  (forall t, 0 <= sum_events (until t (es1 ++ es2)))%Z ->
  exists t, (sum_events es1 <= sum_events (until t (es1 ++ es2)))%Z.
Proof.
  revert es2. induction es1 as [|e es1 IH] using rev_ind; intros es2 Hs Hd Hpos.
  - exists 0%Z. apply Hpos.
  - rewrite <- app_assoc in *. destruct (IH _ Hs Hd Hpos) as [t Ht].
    apply Forall_app in Hd as [_ [He Hd]%Forall_cons]. cbn [app] in Hs, Hd.
    destruct He as [He|He]; [|exists t; rewrite sum_events_app; rewrite sum_events_cons, He; change (sum_events []) with 0%Z; time_lia].
    exists e.1. cbn [app] in *. apply StronglySorted_app in Hs as (Hle & _ & Hs).
    rewrite until_app, !sum_events_app, until_cons, decide_True by time_lia.
    rewrite (until_all _ es1). 2: { apply Forall_forall. intros x Hx. destruct (Hle x e Hx (list_elem_of_here _ _)) as [?|[? ?]]; time_lia. }
    assert (0 <= sum_events (until e.1 es2))%Z; [|rewrite !sum_events_cons; change (sum_events []) with 0%Z; time_lia].
    apply StronglySorted_inv in Hs as [_ Hge]. clear -Hge Hd He.
    induction es2 as [|x es2 IH]; [done|]. apply Forall_cons in Hge as [Hx ?], Hd as [? ?].
    rewrite until_cons. case_decide; [rewrite sum_events_cons|by apply IH]. specialize (IH ltac:(done) ltac:(done)). destruct Hx as [?|[? ?]]; time_lia.
Qed.

Lemma sorted_until t es :
  StronglySorted event_le es -> exists es1 es2, es = es1 ++ es2 /\ until t es = es1.
Proof.
  induction 1 as [|e es Hs IH Hge]; [by exists [], []|].
  rewrite until_cons. case_decide as He.
  - destruct IH as (es1 & es2 & -> & ->). by exists (e :: es1), es2.
  - exists [], (e :: es). split; [done|]. apply until_none. eapply Forall_impl; [exact Hge|].
    intros x [?|[? _]]; time_lia.
Qed.

(** The loop over the changes keeps the greatest sum of a prefix. *)
Lemma count_events es n m :
  let r := (foldl count_event (n, m) es).2 in
  (m <= r)%Z /\ (forall es1 es2, es = es1 ++ es2 -> es1 <> [] -> n + sum_events es1 <= r)%Z /\
  (r = m \/ exists es1 es2, es = es1 ++ es2 /\ r = (n + sum_events es1)%Z).
Proof.
  revert n m. induction es as [|e es IH]; intros n m; cbn [foldl].
  - split; [done|]. split; [intros [|] ? [=] ?; done|by left].
  - destruct (IH (n + e.2)%Z (Z.max m (n + e.2))%Z) as (H1 & H2 & H3).
    change (count_event (n, m) e) with (n + e.2, Z.max m (n + e.2))%Z.
    set (r := (foldl _ _ es).2) in *. cbn zeta in *.
    split; [time_lia|]. split.
    + intros [|x es1] es2 Heq Hne; [done|]. injection Heq as <- ->. rewrite sum_events_cons.
      destruct es1 as [|y es1]; [change (sum_events []) with 0%Z; time_lia|].
      specialize (H2 (y :: es1) es2 eq_refl ltac:(done)). time_lia.
    + destruct H3 as [H3|(es1 & es2 & -> & H3)].
      * rewrite H3. destruct (Z.max_spec m (n + e.2)) as [[_ ->]|[_ ->]]; [|by left].
        right. exists [e], es. split; [done|]. rewrite sum_events_cons. change (sum_events []) with 0%Z. time_lia.
      * right. exists (e :: es1), es2. split; [done|]. rewrite sum_events_cons. time_lia.
Qed.

(** C38: MaxConcurrent is the most intervals that overlap at one instant: no
    instant has more, and some instant has as many. *)
Theorem MaxConcurrent_is_maximum ivs :
  (forall t, at_once t ivs <= MaxConcurrent ivs)%Z /\ exists t, at_once t ivs = MaxConcurrent ivs.
Proof.
  unfold MaxConcurrent. set (es := merge_sort event_le (ivs ≫= iv_events)).
  assert (es ≡ₚ ivs ≫= iv_events) as Hp by apply merge_sort_Permutation.
  assert (StronglySorted event_le es) as Hs by (apply (StronglySorted_merge_sort _)).
  assert (forall t, sum_events (until t es) = at_once t ivs) as Hsum.
  { intros t. rewrite <- sum_until_at_once. unfold until. by rewrite Hp. }
  assert (Forall (fun e => e.2 = 1%Z \/ e.2 = (-1)%Z) es) as Hd.
  { rewrite Hp. apply Forall_bind, Forall_true. intros iv. unfold compose, iv_events.
    repeat case_match; auto 6 using Forall_cons_2, Forall_nil_2. }
  destruct (count_events es 0 0) as (H1 & H2 & H3).
  set (r := (foldl count_event (0, 0)%Z es).2) in *.
  assert (forall t, (at_once t ivs <= r)%Z) as Hle.
  { intros t. rewrite <- Hsum. destruct (sorted_until t es Hs) as (es1 & es2 & Heq & ->).
    destruct es1 as [|e es1]; [exact H1|]. exact (H2 _ _ Heq ltac:(done)). }
  split; [exact Hle|].
  assert (exists t, (r <= at_once t ivs)%Z) as [t Ht].
  { destruct H3 as [->|(es1 & es2 & Heq & ->)].
    - exists 0%Z. unfold at_once. time_lia.
    - rewrite Heq in *. destruct (prefix_until es1 es2 Hs Hd) as [t Ht].
      + intros t. rewrite Hsum. unfold at_once. time_lia.
      + exists t. by rewrite <- Hsum. }
  exists t. apply Z.le_antisymm; [apply Hle|exact Ht].
Qed.

(** ** Proofs and their hashes *)

Section chain.
Context `{FakeLaws}.
Abbreviation Proof_ := (FakeProof ChainParams).
Implicit Types (m : gmap string Proof_) (K : bytes -> Prop) (p q : Proof_).

(** SHA-256 does not collide on the proofs of [K]. *)
Definition collision_free (K : bytes -> Prop) : Prop := forall a b, K a -> K b -> Sum256 a = Sum256 b -> a = b.

Lemma proofHash_inj a b : proofHash a = proofHash b -> Sum256 a = Sum256 b.
Proof.
  intros E%(f_equal String.list_byte_of_string). unfold proofHash in E.
  rewrite !String.list_byte_of_string_of_list_byte in E. by apply (inj hex_encode).
Qed.

Lemma proofHash_nonempty b : proofHash b <> ""%string.
Proof.
  intros E%(f_equal String.list_byte_of_string). unfold proofHash in E.
  rewrite String.list_byte_of_string_of_list_byte in E.
  apply (f_equal length) in E. rewrite length_hex_encode, Sum256_length in E. done.
Qed.

Lemma hash_ascii raw : ascii (proofHash raw) = true.
Proof.
  unfold ascii, proofHash. rewrite String.list_byte_of_string_of_list_byte. generalize (Sum256 raw) as b. intros b.
  induction b as [|c b IH]; [done|]. rewrite hex_encode_cons, forallb_app, IH. by destruct c.
Qed.

Lemma decode_encode p : proof_ascii p = true -> decodeFakeProof (encode p) = Some p.
Proof. intros Hp. unfold decodeFakeProof, encode. cbn. by apply unmarshal_marshal. Qed.

(** ** Chains of folds *)

(** A fold of a ledger, the folds up to it, and the batches they fold. *)
Inductive chained m : Proof_ -> list Proof_ -> list Proof_ -> Prop :=
  | chained_genesis p bs :
      fp_Kind p = JobFold -> fp_Prev p = ""%string -> fp_Steps p = 1%N ->
      walk_batches m (fp_Batches p) (fp_OldRoot p) [] = Ok (fp_NewRoot p, bs) -> bs <> [] ->
      fp_Voters p = total fp_Voters bs -> fp_Overwrites p = total fp_Overwrites bs -> Forall accepted bs ->
      chained m p [p] bs
  | chained_next p q folds bs bs' :
      chained m q folds bs -> m !! fp_Prev p = Some q -> fp_Prev p <> ""%string ->
      fp_Kind p = JobFold -> fp_OldRoot p = fp_OldRoot q -> fp_Steps p = u32 (fp_Steps q + 1) ->
      walk_batches m (fp_Batches p) (fp_NewRoot q) [] = Ok (fp_NewRoot p, bs') ->
      fp_Voters p = total fp_Voters (bs ++ bs') -> fp_Overwrites p = total fp_Overwrites (bs ++ bs') ->
      Forall accepted bs' ->
      chained m p (folds ++ [p]) (bs ++ bs').

Lemma walk_batches_mono m m' hs root acc r :
  m ⊆ m' -> walk_batches m hs root acc = Ok r -> walk_batches m' hs root acc = Ok r.
Proof.
  intros Hm. revert root acc. induction hs as [|h hs IH]; intros root acc; [done|]. cbn.
  destruct (m !! h) as [b|] eqn:E; [|done]. rewrite (lookup_weaken _ _ _ _ E Hm). repeat case_decide; auto.
Qed.

Lemma walk_batches_acc m hs root acc acc0 r bs :
  walk_batches m hs root acc = Ok (r, bs) -> walk_batches m hs root (acc0 ++ acc) = Ok (r, acc0 ++ bs).
Proof.
  revert root acc. induction hs as [|h hs IH]; intros root acc; cbn; [by intros [= -> ->]|].
  repeat case_match; try done. rewrite <- app_assoc. apply IH.
Qed.

Lemma walk_batches_continues m hs root acc r bs :
  walk_batches m hs root acc = Ok (r, bs) -> exists bs', bs = acc ++ bs' /\ continues root bs' r.
Proof.
  revert root acc. induction hs as [|h hs IH]; intros root acc; cbn.
  - intros [= -> ->]. exists []. by rewrite app_nil_r.
  - repeat case_match; try done. intros (bs' & -> & Hc)%IH. eexists. rewrite <- app_assoc. split; [reflexivity|]. done.
Qed.

Lemma continues_app root bs mid bs' final :
  continues root bs mid -> continues mid bs' final -> continues root (bs ++ bs') final.
Proof.
  revert root. induction bs as [|b bs IH]; intros root; cbn; [by intros ->|]. intros [? ?] ?. eauto.
Qed.

Lemma chained_mono m m' p folds bs : m ⊆ m' -> chained m p folds bs -> chained m' p folds bs.
Proof.
  intros Hm. induction 1; [eapply chained_genesis|eapply chained_next];
    eauto using walk_batches_mono, lookup_weaken.
Qed.

Lemma chained_facts m p folds bs :
  chained m p folds bs ->
  fp_Kind p = JobFold /\ bs <> [] /\ continues (fp_OldRoot p) bs (fp_NewRoot p) /\
  fp_Voters p = total fp_Voters bs /\ fp_Overwrites p = total fp_Overwrites bs /\ Forall accepted bs /\
  fp_Steps p = u32 (N.of_nat (length folds)).
Proof.
  induction 1 as [p bs ? ? ? Hw|p q folds bs bs' _ IH ? ? ? Ho Hs Hw ? ? ?].
  - apply walk_batches_continues in Hw as (? & -> & ?). cbn. split_and!; try done.
  - destruct IH as (_ & Hne & Hc & _ & _ & Ha & Hq). apply walk_batches_continues in Hw as (? & -> & Hw). cbn in *.
    split_and!; try done.
    + by destruct bs.
    + rewrite Ho. eapply continues_app; eauto.
    + by apply Forall_app.
    + rewrite Hs, Hq, length_app. cbn. unfold u32. rewrite Nat2N.inj_add, N.Div0.add_mod_idemp_l. done.
Qed.

Lemma chained_head m p folds bs :
  chained m p folds bs -> exists q folds', folds = q :: folds' /\ fp_OldRoot q = fp_OldRoot p.
Proof.
  induction 1 as [p bs|p q folds bs bs' _ (q' & folds' & -> & Ho) ? ? ? Hq]; [by eexists _, _|].
  exists q', (folds' ++ [p]). split; [done|]. congruence.
Qed.

Lemma walk_back_chained m p folds bs h n acc :
  chained m p folds bs -> m !! h = Some p -> h <> ""%string -> length folds < n ->
  walk_back n m h acc = Ok (folds ++ acc).
Proof.
  intros Hc. revert h n acc. induction Hc as [p bs Hk Hp|p q folds bs bs' Hc IH Hq Hne Hk];
    intros h n acc Hh Hnh Hlen; (destruct n as [|n]; [lia|]); cbn [walk_back]; rewrite decide_False by done;
    rewrite Hh, decide_True by done.
  - rewrite Hp. destruct n; reflexivity.
  - rewrite length_app in Hlen. cbn in Hlen. rewrite (IH _ _ _ Hq Hne) by lia. by rewrite <- app_assoc.
Qed.

Lemma walk_folds_chained m p folds bs rest :
  chained m p folds bs ->
  walk_folds m 0 (folds ++ rest) (fp_OldRoot p) [] =
  walk_folds m (N.of_nat (length folds)) rest (fp_NewRoot p) bs.
Proof.
  intros Hc. revert rest. induction Hc as [p bs Hk Hp Hs Hw|p q folds bs bs' Hc IH Hq Hne Hk Ho Hs Hw]; intros rest.
  - cbn. rewrite Hs, decide_True by done. by rewrite Hw; cbn; rewrite decide_True by done.
  - rewrite <- app_assoc. cbn [app]. rewrite Ho, IH. cbn [walk_folds].
    apply chained_facts in Hc as (_ & _ & _ & _ & _ & _ & Hsq).
    rewrite decide_True by (rewrite Hs, Hsq; unfold u32; by rewrite N.Div0.add_mod_idemp_l).
    apply (walk_batches_acc _ _ _ _ bs) in Hw. rewrite app_nil_r in Hw. rewrite Hw. cbn.
    rewrite decide_True by done. f_equal. rewrite length_app. cbn. lia.
Qed.

(** ** What the provers keep *)

(** A proof the ledger has under its hash. *)
Definition known m (b : bytes) : Prop :=
  exists p, m !! proofHash b = Some p /\ decodeFakeProof b = Some p /\ proof_ascii p = true.

Definition chain_in m p : Prop := exists folds bs, chained m p folds bs /\ length folds <= size m.

Record ledger_ok K m : Prop := {
  lo_proofs h p : m !! h = Some p -> proof_ascii p = true /\ exists b, K b /\ h = proofHash b /\ decodeFakeProof b = Some p;
  lo_folds h p : m !! h = Some p -> fp_Kind p = JobFold -> chain_in m p;
}.

Definition a_proof (j : fakeJob) : Prop := j_kind j = JobBatch \/ j_kind j = JobFold.
Definition job_ok m (j : fakeJob) : Prop :=
  a_proof j -> j_status j = JobDone \/ j_final j = JobDone -> known m (j_proof j).
Definition jobs_in K (P : FakeProver) : Prop := forall id j, p_jobs P !! id = Some j -> a_proof j -> K (j_proof j).

Record prover_ok m (P : FakeProver) : Prop := {
  po_vk : ascii (p_batchVK P) = true;
  po_jobs id j : p_jobs P !! id = Some j -> job_ok m j;
}.

Definition a_fold m (h : string) : Prop := exists p, m !! h = Some p /\ fp_Kind p = JobFold /\ h <> ""%string.

Record ledger_kept K (l : Ledger) : Prop := {
  lk_ok : ledger_ok K (lg_proofs l);
  lk_final : Forall (a_fold (lg_proofs l)) (lg_finalized l);
}.

Lemma known_mono m m' b : m ⊆ m' -> known m b -> known m' b.
Proof. intros Hm (p & Hp & ?). exists p. split; [by eapply lookup_weaken|done]. Qed.

Lemma prover_ok_mono m m' P : m ⊆ m' -> prover_ok m P -> prover_ok m' P.
Proof. intros Hm [? Hj]. split; [done|]. intros id j Hl ? ?. eapply known_mono; [exact Hm|]. by eapply Hj. Qed.

(** Adding a proof to the ledger: it is new, or it is there already. *)
Lemma ledger_add_ok K l b p :
  collision_free K -> ledger_kept K l -> K b -> decodeFakeProof b = Some p -> proof_ascii p = true ->
  (fp_Kind p = JobFold -> exists folds bs,
    chained (lg_proofs l) p folds bs /\ length folds <= S (size (lg_proofs l))) ->
  let l' := ledger_add b p l in
  lg_proofs l ⊆ lg_proofs l' /\ ledger_kept K l' /\ known (lg_proofs l') b.
Proof.
  intros HK [[Hp Hf] Hfin] Hb Hd Ha Hc. cbn.
  assert (lg_proofs l ⊆ <[proofHash b := p]> (lg_proofs l)) as Hsub.
  { destruct (lg_proofs l !! proofHash b) as [q|] eqn:Eq; [|by apply insert_subseteq].
    destruct (Hp _ _ Eq) as (_ & b' & Hb' & Hh%proofHash_inj & Hq). apply HK in Hh; [|done..]. subst b'.
    rewrite Hq in Hd. injection Hd as ->. by rewrite insert_id. }
  split; [exact Hsub|]. split; [split; [split|]|]; cbn.
  - intros h q [[<- <-]|[? Hq]]%lookup_insert_Some; [|by apply Hp]. split; [done|]. by exists b.
  - assert (size (lg_proofs l) <= size (<[proofHash b := p]> (lg_proofs l))) as Hsz by by apply map_subseteq_size.
    assert (forall h q, lg_proofs l !! h = Some q -> fp_Kind q = JobFold ->
      chain_in (<[proofHash b := p]> (lg_proofs l)) q) as Hold.
    { intros h q Hq Hk. destruct (Hf _ _ Hq Hk) as (folds & bs & Hch & Hlen).
      exists folds, bs. split; [by eapply chained_mono|lia]. }
    intros h q [[<- <-]|[? Hq]]%lookup_insert_Some Hk; [|by eapply Hold].
    destruct (lg_proofs l !! proofHash b) as [q|] eqn:Eq.
    + pose proof (lookup_weaken _ _ _ _ Eq Hsub) as E. rewrite lookup_insert_eq in E. injection E as <-. by eapply Hold.
    + destruct (Hc Hk) as (folds & bs & Hch & Hlen). exists folds, bs.
      split; [by eapply chained_mono|]. by rewrite map_size_insert_None.
  - cbn. eapply Forall_impl; [exact Hfin|]. intros h (q & Hq & ?). exists q. split; [by eapply lookup_weaken|done].
  - exists p. by rewrite lookup_insert_eq.
Qed.

(** *** Jobs *)

Lemma settle_ok m now j : job_ok m j -> job_ok m (settle now j).
Proof.
  intros Hj. unfold settle. case_decide; [|done]. case_match; [|done].
  unfold job_ok, a_proof in *. cbn. intros ? [?|?]; apply Hj; auto.
Qed.

Lemma settle_same now j : j_kind (settle now j) = j_kind j /\ j_proof (settle now j) = j_proof j.
Proof. unfold settle. repeat case_match; done. Qed.

Lemma p_set_jobs_ok m f P :
  prover_ok m P -> (forall id j, f !! id = Some j -> job_ok m j) -> prover_ok m (p_set_jobs f P).
Proof. intros [? _] Hf. split; [done|exact Hf]. Qed.

Lemma insert_job_ok m P id j (f := <[id := j]> (p_jobs P)) :
  prover_ok m P -> job_ok m j -> forall id' j', f !! id' = Some j' -> job_ok m j'.
Proof. intros [_ Hj] Hn id' j' [[_ <-]|[_ ?]]%lookup_insert_Some; eauto. Qed.

Lemma doneJob_ok m now id kinds P r P' :
  prover_ok m P -> doneJob now id kinds P = (r, P') ->
  prover_ok m P' /\ forall j, r = Some j -> j_kind j ∈ kinds /\ (a_proof j -> known m (j_proof j)).
Proof.
  unfold doneJob. intros HP. destruct (p_jobs P !! id) as [j|] eqn:Ej; [|by intros [= <- <-]].
  pose proof (settle_ok m now j (po_jobs _ _ HP _ _ Ej)) as Hj. intros [= <- <-].
  split; [by apply p_set_jobs_ok, insert_job_ok|]. intros j'. destruct (bool_decide _ && bool_decide _) eqn:E; [|done]. intros [= <-].
  apply andb_true_iff in E as [Hd%bool_decide_eq_true_1 Hk%bool_decide_eq_true_1].
  split; [done|]. intros ?. apply Hj; [done|by left].
Qed.

Lemma batch_jobs_ok m now ids P r P' :
  prover_ok m P -> batch_jobs now ids P = (r, P') ->
  prover_ok m P' /\ forall bs, r = Some bs -> Forall (known m) bs /\ length bs = length ids.
Proof.
  revert P r P'. induction ids as [|id ids IH]; intros P r P' HP; cbn [batch_jobs].
  - intros [= <- <-]. split; [done|]. intros bs [= <-]. by split; [constructor|].
  - destruct (doneJob now id [JobBatch] P) as [j P1] eqn:E1. apply (doneJob_ok m) in E1 as [HP1 Hj]; [|done].
    destruct j as [j|]; [|by intros [= <- <-]].
    destruct (batch_jobs now ids P1) as [rs P2] eqn:E2. apply IH in E2 as [HP2 Hrs]; [|done].
    intros [= <- <-]. split; [done|]. intros bs (bs' & -> & ->)%fmap_Some.
    destruct (Hrs _ eq_refl) as [? ?], (Hj _ eq_refl) as [Hk Hkn]. cbn. split; [|lia].
    constructor; [|done]. apply Hkn. left. by apply list_elem_of_singleton.
Qed.

Lemma addJob_ok m now kind b pub sn failure P id P' :
  prover_ok m P -> addJob now kind b pub sn failure P = (id, P') ->
  (kind = JobBatch \/ kind = JobFold -> failure = false -> known m b) -> prover_ok m P'.
Proof.
  unfold addJob. set (failed := (0 <? _)%Z || failure). intros HP E Hb.
  assert (failed = false -> failure = false) as Hf by (by intros [_ ?]%orb_false_iff).
  destruct (default false (p_hold P !! kind)), (0 <? p_delay P)%Z; injection E as <- <-;
    (split; [apply HP|]; cbn; apply insert_job_ok; [done|]); intros Ha Hst; (apply Hb; [exact Ha|]);
    apply Hf; destruct failed; try done; by destruct Hst.
Qed.

Lemma addJob_in K now kind b pub sn failure P id P' :
  addJob now kind b pub sn failure P = (id, P') -> jobs_in K P' -> kind = JobBatch \/ kind = JobFold -> K b.
Proof.
  unfold addJob. intros E HK Hk. destruct (default false (p_hold P !! kind)), (0 <? p_delay P)%Z;
    injection E as <- <-; exact (HK _ _ (lookup_insert_eq _ _ _) Hk).
Qed.

(** *** Folding *)

Lemma total_snoc field bs b : total field (bs ++ [b]) = u64 (total field bs + field b).
Proof.
  unfold total. assert (foldr (fun b n => field b + n) 0 (bs ++ [b]) =
    foldr (fun b n => field b + n) 0 bs + field b)%N as ->.
  { induction bs as [|c bs IH]; cbn; [lia|]. cbn in IH. rewrite IH. lia. }
  unfold u64. by rewrite N.Div0.add_mod_idemp_l.
Qed.

Lemma proof_ascii_set p old new voters overwrites steps prev vk :
  proof_ascii p = true -> ascii old = true -> ascii new = true -> ascii prev = true -> ascii vk = true ->
  proof_ascii (fp_set_chain old new voters overwrites steps prev vk p) = true.
Proof. unfold proof_ascii. cbn -[ascii]. rewrite !andb_true_iff. tauto. Qed.

Lemma proof_ascii_fields p :
  proof_ascii p = true ->
  ascii (fp_OldRoot p) = true /\ ascii (fp_NewRoot p) = true /\ ascii (fp_Prev p) = true /\ ascii (fp_FoldVK p) = true.
Proof. unfold proof_ascii. cbn -[ascii]. rewrite !andb_true_iff. tauto. Qed.

(** A fold whose batches all pass folds the batches of the ledger that walk. *)
Lemma fold_batches_ok m raws out out' bs0 :
  Forall (known m) raws -> fold_batches (decodeFakeProof <$> raws) out = (out', false) ->
  proof_ascii out = true -> fp_Voters out = total fp_Voters bs0 -> fp_Overwrites out = total fp_Overwrites bs0 ->
  exists bs, walk_batches m (proofHash <$> raws) (fp_NewRoot out) [] = Ok (fp_NewRoot out', bs) /\
    Forall accepted bs /\ length bs = length raws /\ proof_ascii out' = true /\
    fp_Voters out' = total fp_Voters (bs0 ++ bs) /\ fp_Overwrites out' = total fp_Overwrites (bs0 ++ bs) /\
    out' = fp_set_chain (fp_OldRoot out) (fp_NewRoot out') (fp_Voters out') (fp_Overwrites out') (fp_Steps out)
      (fp_Prev out) (fp_FoldVK out) out.
Proof.
  intros Hr. revert out bs0. induction Hr as [|b raws (p & Hp & Hd & Hpa) Hr IH]; intros out bs0.
  - cbn. intros [= ->] Ha Hv Ho. exists []. rewrite app_nil_r. split_and!; try done. by destruct out'.
  - cbn [fmap list_fmap fold_batches]. rewrite Hd.
    destruct (bool_decide (fp_Kind p <> JobBatch)) eqn:E1; [done|].
    destruct (bool_decide (fp_VK p <> release_batchVK)) eqn:E2; [done|].
    destruct (fp_Rejected p) eqn:E3; [done|].
    destruct (bool_decide (fp_OldRoot p <> fp_NewRoot out)) eqn:E4; [done|].
    rewrite !bool_decide_eq_false in *. apply dec_stable in E1, E2, E4.
    intros Hf Ha Hv Ho. destruct (proof_ascii_fields _ Ha) as (? & ? & ? & ?), (proof_ascii_fields _ Hpa) as (_ & ? & _).
    edestruct (IH _ (bs0 ++ [p]) Hf) as (bs & Hw & Hacc & Hl & Ha' & Hv' & Ho' & Heq).
    { by apply proof_ascii_set. }
    { cbn. by rewrite total_snoc, Hv. }
    { cbn. by rewrite total_snoc, Ho. }
    exists (p :: bs). cbn [fp_NewRoot fp_set_chain] in Hw. rewrite <- app_assoc in Hv', Ho'. cbn [walk_batches].
    rewrite Hp, decide_True by done. rewrite decide_True by done.
    split_and!; try done.
    + by apply (walk_batches_acc _ _ _ _ [p]) in Hw.
    + constructor; [by split_and!|done].
    + cbn. by rewrite Hl.
Qed.

(** The proof of a fold before its batches: it starts a chain, or continues one. *)
Definition extends m (out : Proof_) (folds bs : list Proof_) : Prop :=
  fp_Kind out = JobFold /\ proof_ascii out = true /\
  fp_Voters out = total fp_Voters bs /\ fp_Overwrites out = total fp_Overwrites bs /\
  ((folds = [] /\ bs = [] /\ fp_Prev out = ""%string /\ fp_Steps out = 1%N /\ fp_OldRoot out = fp_NewRoot out) \/
   (exists q, chained m q folds bs /\ length folds <= size m /\ m !! fp_Prev out = Some q /\
      fp_Prev out <> ""%string /\ fp_OldRoot out = fp_OldRoot q /\ fp_NewRoot out = fp_NewRoot q /\
      fp_Steps out = u32 (fp_Steps q + 1))).

Lemma fold_batches_chained m raws out out' folds bs0 :
  Forall (known m) raws -> raws <> [] -> fp_Batches out = proofHash <$> raws -> extends m out folds bs0 ->
  fold_batches (decodeFakeProof <$> raws) out = (out', false) ->
  proof_ascii out' = true /\ exists folds' bs, chained m out' folds' bs /\ length folds' <= S (size m).
Proof.
  intros Hr Hne Hb (Hk & Ha & Hv & Ho & Hcase) Hf.
  destruct (fold_batches_ok _ _ _ _ _ Hr Hf Ha Hv Ho) as (bs & Hw & Hacc & Hl & Ha' & Hv' & Ho' & Heq).
  split; [done|]. rewrite <- Hb in Hw.
  assert (fp_Batches out' = fp_Batches out /\ fp_Kind out' = fp_Kind out /\ fp_Prev out' = fp_Prev out /\
    fp_OldRoot out' = fp_OldRoot out /\ fp_Steps out' = fp_Steps out) as (Hb' & Hk' & Hp' & Hold' & Hs')
    by (rewrite Heq; done). clear Heq.
  destruct Hcase as [(-> & -> & Hp & Hs & Hroot)|(q & Hq & Hlen & Hp & Hpn & Hold & Hnew & Hs)].
  - exists [out'], bs. split; [|cbn; lia]. apply chained_genesis; try done; try congruence.
    intros ->. by destruct raws.
  - exists (folds ++ [out']), (bs0 ++ bs). split; [|rewrite length_app; cbn; lia].
    eapply chained_next; try done; congruence.
Qed.

Lemma continue_fold_extends K m req raw hashes out' f0 :
  ledger_ok K m -> known m raw -> ascii (fr_FoldVK _ req) = true -> config_ascii (fr_Config _ req) = true ->
  forallb ascii hashes = true ->
  f0 = MkFakeProof JobFold "" "" 0 0 1 "" hashes (fr_FoldVK _ req) (Some (fr_Config _ req)) "" false ->
  continue_fold req (decodeFakeProof raw) (proofHash raw) f0 = (out', false) ->
  exists folds bs, extends m out' folds bs /\ fp_Batches out' = hashes.
Proof.
  intros [_ Hf] (q & Hq & Hd & Hqa) Hvk Hcfg Hh -> E. rewrite Hd in E. unfold continue_fold in E.
  destruct (bool_decide (fp_Kind q <> JobFold)) eqn:E1; [done|].
  destruct (bool_decide (fp_Config q <> _)) eqn:E2; [done|].
  destruct (bool_decide (_ /\ _)); [done|]. injection E as <-.
  rewrite bool_decide_eq_false in E1. apply dec_stable in E1.
  destruct (Hf _ _ Hq E1) as (folds & bs & Hc & Hlen). exists folds, bs. split; [|done].
  destruct (chained_facts _ _ _ _ Hc) as (_ & _ & _ & Hv & Ho & _ & _).
  destruct (proof_ascii_fields _ Hqa) as (? & ? & ? & ?).
  split_and!; try done.
  - apply proof_ascii_set; try done; [|apply hash_ascii].
    unfold proof_ascii. cbn -[ascii]. by rewrite Hvk, Hcfg, Hh.
  - right. exists q. cbn. split_and!; try done. apply proofHash_nonempty.
Qed.

(** *** The handlers *)

Definition st_ok K (s : St) : Prop := ledger_kept K (st_ledger s) /\ prover_ok (lg_proofs (st_ledger s)) (st_prover s).
Definition st_grows K (s s' : St) : Prop := lg_proofs (st_ledger s) ⊆ lg_proofs (st_ledger s') /\ st_ok K s'.

Lemma p_took_ok m what folds imported P : prover_ok m P -> prover_ok m (p_took what folds imported P).
Proof. by intros [? ?]. Qed.

Lemma fold_from_ok K now req raws out failed l P a s' folds bs :
  collision_free K -> ledger_kept K l -> prover_ok (lg_proofs l) P ->
  Forall (known (lg_proofs l)) raws -> raws <> [] -> fp_Batches out = proofHash <$> raws ->
  (failed = false -> extends (lg_proofs l) out folds bs) ->
  fold_from now req (decodeFakeProof <$> raws) out failed l P = (a, s') -> jobs_in K (st_prover s') ->
  st_grows K (MkSt l P) s'.
Proof.
  intros HK Hl HP Hr Hne Hb Hx. unfold fold_from.
  destruct (fold_batches _ out) as [out' failed'] eqn:Eb.
  destruct (addJob now JobFold (encode out') [] [] (failed || failed') (p_took "fold" [req] [] P)) as [id P'] eqn:Ej.
  intros [= <- <-] Hjobs. cbn in Hjobs.
  assert (K (encode out')) as Hin by (eapply addJob_in; eauto).
  destruct (failed || failed') eqn:Ef.
  - split; [done|]. split; [done|]. eapply addJob_ok; [by apply p_took_ok|exact Ej|done].
  - apply orb_false_iff in Ef as [-> ->].
    destruct (fold_batches_chained _ _ _ _ _ _ Hr Hne Hb (Hx eq_refl) Eb) as (Ha & Hc).
    destruct (ledger_add_ok K l (encode out') out' HK Hl Hin (decode_encode _ Ha) Ha (fun _ => Hc)) as (Hsub & Hl' & Hkn).
    split; [done|]. split; [done|]. eapply addJob_ok; [|exact Ej|done].
    apply p_took_ok. by eapply prover_ok_mono.
Qed.

Lemma take_job_ok m P n id j :
  prover_ok m P -> job_ok m j -> prover_ok m (p_take_job n (<[id := j]> (p_jobs P)) (p_fail P) P).
Proof. intros HP Hj. split; [apply HP|]. by apply insert_job_ok. Qed.

Lemma prove_ok K now req s a s' :
  collision_free K -> st_ok K s -> polite (st_ledger s) (OpProve req) -> prove now req s = (a, s') ->
  jobs_in K (st_prover s') -> st_grows K s s'.
Proof.
  intros HK [Hl HP] Hpol E Hjobs.
  destruct req as [[[sb|] out]|]; cbn beta iota delta [prove] in E; [|by injection E as <- <-|by injection E as <- <-].
  case_decide; [|by injection E as <- <-]. destruct Hpol as [Ho Hn].
  cbn zeta in E. set (f := MkFakeProof _ _ _ _ _ _ _ _ _ _ _ _) in E.
  destruct (addJob now JobBatch (encode f) _ _ _ _) as [id P'] eqn:Ej. injection E as <- <-. cbn in Hjobs.
  assert (proof_ascii f = true) as Ha.
  { unfold proof_ascii. cbn -[ascii]. by rewrite Ho, Hn, (po_vk _ _ HP). }
  assert (K (encode f)) as Hin by (eapply addJob_in; eauto).
  destruct (ledger_add_ok K (st_ledger s) (encode f) f HK Hl Hin (decode_encode _ Ha) Ha ltac:(done)) as (Hsub & Hl' & Hkn).
  split; [done|]. split; [done|]. eapply addJob_ok; [|exact Ej|done]. apply p_took_ok.
  eapply prover_ok_mono; [exact Hsub|]. case_match; [by destruct HP|done].
Qed.

Lemma importProof_ok K now query b s a s' :
  collision_free K -> st_ok K s -> polite (st_ledger s) (OpImport query b) -> importProof now query b s = (a, s') ->
  jobs_in K (st_prover s') -> st_grows K s s'.
Proof.
  intros HK [Hl HP] [q Hq] E Hjobs. unfold importProof in E.
  destruct (bool_decide (_ /\ _)) eqn:Ek; [by injection E as <- <-|].
  destruct (decodeFakeProof b) as [p|] eqn:Ed; [|by injection E as <- <-].
  injection E as <- <-. cbn in Hjobs.
  assert (K b) as Hin.
  { refine (Hjobs _ _ (lookup_insert_eq _ _ _) _). unfold a_proof. cbn. rewrite bool_decide_eq_false in Ek.
    destruct (decide (default JobBatch query = JobBatch)), (decide (default JobBatch query = JobFold)); tauto. }
  destruct (lo_proofs _ _ (lk_ok _ _ Hl) _ _ Hq) as (Ha & b' & Hb' & Hh%proofHash_inj & Hd).
  apply HK in Hh; [|done..]. subst b'. rewrite Ed in Hd. injection Hd as ->.
  destruct (ledger_add_ok K (st_ledger s) b q HK Hl Hin Ed Ha) as (Hsub & Hl' & Hkn).
  { intros Hk. destruct (lo_folds _ _ (lk_ok _ _ Hl) _ _ Hq Hk) as (folds & bs & ? & ?). exists folds, bs. split; [done|lia]. }
  split; [done|]. split; [done|]. cbn [st_ledger st_prover].
  apply take_job_ok; [|by intros _ _]. pose proof (prover_ok_mono _ _ _ Hsub HP). by case_match; repeat apply p_took_ok.
Qed.

Lemma fold_ok K now req s a s' :
  collision_free K -> st_ok K s -> polite (st_ledger s) (OpFold req) -> fold now req s = (a, s') ->
  jobs_in K (st_prover s') -> st_grows K s s'.
Proof.
  intros HK [Hl HP] Hpol E Hjobs. destruct req as [req|]; cbn [fold] in E; [|by injection E as <- <-].
  case_decide as Hnil; [by injection E as <- <-|]. destruct Hpol as [Hvk Hcfg].
  destruct (batch_jobs now (fr_BatchJobs _ req) (st_prover s)) as [r P] eqn:Eb.
  destruct (batch_jobs_ok _ _ _ _ _ _ HP Eb) as [HP1 Hr].
  destruct r as [raws|]; [|injection E as <- <-; by split].
  destruct (Hr _ eq_refl) as [Hkn Hlen]. clear Hr.
  assert (raws <> []) as Hne by (intros ->; by destruct (fr_BatchJobs _ req)).
  assert (forallb ascii (proofHash <$> raws) = true) as Hh.
  { clear. induction raws as [|b raws IH]; [done|]. cbn -[ascii proofHash]. by rewrite hash_ascii. }
  case_decide as Hprev.
  - destruct Hkn as [|b raws (p & Hp & Hd & Ha) Hkn]; [done|]. cbn [fmap list_fmap] in E. rewrite Hd in E.
    destruct (proof_ascii_fields _ Ha) as (? & _).
    replace (Some p :: _) with (decodeFakeProof <$> b :: raws) in E by (cbn; by rewrite Hd).
    eapply (fold_from_ok _ _ _ (b :: raws) _ false _ P _ _ [] []) in E; try done.
    + by constructor; [exists p|].
    + intros _. split_and!; try done; [|by left]. apply proof_ascii_set; try done.
      unfold proof_ascii. cbn -[ascii] in *. by rewrite Hvk, Hcfg, Hh.
  - destruct (doneJob now (fr_PrevFoldJob _ req) [JobFold] P) as [j P2] eqn:Ej.
    destruct (doneJob_ok _ _ _ _ _ _ _ HP1 Ej) as [HP2 Hj].
    destruct j as [j|]; [|injection E as <- <-; by split].
    destruct (Hj _ eq_refl) as [Hk Hjn]. apply list_elem_of_singleton in Hk.
    destruct (continue_fold _ _ _ _) as [out failed] eqn:Ec in E.
    destruct failed.
    + eapply (fold_from_ok _ _ _ raws _ true _ P2 _ _ [] []) in E; try done.
      unfold continue_fold in Ec. repeat case_match; by injection Ec as <-.
    + destruct (continue_fold_extends K _ _ _ _ _ _ (lk_ok _ _ Hl) (Hjn (or_intror Hk)) Hvk Hcfg Hh eq_refl Ec)
        as (folds & bs & Hx & Hb).
      by eapply (fold_from_ok _ _ _ raws _ false _ P2 _ _ folds bs) in E.
Qed.

Lemma finalize_ok K now req s a s' :
  st_ok K s -> finalize now req s = (a, s') -> st_grows K s s'.
Proof.
  intros [Hl HP] E. destruct req as [req|]; cbn [finalize] in E; [|by injection E as <- <-].
  destruct (doneJob now (zr_FoldJob _ _ req) [JobFold] (st_prover s)) as [j P] eqn:Ej.
  destruct (doneJob_ok _ _ _ _ _ _ _ HP Ej) as [HP1 Hj].
  destruct j as [j|]; [|injection E as <- <-; by split].
  destruct (Hj _ eq_refl) as [Hk (p & Hp & Hd & _)]; [right; by apply list_elem_of_singleton in Hk|].
  rewrite Hd in E. set (out := (if bool_decide _ then None else _) : option _) in E.
  destruct (default ([], []) out) as [publics snark].
  destruct (addJob now JobFinalize [] publics snark _ _) as [id P'] eqn:Ea. injection E as <- <-.
  split; [by case_match|]. split; cbn; [|].
  - destruct out as [o|] eqn:Eo; [|done]. split; [apply Hl|]. cbn. apply Forall_app. split; [apply Hl|].
    constructor; [|done]. exists p. split_and!; [done| |apply proofHash_nonempty].
    unfold out in Eo. destruct (bool_decide (fp_Kind p <> JobFold)) eqn:Ek; [done|].
    rewrite bool_decide_eq_false in Ek. by apply dec_stable in Ek.
  - replace (lg_proofs _) with (lg_proofs (st_ledger s)) by (by case_match).
    eapply addJob_ok; [|exact Ea|]; [by apply p_took_ok|by intros [?|?]].
Qed.

(** What a test does to a prover ends jobs as they were to end. *)
Lemma on_jobs_ok m (f : fakeJob -> fakeJob) P :
  prover_ok m P -> (forall j, job_ok m j -> job_ok m (f j)) -> prover_ok m (p_set_jobs (f <$> p_jobs P) P).
Proof.
  intros HP Hf. apply p_set_jobs_ok; [done|]. intros id j. rewrite lookup_fmap.
  intros (j' & Hj & ->)%fmap_Some. by eapply Hf, po_jobs.
Qed.

Lemma on_prover_grows K f s :
  st_ok K s -> (forall m, prover_ok m (st_prover s) -> prover_ok m (f (st_prover s))) -> st_grows K s (on_prover f s).
Proof. intros [Hl HP] Hf. split; [done|]. split; [done|]. by apply Hf. Qed.

Lemma read_job_ok m now id kinds body P : prover_ok m P -> prover_ok m (read_job now id kinds body P).2.
Proof.
  intros HP. unfold read_job. destruct (doneJob now id kinds P) as [j P'] eqn:E.
  by destruct (doneJob_ok _ _ _ _ _ _ _ HP E).
Qed.

Lemma job_read_ok m now id P : prover_ok m P -> prover_ok m (job now id P).2.
Proof.
  intros HP. unfold job. destruct (p_jobs P !! id) as [j|] eqn:Ej; [|done]. cbn.
  apply p_set_jobs_ok, insert_job_ok; [done..|]. by eapply settle_ok, po_jobs.
Qed.

Lemma release_ok m now kind P : prover_ok m P -> prover_ok m (Release now kind P).
Proof.
  intros HP. refine (on_jobs_ok _ _ (p_set_controls _ _ _ _ _ _ _ P) _ _); [by destruct HP|].
  intros j Hj. case_match; [|done]. unfold job_ok, a_proof in *. cbn. intros ? [?|?]; apply Hj; auto.
Qed.

Lemma fake_step_ok K now op s :
  collision_free K -> st_ok K s -> polite (st_ledger s) op -> jobs_in K (st_prover (fake_step now op s)) ->
  st_grows K s (fake_step now op s).
Proof.
  intros HK Hs Hpol. destruct op; cbn [fake_step]; intros Hj.
  - by split.
  - by eapply prove_ok; [..|apply surjective_pairing|].
  - by eapply importProof_ok; [..|apply surjective_pairing|].
  - by eapply fold_ok; [..|apply surjective_pairing|].
  - by eapply finalize_ok; [|apply surjective_pairing].
  - apply on_prover_grows; [done|]. intros ?. apply job_read_ok.
  - apply on_prover_grows; [done|]. intros ?. apply read_job_ok.
  - apply on_prover_grows; [done|]. intros ?. apply read_job_ok.
  - apply on_prover_grows; [done|]. intros ?. apply read_job_ok.
  - apply on_prover_grows; [done|]. intros ?. apply read_job_ok.
  - apply on_prover_grows; [done|]. by intros ? [].
  - apply on_prover_grows; [done|]. by intros ? [].
  - apply on_prover_grows; [done|]. intros ?. apply release_ok.
  - apply on_prover_grows; [done|]. by intros ? [].
  - apply on_prover_grows; [done|]. by intros ? [].
  - apply on_prover_grows; [done|]. by intros ? [].
  - apply on_prover_grows; [done|]. by intros ? [].
  - apply on_prover_grows; [done|]. intros m Hm. apply on_jobs_ok; [done|].
    intros j ?. case_match; [by apply settle_ok|done].
  - apply on_prover_grows; [done|]. intros m Hm. apply on_jobs_ok; [done|]. intros j. apply settle_ok.
Qed.

(** ** The chain behind a finalize *)

Definition fakes_kept K (f : Fakes) : Prop :=
  ledger_kept K (fk_ledger f) /\ forall i P, fk_provers f !! i = Some P -> prover_ok (lg_proofs (fk_ledger f)) P.

Lemma fakes_step_kept K f f' :
  collision_free K -> fakes_kept K f -> fakes_step f f' -> proofs_in K f' -> fakes_kept K f'.
Proof.
  intros HK [Hl HP] Hstep Hin. destruct Hstep as [f i|f i P now op s Hi Hpol <-]; cbn in *.
  - split; [done|]. cbn. intros i' P [[_ <-]|[_ ?]]%lookup_insert_Some; [|eauto].
    split; [apply release_ascii|]. cbn. by intros id j ?%lookup_empty_Some.
  - destruct (fake_step_ok K now op (MkSt (fk_ledger f) P) HK) as [Hsub [Hl' HP']]; [by split; [|apply (HP i)]|done| |].
    { intros id j Hj. refine (Hin i _ id j _ Hj). apply lookup_insert_eq. }
    split; [done|]. cbn. intros i' P' [[_ <-]|[_ ?]]%lookup_insert_Some; [done|].
    eapply prover_ok_mono; [exact Hsub|eauto].
Qed.

Lemma fakes_reach_kept K f : collision_free K -> fakes_reach K f -> fakes_kept K f.
Proof.
  intros HK. induction 1 as [|f f' _ IH Hstep Hin]; [|by eapply fakes_step_kept].
  split; [|cbn; by intros i P ?%lookup_empty_Some]. split; [|constructor].
  split; cbn; by intros h p ?%lookup_empty_Some.
Qed.

(** *** Any ledger *)

(** A batch proof of the ledger. *)
Definition batch_of (m : gmap string Proof_) (b : Proof_) : Prop :=
  fp_Kind b = JobBatch /\ exists h, m !! h = Some b.

Lemma walk_batches_sound m hs root acc r : walk_batches m hs root acc = Ok r ->
  exists bs, r.2 = acc ++ bs /\ continues root bs r.1 /\ Forall (batch_of m) bs.
Proof.
  revert root acc. induction hs as [|bh hs IH]; intros root acc; cbn [walk_batches].
  { intros [= <-]. exists []. by rewrite app_nil_r. }
  destruct (m !! bh) as [b|] eqn:Hb; [|done]. destruct (decide (fp_Kind b = JobBatch)) as [Hk|]; [|done].
  destruct (decide (fp_OldRoot b = root)) as [Ho|]; [|done]. intros (bs & E & Hc & Hbs)%IH.
  exists (b :: bs). rewrite E, <- (assoc_L _). split; [done|]. split; [by split|]. constructor; [|done]. split; [done|by exists bh].
Qed.

Lemma walk_folds_sound m i folds root acc bs : walk_folds m i folds root acc = Ok bs ->
  exists bs' final, bs = acc ++ bs' /\ continues root bs' final /\ Forall (batch_of m) bs' /\
    forall f, last folds = Some f -> fp_NewRoot f = final.
Proof.
  revert i root acc. induction folds as [|f folds IH]; intros i root acc; cbn [walk_folds].
  { intros [= <-]. exists [], root. by rewrite app_nil_r. }
  destruct (decide _); [|done]. intros ([root' acc'] & Hw & E)%result_bind_Ok. cbn [fst snd] in E.
  destruct (decide (fp_NewRoot f = root')) as [Hn|]; [|done].
  apply walk_batches_sound in Hw as (bs1 & E1 & Hc1 & Hb1). cbn [fst snd] in *. subst acc'.
  destruct (IH _ _ _ E) as (bs2 & final & -> & Hc2 & Hb2 & Hl). exists (bs1 ++ bs2), final.
  rewrite (assoc_L app). split; [done|]. split; [by eapply continues_app|]. split; [by apply Forall_app|].
  intros f' Hf'. destruct folds as [|f2 folds]; [|by apply Hl].
  injection Hf' as <-. cbn [walk_folds] in E. injection E as E.
  assert (bs2 = []) as -> by (apply (app_inv_head (acc ++ bs1)); by rewrite app_nil_r). cbn in Hc2. congruence.
Qed.

Lemma walk_back_sound fuel m h acc folds : walk_back fuel m h acc = Ok folds ->
  (h = ""%string /\ folds = acc) \/
  exists new p, folds = new ++ p :: acc /\ m !! h = Some p /\ fp_Kind p = JobFold.
Proof.
  revert h acc. induction fuel as [|fuel IH]; intros h acc; cbn [walk_back]; (case_decide as Hh; [intros [= <-]; by left|]); [done|].
  destruct (m !! h) as [f|] eqn:Hf; [|done]. case_decide as Hk; [|done].
  intros [[_ ->]|(new & p & -> & _)]%IH; right.
  - by exists [], f.
  - exists (new ++ [p]), f. by rewrite <- (assoc_L app).
Qed.

Lemma FinalChain_sound l bs : FinalChain l = Ok bs ->
  exists h p root, last (lg_finalized l) = Some h /\ lg_proofs l !! h = Some p /\ fp_Kind p = JobFold /\
    continues root bs (fp_NewRoot p) /\ Forall (batch_of (lg_proofs l)) bs.
Proof.
  unfold FinalChain. destruct (last (lg_finalized l)) as [h|]; [|done].
  intros (folds & Hw & E)%result_bind_Ok. apply walk_back_sound in Hw as [[_ ->]|(new & p & -> & Hp & Hk)]; [done|].
  assert (exists f0, match new ++ [p] with [] => None | f :: _ => Some f end = Some f0) as [f0 Hf0]
    by (destruct new; by eexists).
  destruct (new ++ [p]) as [|f folds] eqn:En; [done|].
  apply walk_folds_sound in E as (bs' & final & -> & Hc & Hb & Hl). exists h, p, (fp_OldRoot f).
  split_and!; try done. rewrite (Hl p); [done|]. rewrite <- En. by rewrite last_snoc.
Qed.

(** C37: the walk behind the last finalize.  Of any ledger, whatever was
    imported into its provers, a walk that succeeds found batch proofs of the
    ledger that continue each other's state roots up to the root of the last
    finalized fold.  And it succeeds when, in any order, any operations were
    done to provers that share the ledger, as long as the requests were in
    ASCII, the proofs imported were proofs of these provers, and SHA-256 does
    not collide on their proofs: then the batches are also of the pinned
    circuit, start at the genesis root, and add up to the voters and overwrites
    the fold attests. *)
Theorem FinalChain_walks K :
  (forall l bs, FinalChain l = Ok bs ->
     exists h p root, last (lg_finalized l) = Some h /\ lg_proofs l !! h = Some p /\ fp_Kind p = JobFold /\
       continues root bs (fp_NewRoot p) /\ Forall (batch_of (lg_proofs l)) bs) /\
  forall f h, collision_free K -> fakes_reach K f -> last (lg_finalized (fk_ledger f)) = Some h ->
    exists p bs, lg_proofs (fk_ledger f) !! h = Some p /\ FinalChain (fk_ledger f) = Ok bs /\ bs <> [] /\
      continues (fp_OldRoot p) bs (fp_NewRoot p) /\ Forall accepted bs /\
      fp_Voters p = total fp_Voters bs /\ fp_Overwrites p = total fp_Overwrites bs.
Proof.
  split; [intros l bs; apply FinalChain_sound|].
  intros f h HK Hr Hlast. destruct (fakes_reach_kept _ _ HK Hr) as [[[_ Hf] Hfin] _].
  rewrite Forall_forall in Hfin. destruct (Hfin h) as (p & Hp & Hk & Hne).
  { by apply last_Some_elem_of. }
  destruct (Hf _ _ Hp Hk) as (folds & bs & Hc & Hlen).
  destruct (chained_facts _ _ _ _ Hc) as (_ & Hbs & Hcont & Hv & Ho & Hacc & _).
  exists p, bs. split_and!; try done. unfold FinalChain. rewrite Hlast.
  rewrite (walk_back_chained _ _ _ _ _ _ [] Hc Hp Hne) by lia. cbn [mbind result_bind].
  pose proof (walk_folds_chained _ _ _ _ [] Hc) as Hw. rewrite !app_nil_r in *.
  destruct (chained_head _ _ _ _ Hc) as (p0 & folds' & -> & Hold). cbn [app] in *. by rewrite Hold.
Qed.
End chain.
