(* ===== verification/Commands.v ===== *)
(** * The command and its services (cmd/davinci-fold/, service/)

    The configuration of the daemon, from the command line and the environment,
    its validation, and the wiring and shutdown of the storage, the engine, its
    pool and the API.  pflag and viper, and the opening of the database, are
    parameters. *)

From S2P Require Import Prelude Errors Effects Bytes Types Records Artifacts Storage Retries Workers.
From S2P Require Import Sdk Log Config Validate Seal Chains Engine Lifecycle ApiErrors Api.
From Stdlib Require Import Strings.Byte.

(** ** The configuration *)

Definition defaultAPIHost : string := "0.0.0.0".
Definition defaultAPIPort : Z := 8888.
Definition defaultLogLevel : string := "info".
Definition defaultLogOutput : string := "stdout".
Definition defaultDatadir : string := ".davinci-fold".
Definition cmd_defaultBatchSize : Z := 64.
Definition cmd_defaultBatchTimeWindow : duration := (5 * minute)%Z.
Definition cmd_defaultFoldEvery : Z := 4.
Definition defaultWorkerPollPeriod : duration := (10 * second)%Z.
Definition defaultWorkerJobTimeout : duration := (30 * minute)%Z.

(** [Config], with the fields of its parts. *)
Record CmdConfig := MkCmdConfig {
  api_Host : string;
  api_Port : Z;
  api_JWTSecret : string;
  batch_Size : Z;
  batch_Time : duration;
  fold_Every : Z;
  worker_PollPeriod : duration;
  worker_JobTimeout : duration;
  log_Level : string;
  log_Output : string;
  log_DisableAPI : bool;
  cfg_Datadir : string;
}.

(** What the configuration is read from: the text of each flag the command
    line gives and of each variable of the environment, and the parsers pflag
    and viper share. *)
Class Settings := {
  flag_given : string -> option string;
  Getenv : string -> option string;
  UserHomeDir : option string;
  filepath_Join : string -> string -> string;
  parse_int : string -> option Z;
  parse_duration : string -> option duration;
  parse_bool : string -> option bool;
}.

(** The variable of a flag: viper's upper case of the prefix and the flag's
    name, its dots replaced. *)
Definition env_byte (c : byte) : byte :=
  if decide (c = x2e) then x5f
  else let n := Byte.to_N c in if ((97 <=? n) && (n <=? 122))%N then byte_of (n - 32) else c.
Definition env_name (name : string) : string :=
  String.string_of_list_byte (lit "DAVINCIFOLD_" ++ (env_byte <$> lit name)).

Section load.
Context `{Settings}.

(** A flag of pflag: a text that does not parse ends the process. *)
Definition flag_ok {A} (parse : string -> option A) (name : string) : result unit :=
  match flag_given name with
  | Some t => _ ← of_option (parse t) [Exited]; Ok tt
  | None => Ok tt
  end.

(** A setting of viper: the flag if it is given, or else the variable if it is
    set and not empty, or else the flag's default. *)
Definition setting {A} (parse : string -> option A) (name : string) (default : A) : result A :=
  match flag_given name with
  | Some t => of_option (parse t) errorf
  | None =>
      match Getenv (env_name name) with
      | Some t => if decide (t = ""%string) then Ok default else of_option (parse t) errorf
      | None => Ok default
      end
  end.

(** [flag.Parse] *)
Definition parse_flags : result unit :=
  _ ← flag_ok parse_int "api.port"; _ ← flag_ok parse_int "batch.size";
  _ ← flag_ok parse_duration "batch.time"; _ ← flag_ok parse_int "fold.every";
  _ ← flag_ok parse_duration "worker.pollPeriod"; _ ← flag_ok parse_duration "worker.jobTimeout";
  flag_ok parse_bool "log.disableAPI".

(** [loadConfig] *)
Definition loadConfig : result CmdConfig :=
  let defaultDatadirPath := filepath_Join (default "."%string UserHomeDir) defaultDatadir in
  _ ← parse_flags;
  host ← setting Some "api.host" defaultAPIHost;
  port ← setting parse_int "api.port" defaultAPIPort;
  secret ← setting Some "api.jwtSecret" ""%string;
  size ← setting parse_int "batch.size" cmd_defaultBatchSize;
  window ← setting parse_duration "batch.time" cmd_defaultBatchTimeWindow;
  every ← setting parse_int "fold.every" cmd_defaultFoldEvery;
  poll ← setting parse_duration "worker.pollPeriod" defaultWorkerPollPeriod;
  job ← setting parse_duration "worker.jobTimeout" defaultWorkerJobTimeout;
  level ← setting Some "log.level" defaultLogLevel;
  output ← setting Some "log.output" defaultLogOutput;
  disable ← setting parse_bool "log.disableAPI" false;
  datadir ← setting Some "datadir" defaultDatadirPath;
  Ok (MkCmdConfig host port secret size window every poll job level output disable datadir).
End load.

Section commands.
Context {D : Type} `{ADB D} `{Chain}.
Abbreviation W := (World D).

(** [validateConfig] *)
Definition validateConfig (cfg : CmdConfig) : result unit :=
  _ ← guard_err (negb (bool_decide (api_JWTSecret cfg = ""%string))) errorf;
  _ ← guard_err (negb (batch_Size cfg <? 2)%Z) errorf;
  _ ← guard_err (negb (MaxBatchSize <? batch_Size cfg)%Z) errorf;
  _ ← guard_err (negb (fold_Every cfg <? 1)%Z) errorf;
  guard_err (negb (worker_JobTimeout cfg <=? 0)%Z) errorf.

(** ** The services *)

(** [service.NewOrchestrator]: the job poll interval is left to its default. *)
Definition engine_options (cfg : CmdConfig) : Options :=
  MkOptions (batch_Size cfg) (fold_Every cfg) (batch_Time cfg) (worker_JobTimeout cfg) 0%Z.

Definition NewOrchestrator (now : time) (s : Storage D) (cfg : CmdConfig) : result W :=
  NewEngine now s (engine_options cfg) (Some (NewWorkerManager (Some DefaultWorkerBanRules))).

(** [OrchestratorService.Stop] *)
Definition Orchestrator_Stop : stE W unit :=
  _ ← Stop;
  on_pool pool_Stop.

(** [api.New], behind [service.NewAPI] *)
Definition api_New (secret : bytes) (size every : Z) : result API :=
  if decide (secret = []) then Err errorf else Ok (MkAPI secret size every).

(** [Services]; [sv_Closed] says the storage was closed. *)
Record Services := MkServices {
  sv_Storage : option (Storage D);
  sv_Orchestrator : option W;
  sv_API : option API;
  sv_Closed : bool;
}.

(** [shutdownServices]: [APIService.Stop] does nothing. *)
Definition shutdownServices (s : Services) : Services :=
  MkServices (sv_Storage s) ((fun w => (Orchestrator_Stop w).2) <$> sv_Orchestrator s) (sv_API s)
    (sv_Closed s || bool_decide (is_Some (sv_Storage s))).

(** The services [setupServices] starts, up to the first error. *)
Definition start_services (now : time) (open : string -> option D) (cfg : CmdConfig) : result unit * Services :=
  match open (cfg_Datadir cfg) with
  | None => (Err errorf, MkServices None None None false)
  | Some d =>
      match NewOrchestrator now (New d) cfg with
      | Err e => (Err e, MkServices (Some (New d)) None None false)
      | Ok w =>
          match api_New (lit (api_JWTSecret cfg)) (batch_Size cfg) (fold_Every cfg) with
          | Err e => (Err e, MkServices (Some (New d)) (Some w) None false)
          | Ok a => (Ok tt, MkServices (Some (New d)) (Some w) (Some a) false)
          end
      end
  end.

(** [setupServices]: its error and its result [services], with what it
    started.  The deferred shutdown is of the result, which a
    [return nil, err] has set to [nil]. *)
Definition setupServices (now : time) (open : string -> option D) (cfg : CmdConfig) :
    result unit * option Services * Services :=
  let '(r, started) := start_services now open cfg in
  let services := match r with Ok _ => Some started | Err _ => None end in
  match r with
  | Ok _ => (r, services, started)
  | Err _ => (r, services, match services with Some s => shutdownServices s | None => started end)
  end.

(** [main] up to its wait for a signal, with the services it then runs and its
    configuration; [log.Fatalf] ends the process if zerolog does, and an
    error of [loadConfig] with a status of its own. *)
Definition main_start `{Settings} `{Zerolog} (now : time) (open : string -> option D) :
    stE LogState (CmdConfig * option Services) :=
  cfg ← (match loadConfig with Ok cfg => mret cfg | Err _ => throw [Exited] end);
  _ ← Init (log_Level cfg) (log_Output cfg) None;
  _ ← log_Infow (lit "starting davinci-fold") [];
  _ ← (if is_ok (validateConfig cfg) then mret tt else Fatalf (lit "Invalid configuration"));
  let '(r, services, _) := setupServices now open cfg in
  match r with
  | Ok _ => log_Info (lit "davinci-fold is running, ready to orchestrate folded proving!")
  | Err _ => Fatalf (lit "Failed to setup services")
  end ≫= fun _ => mret (cfg, services).

(** The end of [main], at the signal. *)
Definition main_end (s : option Services) : option Services := shutdownServices <$> s.
End commands.

(** ** The configuration reaches the engine *)

Section keep_options.
Context {D : Type} `{ADB D} `{Chain}.
Abbreviation W := (World D).

(** The options and the scheduler's settings stay. *)
Definition same_settings (w w' : W) : Prop := w_opts w' = w_opts w /\ w_sched w' = w_sched w.

#[export] Instance same_settings_pre : PreOrder same_settings.
Proof. split; [by split|]. intros w1 w2 w3 [??] [??]. split; congruence. Qed.

Lemma settings_on_store {A} (m : stE (Storage D) A) : via same_settings (on_store m : stE W A).
Proof. intros w. unfold on_store, zoom. by destruct (m _). Qed.

Lemma settings_on_pool f : via same_settings (on_pool f : stE W unit).
Proof. by intros w. Qed.

Lemma settings_restore_election now el : via same_settings (restore_election now el : stE W unit).
Proof.
  unfold restore_election, deleteProofs, reset_finalize. case_decide; [apply settings_on_store|].
  apply via_bind; [apply _|case_decide; [apply settings_on_store|apply via_ret, _]|]. intros _. cbv zeta.
  apply via_bind; [apply _|apply via_gets, _|]. intros opts.
  apply via_bind; [apply _|apply via_attempt, settings_on_store|]. intros [rt|e]; [|apply via_ret, _].
  apply via_bind; [apply _|by intros w|]. intros _. case_decide; [apply via_ret, _|by intros w].
Qed.

Lemma NewEngine_settings now s opts p w : NewEngine now s opts (Some p) = Ok w ->
  same_settings (new_world now s opts (Some p)) w.
Proof.
  unfold NewEngine. set (w0 := new_world now s opts (Some p)).
  assert (via same_settings (restoreWorkers ≫= fun _ => restore now : stE W unit)) as Hv.
  { unfold restoreWorkers, restore. repeat (apply via_bind; [apply _| |intros ?]);
      first [apply settings_on_store|apply via_for_each; [apply _|intros ?]].
    - apply settings_on_pool.
    - apply settings_restore_election. }
  specialize (Hv w0). destruct ((restoreWorkers ≫= _) w0) as [[[]|e] w1]; [|done]. by intros [= <-].
Qed.
End keep_options.

(** The services that were set up run on the configuration. *)
Definition in_force {D} `{ADB D} `{Chain} (cfg : CmdConfig) (w : World D) (a : API) : Prop :=
  o_batchSize (w_opts w) = batch_Size cfg /\ (minBatchSize <= o_batchSize (w_opts w) <= MaxBatchSize)%Z /\
  o_foldEvery (w_opts w) = fold_Every cfg /\ sc_foldEvery (w_sched w) = fold_Every cfg /\
  sc_timeout (w_sched w) = worker_JobTimeout cfg /\ (0 < sc_timeout (w_sched w))%Z /\
  (0 < sc_poll (w_sched w))%Z /\
  o_window (w_opts w) = (if (batch_Time cfg <=? 0)%Z then defaultBatchTimeWindow else batch_Time cfg) /\
  jwtSecret a = lit (api_JWTSecret cfg) /\ jwtSecret a <> [].

Lemma setup_in_force {D} `{ADB D} `{Chain} now open cfg services started :
  validateConfig cfg = Ok tt -> setupServices now open cfg = (Ok tt, services, started) ->
  exists s w a, services = Some s /\ sv_Orchestrator s = Some w /\ sv_API s = Some a /\ in_force (D := D) cfg w a.
Proof.
  unfold validateConfig, guard_err. destruct (bool_decide _) eqn:Es; [done|].
  apply bool_decide_eq_false in Es. cbn [negb]. unfold mbind, result_bind.
  destruct (Z.ltb_spec (batch_Size cfg) 2); [done|]. cbn [negb].
  destruct (Z.ltb_spec MaxBatchSize (batch_Size cfg)); [done|]. cbn [negb].
  destruct (Z.ltb_spec (fold_Every cfg) 1); [done|]. cbn [negb].
  destruct (Z.leb_spec (worker_JobTimeout cfg) 0); [done|]. intros _.
  unfold setupServices, start_services, NewOrchestrator, api_New. destruct (open _) as [d|]; [|done].
  destruct (NewEngine _ _ _ _) as [w|e] eqn:En; [|done].
  assert (lit (api_JWTSecret cfg) <> []) as Hs.
  { intros E. apply Es. rewrite <- (String.string_of_list_byte_of_string (api_JWTSecret cfg)).
    unfold lit in E. by rewrite E. }
  rewrite decide_False by done. intros [= <- _]. eexists _, w, (MkAPI (lit (api_JWTSecret cfg)) (batch_Size cfg) (fold_Every cfg)).
  split_and!; [done..|]. unfold in_force. apply NewEngine_settings in En as [-> ->]. cbn.
  assert (forall x n, (0 < x)%Z -> (if (x <=? 0)%Z then n else x) = x) as Hd
    by (intros x n Hx; by rewrite (proj2 (Z.leb_gt x 0))).
  rewrite !Hd by lia. unfold minBatchSize. repeat split; done || lia.
Qed.

(** C33: a daemon that comes up runs the configuration it loaded, from its
    flags, its environment and the defaults: it passed the validation, the
    engine and its scheduler use the configured batch size, fold cadence, time
    window and job timeout, none replaced by a default, whatever the storage
    held; the API asks for tokens of the configured secret, the batch size is
    one every election can be created with, and the log is at the configured
    level. *)
Theorem config_in_force {D} `{ADB D} `{Chain} `{Settings} `{ZerologLaws} now open cfg sv ls ls' :
  main_start (D := D) now open ls = (Ok (cfg, sv), ls') ->
  loadConfig = Ok cfg /\ (Level ls').1 = Ok (log_Level cfg) /\
  exists s w a, sv = Some s /\ sv_Orchestrator s = Some w /\ sv_API s = Some a /\ in_force cfg w a.
Proof.
  unfold main_start. destruct loadConfig as [c|e]; [|done]. unfold mbind, stE_bind, mret, stE_ret.
  destruct (Init _ _ _ ls) as [[[]|e] ls1] eqn:Ei; [|done]. apply Init_level in Ei as [HL HG].
  pose proof (log_kept InfoLevel (MkEvent (lit "starting davinci-fold") []) ls1) as Hk2.
  change (log_at _ _ ls1) with (log_Infow (lit "starting davinci-fold") [] ls1) in Hk2.
  destruct (log_Infow _ _ ls1) as [[[]|e] ls2]; [|done]. cbn [snd] in Hk2.
  assert (forall text, is_ok (Fatalf text ls2).1 = false) as Hf.
  { intros text. apply Fatalf_exits. rewrite Hk2. unfold FatalLevel, ErrorLevel in *. lia. }
  destruct (validateConfig c) as [[]|e] eqn:Ev; cbn [is_ok].
  2:{ specialize (Hf (lit "Invalid configuration")). by destruct (Fatalf _ ls2) as [[]]. }
  destruct (setupServices now open c) as [[[[]|e] services] started] eqn:Es.
  2:{ specialize (Hf (lit "Failed to setup services")). by destruct (Fatalf _ ls2) as [[]]. }
  set (running := lit _). pose proof (log_kept InfoLevel (text_event running) ls2) as Hk3.
  change (log_at _ _ ls2) with (log_Info running ls2) in Hk3.
  destruct (log_Info running ls2) as [[[]|e] ls3]; [|done]. cbn [snd] in Hk3. intros [= <- <- <-].
  split; [done|]. split; [rewrite <- HL; apply Level_ext; by rewrite Hk3, Hk2|].
  exact (setup_in_force now open c services started Ev Es).
Qed.
