(* ===== verification/Keywarden.v ===== *)
(** * The keywarden's client (keywarden/client.go)

    The requests the keywarden makes of the API, and its wait for the results
    of a finalize.  What the orchestrator answers at each request, and how long
    it takes, is a parameter of the wait. *)

From S2P Require Import Prelude Errors Effects Bytes Types Records KV Keys Artifacts Storage.
From S2P Require Import StorageRefine StorageSpec Workers Sdk Config Validate ValidateProps Seal Engine.
From S2P Require Import Lifecycle Ingest ApiErrors Api ApiProps.
From Stdlib Require Import Strings.Byte.

Definition client_maxPollErrs : nat := 5.

(** The statuses the client tells apart. *)
Definition client_StatusFinalizing : string := "finalizing".
Definition client_StatusResults : string := "results".

(** ** Requests *)

(** [big.Int.Text(16)]: a sign, and the digits without leading zeros. *)
Definition hex_width (n : N) : nat := Nat.max 1 ((N.size_nat n + 3) / 4).
Definition Text16 (z : Z) : bytes :=
  let n := Z.to_N (Z.abs z) in
  (if (z <? 0)%Z then [x2d] else []) ++ (hex_digit <$> digits_be 16 (hex_width n) n).

(** [Client]: the [http.Client] is the [Orchestrator] below. *)
Record Client := MkClient { c_baseURL : string; c_token : string }.
Definition NewClient (baseURL token : string) : Client := MkClient baseURL token.

(** [auth] *)
Definition auth (c : Client) : string :=
  if decide (c_token c = ""%string) then ""%string else ("Bearer " +:+ c_token c)%string.

(** The request of [SubmitDecryptionKey]. *)
Definition key_request (key : Z) : DecryptionKeyRequest :=
  {| kr_Key := String.string_of_list_byte (lit "0x" ++ Text16 key) |}.
Definition submit_request (encode : DecryptionKeyRequest -> bytes) (c : Client) (electionID : string)
    (key : Z) : Request :=
  let body := encode (key_request key) in
  MkRequest MethodPost ("/elections/" +:+ electionID +:+ "/decryption-key")%string (auth c)
    (Z.of_nat (length body)) (whole body).

(** The requests of the other calls. *)
Definition get_request (c : Client) (path : string) : Request := MkRequest MethodGet path (auth c) 0 (whole []).
Definition ciphertext_path (electionID : string) : string :=
  ("/elections/" +:+ electionID +:+ "/encrypted-results")%string.
Definition election_path (electionID : string) : string := ("/elections/" +:+ electionID)%string.
Definition results_path (electionID : string) : string :=
  ("/elections/" +:+ electionID +:+ "/results")%string.

(** What [SubmitDecryptionKey] makes of the response's status. *)
Definition submitted_ok (status : Z) : bool := bool_decide (status = StatusAccepted).

(** ** The orchestrator, as the client sees it *)

(** The part of an election's view the client follows. *)
Record ElectionView := { ev_Status : string; ev_FinalizeError : string }.

(** [EncryptedResultsResponse] *)
Record EncryptedResultsResponse := { er_ElectionID : string; er_Ciphertext : list string }.

(** [http.Response] *)
Record HTTPResponse := MkHTTPResponse { hr_StatusCode : Z; hr_Body : bytes }.

(** [net/http]: the URLs [NewRequest] takes, and what [Do] returns for a
    request after the earlier ones, with the time it took. *)
Class Orchestrator := {
  NewRequest_ok : string -> bool;
  Do : list Request -> string -> Request -> option HTTPResponse * N;
}.

(** [encoding/json] on the bodies. *)
Class ClientJSON := {
  encode_key : DecryptionKeyRequest -> bytes;
  decode_election : bytes -> option ElectionView;
  decode_results : bytes -> option ResultsResponse;
  decode_ciphertext : bytes -> option EncryptedResultsResponse;
}.

(** The requests made so far, and the time. *)
Record Wait := MkWait { wt_sent : list Request; wt_now : time }.

Section client.
Context `{Orchestrator} `{ClientJSON}.

(** [http.NewRequest], then [Do]. *)
Definition send (c : Client) (rq : Request) : stE Wait HTTPResponse := fun s =>
  if NewRequest_ok (c_baseURL c +:+ rq_Path rq)%string then
    let '(resp, d) := Do (wt_sent s) (c_baseURL c) rq in
    (of_option resp errorf, MkWait (wt_sent s ++ [rq]) (wt_now s + Z.of_N d)%Z)
  else (Err errorf, s).

(** [Client.get]; the error of a status other than 200 is [httpErr]'s. *)
Definition get {A} (c : Client) (path : string) (decode : bytes -> option A) : stE Wait A :=
  resp ← send c (get_request c path);
  _ ← throw_if (negb (bool_decide (hr_StatusCode resp = StatusOK))) errorf;
  lift (of_option (decode (hr_Body resp)) errorf).

(** [Client.EncryptedResults], [Client.Election] and [Client.Results] *)
Definition client_EncryptedResults (c : Client) (id : string) : stE Wait EncryptedResultsResponse :=
  get c (ciphertext_path id) decode_ciphertext.
Definition client_Election (c : Client) (id : string) : stE Wait ElectionView :=
  get c (election_path id) decode_election.
Definition client_Results (c : Client) (id : string) : stE Wait ResultsResponse :=
  get c (results_path id) decode_results.

(** [Client.SubmitDecryptionKey] *)
Definition client_SubmitDecryptionKey (c : Client) (id : string) (key : Z) : stE Wait unit :=
  resp ← send c (submit_request encode_key c id key);
  throw_if (negb (submitted_ok (hr_StatusCode resp))) errorf.

(** ** Waiting for the results *)

(** What a poll of the election says. *)
Inductive Poll := PollResults | PollEnd (e : error) | PollAgain (pollErrs : nat).

Definition poll_election (pollErrs : nat) (r : result ElectionView) : Poll :=
  match r with
  | Err e => if (client_maxPollErrs <=? S pollErrs)%nat then PollEnd e else PollAgain (S pollErrs)
  | Ok el =>
      if decide (ev_Status el = client_StatusResults) then PollResults
      else if decide (ev_FinalizeError el <> ""%string) then PollEnd errorf
      else if decide (ev_Status el <> client_StatusFinalizing) then PollEnd errorf
      else PollAgain 0
  end.

(** The loop of [WaitForResults]; its fuel is the number of intervals before
    the deadline. *)
Fixpoint WaitForResults_loop (fuel : nat) (c : Client) (id : string) (deadline : time) (pollErrs : nat)
    (interval : duration) : stE Wait ResultsResponse :=
  match fuel with
  | O => throw [Diverges]
  | S fuel =>
      r ← attempt (client_Election c id);
      match poll_election pollErrs r with
      | PollResults => client_Results c id
      | PollEnd e => throw e
      | PollAgain pollErrs =>
          s ← get_st;
          if (deadline <? wt_now s + interval)%Z then throw errorf
          else
            _ ← modify (fun s => MkWait (wt_sent s) (wt_now s + interval)%Z);
            WaitForResults_loop fuel c id deadline pollErrs interval
      end
  end.

(** [Client.WaitForResults] *)
Definition WaitForResults (c : Client) (id : string) (interval timeout : duration) :
    stE Wait ResultsResponse :=
  s ← get_st;
  WaitForResults_loop (S (Z.to_nat (timeout / interval))) c id (wt_now s + timeout)%Z 0 interval.

(** ** What a call leaves behind *)

(** The orchestrator answered [rq], the next request after [sent], with [v]. *)
Definition answered {A} (c : Client) (decode : bytes -> option A) (sent : list Request) (path : string)
    (v : A) : Prop :=
  exists resp d, Do sent (c_baseURL c) (get_request c path) = (Some resp, d) /\
    hr_StatusCode resp = StatusOK /\ decode (hr_Body resp) = Some v.

(** A call that makes at most one request, [rq]: an error that is none of the
    sentinels, or the request made and [P] of its answer. *)
Lemma send_outcome c rq s : let '(r, s') := send c rq s in
  (wt_now s <= wt_now s')%Z /\
  match r with
  | Ok resp => wt_sent s' = wt_sent s ++ [rq] /\ exists d, Do (wt_sent s) (c_baseURL c) rq = (Some resp, d)
  | Err e => e = errorf /\ (wt_sent s' = wt_sent s \/ wt_sent s' = wt_sent s ++ [rq])
  end.
Proof.
  unfold send. destruct (NewRequest_ok _); [|cbn; split; [lia|auto]].
  destruct (Do _ _ _) as [[resp|] d] eqn:E; cbn; (split; [lia|]); eauto.
Qed.

Lemma get_outcome {A} c path (decode : bytes -> option A) s :
  let '(r, s') := get c path decode s in
  (wt_now s <= wt_now s')%Z /\
  match r with
  | Ok v => wt_sent s' = wt_sent s ++ [get_request c path] /\ answered c decode (wt_sent s) path v
  | Err e => e = errorf /\ (wt_sent s' = wt_sent s \/ wt_sent s' = wt_sent s ++ [get_request c path])
  end.
Proof.
  unfold get, mbind, stE_bind. pose proof (send_outcome c (get_request c path) s) as Hs.
  destruct (send c _ s) as [[resp|e] s1]; [|done]. destruct Hs as (Ht & Hsent & d & Hd).
  case_bool_decide as Hc; cbn; [|by auto].
  destruct (decode (hr_Body resp)) as [v|] eqn:Ev; cbn; [|by auto].
  split_and!; [done..|]. by exists resp, d.
Qed.

(** A request of the wait on [id]. *)
Definition poll_request (c : Client) (id : string) (rq : Request) : Prop :=
  rq = get_request c (election_path id) \/ rq = get_request c (results_path id).

(** How a wait that started at [s] ends: after requests of its own, at the
    last of them. *)
Definition wait_outcome (c : Client) (id : string) (s s' : Wait) (polls : nat) (r : result ResultsResponse) : Prop :=
  (exists new, wt_sent s' = wt_sent s ++ new /\ (length new <= polls + 1)%nat /\
     Forall (poll_request c id) new) /\
  match r with
  | Ok res => exists sent v,
      let rq := get_request c (election_path id) in
      wt_sent s' = (sent ++ [rq]) ++ [get_request c (results_path id)] /\
      answered c decode_election sent (election_path id) v /\ ev_Status v = client_StatusResults /\
      answered c decode_results (sent ++ [rq]) (results_path id) res
  | Err e => e = errorf
  end.

Ltac polled := repeat (constructor; [by (left + right)|]).

Lemma wait_outcome_mono c id s1 s2 s' n r : 
  wt_sent s2 = wt_sent s1 \/ wt_sent s2 = wt_sent s1 ++ [get_request c (election_path id)] ->
  wait_outcome c id s2 s' n r -> wait_outcome c id s1 s' (S n) r.
Proof.
  intros Hs [(new & Hn & Hl & Hp) Hr]. split; [|done]. destruct Hs as [Hs|Hs]; rewrite Hs in Hn.
  - exists new. split_and!; [done|lia|done].
  - exists (get_request c (election_path id) :: new). split_and!; [by rewrite Hn, <- app_assoc|cbn; lia|].
    constructor; [by left|done].
Qed.

Lemma poll_End pollErrs r e : poll_election pollErrs r = PollEnd e ->
  match r with Ok _ => True | Err e' => e' = errorf end -> e = errorf.
Proof.
  unfold poll_election. destruct r as [v|e']; intros E He.
  - repeat case_decide; try discriminate E; by injection E as <-.
  - destruct (_ <=? _)%nat; [by injection E as <-|discriminate E].
Qed.

Lemma poll_Results pollErrs r : poll_election pollErrs r = PollResults ->
  exists v, r = Ok v /\ ev_Status v = client_StatusResults.
Proof.
  unfold poll_election. destruct r as [v|e'].
  - case_decide as Hv; [by exists v|]. repeat case_decide; discriminate.
  - by destruct (_ <=? _)%nat.
Qed.

(** The wait ends by an answer to one poll, [s1] after [s], that it does not
    go on from. *)
Lemma wait_now c id s s1 n : 
  wt_sent s1 = wt_sent s \/ wt_sent s1 = wt_sent s ++ [get_request c (election_path id)] ->
  wait_outcome c id s s1 (S n) (Err errorf).
Proof.
  intros Hs. apply (wait_outcome_mono c id s s1 s1); [done|]. split; [|done].
  exists []. rewrite app_nil_r. split_and!; [done|cbn; lia|constructor].
Qed.

(** The wait ends with the results, once a poll, [s1] after [s], showed them. *)
Lemma results_outcome c id s s1 v n :
  wt_sent s1 = wt_sent s ++ [get_request c (election_path id)] ->
  answered c decode_election (wt_sent s) (election_path id) v -> ev_Status v = client_StatusResults ->
  (1 <= n)%nat -> let '(r, s') := client_Results c id s1 in wait_outcome c id s s' n r.
Proof.
  intros Hs1 Ha Hv Hn. unfold client_Results. pose proof (get_outcome c (results_path id) decode_results s1) as Hg.
  destruct (get c _ decode_results s1) as [r s2]. destruct Hg as [_ Hg].
  assert (exists new, wt_sent s2 = wt_sent s ++ new /\ (length new <= n + 1)%nat /\
    Forall (poll_request c id) new) as Hnew.
  { assert (wt_sent s2 = wt_sent s1 \/ wt_sent s2 = wt_sent s1 ++ [get_request c (results_path id)])
      as [Hs2|Hs2] by (destruct r; [right|]; apply Hg); rewrite Hs2, Hs1.
    - eexists [_]. split_and!; [done|cbn; lia|by polled].
    - eexists [_; _]. split_and!; [by rewrite <- app_assoc|cbn; lia|by polled]. }
  split; [exact Hnew|]. destruct r as [res|e]; [|apply Hg]. destruct Hg as [Hs2 Hr].
  exists (wt_sent s), v. cbv zeta. rewrite <- Hs1. done.
Qed.

Lemma wait_loop_outcome fuel c id deadline pollErrs interval s :
  (0 < interval)%Z -> (deadline < wt_now s + Z.of_nat fuel * interval)%Z -> (0 < fuel)%nat ->
  let '(r, s') := WaitForResults_loop fuel c id deadline pollErrs interval s in
  wait_outcome c id s s' fuel r.
Proof.
  intros Hi. revert s pollErrs. induction fuel as [|fuel IH]; intros s pollErrs Hd Hf; [lia|].
  cbn [WaitForResults_loop]. unfold mbind, stE_bind, attempt. pose proof (get_outcome c (election_path id) decode_election s) as Hg.
  change (get c (election_path id) decode_election s) with (client_Election c id s) in Hg.
  destruct (client_Election c id s) as [r s1]. destruct Hg as [Ht Hg].
  assert (wt_sent s1 = wt_sent s \/ wt_sent s1 = wt_sent s ++ [get_request c (election_path id)]) as Hs
    by (destruct r; [right; apply Hg|apply Hg]).
  destruct (poll_election pollErrs r) as [|e|n] eqn:Ep.
  - apply poll_Results in Ep as (v & -> & Hv). destruct Hg as [Hs1 Ha].
    pose proof (results_outcome c id s s1 v (S fuel) Hs1 Ha Hv ltac:(lia)) as Hr.
    by destruct (client_Results c id s1).
  - apply poll_End in Ep as ->; [by apply wait_now|]. destruct r; [done|apply Hg].
  - unfold get_st. destruct (Z.ltb_spec deadline (wt_now s1 + interval)); [by apply wait_now|].
    unfold modify. cbn iota beta. set (s2 := MkWait _ _).
    assert (wt_now s2 = wt_now s1 + interval)%Z as E2 by done.
    assert (0 < fuel)%nat as Hf' by (destruct fuel; lia).
    specialize (IH s2 n ltac:(lia) Hf'). destruct (WaitForResults_loop _ _ _ _ _ _) as [r' s'].
    by apply (wait_outcome_mono c id s s2).
Qed.

(** The wait of [WaitForResults], with the fuel it runs with. *)
Lemma wait_ends c id interval timeout s : (0 < interval)%Z ->
  let '(r, s') := WaitForResults c id interval timeout s in
  wait_outcome c id s s' (S (Z.to_nat (timeout / interval))) r.
Proof.
  intros Hi. apply wait_loop_outcome; [done| |lia].
  pose proof (Z.div_mod timeout interval). pose proof (Z.mod_pos_bound timeout interval Hi).
  destruct (Z.le_gt_cases 0 (timeout / interval)); nia.
Qed.
End client.

(** C35: the client's wait ends, after at most one poll per interval of the
    timeout and one more: with the results if and as the orchestrator gave
    them right after showing the election with results, and with an error
    otherwise, whatever it answers; it makes no other requests. *)
Theorem WaitForResults_ends `{Orchestrator} `{ClientJSON} c id interval timeout (s : Wait) :
  (0 < interval)%Z ->
  let '(r, s') := WaitForResults c id interval timeout s in
  wait_outcome c id s s' (S (Z.to_nat (timeout / interval))) r.
Proof. exact (wait_ends c id interval timeout s). Qed.

(** ** The key reaches the engine *)

Lemma hex_width_fits n : (n < 16 ^ N.of_nat (hex_width n))%N.
Proof.
  eapply N.lt_le_trans; [apply size_nat_bound|]. change 16%N with (2 ^ 4)%N. rewrite <- N.pow_mul_r.
  apply N.pow_le_mono_r; [done|]. unfold hex_width.
  pose proof (Nat.div_mod_eq (N.size_nat n + 3) 4). pose proof (Nat.mod_upper_bound (N.size_nat n + 3) 4). lia.
Qed.

Lemma digit_values_hex l : Forall (fun d => d < 16)%N l -> digit_values 16 (hex_digit <$> l) = Some l.
Proof.
  induction 1 as [|d l Hd _ IH]; [done|]. csimpl. rewrite hex_value_digit by done. csimpl.
  rewrite IH. csimpl. by rewrite (proj2 (N.ltb_lt d 16)).
Qed.

Lemma SetString_Text16 z : SetString 16 (Text16 z) = Some z.
Proof.
  unfold Text16. set (n := Z.to_N (Z.abs z)). set (l := digits_be 16 (hex_width n) n).
  assert (Forall (fun d => d < 16)%N l) as Hl by (by apply digits_be_lt).
  assert (parse_nat 16 (hex_digit <$> l) = Some n) as Hp.
  { unfold parse_nat. rewrite digit_values_hex by done.
    destruct (hex_digit <$> l) as [|c r] eqn:E.
    - apply (f_equal length) in E. rewrite length_fmap in E. unfold l in E. rewrite length_digits_be in E.
      unfold hex_width in E. cbn [length] in E. lia.
    - cbn. unfold l. rewrite of_digits_be by done. by rewrite N.mod_small by apply hex_width_fits. }
  destruct (Z.ltb_spec z 0); cbn [app].
  - unfold SetString. rewrite decide_True by done. rewrite Hp. cbn. f_equal. lia.
  - unfold SetString. destruct (hex_digit <$> l) as [|c r] eqn:E; [done|].
    destruct l as [|d l']; [done|]. injection E as <- <-. apply Forall_cons in Hl as [Hd _].
    pose proof (hex_value_digit d Hd) as Hv.
    rewrite !decide_False by (intros Ec; rewrite Ec in Hv; discriminate Hv).
    change (hex_digit d :: (hex_digit <$> l')) with (hex_digit <$> d :: l'). rewrite Hp. cbn. f_equal. lia.
Qed.

Lemma cut_space_app l r : x20 ∉ l -> cut_space (l ++ x20 :: r) = Some (l, r).
Proof.
  induction l as [|c l IH]; intros Hl; [done|]. apply not_elem_of_cons in Hl as [Hc Hl].
  cbn [app cut_space]. rewrite decide_False by congruence. by rewrite IH.
Qed.

(** The token of the client's header is read back. *)
Lemma bearerToken_auth encode c id key :
  c_token c <> ""%string -> TrimSpace (lit (c_token c)) = lit (c_token c) ->
  bearerToken (submit_request encode c id key) = lit (c_token c).
Proof.
  intros Hn Ht. unfold bearerToken, submit_request, auth. cbn [rq_Authorization]. rewrite decide_False by done.
  assert (lit ("Bearer " +:+ c_token c) = lit "Bearer" ++ x20 :: lit (c_token c)) as -> by done.
  rewrite cut_space_app by (by apply (bool_decide_eq_true (x20 ∉ lit "Bearer"))).
  by rewrite decide_True, Ht.
Qed.

Section submission.
Context `{SchedulerOps TypedDB} `{!Http}.
Context (Validate : voteRules -> VoteSubmission -> result voteProofBundle).
Context (WorkerID : string -> string).
Context (encode : DecryptionKeyRequest -> bytes).
Abbreviation W := (World TypedDB).

Lemma decryptionKey_run now sub c path key ps id (w : W) :
  decode_key (whole (encode (key_request key))) = Ok (key_request key) ->
  (length (encode (key_request key)) <= maxRequestBody)%nat ->
  electionIDFromURL ps = Ok id ->
  decryptionKey now sub (submit_request encode c path key) ps w =
    (r ← engine_call (SubmitDecryptionKey now sub id key);
     or_respond r engineError (fun _ => respond_election StatusAccepted id)) w.
Proof.
  intros Hd Hl Hp. unfold decryptionKey, or_respond, httpReadJSON. rewrite Hp. cbn [rq_Body submit_request].
  unfold LimitReader. cbn [st_bytes st_broken whole andb]. rewrite take_ge by done. fold (whole (encode (key_request key))).
  rewrite Hd. unfold key_request. cbn [kr_Key]. unfold lit at 1.
  rewrite String.list_byte_of_string_of_list_byte, TrimPrefix_app, SetString_Text16. done.
Qed.

Lemma Recoverer_ext (m1 m2 : stE W Response) w : m1 w = m2 w -> Recoverer m1 w = Recoverer m2 w.
Proof. intros E. unfold Recoverer, attempt, mbind, stE_bind. by rewrite E. Qed.

(** The client takes the answer for a success only if the engine took the key. *)
Lemma submitted_taken now sub id key (w : W) :
  let '(r, w1) := SubmitDecryptionKey now sub id key w in
  let q := Recoverer (r ← engine_call (SubmitDecryptionKey now sub id key);
                      or_respond r engineError (fun _ => respond_election StatusAccepted id)) w in
  q.2 = w1 /\ forall resp, q.1 = Ok resp -> submitted_ok (rp_status resp) = true -> r = Ok tt.
Proof.
  destruct (SubmitDecryptionKey now sub id key w) as [r w1] eqn:E. cbv zeta.
  unfold Recoverer, engine_call, mbind, stE_bind, attempt. rewrite E. cbn iota beta.
  assert (forall e resp w', match (if errors_Is e Panic then mret (MkResponse StatusInternalServerError BodyEmpty)
      else throw e : stE W Response) w' with (Ok a, w2) => a = resp -> submitted_ok (rp_status resp) = false | _ => True end) as Hp
    by (intros e resp w'; destruct (errors_Is e Panic); [by intros <-|done]).
  destruct r as [[]|e].
  - cbn. split; [|by intros]. pose proof (reads_respond StatusAccepted id w1) as Hr.
    destruct (respond_election StatusAccepted id w1) as [[resp|e] w2]; cbn in Hr; subst w2; [done|].
    by destruct (errors_Is e Panic).
  - destruct (errors_Is e Panic || errors_Is e Diverges) eqn:Ec.
    + cbn. destruct (errors_Is e Panic); (split; [done|]); [|done]. intros resp [= <-] Hs. discriminate Hs.
    + unfold throw, mret, stE_ret. cbn [or_respond]. unfold mret, stE_ret. cbn [fst snd].
      split; [done|]. intros resp [= <-] Hs. unfold submitted_ok, write_error in Hs.
      apply bool_decide_eq_true in Hs. cbn [rp_status] in Hs. pose proof (declared_fault _ (declared_engineError e)) as Hf.
      unfold caller_fault, server_fault in Hf. rewrite Hs in Hf. unfold StatusAccepted in Hf. cbn in Hf.
      revert Hf. by rewrite !andb_false_r.
Qed.
End submission.

(** C30: a key the client submits is the key the engine gets.  For a key of
    either sign whose encoded request fits in the API's limit of 1 MiB (a larger
    body is cut there), a client whose token is not empty, has no space around
    it, is valid, not expired and of the keywarden's role, and a router that
    takes the path for the decryption-key route of that election: the request
    runs the engine's [SubmitDecryptionKey] with the same integer, under the
    subject of the token, and the client reports success only if the engine
    took the key. *)
Theorem client_key_reaches_engine `{SchedulerOps TypedDB} `{!Http} Validate WorkerID encode a now c id key
    claims ps (w : World TypedDB) :
  decode_key (whole (encode (key_request key))) = Ok (key_request key) ->
  (length (encode (key_request key)) <= maxRequestBody)%nat ->
  c_token c <> ""%string -> TrimSpace (lit (c_token c)) = lit (c_token c) ->
  ParseWithClaims now (c_token c) (keyfunc a) = Some (claims, true) ->
  VerifyExpiresAt claims (Unix now) true = true -> claim_string claims "role" = RoleKeywarden ->
  let path := String.string_of_list_byte (ElectionID_String id) in
  let rq := submit_request encode c path key in
  Find (endpoint <$> routes Validate WorkerID a) MethodPost (rq_Path rq) = Some (DecryptionKeyEndpoint, ps) ->
  ps "id"%string = path ->
  let '(r, w1) := SubmitDecryptionKey now (claim_string claims "sub") id key w in
  let q := serve Validate WorkerID a now rq w in
  q.2 = w1 /\ forall resp, q.1 = Ok resp -> submitted_ok (rp_status resp) = true -> r = Ok tt.
Proof.
  intros Hd Hl Ht Hs Hp Hv Hrole path rq Hf Hid.
  assert (electionIDFromURL ps = Ok id) as Hps.
  { unfold electionIDFromURL, hex_param. rewrite Hid. subst path. unfold lit at 1.
    rewrite String.list_byte_of_string_of_list_byte. unfold ElectionID_String.
    assert (TrimPrefix (hex_encode id) (lit "0x") = hex_encode id) as ->.
    { destruct id as [|b id]; [done|]. rewrite hex_encode_cons. unfold TrimPrefix, strip_prefix.
      rewrite decide_False; [done|]. unfold hex_byte. cbn [app take length lit]. intros [= _ E]. revert E.
      intros E. pose proof (hex_value_digit (Byte.to_N b mod 16) ltac:(by apply N.mod_lt)) as Hx.
      rewrite E in Hx. discriminate Hx. }
    by rewrite hex_decode_encode. }
  assert (routed Validate WorkerID a rq = Some (MkRoute MethodPost DecryptionKeyEndpoint (Some RoleKeywarden)
    decryptionKey, ps)) as Hr by (unfold routed; cbn [rq_Method rq submit_request]; by rewrite Hf).
  assert (jwtAuth a now RoleKeywarden rq = inr (claim_string claims "sub")) as Hj.
  { unfold jwtAuth. subst rq. rewrite bearerToken_auth by done. rewrite decide_False.
    - unfold lit. rewrite String.string_of_list_byte_of_string, Hp, Hv. cbn [negb]. by rewrite decide_True.
    - unfold lit. intros E. apply Ht. rewrite <- (String.string_of_list_byte_of_string (c_token c)). by rewrite E. }
  unfold serve, handle. rewrite Hr. cbn [ro_role ro_handler]. rewrite Hj.
  pose proof (submitted_taken now (claim_string claims "sub") id key w) as Hq.
  destruct (SubmitDecryptionKey _ _ _ _ w) as [r w1]. cbv zeta in Hq |- *.
  assert (Recoverer (decryptionKey now (claim_string claims "sub") rq ps) w
    = Recoverer (r ← engine_call (SubmitDecryptionKey now (claim_string claims "sub") id key);
                 or_respond r engineError (fun _ => respond_election StatusAccepted id)) w) as ->; [|exact Hq].
  apply Recoverer_ext. by apply decryptionKey_run.
Qed.
