(* ===== verification/KeywardenCmd.v ===== *)
(** * The keywarden command (cmd/test-keywarden/main.go)

    The command that owns an election's key: [keygen] writes a fresh key pair
    to the key file and prints the public coordinates an election is created
    with, [finalize] releases the private scalar of the file to the
    orchestrator and prints the results.  The file system, the encodings of
    the file and of the results, and the key generation are parameters. *)

From S2P Require Import Prelude Errors Effects Bytes Types Records Sdk Config Validate ValidateProps.
From S2P Require Import ApiErrors Api Keywarden.
From Stdlib Require Import Strings.Byte.

(** [keyFile] *)
Record keyFile := MkKeyFile { kf_EncX : string; kf_EncY : string; kf_Priv : string }.

Definition resultsPollInterval : duration := (5 * second)%Z.

(** [trim0x] *)
Definition trim0x (s : bytes) : bytes :=
  if ((2 <=? length s)%nat && (bool_decide (take 2 s = lit "0x") || bool_decide (take 2 s = lit "0X")))%bool
  then drop 2 s else s.

(** How a write of a file ends: complete, refused, or cut short. *)
Inductive WriteOutcome := Written | WriteRefused | WriteShort (n : nat).

(** What the command uses of the outside: [elgamal.GenerateKey] and [Point] of
    the public key, the files it may read and write, the JSON of the key file
    and of the results. *)
Class KeyTools `{Sdk} := {
  GenerateKey : option (Point * Z);
  BJJ_Point : Point -> Z * Z;
  readable : string -> bool;
  write_outcome : string -> bytes -> WriteOutcome;
  marshal_keyfile : keyFile -> bytes;
  unmarshal_keyfile : bytes -> option keyFile;
  marshal_results : ResultsResponse -> bytes;
}.

(** The command's state: the client's requests, the files and the lines of
    the standard output. *)
Record Cmd := MkCmd { cm_wait : Wait; cm_files : gmap string bytes; cm_out : list bytes }.

Definition cm_set_wait (w : Wait) (s : Cmd) : Cmd := MkCmd w (cm_files s) (cm_out s).

Section command.
Context `{Orchestrator} `{ClientJSON} `{KeyTools}.

(** [os.ReadFile] and [os.WriteFile] *)
Definition ReadFile (path : string) : stE Cmd bytes := fun s =>
  (if readable path then of_option (cm_files s !! path) errorf else Err errorf, s).
Definition WriteFile (path : string) (blob : bytes) : stE Cmd unit := fun s =>
  match write_outcome path blob with
  | Written => (Ok tt, MkCmd (cm_wait s) (<[path := blob]> (cm_files s)) (cm_out s))
  | WriteRefused => (Err errorf, s)
  | WriteShort n => (Err errorf, MkCmd (cm_wait s) (<[path := take n blob]> (cm_files s)) (cm_out s))
  end.

Definition Println (l : bytes) : stE Cmd unit :=
  modify (fun s => MkCmd (cm_wait s) (cm_files s) (cm_out s ++ [l])).
Definition on_net {A} (m : stE Wait A) : stE Cmd A := zoom cm_wait cm_set_wait m.

(** An integer of the key file. *)
Definition hex0x (z : Z) : string := String.string_of_list_byte (lit "0x" ++ Text16 z).

(** [keygen] *)
Definition keygen (keyPath : string) : stE Cmd unit :=
  kp ← lift (of_option GenerateKey errorf);
  let '(pub, priv) := kp in
  let '(x, y) := BJJ_Point pub in
  let kf := MkKeyFile (hex0x x) (hex0x y) (hex0x priv) in
  _ ← WriteFile keyPath (marshal_keyfile kf);
  _ ← Println (lit "encX=" ++ lit (kf_EncX kf));
  Println (lit "encY=" ++ lit (kf_EncY kf)).

(** The private scalar of the key file, as [finalize] reads it. *)
Definition read_key (keyPath : string) : stE Cmd Z :=
  blob ← ReadFile keyPath;
  kf ← lift (of_option (unmarshal_keyfile blob) errorf);
  lift (of_option (SetString 16 (trim0x (lit (kf_Priv kf)))) errorf).

(** [finalize] *)
Definition finalize (keyPath orchestrator token election : string) (timeout : duration) : stE Cmd unit :=
  _ ← throw_if (bool_decide (election = ""%string)) errorf;
  priv ← read_key keyPath;
  let c := NewClient orchestrator token in
  _ ← on_net (client_EncryptedResults c election);
  _ ← on_net (client_SubmitDecryptionKey c election priv);
  res ← on_net (WaitForResults c election resultsPollInterval timeout);
  Println (marshal_results res).

#[global] Arguments hex0x : simpl never.

(** The flags. *)
Record Flags := MkFlags {
  fl_mode : string;
  fl_keyfile : string;
  fl_orchestrator : string;
  fl_token : string;
  fl_election : string;
  fl_timeout : duration;
}.

(** The flags' defaults. *)
Definition default_flags : Flags :=
  MkFlags "" "keywarden-key.json" "http://127.0.0.1:8888" "" "" (30 * minute)%Z.

(** The exit status of a mode that ran: [log.Fatalf] exits with 1. *)
Definition exit_code (r : result unit) : nat := if is_ok r then 0 else 1.

(** [main], its result the exit status. *)
Definition main (fl : Flags) : stE Cmd nat :=
  if decide (fl_mode fl = "keygen"%string) then
    r ← attempt (keygen (fl_keyfile fl)); mret (exit_code r)
  else if decide (fl_mode fl = "finalize"%string) then
    r ← attempt (finalize (fl_keyfile fl) (fl_orchestrator fl) (fl_token fl) (fl_election fl) (fl_timeout fl));
    mret (exit_code r)
  else mret 2.

End command.

(** ** The key file *)

(** No byte of [heads] is trimmed from the front of a string. *)
Lemma trim_left_stuck fuel ps c r :
  Forall (fun p => head p <> Some c /\ p <> []) ps -> trim_left fuel ps (c :: r) = c :: r.
Proof.
  intros Hps. destruct fuel as [|fuel]; [done|]. cbn [trim_left].
  assert (strip_any ps (c :: r) = None) as ->; [|done].
  induction Hps as [|p ps [Hp Hn] _ IH]; [done|]. cbn [strip_any].
  destruct p as [|b p]; [done|]. unfold strip_prefix. cbn [length take].
  rewrite decide_False; [exact IH|]. intros [= ->]. by apply Hp.
Qed.

(** The bytes of a hex number, none of which is white space or part of it. *)
Definition hex_byte_ok (c : byte) : bool :=
  forallb (fun p => negb (bool_decide (head p = Some c)) && negb (bool_decide (p = [])))
    ((spaces ++ wide_spaces) ++ (reverse <$> spaces ++ wide_spaces)).

Lemma hex_byte_heads c : hex_byte_ok c = true ->
  Forall (fun p => head p <> Some c /\ p <> []) (spaces ++ wide_spaces) /\
  Forall (fun p => head p <> Some c /\ p <> []) (reverse <$> spaces ++ wide_spaces).
Proof.
  unfold hex_byte_ok. intros Hc. rewrite <- Forall_app, Forall_forall. intros p Hp.
  rewrite forallb_forall in Hc. specialize (Hc p (proj1 (list_elem_of_In _ _) Hp)).
  apply andb_true_iff in Hc as [Hh Hn].
  apply negb_true_iff, bool_decide_eq_false in Hh. by apply negb_true_iff, bool_decide_eq_false in Hn.
Qed.

Lemma hex_digit_ok d : (d < 16)%N -> hex_byte_ok (hex_digit d) = true.
Proof.
  intros Hd. assert (forallb (fun d => hex_byte_ok (hex_digit d)) (N.of_nat <$> seq 0 16) = true) as Hall
    by by vm_compute.
  rewrite forallb_forall in Hall. apply Hall, list_elem_of_In, list_elem_of_fmap. exists (N.to_nat d).
  rewrite N2Nat.id. split; [done|]. apply elem_of_seq. lia.
Qed.

Lemma TrimSpace_id c l d : hex_byte_ok c = true -> hex_byte_ok d = true ->
  TrimSpace (c :: l ++ [d]) = c :: l ++ [d].
Proof.
  intros [Hc _]%hex_byte_heads [_ Hd]%hex_byte_heads. unfold TrimSpace. rewrite trim_left_stuck by exact Hc.
  change (c :: l ++ [d]) with ((c :: l) ++ [d]). rewrite reverse_snoc, trim_left_stuck by exact Hd.
  by rewrite reverse_cons, reverse_involutive.
Qed.

(** The text of an integer ends in a hex digit. *)
Lemma Text16_last z : exists l d, Text16 z = l ++ [d] /\ hex_byte_ok d = true.
Proof.
  unfold Text16. set (n := Z.to_N (Z.abs z)). set (ds := digits_be 16 (hex_width n) n).
  assert (Forall (fun d => d < 16)%N ds) as Hl by (by apply digits_be_lt).
  assert (length ds <> 0) as Hn by (subst ds; rewrite length_digits_be; unfold hex_width; lia).
  clearbody ds. destruct ds as [|x ds' _] using rev_ind; [done|].
  apply Forall_app in Hl as [_ Hx]. apply Forall_cons in Hx as [Hx _]. rewrite fmap_app, app_assoc.
  eexists _, (hex_digit x). split; [reflexivity|]. by apply hex_digit_ok.
Qed.

Lemma lit_hex0x z : lit (hex0x z) = lit "0x" ++ Text16 z.
Proof. unfold lit at 1, hex0x. by rewrite String.list_byte_of_string_of_list_byte. Qed.

Lemma parseHexBig_hex0x z : parseHexBig (hex0x z) = Ok z.
Proof.
  unfold parseHexBig. rewrite lit_hex0x. destruct (Text16_last z) as (l & d & El & Hd).
  assert (TrimSpace (lit "0x" ++ Text16 z) = lit "0x" ++ Text16 z) as ->.
  { rewrite El. apply (TrimSpace_id x30 (x78 :: l) d); [by vm_compute|exact Hd]. }
  cbv zeta. rewrite TrimPrefix_app, SetString_Text16, decide_False; [done|]. rewrite El. by destruct l.
Qed.

Lemma trim0x_hex0x z : trim0x (lit (hex0x z)) = Text16 z.
Proof. rewrite lit_hex0x. unfold trim0x. cbn. by rewrite drop_0. Qed.

(** ** The handshake *)

Section handshake.
Context `{Orchestrator} `{ClientJSON} `{KeyTools}.

Lemma bind_on_net {A B} (m : stE Wait A) (f : A -> stE Cmd B) s :
  (on_net m ≫= f) s = let '(r, w) := m (cm_wait s) in
    match r with Ok a => f a (cm_set_wait w s) | Err e => (Err e, cm_set_wait w s) end.
Proof. unfold mbind, stE_bind, on_net, zoom. by destruct (m _) as [[a|e] w]. Qed.

Lemma bind_read_key {A} p (f : Z -> stE Cmd A) s :
  (read_key p ≫= f) s = match (read_key p s).1 with Ok k => f k s | Err e => (Err e, s) end.
Proof.
  unfold read_key, ReadFile, lift, mbind, stE_bind. cbn beta.
  destruct (if readable p then _ else _) as [blob|e]; [|done]. cbn.
  destruct (of_option (unmarshal_keyfile blob) errorf) as [kf|e]; [|done]. cbn.
  by destruct (of_option _ _).
Qed.

(** What a finalize that read the key [key] sent, and printed. *)
Definition released (c : Client) (election : string) (key : Z) (sent : list Request) (r : result unit)
    (new : list Request) (out : list bytes) : Prop :=
  exists polls, let ct := get_request c (ciphertext_path election) in
    let post := submit_request encode_key c election key in
    new = ct :: post :: polls /\ Forall (poll_request c election) polls /\
    (exists ciphertext, answered c decode_ciphertext sent (ciphertext_path election) ciphertext) /\
    (r = Ok tt -> exists resp d res,
       Do (sent ++ [ct]) (c_baseURL c) post = (Some resp, d) /\ submitted_ok (hr_StatusCode resp) = true /\
       answered c decode_results (sent ++ removelast new) (results_path election) res /\
       out = [marshal_results res]).

(** How a finalize ends: nothing but the ciphertext was asked for, or the key
    of the file was released. *)
Definition finalize_spec (p orchestrator token election : string) (s : Cmd) (r : result unit) (s' : Cmd) : Prop :=
  let c := NewClient orchestrator token in
  cm_files s' = cm_files s /\
  exists new out, wt_sent (cm_wait s') = wt_sent (cm_wait s) ++ new /\ cm_out s' = cm_out s ++ out /\
    (r <> Ok tt -> r = Err errorf /\ out = []) /\
    ((new = [] \/ new = [get_request c (ciphertext_path election)]) /\ r = Err errorf \/
     exists key, (read_key p s).1 = Ok key /\ released c election key (wt_sent (cm_wait s)) r new out).

Lemma finalize_silent p orchestrator token election s s' new :
  cm_files s' = cm_files s -> cm_out s' = cm_out s -> wt_sent (cm_wait s') = wt_sent (cm_wait s) ++ new ->
  new = [] \/ new = [get_request (NewClient orchestrator token) (ciphertext_path election)] ->
  finalize_spec p orchestrator token election s (Err errorf) s'.
Proof.
  intros Hf Ho Hs Hn. split; [exact Hf|]. exists new, []. rewrite (app_nil_r (cm_out s)).
  split_and!; [exact Hs|exact Ho|done|left; auto].
Qed.

Lemma read_key_errorf p s e : (read_key p s).1 = Err e -> e = errorf.
Proof.
  unfold read_key, ReadFile, lift, mbind, stE_bind. cbn beta.
  destruct (readable p); [|by intros [= <-]]. destruct (cm_files s !! p) as [blob|]; cbn; [|by intros [= <-]].
  destruct (unmarshal_keyfile blob) as [kf|]; cbn; [|by intros [= <-]].
  destruct (SetString _ _); cbn; [done|by intros [= <-]].
Qed.

(** An error after the key went out. *)
Lemma released_error p orchestrator token election s s' key ct polls :
  let c := NewClient orchestrator token in
  (read_key p s).1 = Ok key ->
  answered c decode_ciphertext (wt_sent (cm_wait s)) (ciphertext_path election) ct ->
  cm_files s' = cm_files s -> cm_out s' = cm_out s -> Forall (poll_request c election) polls ->
  wt_sent (cm_wait s') = wt_sent (cm_wait s) ++ get_request c (ciphertext_path election)
    :: submit_request encode_key c election key :: polls ->
  finalize_spec p orchestrator token election s (Err errorf) s'.
Proof.
  intros c Hk Hct Hf Ho Hp Hs. split; [exact Hf|]. eexists _, []. rewrite (app_nil_r (cm_out s)).
  split_and!; [exact Hs|exact Ho|done|]. right. exists key. split; [exact Hk|].
  exists polls. split_and!; [done..|by exists ct|done].
Qed.

(** After the ciphertext was read: the key goes out, and the wait follows. *)
Lemma release_spec p orchestrator token election timeout s s1 key ct :
  let c := NewClient orchestrator token in
  (read_key p s).1 = Ok key -> cm_files s1 = cm_files s -> cm_out s1 = cm_out s ->
  wt_sent (cm_wait s1) = wt_sent (cm_wait s) ++ [get_request c (ciphertext_path election)] ->
  answered c decode_ciphertext (wt_sent (cm_wait s)) (ciphertext_path election) ct ->
  let '(r, s') := (_ ← on_net (client_SubmitDecryptionKey c election key);
    res ← on_net (WaitForResults c election resultsPollInterval timeout);
    Println (marshal_results res)) s1 in
  finalize_spec p orchestrator token election s r s'.
Proof.
  intros c Hk Hf Ho Hs Hct. rewrite bind_on_net. unfold client_SubmitDecryptionKey.
  pose proof (send_outcome c (submit_request encode_key c election key) (cm_wait s1)) as Hp.
  unfold mbind at 1, stE_bind at 1.
  destruct (send c _ (cm_wait s1)) as [[resp|e] w1]; destruct Hp as [_ Hp].
  2:{ destruct Hp as [-> [Hw|Hw]]; rewrite Hs in Hw.
      - by eapply finalize_silent; [..|exact Hw|auto].
      - eapply (released_error _ _ _ _ _ _ key ct []); [done..|constructor|]. by rewrite <- app_assoc in Hw. }
  destruct Hp as (Hw & d & Hd). rewrite Hs in Hw, Hd. rewrite <- app_assoc in Hw. unfold throw_if.
  destruct (submitted_ok _) eqn:Eok; cbn [negb]; unfold mret, stE_ret, throw.
  2:{ by eapply (released_error _ _ _ _ _ _ key ct []); [..|constructor|exact Hw]. }
  rewrite bind_on_net. cbn [cm_set_wait cm_wait].
  pose proof (wait_ends c election resultsPollInterval timeout w1 ltac:(by vm_compute)) as Hr.
  destruct (WaitForResults c election _ _ w1) as [r w2]. destruct Hr as [(polls & Hw2 & _ & Hpolls) Hr].
  rewrite Hw, <- app_assoc in Hw2. cbn [app] in Hw2.
  destruct r as [res|e]; [|subst e; by eapply (released_error _ _ _ _ _ _ key ct polls)].
  destruct Hr as (sent & v & Hsent & _ & _ & Hres). split; [exact Hf|].
  eexists _, [_]. split_and!; [exact Hw2|by cbn; rewrite Ho|done|]. right. exists key. split; [exact Hk|].
  exists polls. split_and!; [done..|by exists ct|]. intros _. exists resp, d, res.
  split_and!; [exact Hd|exact Eok| |done].
  rewrite <- removelast_app, <- Hw2, Hsent, removelast_last by done. exact Hres.
Qed.

Lemma finalize_ends p orchestrator token election timeout s :
  let '(r, s') := finalize p orchestrator token election timeout s in
  finalize_spec p orchestrator token election s r s'.
Proof.
  unfold finalize. set (c := NewClient orchestrator token). unfold throw_if at 1.
  destruct (bool_decide (election = ""%string)).
  { apply (finalize_silent _ _ _ _ s s []); [done..|by rewrite app_nil_r|auto]. }
  unfold mbind at 1, stE_bind at 1, mret, stE_ret. rewrite bind_read_key.
  destruct (read_key p s).1 as [key|e] eqn:Ek.
  2:{ rewrite (read_key_errorf _ _ _ Ek).
      apply (finalize_silent _ _ _ _ s s []); [done..|by rewrite app_nil_r|auto]. }
  cbv zeta. rewrite bind_on_net. unfold client_EncryptedResults.
  pose proof (get_outcome c (ciphertext_path election) decode_ciphertext (cm_wait s)) as Hg.
  destruct (get c _ _ _) as [[ct|e] w1]; destruct Hg as [_ Hg].
  - destruct Hg as [Hs Ha]. by apply (release_spec p _ _ _ _ s _ key ct).
  - destruct Hg as [-> [Hs|Hs]].
    + apply (finalize_silent _ _ _ _ s _ []); [done..|by rewrite app_nil_r|auto].
    + by eapply finalize_silent; [..|exact Hs|auto].
Qed.
End handshake.

(** What the libraries promise of a key: a generated key pair is one, a point
    is read back from its coordinates, and a key file from its JSON. *)
Class KeyLaws `{KeyTools} := {
  GenerateKey_pair pub priv : GenerateKey = Some (pub, priv) ->
    pub = ScalarBaseMult priv /\ (0 < priv < Order)%Z;
  SetPoint_Point pub priv : GenerateKey = Some (pub, priv) ->
    SetPoint (BJJ_Point pub).1 (BJJ_Point pub).2 = pub;
  keyfile_read x y z : unmarshal_keyfile (marshal_keyfile (MkKeyFile (hex0x x) (hex0x y) (hex0x z)))
    = Some (MkKeyFile (hex0x x) (hex0x y) (hex0x z));
}.

(** The private scalar of a key file is read back. *)
Lemma read_key_written `{KeyLaws} p s x y key :
  cm_files s !! p = Some (marshal_keyfile (MkKeyFile (hex0x x) (hex0x y) (hex0x key))) ->
  (read_key p s).1 = if readable p then Ok key else Err errorf.
Proof.
  intros Hf. unfold read_key, ReadFile, mbind, stE_bind, lift. cbn. destruct (readable p); [|done].
  rewrite Hf. cbn [of_option]. rewrite keyfile_read. cbn [of_option kf_Priv]. by rewrite trim0x_hex0x, SetString_Text16.
Qed.

(** C34: the handshake of finalize, whatever the orchestrator answers: it sends
    nothing, or asks for the ciphertext, or releases the key of the key file,
    once, after the ciphertext was answered and before it polls; it leaves
    the key file alone, and prints the results only of an orchestrator that
    took the key and answered with them last. *)
Theorem finalize_handshake `{Orchestrator} `{ClientJSON} `{KeyTools} p orchestrator token election timeout s :
  let '(r, s') := finalize p orchestrator token election timeout s in
  finalize_spec p orchestrator token election s r s'.
Proof. exact (finalize_ends p orchestrator token election timeout s). Qed.

(** C29: a generated key opens its election: after keygen, an election created
    with the coordinates it printed has the public key it generated, and the
    scalar any later finalize of that key file releases is one the engine's
    check accepts for the election. *)
Theorem generated_key_is_accepted `{Orchestrator} `{ClientJSON} `{KeyLaws} p s s1 :
  keygen p s = (Ok tt, s1) ->
  exists encX encY pub key,
    cm_out s1 = cm_out s ++ [lit "encX=" ++ lit encX; lit "encY=" ++ lit encY] /\
    encKeyFromRTE encX encY = Ok pub /\ checkDecryptionKey pub key = Ok tt /\
    forall orchestrator token election timeout s2,
      cm_files s2 !! p = cm_files s1 !! p ->
      let '(r, s3) := finalize p orchestrator token election timeout s2 in
      exists new, wt_sent (cm_wait s3) = wt_sent (cm_wait s2) ++ new /\
        forall rq, rq ∈ new -> rq_Method rq = MethodPost ->
          rq = submit_request encode_key (NewClient orchestrator token) election key.
Proof.
  unfold keygen. destruct GenerateKey as [[pub key]|] eqn:Eg; [|done].
  destruct (GenerateKey_pair _ _ Eg) as [Hpub Hr]. pose proof (SetPoint_Point _ _ Eg) as Hp.
  destruct (BJJ_Point pub) as [x y] eqn:Ex. unfold WriteFile, mbind, stE_bind, lift. cbn [of_option]. rewrite Ex.
  set (kf := MkKeyFile _ _ _). destruct (write_outcome p _); [|done..]. intros [= <-].
  exists (hex0x x), (hex0x y), pub, key. cbn. split_and!.
  - by rewrite <- app_assoc.
  - unfold encKeyFromRTE. rewrite !parseHexBig_hex0x. cbn in Hp |- *. by rewrite Hp.
  - unfold checkDecryptionKey. rewrite (proj2 (Z.leb_gt _ _)), (proj2 (Z.leb_gt _ _)) by lia. cbn.
    by rewrite bool_decide_true.
  - intros orch token election timeout s2 Hf. rewrite lookup_insert_eq in Hf.
    pose proof (finalize_ends p orch token election timeout s2) as Hs.
    destruct (finalize p orch token election timeout s2) as [r s3].
    destruct Hs as (_ & new & out & Hn & _ & _ & Hs). exists new. split; [exact Hn|]. intros rq Hin Hm.
    destruct Hs as [[[->| ->] _]|(key' & Hk & polls & -> & Hpolls & _)].
    + by apply elem_of_nil in Hin.
    + apply list_elem_of_singleton in Hin as ->. discriminate Hm.
    + assert (key' = key) as ->.
      { rewrite (read_key_written p s2 x y key Hf) in Hk. by destruct (readable p); [injection Hk|]. }
      apply elem_of_cons in Hin as [->|Hin]; [discriminate Hm|].
      apply elem_of_cons in Hin as [->|Hin]; [done|]. rewrite Forall_forall in Hpolls.
      destruct (Hpolls rq Hin) as [->| ->]; discriminate Hm.
Qed.
