(* ===== verification/Toy.v ===== *)
(** * A small instance of the third-party code

    Concrete libraries, state tree, scheduler and finalizer over which the
    theorems' hypotheses are checked: BabyJubJub is the integers modulo a small
    order, a ballot is its encoding, and the state tree is the list of the
    ballots applied, refusing an empty one. *)

From S2P Require Import Prelude Errors Effects Bytes Types Records Keys Artifacts Storage.
From S2P Require Import StorageSpec Sdk Config Validate ValidateProps Seal Engine Finalize.
From S2P Require Import Lifecycle LifecycleProps Chains Scheduler Fold Scatter.
From Stdlib Require Import Strings.Byte.

Definition toy_census : CensusProof :=
  {| cs_Root := ""; cs_Leaf := ""; cs_Index := 3; cs_Siblings := [] |}.

Definition toy_bundle : voteProofBundle :=
  {| vb_Proof := [x01]; vb_PublicInputs := []; vb_Sig := [x02]; vb_Census := toy_census |}.

Definition toy_text (b : bytes) : string := String.string_of_list_byte b.

(** The G1 and G2 points are all finite and on their curves. *)
Definition toy_g1 : list string := ["1"; "2"; "1"]%string.
Definition toy_g2 : list (list string) := [["1"; "2"]; ["3"; "4"]; ["1"; "0"]]%string.

#[export] Instance ToySdk : Sdk := {|
  Point := Z * Z;
  SetPoint x y := (x, y);
  Order := 13%Z;
  ScalarBaseMult k := ((2 * k) mod 13, (3 * k) mod 13)%Z;
  Point_eq_dec := _;
  BJJ_IsOnCurve _ := true;
  fp_Modulus := 97%Z;
  fr_Modulus := (2 ^ 160)%Z;
  G1_IsInfinity p := bool_decide (p = (0, 0)%Z);
  G1_IsOnCurve _ := true;
  G2_IsInfinity p := bool_decide (p = ((0, 0), (0, 0))%Z);
  G2_IsOnCurve _ := true;
  G2_IsInSubGroup _ := true;
  VerifyingKey := G1;
  Precompute alpha _ _ _ _ := Some alpha;
  Groth16_Verify proof vk pubs := bool_decide (proof.1.1 = vk);
  NumFields := 8;
  MaxBatchSize := 64%Z;
  ProcessIDLen := 31;
  CircomVerificationKey := [x01];
  VKHash := bytes;
  BallotVKLeaf := Some;
  Pack bm := Some (layout bm);
  IsMerkle origin := (origin =? 1)%N;
  IsCSP origin := (origin =? 4)%N;
  LeafAddress limbs := fill_bytes 20 (foldr (fun l acc => l + 2 ^ 64 * acc)%N 0%N limbs / 2 ^ 88)%N;
  SlotKey cp := Some (cs_Index cp);
  VoteID_Valid _ := true;
  Ballot := bytes;
  Deserialize _ b := Some b;
  Ciphertexts _ := [((0, 1), (0, 1))%Z];
  BallotInputsHash _ _ _ _ _ _ weight := Some weight;
  VerifyProofWith root leaf index sib := (root =? leaf + foldr Z.add 0 sib)%Z;
  CheckBigIntInField v := (v <? 2 ^ 254)%Z;
  secp256k1_N := (2 ^ 256 - 432420386565659656852420866394968145599)%Z;
  ECDSASignature := bytes;
  Signature_SetBytes b := if (length b =? 65)%nat then Some b else None;
  Signature_Bytes sig := sig;
  Signature_Verify _ _ _ := Some (replicate 65 x04);
  unmarshal_proof _ := Some {| sp_A := toy_g1; sp_B := toy_g2; sp_C := toy_g1 |};
  marshal_proof _ := Some [x01];
  unmarshal_vk _ := Some {| sv_Alpha := toy_g1; sv_Beta := toy_g2; sv_Gamma := toy_g2;
    sv_Delta := toy_g2; sv_IC := [toy_g1; toy_g1; toy_g1; toy_g1] |};
  marshal_vk _ := Some [x01];
  unmarshal_sig b := Some {| js_SignatureR := toy_text b; js_SignatureS := "2"; js_SignatureV := 0 |};
  marshal_sig _ := Some [x02];
  unmarshal_bundle _ := Some toy_bundle;
  marshal_bundle _ := Some [x03];
|}.

(** ** The state tree *)

Definition toy_applies (vs : list (@ChainVote ToySdk)) : bool :=
  forallb (fun v => negb (bool_decide (@cv_Ballot ToySdk v = []))) vs.

#[export] Instance ToyChain : Chain := {|
  ChainState := list bytes;
  StateTransitionData := nat;
  ReencryptionData := nat;
  NewState _ := Some [];
  RestoreState _ blob := Some (if decide (blob = []) then [] else [blob]);
  State_Snapshot st := Some (concat st);
  State_Root st := toy_text (hex_encode (concat st));
  ApplyBatch st n vs :=
    if toy_applies vs then (Some (length vs, n), st ++ ((fun v => cv_Ballot v) <$> vs))
    else (None, st ++ [[x00]]);
  EncryptedResults st := toy_text <$> st;
  marshal_request r := Some (concat (pr_Proofs _ _ r));
|}.

#[export] Instance ToyChainLaws : ChainLaws.
Proof.
  assert (forall st n vs, applies (H0 := ToyChain) st n vs = toy_applies vs) as Ha
    by (intros st n vs; unfold applies; cbn; by destruct (toy_applies vs)).
  split.
  - intros st m n vs. by rewrite !Ha.
  - intros st n vs ws. rewrite !Ha. unfold toy_applies. rewrite forallb_app. by intros [? _]%andb_true_iff.
  - intros cfg st b [= <-]. eexists. split; [reflexivity|]. split; [|intros n vs; by rewrite !Ha].
    cbn. do 2 f_equal. case_decide as E; [by rewrite E|]. cbn. apply app_nil_r.
Qed.

(** ** The scheduler and the finalizer *)

#[export] Instance ToyScheduler : SchedulerOps TypedDB := {|
  Drain _ := mret tt;
  Finalize _ _ := throw [errNothingToFinalize];
  Forget _ := mret tt;
|}.

#[export] Instance ToySchedulerLaws : SchedulerLaws.
Proof.
  split.
  - by intros id w.
  - by intros id key w.
  - intros id w. by exists w.
Qed.

Record ToyDigest := MkDigest {
  toy_Mode : N;
  toy_Root : string;
  toy_StepCount : N;
  toy_TotalVoters : N;
  toy_TotalOverwrites : N;
  toy_Results : list N;
  toy_ConfigCommitment : bytes;
}.

#[export] Instance ToyFinalize : FinalizeSdk := {|
  Digest := ToyDigest;
  d_Mode := toy_Mode; d_StepCount := toy_StepCount; d_TotalVoters := toy_TotalVoters;
  d_TotalOverwrites := toy_TotalOverwrites; d_Results := toy_Results;
  d_ConfigCommitment := toy_ConfigCommitment;
  ModeFinalize := 2;
  StateRootHex := toy_Root;
  VerifyBinding _ _ _ := Ok tt;
  VKWords vk := Some [N.of_nat (String.length vk)];
  ConfigCommitment _ bw aw := Some (byte_of <$> bw ++ aw);
  Voters st := (N.of_nat (length st), 0%N);
  CircuitRelease := Some (MkRelease "0xABCD" "0x02");
  Release_Verify _ _ _ := Ok tt;
|}.

(** ** The provers, which answer at once, and no other goroutine *)

#[export] Instance ToyProvers : Provers := {|
  JobConfig := nat;
  ResultsPayload := Z;
  SubmitProve _ _ _ := Some "p";
  GetJob _ _ _ := Some JobDone;
  FetchStarkInfo _ _ job := Some (if decide (job = "p" \/ job = "b") then "0x02" else "0xabcd");
  FetchStarkRaw _ _ _ := Some [x05];
  ImportStarkAs _ _ _ kind := Some (match kind with ImportBatch => "b" | ImportFold => "f" end);
  SubmitFold _ _ _ := Some "g";
  SubmitFinalize _ _ _ := Some "z";
  FetchPublics _ _ _ := Some [x06];
  FetchSnark _ _ _ := Some (MkSnark [xab; xcd] [x01] [x02] [x03]);
  unmarshal_request _ := Some (MkProveRequest [] "" 0 0 [] [] [] []);
  State_ChainConfig st := length st;
  State_ResultsPayload st key := Some (key, [4; 5]%N);
  ParseDigest _ := Some (MkDigest 2 "0102" 3 1 0 [4; 5]%N (byte_of <$> [4; 6]%N));
|}%string.

#[export] Instance ToyOthers : Others TypedDB := {|
  others _ w := w; elapsed _ := 0%N; turns _ := [0; 1; 2]%N; rounds := 8;
|}.
