(* ===== verification/Witnesses.v ===== *)
(** * Witnesses

    The hypotheses of the properties hold at concrete inputs: each witness
    applies its theorem over the small instance of Toy.v. *)

From S2P Require Import Prelude Errors Effects Bytes Types Records KV Keys Retries Workers Claims Sdk.
From S2P Require Import Config Validate ValidateProps Artifacts Storage ByteStore StorageRefine.
From S2P Require Import StorageSpec StorageProps Seal SealProps SealInv SealAccount Frame Chains Engine.
From S2P Require Import Finalize Lifecycle LifecycleProps LifecycleSpec Recovery Ingest.
From S2P Require Import IngestProps Submissions EngineSteps Toy.
From Stdlib Require Import Strings.Byte.

(** ** An election with a buffered vote *)

Open Scope Z_scope.

Definition t_id : ElectionID := [x0a].
Definition t_config : ElectionConfig :=
  {| ProcessID := "0x05"; BallotMode := "0x01"; EncX := "2"; EncY := "3"; CensusOrigin := 1;
     CensusRoot := "9"; ec_VK := [x01] |}.
Definition t_election (st : Status) : Election :=
  {| el_ID := t_id; el_Status := st; el_Config := t_config; el_BatchSize := 2; el_FoldEvery := 1;
     el_EndTime := zero_time; el_CreatedAt := zero_time; el_UpdatedAt := zero_time; el_FoldWorker := "";
     el_FinalizeError := "" |}.

Definition t_db (st : Status) : TypedDB :=
  {| td_map := <[KElection t_id := AElection (t_election st)]> (<[KSnapshot t_id := ABlob []]> ∅);
     td_faults := []; td_readable := true |}.
Definition t_store (st : Status) : TStorage := MkStorage (t_db st) minute ∅ ∅ 0%N.

Definition t_mode : BallotModeT :=
  {| bm_NumFields := 1; bm_GroupSize := 0; bm_UniqueValues := false; bm_CostExponent := 0;
     bm_MaxValue := 0; bm_MinValue := 0; bm_MaxValueSum := 0; bm_MinValueSum := 0 |}.
Definition t_rules : voteRules :=
  {| vr_cfg := {| cc_ProcessID := 5; cc_BallotMode := 1; cc_EncKey := (2, 3)%Z; cc_CensusOrigin := 1;
       cc_CensusRoot := 9; cc_BallotVKHash := [x01] |};
     vr_processID := fill_bytes 31 5; vr_ballotMode := t_mode; vr_ballotVK := (1, 2)%Z |}.
Definition t_runtime : Runtime := MkRuntime t_id t_rules [] false [] 0 2.
Definition t_sw (st : Status) : SW TypedDB := MkSW (MkEnv (t_store st) 0 None false) t_runtime.

Definition t_vote : Vote :=
  {| v_ID := [x01; x02]; v_Address := [x05]; v_Slot := 3; v_VoteIDKey := 258; v_Ballot := [x07];
     v_Payload := [x03]; v_Seq := 0; v_SubmittedAt := zero_time |}.


(** The same election once a vote was accepted. *)
Definition t_store1 : TStorage := (commit (add_writes 100 t_id 0 t_vote) (t_store StatusActive)).2.
Definition t_sw1 : SW TypedDB := received 100 0 t_vote t_store1 (t_sw StatusActive).

Definition t_st0 : @ChainState ToySdk ToyChain := [].

(** ** The invariants at these states *)

Ltac map_lookup := cbn; rewrite ?lookup_insert_ne by done; rewrite ?lookup_insert_eq; try done.

Lemma t_no_vote st u : vote_at (tmap (t_store st)) t_id u = None.
Proof. unfold vote_at, tmap. by map_lookup. Qed.
Lemma t_no_batch st id seq : batch_at (tmap (t_store st)) id seq = None.
Proof. unfold batch_at, tmap. by map_lookup. Qed.
Lemma t_no_status st u : status_at (tmap (t_store st)) t_id u = None.
Proof. unfold status_at, tmap. by map_lookup. Qed.

Lemma t_sound st : sound [] (t_sw st).
Proof. split; [|done]. by exists []. Qed.

Lemma t_inv st : rt_inv (t_sw st).
Proof.
  split; [by exists []; apply t_sound| |done].
  change (votes_inv (tmap (t_store st)) t_id [] 0). split.
  - constructor.
  - constructor.
  - constructor.
  - intros seq. rewrite t_no_batch. split; [by intros [? [=]]|lia].
  - intros seq b u. by rewrite t_no_batch.
  - intros seq b. by rewrite t_no_batch.
  - intros seq1 seq2 b1 b2 u. by rewrite t_no_batch.
  - intros seq b u. by rewrite t_no_batch.
Qed.

Lemma t_log st : log_ok t_id (tmap (t_store st)).
Proof.
  split.
  - exists 0%N. split; [done|]. split; [done|]. intros v x. by rewrite t_no_vote.
  - intros v x. by rewrite t_no_vote.
  - intros v1 v2 x1 x2. by rewrite t_no_vote.
Qed.

Lemma t_inv1 : rt_inv t_sw1 /\ log_ok t_id (tmap t_store1).
Proof.
  apply (received_inv 100 0 t_vote t_store1 (t_sw StatusActive)); try done.
  - apply t_inv.
  - apply t_log.
Qed.

Lemma t_sound1 : sound [] t_sw1.
Proof. split; [|done]. exists []. split; [|done]. by vm_compute. Qed.

Lemma t_kinded st : well_kinded (tmap (t_store st)).
Proof.
  apply map_Forall_insert_2; [by split|]. apply map_Forall_insert_2; [by split|]. apply map_Forall_empty.
Qed.

Lemma t_keyed1 : batches_keyed (tmap t_store1).
Proof.
  split.
  - do 3 (apply td_write_well_kinded; [by split|]). apply (t_kinded StatusActive).
  - intros id seq b. unfold batch_at.
    assert (tmap t_store1 !! KBatch id seq = None) as ->; [|done].
    change (tmap t_store1) with (td_writes (add_writes 100 t_id 0 t_vote) (tmap (t_store StatusActive))).
    rewrite td_writes_untouched by (by repeat constructor). unfold tmap. by map_lookup.
Qed.

(** ** Retries and workers *)

Lemma retryDelay_doubles_witness :
  retryDelay 3 = 4 * second /\ retryMinDelay <= retryDelay 3 <= retryMaxDelay /\ retryDelay 3 <= retryDelay 4.
Proof. exact (retryDelay_doubles 3 ltac:(lia)). Defined.

Lemma t_retries_ok : retries_ok ∅.
Proof. apply map_Forall_empty. Qed.

Lemma failed_backs_off_witness :
  let r := failed 50 t_id taskDrain ∅ in
  due 51 t_id taskDrain r = false /\ due (50 + retryMaxDelay) t_id taskDrain r = true.
Proof.
  destruct (failed_backs_off 50 51 t_id [] taskDrain taskDrain ∅ t_retries_ok) as (_ & H1 & _).
  destruct (failed_backs_off 50 (50 + retryMaxDelay) t_id [] taskDrain taskDrain ∅ t_retries_ok)
    as (_ & _ & H2 & _).
  split; [apply H1|apply H2]; [done|apply Z.le_refl].
Defined.

Lemma take_holds_off_witness :
  let r := (take_task 7 t_id taskDispatch (schedule t_id taskDispatch ∅)).2 in
  retries_ok r /\ (take_task 8 t_id taskDispatch r).1 = false.
Proof.
  assert (retries_ok (schedule t_id taskDispatch ∅)) as Hr by (apply map_Forall_insert_2; done).
  pose proof (take_holds_off 7 8 t_id taskDispatch _ Hr) as H.
  destruct (take_task 7 t_id taskDispatch _) as [taken r] eqn:E. destruct H as (Hok & H1 & _).
  assert (taken = true) as Ht by (change taken with (taken, r).1; by rewrite <- E).
  split; [done|]. by apply H1.
Defined.

(** A pool with a healthy worker that failed five times. *)
Definition t_worker : Worker := MkWorker "http://a" "a" 5 0 0 5 2 true 0 0 0.
Definition t_pool : WorkerManager :=
  MkPool {[0%nat := t_worker]} {["http://a"%string := 0%nat]} DefaultWorkerBanRules 0.

Lemma t_pool_ok : reg_ok t_pool.
Proof. intros a l. cbn. intros [<- <-]%lookup_singleton_Some. by exists t_worker. Qed.

(** A worker that has not failed. *)
Definition t_fresh : WorkerManager :=
  MkPool {[0%nat := w_set_fails 0 0 0 t_worker]} {["http://a"%string := 0%nat]} DefaultWorkerBanRules 0.

Lemma t_fresh_unclaimed : unclaimed t_fresh.
Proof.
  split.
  - intros a l. cbn. intros [<- <-]%lookup_singleton_Some. by eexists.
  - intros l. unfold jobs_of, claimers_of. cbn. destruct (decide (l = 0%nat)) as [->|Hl].
    + by rewrite lookup_singleton_eq.
    + by rewrite lookup_singleton_ne.
Qed.

(** Two proves choose the same idle worker; the second swaps first. *)
Definition t_chosen : threads := <[2%nat := AcquireSwap [] 0%nat]> {[1%nat := AcquireSwap [] 0%nat]}.

Lemma t_race : rtc pool_step (∅, t_fresh) (t_chosen, t_fresh).
Proof.
  eapply rtc_l. { apply (StepStart ∅ t_fresh 1%nat (AcquireTop [])); done. }
  eapply rtc_l. { apply (StepRun _ t_fresh 1%nat (AcquireTop []) 0 false). apply lookup_insert_eq. }
  eapply rtc_l. { apply (StepStart _ t_fresh 2%nat (AcquireTop [])); done. }
  eapply rtc_l. { apply (StepRun _ t_fresh 2%nat (AcquireTop []) 0 false). apply lookup_insert_eq. }
  apply rtc_refl.
Qed.

Definition t_won : threads * WorkerManager :=
  let r := thread_step 0 false (AcquireSwap [] 0%nat) t_fresh in (<[2%nat := r.1]> t_chosen, r.2).


Definition t_now : time := (unix_epoch + 1000) * second.

Lemma expireBans_policy_witness :
  exists w', wm_objects (expireBans t_now t_pool) !! 0%nat = Some w' /\
    w_bannedUntilNanos w' = window_end t_now DefaultWorkerBanRules.
Proof.
  destruct (expireBans_policy t_now t_pool 0%nat t_worker t_pool_ok) as (w' & Hw & Hb & _).
  - by exists "http://a"%string.
  - done.
  - unfold t_now, second. lia.
  - done.
  - exists w'. split; [done|]. by apply Hb.
Defined.

(** The worker's window was left by a ban that a success ended. *)
Definition t_stale (fails : Z) : WorkerManager :=
  MkPool {[0%nat := w_set_ban fails (window_end t_now DefaultWorkerBanRules) t_worker]}
    {["http://a"%string := 0%nat]} DefaultWorkerBanRules 0.

Lemma t_stale_ok fails : reg_ok (t_stale fails).
Proof. intros a l. cbn. intros [<- <-]%lookup_singleton_Some. by eexists. Qed.

Lemma stale_window_cuts_the_next_ban_witness :
  let t := t_now + BanTimeout DefaultWorkerBanRules + 1 in
  let w := w_set_ban 5 (window_end t_now DefaultWorkerBanRules) t_worker in
  IsBanned t DefaultWorkerBanRules w = true /\
  exists w', wm_objects (expireBans t (t_stale 5)) !! 0%nat = Some w' /\
    IsBanned t DefaultWorkerBanRules w' = false.
Proof.
  intros t w.
  destruct (stale_window_cuts_the_next_ban t_now t (t_stale 5) 0%nat w (t_stale_ok 5))
    as (w' & Hw & _ & Hb); [by exists "http://a"%string|done|done|done| | |done|].
  { unfold t_now, second. lia. }
  { change (wm_rules (t_stale 5)) with DefaultWorkerBanRules. unfold t. lia. }
  destruct (Hb ltac:(done)) as [H1 H2]. split; [exact H1|]. exists w'. exact (conj Hw H2).
Defined.

(** ** Validation *)

Lemma frLimbs_words_witness : exists l0 l1 l2 l3, frLimbs (2 ^ 64 + 5) = Ok [l0; l1; l2; l3].
Proof.
  destruct (frLimbs_words (2 ^ 64 + 5) ltac:(split; [lia|reflexivity])) as (l0 & l1 & l2 & l3 & H & _).
  by exists l0, l1, l2, l3.
Defined.

(** A voter of weight one and a submission of theirs. *)
Definition t_leaf : Z := 7 * 2 ^ 88 + 1.
Definition t_hex (v : Z) : string := toy_text (hex_encode (fill_bytes 32 (Z.to_N v))).
Definition t_census : CensusProof :=
  {| cs_Root := t_hex t_leaf; cs_Leaf := t_hex t_leaf; cs_Index := 0; cs_Siblings := [] |}.
Definition t_address : bytes := fill_bytes 20 7.

Lemma verifyCensusProof_canonical_witness :
  exists cp', verifyCensusProof t_leaf t_address t_census = Ok (1, cp') /\
    verifyCensusProof t_leaf t_address cp' = Ok (1, cp').
Proof.
  eexists. assert (verifyCensusProof t_leaf t_address t_census = Ok (1, _)) as E by (vm_compute; reflexivity).
  split; [exact E|].
  destruct (verifyCensusProof_canonical _ _ _ _ _ E) as (leaf & sib & _ & _ & _ & H). exact H.
Defined.

Definition t_crypto_rules : voteRules :=
  {| vr_cfg := {| cc_ProcessID := 5; cc_BallotMode := 1; cc_EncKey := (2, 3)%Z; cc_CensusOrigin := 1;
       cc_CensusRoot := t_leaf; cc_BallotVKHash := [x01] |};
     vr_processID := fill_bytes 31 5; vr_ballotMode := t_mode; vr_ballotVK := (1, 2)%Z |}.

Definition t_submission : VoteSubmission :=
  {| sub_VoteID := fill_bytes 8 258; sub_Address := t_address; sub_VoteIDKey := 258;
     sub_Ballot := [x07]; sub_Proof := [x01]; sub_PublicInputs := ["7"; "258"; "1"]%string;
     sub_Sig := lit "0x3"; sub_Census := t_census |}.

Definition t_validated : result voteProofBundle := cryptoValidate t_crypto_rules t_submission.

Lemma cryptoValidate_sound_witness :
  exists bundle sig, t_validated = Ok bundle /\ parseVoteSig (sub_Sig t_submission) = Ok sig /\
    parsePublicInputs (vb_PublicInputs bundle) = Ok [7; 258; 1].
Proof.
  destruct t_validated as [bundle|e] eqn:E; [|revert E; by vm_compute].
  destruct (cryptoValidate_sound _ _ _ E)
    as (ballot & weight & inputsHash & proof & sig & pubKey & _ & Hin & _ & Hsig & _ & _ & _ & Hout).
  exists bundle, sig. split; [done|]. split; [exact Hsig|].
  rewrite Hout, <- Hin. by vm_compute.
Defined.

Lemma parseVoteSig_negative_witness : parseVoteSig (lit "-3") = parseVoteSig (lit "3").
Proof.
  pose proof (parseVoteSig_negative (lit "-3") _ 3 2 eq_refl ltac:(by vm_compute) ltac:(by vm_compute)
    ltac:(lia) ltac:(split; [lia|by vm_compute]) ltac:(by vm_compute)) as H.
  rewrite decide_True in H by (by vm_compute).
  exact (H (lit "3") _ eq_refl ltac:(by vm_compute) ltac:(by vm_compute) eq_refl eq_refl).
Defined.

Lemma unpackBallotMode_inverse_witness : unpackBallotMode (layout t_mode) = Ok t_mode.
Proof.
  destruct (@unpackBallotMode_inverse ToySdk (fun bm _ => eq_refl)) as [H _].
  apply H; [by split|by split].
Defined.

(** ** Storage *)

(** A client that stores a vote, reads it back and counts the votes. *)
Definition t_program : program (result Vote * result (list Vote)) :=
  Then (CAddVote 100 t_id t_vote) (fun _ => Then (CVote t_id [x01; x02]) (fun v =>
  Then (CListVotes t_id) (fun l => Done (v, l)))).

Definition t_typed : TypedDB := {| td_map := ∅; td_faults := []; td_readable := true |}.
Definition t_bytes : ByteDB MemDB := MkByteDB mem_empty.

Lemma t_rep : @Rep _ _ bit_codec t_bytes t_typed.
Proof. apply (@RepS_empty _ _ bit_codec mem_empty [] true minute); by try intros. Qed.

Lemma byte_store_refines_witness :
  (@run_program _ (@ByteADB _ _ bit_codec) _ t_program (@New _ (@ByteADB _ _ bit_codec) t_bytes)).1
  = (run_program t_program (New t_typed)).1.
Proof.
  apply (@byte_store_refines _ _ _ bit_codec bit_codec_laws t_bytes t_typed _ t_program t_rep).
  done.
Defined.

Definition t_batch (seq : N) : BatchInput :=
  {| bi_ElectionID := t_id; bi_Seq := seq; bi_ProveRequest := [x01]; bi_NewStateRoot := "07";
     bi_VoteIDs := [[x01; x02]]; bi_Worker := ""; bi_JobID := ""; bi_ImportedID := "";
     bi_FoldWorker := ""; bi_SealedAt := second |}.

Lemma votes_kept_statuses_forward_witness :
  let p := Then (CSealBatch 100 (t_batch 0) [x07]) (fun r => Then CListElections (fun _ => Done r)) in
  let m := tmap (run_program p t_store1).2 in
  is_Some (vote_at m t_id [x01; x02]) /\
  exists st, status_at m t_id [x01; x02] = Some st /\ vs_le VoteStatusPending st.
Proof.
  intros p m.
  destruct (votes_kept_statuses_forward p t_store1 t_id [x01; x02]
    (kept_Vote (v_set_log 1 100 t_vote)) VoteStatusPending) as (Hv & st & Hs & Hle & _);
    [split; [by intros []|intros r; split; [by intros []|done]]|by vm_compute|by vm_compute|].
  split; [by eexists|]. exists st. split; [exact Hs|exact Hle].
Defined.

Lemma vote_log_preserved_witness :
  log_ok t_id (tmap (run_call (CAddVote 200 t_id (t_vote)) t_store1).2).
Proof.
  apply (vote_log_preserved t_id (CAddVote 200 t_id t_vote) t_store1).
  - intros n. change (counter_at (tmap t_store1) t_id) with (Some 1%N). by intros [= <-].
  - apply t_inv1.
Defined.

(** A store with two batches, and reservations on both. *)
Definition t_sealed : TStorage :=
  MkStorage {| td_map := <[KBatch t_id 1 := ABatch (t_batch 1)]> (<[KBatch t_id 0 := ABatch (t_batch 0)]>
      (<[KReservation t_id 0 := AReservation 0]> ∅));
    td_faults := []; td_readable := true |} minute ∅ ∅ 0%N.

Lemma t_sealed_kinded : well_kinded (tmap t_sealed).
Proof. do 3 (apply map_Forall_insert_2; [by split|]). apply map_Forall_empty. Qed.

Lemma t_sealed_keyed : batches_keyed (tmap t_sealed).
Proof.
  split; [apply t_sealed_kinded|]. intros id seq b. unfold batch_at, tmap. cbn.
  destruct (decide (KBatch t_id 1 = KBatch id seq)) as [[= <- <-]|H1];
    [rewrite lookup_insert_eq; by intros [= <-]|rewrite lookup_insert_ne by done].
  destruct (decide (KBatch t_id 0 = KBatch id seq)) as [[= <- <-]|H0];
    [rewrite lookup_insert_eq; by intros [= <-]|rewrite lookup_insert_ne by done].
  by rewrite lookup_insert_ne.
Qed.

Lemma ListBatchInputs_ordered_witness :
  exists l, (ListBatchInputs t_id t_sealed).1 = Ok l /\ StronglySorted N.lt (bi_Seq <$> l) /\
    t_batch 0 ∈ l /\ t_batch 1 ∈ l.
Proof.
  destruct (ListBatchInputs_ordered t_id t_sealed t_sealed_keyed eq_refl) as (l & E & Hs & Hl).
  exists l. rewrite E. split; [done|]. split; [exact Hs|]. split; apply Hl; by vm_compute.
Defined.

Lemma batches_keyed_preserved_witness :
  batches_keyed (tmap (run_call (CSealBatch 100 (t_batch 2) [x07]) t_sealed).2).
Proof. apply (batches_keyed_preserved (CSealBatch 100 (t_batch 2) [x07])); [done|apply t_sealed_keyed]. Defined.

Lemma ReserveBatch_exclusive_witness :
  let s1 := (ReserveBatch 100 t_id 1 t_sealed).2 in
  let s2 := (run_program (Then (CReleaseBatch t_id 0) (fun _ => Done tt)) s1).2 in
  ReserveBatch 200 t_id 1 s2 = (Err [ErrKeyAlreadyExists], s2).
Proof.
  assert ((ReserveBatch 100 t_id 1 t_sealed).1 = Ok tt) as E by by vm_compute.
  intros s1 s2. apply (ReserveBatch_exclusive 100 200 t_id 1 t_sealed s1
    (Then (CReleaseBatch t_id 0) (fun _ => Done tt))).
  - rewrite <- E. apply surjective_pairing.
  - split; [by intros [_ [=]]|done].
Defined.

Lemma monitor_frees_stale_witness :
  let s := (monitorStaleReservations t_now t_sealed).2 in
  tmap s !! KReservation t_id 0 = None /\ tmap s !! KBatch t_id 0 = tmap t_sealed !! KBatch t_id 0.
Proof.
  destruct (monitor_frees_stale t_now t_sealed t_sealed_kinded eq_refl eq_refl) as [H1 H2].
  split; [|apply H2; by intros ?]. rewrite (H1 t_id 0%N 0); by vm_compute.
Defined.

Lemma New_clears_reservations_witness :
  tmap (New (s_db t_sealed)) !! KReservation t_id 0 = None /\
  tmap (New (s_db t_sealed)) !! KBatch t_id 1 = Some (ABatch (t_batch 1)).
Proof.
  pose proof (New_clears_reservations (s_db t_sealed) t_sealed_kinded eq_refl eq_refl) as H.
  split; rewrite H; by vm_compute.
Defined.

(** ** Sealing *)

Lemma nextBatch_spec_witness :
  let '(batch, rest) := nextBatch [t_vote; t_vote; v_set_log 2 9 t_vote] 2 in
  batch ++ rest ≡ₚ [t_vote; t_vote; v_set_log 2 9 t_vote] /\ NoDup (v_Slot <$> batch).
Proof.
  pose proof (nextBatch_spec [t_vote; t_vote; v_set_log 2 9 t_vote] 2 ltac:(lia)) as H.
  destruct (nextBatch _ 2) as [batch rest]. destruct H as (H1 & _ & _ & H2 & _). by split.
Defined.

Lemma sealLocked_invariant_witness : rt_inv (sealLocked 200 t_sw1).2.
Proof. apply sealLocked_invariant; [apply t_inv1|done]. Defined.

Lemma sealLocked_seals_witness :
  let m := tmap (env_store (sw_env (sealLocked 200 t_sw1).2)) in
  exists b, batch_at m t_id 0 = Some b /\ status_at m t_id [x01; x02] = Some VoteStatusBatched.
Proof.
  assert ((sealLocked 200 t_sw1).1 = Ok tt) as Er by by vm_compute.
  pose proof (sealLocked_seals 200 [] t_sw1 (proj1 t_inv1) ltac:(done) t_sound1) as H. cbv zeta in H.
  destruct (nextBatch _ _) as [batch rest] eqn:En.
  assert (batch = (nextBatch (rt_pending (sw_rt t_sw1)) (rt_batchSize (sw_rt t_sw1))).1) as ->
    by by rewrite En.
  set (sealed := sealed_of _ _ _) in H.
  assert ((fun d : Decoded => v_ID d.1.1) <$> sealed = [[x01; x02]]) as Es by by vm_compute.
  clearbody sealed. destruct (sealLocked 200 t_sw1) as [r s']. cbn [fst] in Er. subst r.
  destruct H as [_ H]. destruct (decide (sealed = [])) as [->|_]; [done|].
  destruct H as (_ & b & data & stx & st & n & Hb & Hids & _ & _ & _ & _ & Hs).
  exists b. split; [exact Hb|]. apply Hs. rewrite Hids, Es. by left.
Defined.

Lemma sealing_loops_end_witness :
  (sealAllLocked 200 t_sw1).1 = Ok tt /\ rt_pending (sw_rt (sealAllLocked 200 t_sw1).2) = [].
Proof.
  assert ((sealAllLocked 200 t_sw1).1 = Ok tt) as Er by by vm_compute.
  pose proof (sealing_loops_end 200 t_sw1 (proj1 t_inv1) ltac:(done)) as H.
  destruct (sealAllLocked 200 t_sw1) as [r s1], (sealFullLocked 200 t_sw1) as [r' s2].
  split; [exact Er|]. destruct H as (_ & H & _). by apply H.
Defined.

Lemma sealing_accounts_for_votes_witness : accounted (sealAllLocked 200 t_sw1).2 [x01; x02].
Proof.
  apply (accounted_faultless t_sw1); [done|].
  apply (sealing_accounts_for_votes 200 minute t_sw1 [x01; x02] (proj1 t_inv1)); [done|by left; left].
Defined.

(** ** The engine *)

Definition t_world (faults : list bool) : World TypedDB :=
  {| w_env := MkEnv (MkStorage {| td_map := td_map (s_db t_store1); td_faults := faults;
       td_readable := true |} minute ∅ ∅ 0%N) 0 (Some ∅) false;
     w_heap := {[0%nat := sw_rt t_sw1]}; w_runtimes := {[t_id := 0%nat]}; w_retries := ∅;
     w_draining := ∅; w_finalizing := ∅; w_pool := Some t_pool;
     w_sched := newScheduler 1 0 0 0;
     w_opts := MkOptions 2 1 minute 0 0; w_background := []; w_bgStopped := false |}.

Lemma t_loaded faults : loaded (t_world faults) t_id 0 (sw_rt t_sw1).
Proof. by split_and!. Qed.

Lemma t_election_at faults :
  election_at (wmap (t_world faults)) t_id = Some (t_election StatusActive).
Proof. by vm_compute. Qed.

Lemma SetStatus_changes_witness :
  status (wmap (SetStatus 200 "admin" t_id StatusEnded (t_world [])).2) t_id = Some StatusEnded /\
  (SetStatus 200 "admin" t_id StatusResults (t_world [])).1 = Err [ErrInvalidTransition].
Proof.
  assert (forall l, w_runtimes (t_world []) !! t_id = Some l -> exists rt, loaded (t_world []) t_id l rt) as Hld.
  { intros l Hl. destruct (t_loaded []) as (Hl' & Hh). rewrite Hl in Hl'. injection Hl' as ->. by eexists. }
  pose proof (SetStatus_changes 200 "admin" t_id StatusEnded (t_world []) Hld) as H1.
  pose proof (SetStatus_changes 200 "admin" t_id StatusResults (t_world []) Hld) as H2.
  rewrite (t_election_at []), (proj1 (t_loaded [])) in H1, H2.
  destruct (SetStatus 200 "admin" t_id StatusEnded (t_world [])) as [r1 w1].
  destruct (SetStatus 200 "admin" t_id StatusResults (t_world [])) as [r2 w2].
  split; [|by apply H2]. destruct H1 as (_ & Hok & Hs). by rewrite (Hok eq_refl) in Hs.
Defined.

Lemma SetStatus_cancels_witness :
  exists w', SetStatus 200 "admin" t_id StatusCanceled (t_world []) = (Ok tt, w') /\
    exists st, status_at (wmap w') t_id [x01; x02] = Some st /\ Final st = true.
Proof.
  pose proof (SetStatus_cancels 200 "admin" t_id (t_world []) _ _ _ (t_election_at []) (t_loaded [])
    eq_refl (proj1 t_keyed1)) as Hc.
  destruct (SetStatus 200 "admin" t_id StatusCanceled (t_world [])) as [r w'].
  destruct Hc as (_ & _ & Hok); [intros u x; apply (log_ids _ _ (proj2 t_inv1))|].
  destruct (Hok eq_refl eq_refl) as (-> & Hs & _). exists w'. split; [done|]. apply Hs. by eexists.
Defined.

Lemma cancel_failure_drops_the_buffer_witness :
  exists e w', SetStatus 200 "admin" t_id StatusCanceled (t_world [true]) = (Err e, w') /\
    wmap w' = wmap (t_world [true]) /\ exists rt, loaded w' t_id 0 rt /\ rt_pending rt = [].
Proof.
  destruct (cancel_failure_drops_the_buffer 200 "admin" t_id (t_world [true]) _ _ _
    (t_election_at [true]) (t_loaded [true]) eq_refl eq_refl) as (e & w' & E & Hm & Hl).
  exists e, w'. split; [exact E|]. split; [exact Hm|]. by eexists.
Defined.

Lemma t_pending_stored : pending_stored t_id (tmap t_store1).
Proof.
  intros u. change (tmap t_store1) with (td_writes (add_writes 100 t_id 0 t_vote) (tmap (t_store StatusActive))).
  destruct (add_writes_lookup 100 t_id 1 t_vote (tmap (t_store StatusActive))) as (_ & Hv & Hs).
  unfold add_writes. rewrite Hs, Hv. case_decide as E; [|by rewrite t_no_status].
  intros _. eexists. split; [done|]. by rewrite E.
Qed.

Lemma runtimeFromStorage_restores_witness :
  exists rt, runtimeFromStorage 64 (t_election StatusActive) t_store1 = (Ok rt, t_store1) /\
    [x01; x02] ∈ v_ID <$> rt_pending rt /\ rt_batchSeq rt = 0%N.
Proof.
  destruct (runtimeFromStorage_restores 64 (t_election StatusActive) t_st0 t_sw1 (proj1 t_inv1)
    t_sound1 t_pending_stored t_keyed1 eq_refl eq_refl eq_refl eq_refl) as (rt & E & Hr).
  exists rt. split; [exact E|]. split; [|apply (rb_batchSeq _ _ _ _ Hr)].
  pose proof (rs_buffered _ _ _ _ (rb_pending _ _ _ _ Hr)) as Hb.
  assert ([x01; x02] ∈ v_ID <$> filter (fun v => v_ID v ∈ v_ID <$> rt_pending (sw_rt t_sw1)) (rt_pending rt)) as Hin
    by (rewrite Hb; by left).
  apply list_elem_of_fmap in Hin as (v & -> & [_ Hv]%list_elem_of_filter). by apply list_elem_of_fmap_2.
Defined.

Lemma accept_vote_appends_witness :
  let s' := (accept_vote 100 t_id t_vote (t_sw StatusActive)).2 in
  rt_inv s' /\ accounted s' [x01; x02].
Proof.
  assert ((accept_vote 100 t_id t_vote (t_sw StatusActive)).1 = Ok (v_set_log 1 100 t_vote)) as Er
    by by vm_compute.
  pose proof (accept_vote_appends 100 t_vote (t_sw StatusActive) (t_inv _) (t_log _) ltac:(done)) as H.
  cbv zeta in H. change (rt_id (sw_rt (t_sw StatusActive))) with t_id in H.
  destruct (accept_vote 100 t_id t_vote (t_sw StatusActive)) as [r s']. cbn [fst] in Er. subst r.
  destruct H as (Hi & _ & _ & _ & _ & _ & Ha).
  - by intros n [= <-].
  - apply t_no_vote.
  - split; [exact Hi|]. by apply Ha.
Defined.

(** Two submissions of the same vote, one after the other. *)
Definition t_toy_validate (rules : voteRules) (sub : VoteSubmission) : result voteProofBundle :=
  Ok toy_bundle.

Lemma sys_run n now t id sub p p' (w w' : World TypedDB) subs :
  submit_steps t_toy_validate n now id sub p w = (p', w') ->
  rtc (sys_step t_toy_validate) (MkSystem w (<[t := MkSub id sub p]> subs))
    (MkSystem w' (<[t := MkSub id sub p']> subs)).
Proof.
  revert p w. induction n as [|n IH]; intros p w; cbn [submit_steps]; [by intros [= <- <-]|].
  destruct (submit_step t_toy_validate now id sub p w) as [p1 w1] eqn:E. intros Hs.
  eapply rtc_l; [eapply (SysSubmission _ _ _ t); [apply lookup_insert_eq|exact E]|].
  cbn [s_id s_sub]. rewrite insert_insert_eq. by apply IH.
Qed.

Definition t_twice : Phase * Phase :=
  let '(p1, w1) := submit_steps t_toy_validate 8 100 t_id t_submission PStart (t_world []) in
  let '(p2, _) := submit_steps t_toy_validate 8 200 t_id t_submission PStart w1 in (p1, p2).

Lemma votes_accepted_once_witness :
  is_accepted t_twice.1 = true /\ is_accepted t_twice.2 = false.
Proof.
  assert (is_accepted t_twice.1 = true) as H1 by by vm_compute.
  split; [exact H1|]. revert H1. unfold t_twice.
  destruct (submit_steps _ _ 100 _ _ _ _) as [p1 w1] eqn:E1.
  destruct (submit_steps _ _ 200 _ _ _ _) as [p2 w2] eqn:E2. cbn [fst snd]. intros H1.
  apply not_true_iff_false. intros H2.
  destruct (votes_accepted_once t_toy_validate (t_world []) (MkSystem w2
    (<[2%nat := MkSub t_id t_submission p2]> {[1%nat := MkSub t_id t_submission p1]}))) as (_ & Hone & _).
  - eapply rtc_l; [by apply (SysArrives _ _ _ 1 t_id t_submission)|].
    etrans; [by apply (sys_run _ _ _ _ _ _ _ _ _ ∅ E1)|].
    eapply rtc_l; [by apply (SysArrives _ _ _ 2 t_id t_submission)|].
    by apply (sys_run _ _ _ _ _ _ _ _ _ _ E2).
  - discriminate (Hone 1%nat 2%nat (MkSub t_id t_submission p1) (MkSub t_id t_submission p2) eq_refl
      eq_refl H1 H2 eq_refl eq_refl).
Defined.

Lemma statuses_follow_lifecycle_witness :
  let w := (SetStatus 200 "admin" t_id StatusEnded (t_world [])).2 in
  exists st, status (wmap w) t_id = Some st /\ rtc lifecycle_edge StatusActive st.
Proof.
  intros w.
  destruct (statuses_follow_lifecycle t_toy_validate (fun a => a) (t_world []) w) as [_ H].
  - split; [constructor|intros id Hid; by apply elem_of_nil in Hid].
  - apply rtc_once, EngSetStatus.
  - destruct (H t_id StatusActive) as (st & Hst & Hr & _); [by vm_compute|]. by exists st.
Defined.

(** ** The final digest *)

Definition t_digest : Digest := MkDigest 2 "0102" 3 1 0 [4%N; 5%N] (byte_of <$> [4; 4]%N).

(** Accepted for the results [4; 5], it is accepted for no other two. *)
Lemma verifyFinalDigest_pins_witness :
  digest_of t_digest [xab; xcd] [[x01; x02]] 3 "0x02" "0x01" [4%N; 5%N] /\
  verifyFinalDigest t_digest [xab; xcd] [[x01; x02]] 3 "0x02" "0x01" [4%N; 6%N] <> Ok tt.
Proof.
  assert (verifyFinalDigest t_digest [xab; xcd] [[x01; x02]] 3 "0x02" "0x01" [4%N; 5%N] = Ok tt) as E
    by by vm_compute.
  destruct (verifyFinalDigest_pins t_digest t_digest [xab; xcd] [xab; xcd] [[x01; x02]] [[x01; x02]] 3 3
    "0x02" "0x01" [4%N; 5%N] [4%N; 6%N]) as [H1 H2].
  split; [by apply H1|]. intros E'. destruct (proj1 (H2 E) E') as (_ & _ & _ & Hr). by specialize (Hr eq_refl).
Defined.

Lemma finalizeSummary_public_witness :
  finalizeSummary (wrap errFinalFoldFailed (wrap errNoWorker errorf)) = "prover unavailable"%string.
Proof.
  destruct (finalizeSummary_public (wrap errNoWorker errorf)) as (_ & _ & H & _).
  by apply H; [right; left|].
Defined.
