(* ===== verification/JobWitnesses.v ===== *)
(** * Witnesses of the scheduler's properties

    Runs of the scheduler over the small instance of Toy.v: a prover that
    answers at once and no other goroutine. *)

From S2P Require Import Prelude Errors Effects Bytes Types Records KV Keys Artifacts Storage.
From S2P Require Import StorageRefine StorageSpec Retries Workers Sdk Config Seal Chains Engine.
From S2P Require Import Finalize Lifecycle LifecycleProps Scheduler Fold Scatter JobSteps JobProps.
From S2P Require Import Waits ChainInv FoldSpec PassProps Toy Witnesses.
From Stdlib Require Import Strings.Byte.

Open Scope Z_scope.

(** ** A world with a chain at its third fold and a pending batch *)

Definition t_bi : BatchInput := bi_set_jobs "http://a" "p" "b" "http://a" (t_batch 4).

Definition t_chain : foldChain :=
  fc_set_pending [0%nat]
    (MkChain "http://a" true false "0xabcd" "0x02" "f" "http://a" 3 4 "07" [] 1 0 false false ∅).

Definition t_fc : chain_loc := (t_id, 7%nat).
Definition t_sched (c : foldChain) : Scheduler :=
  sc_set_fcs {[t_fc := c]} (sc_set_chains {[t_id := t_fc]}
    (sc_set_objects {[0%nat := t_bi]} (newScheduler 1 0 0 t_now))).

Definition t_job_world (c : foldChain) : World TypedDB :=
  {| w_env := MkEnv (t_store StatusActive) 0 (Some ∅) false;
     w_heap := {[0%nat := set_chain [[x01; x02]] false t_runtime]}; w_runtimes := {[t_id := 0%nat]};
     w_retries := ∅; w_draining := ∅; w_finalizing := ∅; w_pool := Some t_fresh;
     w_sched := t_sched c; w_opts := MkOptions 2 1 minute 0 0; w_background := []; w_bgStopped := false |}.

(** ** The other goroutines, which do nothing *)

#[export] Instance t_calm_others : CalmOthers TypedDB.
Proof. by split. Defined.
#[export] Instance t_lock fc : DriveLock fc.
Proof. by split. Defined.
#[export] Instance t_fold_lock id fc : FoldLock id fc.
Proof. split; [apply _|]. by intros n w. Defined.

(** The result of a run, with the rest of it. *)
Lemma run_to {A} (m : stE (World TypedDB) A) w r : (m w).1 = r -> m w = (r, (m w).2).
Proof. intros <-. by destruct (m w). Qed.

Lemma t_in_order : in_order t_fc (t_job_world t_chain).
Proof.
  intros c Hc. assert (c = t_chain) as -> by (by injection Hc). intros i b Hb.
  destruct i as [|i]; [|done]. injection Hb as <-. exists t_bi. by split.
Qed.

(** ** The witnesses *)

Lemma batchProof_checked_witness : exists a job, fetched a job "0x02" [x05].
Proof.
  assert ((batchProof t_id 0 None [] "0x02" (t_job_world t_chain)).1 = Ok [x05]) as E by by vm_compute.
  destruct (batchProof_checked t_id 0 None [] "0x02" (t_job_world t_chain) t_bi [x05] _
    eq_refl (run_to _ _ _ E)) as (a & job & Hf & _).
  by exists a, job.
Defined.

(** No worker has the number 3, so the wait fails. *)
Definition t_lost_wait : result unit * World TypedDB := waitJob 3 "p" (t_job_world t_chain).

Lemma jobs_end_witness :
  is_ok t_lost_wait.1 = false /\ uncut t_lost_wait.1 /\
  (sc_now (w_sched t_lost_wait.2) <= sc_now (w_sched (t_job_world t_chain))
     + sc_timeout (w_sched (t_job_world t_chain)) + sc_poll (w_sched (t_job_world t_chain)))%Z /\
  asks_at_most 3 (runJob (D := TypedDB) 3).
Proof.
  split; [by vm_compute|].
  destruct (jobs_end 3 (t_job_world t_chain) ltac:(done) ltac:(by vm_compute)) as (Hw & [Hr _] & _).
  destruct (Hw "p"%string t_lost_wait.1 t_lost_wait.2) as (Hu & _ & Hn); [apply surjective_pairing|].
  split; [exact Hu|]. split; [|exact Hr]. refine (Z.le_trans _ _ _ (Hn 0%Z _) _); [intros n; done|lia].
Defined.

Lemma chain_stays_in_order_witness : chain_inv t_fc (advance t_id t_fc true (t_job_world t_chain)).2.
Proof. apply (chain_stays_in_order t_fc t_id true (t_job_world t_chain)), order_inv, t_in_order. Defined.


Definition t_folded : foldChain := fc_set_pending [] t_chain.

Lemma Finalize_checked_witness : exists res w' state payload,
  Scheduler_Finalize t_id 9 (t_job_world t_folded) = (Ok res, w') /\ checked_results t_id state payload res.
Proof.
  destruct (Scheduler_Finalize t_id 9 (t_job_world t_folded)) as [r w'] eqn:E.
  assert (is_ok r = true) as Hr by (change r with (r, w').1; rewrite <- E; by vm_compute).
  destruct r as [res|e]; [|discriminate Hr].
  destruct (Finalize_checked t_id 9 _ _ _ E) as (state & payload & _ & Hchk & _).
  exists res, w', state, payload. by split.
Defined.

Lemma foldFailed_bounded_witness : exists c' w',
  foldFailed t_fc [errJobFailed] (t_job_world t_chain) = (Ok tt, w') /\
  chain_of t_fc w' = Some c' /\ (fc_foldFailures c' < maxFoldFailures)%nat.
Proof.
  assert ((foldFailed t_fc [errJobFailed] (t_job_world t_chain)).1 = Ok tt) as E by by vm_compute.
  destruct (foldFailed_bounded t_fc [errJobFailed] (t_job_world t_chain) _ t_chain eq_refl
    ltac:(cbn; unfold maxFoldFailures; lia) (run_to _ _ _ E)) as (c' & Hc & Hn & _).
  exists c'. eexists. split; [apply (run_to _ _ _ E)|]. by split.
Defined.
