(* ===== verification/ApiWitnesses.v ===== *)
(** * Witnesses of the API, the command and the client

    Requests served over the small instance of Toy.v, by an engine set up over
    an empty store; a token is its role. *)

From S2P Require Import Prelude Errors Effects Bytes Types Records KV Keys Artifacts Storage.
From S2P Require Import StorageRefine StorageSpec Workers Sdk Config Validate Seal Chains Engine.
From S2P Require Import Finalize Lifecycle LifecycleProps Ingest EngineSteps ApiErrors Api ApiProps.
From S2P Require Import Log Commands Keywarden KeywardenCmd Toy Witnesses.
From Stdlib Require Import Strings.Byte.

Open Scope Z_scope.

(** ** The libraries *)

(** The end time 9999-12-31T23:59:59-08:00. *)
Definition t_late : time := (3652059 * 86400 + 8 * 3600 - 1) * second.

Definition t_create : ElectionCreateRequest :=
  {| cr_ProcessID := "0x0a"; cr_BallotMode := BallotMode t_config; cr_EncX := EncX t_config;
     cr_EncY := EncY t_config; cr_CensusOrigin := CensusOrigin t_config;
     cr_CensusRoot := CensusRoot t_config; cr_VK := []; cr_BatchSize := 2; cr_FoldEvery := 1;
     cr_EndTime := t_late |}.

Definition t_find (rs : list (string * string)) (m p : string) : option (string * (string -> string)) :=
  if decide ((m, p) ∈ rs) then Some (p, fun _ => ""%string)
  else if decide (p = "/elections/0a/decryption-key"%string) then Some (DecryptionKeyEndpoint, fun _ => "0a"%string)
  else None.

#[export] Instance ToyHttp : Http := {|
  SigningMethod := bool;
  IsHMAC m := m;
  MapClaims := string;
  ParseWithClaims _ raw key := match key true with Some _ => Some (raw, true) | None => None end;
  VerifyExpiresAt _ _ _ := true;
  claim_string c name := if decide (name = "role"%string) then c else "ana"%string;
  Find := t_find;
  NoRoute _ _ := 404;
  decode_create _ := Ok t_create;
  decode_status b := Ok {| sr_Status := toy_text (st_bytes b) |};
  decode_vote _ := Ok t_submission;
  decode_key b := Ok {| kr_Key := toy_text (st_bytes b) |};
  decode_worker b := Ok {| wq_Address := toy_text (st_bytes b); wq_Name := "" |};
  url_Parse _ := Some ("http", "h")%string;
|}.

#[export] Instance ToyHttpLaws : HttpLaws.
Proof.
  refine {| Signed := fun (m : @SigningMethod ToyHttp) k raw (c : @MapClaims ToyHttp) => m = true /\ c = raw |}.
  cbn. intros now raw key c. destruct (key true) as [k|] eqn:E; [|done]. intros [= <-]. by exists true, k.
Defined.

(** ** The daemon over an empty store *)

(** A logger is its level, its writers and its hooks; a line is the message. *)
Record ToyLogger := MkToyLogger { tl_level : Z; tl_sinks : list Sink; tl_hooks : list Hook }.

#[export] Instance ToyZerolog : Zerolog := {|
  Logger := ToyLogger;
  New_ l := MkToyLogger (-1) l [];
  Level_ n l := MkToyLogger n (tl_sinks l) (tl_hooks l);
  GetLevel := tl_level;
  AddHook h l := MkToyLogger (tl_level l) (tl_sinks l) (tl_hooks l ++ [h]);
  Send l lv e := if lv <? tl_level l then [] else
    ((fun h => OnHook h lv (en_msg e)) <$> tl_hooks l)
    ++ ((fun s => OnWrite s lv (en_msg e)) <$> tl_sinks l)
    ++ (if decide (lv = FatalLevel) then [OnExit] else []);
  console _ b := b;
  can_open _ := true;
  panicOnInvalidChars := true;
|}.

#[export] Instance ToyZerologLaws : ZerologLaws.
Proof. by refine {| hooks_of := tl_hooks : @Logger ToyZerolog -> _; sinks_of := tl_sinks; line_of _ _ e := en_msg e |}. Defined.

Definition t_log : LogState := MkLogState _ (New_ []) 0 ∅ [] [] false.

(** The secret is a flag, the cadence a variable, the rest the defaults. *)
#[export] Instance ToySettings : Settings := {|
  flag_given name := if decide (name = "api.jwtSecret"%string) then Some "k"%string else None;
  Getenv name := if decide (name = "DAVINCIFOLD_FOLD_EVERY"%string) then Some "4"%string else None;
  UserHomeDir := None;
  filepath_Join a b := (a +:+ "/" +:+ b)%string;
  parse_int t := SetString 10 (lit t);
  parse_duration t := SetString 10 (lit t);
  parse_bool t := if decide (t = "true"%string) then Some true else if decide (t = "false"%string) then Some false else None;
|}.

Definition t_open (datadir : string) : option TypedDB := Some td_empty.
Definition t_start := main_start t_now t_open t_log.

Lemma t_start_ok : is_ok t_start.1 = true.
Proof. by vm_compute. Qed.

Lemma config_in_force_witness : exists cfg s w, t_start.1 = Ok (cfg, Some s) /\ sv_Orchestrator s = Some w /\
  fold_Every cfg = 4 /\ sc_foldEvery (w_sched w) = 4.
Proof.
  pose proof t_start_ok as Hok. assert (match t_start.1 with Ok (c, _) => fold_Every c | Err _ => 0 end = 4) as H4
    by by vm_compute.
  destruct t_start as [[[cfg sv]|e] ls] eqn:E; [|discriminate Hok]. cbn [fst] in H4. unfold t_start in E.
  destruct (config_in_force t_now t_open cfg sv t_log ls E) as (_ & _ & s & w & a & -> & Hw & _ & Hin).
  exists cfg, s, w. split_and!; [done|exact Hw|exact H4|]. destruct Hin as (_ & _ & _ & Hs & _). by rewrite Hs.
Defined.

Definition t_daemon : World TypedDB :=
  match t_start.1 with Ok (_, Some s) => default (t_world []) (sv_Orchestrator s) | _ => t_world [] end.

(** An error line goes to both outputs, an info line to the first. *)
Lemma log_lines_reach_outputs_witness :
  let '(r, s) := Init "info" "stdout" (Some (Given 1)) t_log in
  log_at ErrorLevel (text_event [x41]) s = (Ok tt, with_lines [(Stdout, [x41]); (Given 1, [x41])] s) /\
  log_at InfoLevel (text_event [x41]) s = (Ok tt, with_lines [(Stdout, [x41])] s).
Proof.
  pose proof (log_lines_reach_outputs "info" "stdout" (Some (Given 1)) t_log) as Hl.
  destruct (Init _ _ _ t_log) as [r s]. cbn [output_sinks] in Hl. destruct Hl as (_ & _ & Hl).
  split; (etransitivity; [apply (Hl _ (text_event [x41]) s eq_refl); by split|reflexivity]).
Defined.

Definition t_api : API := MkAPI [x01] 64 4.
Definition t_serve (rq : Request) (w : World TypedDB) : result Response * World TypedDB :=
  serve t_toy_validate (fun a => a) t_api t_now rq w.

(** ** Requests *)

Definition t_post : Request := MkRequest MethodPost "/elections" "bearer admin" 1 (whole [x7b]).
Definition t_list : Request := MkRequest MethodGet "/elections" "" 0 (whole []).

Definition t_created : World TypedDB := (t_serve t_post t_daemon).2.

Lemma serve_is_engine_steps_witness :
  rtc (eng_step t_toy_validate (fun a => a)) t_daemon t_created.
Proof. apply (serve_is_engine_steps t_toy_validate (fun a => a) t_api t_now t_post t_daemon). Defined.

Lemma unlistable_election_witness :
  exists resp, (t_serve t_list t_created).1 = Ok resp /\ rp_status resp = 500.
Proof.
  assert (match election_at (wmap t_created) [x0a] with
          | Some el => negb (year_ok (el_EndTime el)) | None => false end = true) as Hel by by vm_compute.
  destruct (election_at (wmap t_created) [x0a]) as [el|] eqn:E; [|discriminate Hel].
  apply negb_true_iff in Hel.
  apply (unlistable_election t_toy_validate (fun a => a) t_api t_now t_list
    (MkRoute MethodGet ElectionsEndpoint None listElections) (fun _ => ""%string) t_created [x0a] el E Hel).
  - reflexivity.
  - reflexivity.
Defined.

(** ** The client *)

(** The ciphertext and the key are taken; the election is finalizing at the
    first poll, the second fails, and the third shows the results. *)
Definition t_answer (sent : list Request) (rq : Request) : option HTTPResponse :=
  if decide (rq_Path rq = ciphertext_path "0a") then Some (MkHTTPResponse 200 [x01])
  else if decide (rq_Path rq = results_path "0a") then Some (MkHTTPResponse 200 [x02])
  else if decide (rq_Method rq = MethodPost) then Some (MkHTTPResponse 202 [])
  else match length (filter (fun r => rq_Path r = election_path "0a") sent) with
       | O => Some (MkHTTPResponse 200 [x03])
       | S O => Some (MkHTTPResponse 500 [])
       | _ => Some (MkHTTPResponse 200 [x04])
       end.

#[export] Instance ToyOrchestrator : Orchestrator := {|
  NewRequest_ok _ := true;
  Do sent _ rq := (t_answer sent rq, 1%N);
|}.

Definition t_encode (r : DecryptionKeyRequest) : bytes := lit (kr_Key r).
Definition t_results : ResultsResponse := {| rr_ElectionID := [x0a]; rr_Tally := [4; 5]%N; rr_ProgramVK := "";
  rr_RootCVadcopFinal := ""; rr_PublicValues := ""; rr_ProofBytes := "" |}%string.

#[export] Instance ToyJSON : ClientJSON := {|
  encode_key := t_encode;
  decode_election b :=
    if decide (b = [x03]) then Some {| ev_Status := "finalizing"; ev_FinalizeError := "" |}%string
    else if decide (b = [x04]) then Some {| ev_Status := "results"; ev_FinalizeError := "" |}%string
    else None;
  decode_results b := if decide (b = [x02]) then Some t_results else None;
  decode_ciphertext b :=
    if decide (b = [x01]) then Some {| er_ElectionID := "0a"; er_Ciphertext := [] |}%string else None;
|}.

Definition t_client : Client := NewClient "http://h" "keywarden".

Lemma WaitForResults_ends_witness :
  exists sent v, answered t_client decode_election sent (election_path "0a") v /\
    ev_Status v = client_StatusResults.
Proof.
  pose proof (WaitForResults_ends t_client "0a" second (10 * second) (MkWait [] 0) ltac:(by vm_compute)) as Hw.
  assert (is_ok (WaitForResults t_client "0a" second (10 * second) (MkWait [] 0)).1 = true) as Hok
    by by vm_compute.
  destruct (WaitForResults _ _ _ _ _) as [[res|e] s']; [|discriminate Hok].
  destruct Hw as (_ & sent & v & _ & Hv & Hs & _). by exists sent, v.
Defined.

Lemma client_key_reaches_engine_witness :
  let '(r, w1) := SubmitDecryptionKey t_now "ana" [x0a] (-5) t_created in
  (t_serve (submit_request t_encode t_client "0a" (-5)) t_created).2 = w1.
Proof.
  pose proof (client_key_reaches_engine t_toy_validate (fun a => a) t_encode t_api t_now t_client
    [x0a] (-5) "keywarden"%string (fun _ => "0a"%string) t_created) as Hk.
  cbv zeta in Hk.
  assert (decode_key (whole (t_encode (key_request (-5)))) = Ok (key_request (-5))) as H1 by reflexivity.
  assert (length (t_encode (key_request (-5))) <= maxRequestBody)%nat as H2
    by (apply Nat.leb_le; by vm_compute).
  specialize (Hk H1 H2 ltac:(discriminate) ltac:(by vm_compute) eq_refl eq_refl eq_refl eq_refl eq_refl).
  change (claim_string _ _) with "ana"%string in Hk.
  destruct (SubmitDecryptionKey _ _ _ _ _) as [r w1]. by destruct Hk.
Defined.

(** ** The command *)

(** A string before others: its bytes marked, and a mark for its end. *)
Definition t_packed (s : string) (r : bytes) : bytes := foldr (fun c r => x01 :: c :: r) (x00 :: r) (lit s).

Fixpoint t_unpack (b : bytes) : option (bytes * bytes) :=
  match b with
  | x01 :: c :: r => '(l, r) ← t_unpack r; Some (c :: l, r)
  | x00 :: r => Some ([], r)
  | _ => None
  end.

Lemma t_unpack_packed s r : t_unpack (t_packed s r) = Some (lit s, r).
Proof. unfold t_packed. induction (lit s) as [|c l IH]; [done|]. cbn [foldr t_unpack]. by rewrite IH. Qed.

Definition t_marshal_keyfile (kf : keyFile) : bytes :=
  t_packed (kf_EncX kf) (t_packed (kf_EncY kf) (t_packed (kf_Priv kf) [])).
Definition t_unmarshal_keyfile (b : bytes) : option keyFile :=
  '(x, b) ← t_unpack b; '(y, b) ← t_unpack b; '(z, _) ← t_unpack b;
  Some (MkKeyFile (toy_text x) (toy_text y) (toy_text z)).

#[export] Instance ToyKeys : KeyTools := {|
  GenerateKey := Some (ScalarBaseMult 5, 5%Z);
  BJJ_Point p := p;
  readable _ := true;
  write_outcome _ _ := Written;
  marshal_keyfile := t_marshal_keyfile;
  unmarshal_keyfile := t_unmarshal_keyfile;
  marshal_results _ := [x05];
|}.

#[export] Instance ToyKeyLaws : KeyLaws.
Proof.
  split.
  - intros pub priv [= <- <-]. by vm_compute.
  - by intros pub priv [= <- <-].
  - intros x y z. cbn [marshal_keyfile unmarshal_keyfile ToyKeys].
    unfold t_marshal_keyfile, t_unmarshal_keyfile. rewrite t_unpack_packed. cbn [mbind option_bind].
    rewrite t_unpack_packed. cbn [mbind option_bind]. rewrite t_unpack_packed. cbn [mbind option_bind].
    unfold toy_text, lit. by rewrite !String.string_of_list_byte_of_string.
Defined.

Definition t_cmd : Cmd := MkCmd (MkWait [] 0) ∅ [].

(** The key pair of keygen, released by a finalize that prints the results. *)
Lemma generated_key_is_accepted_witness :
  exists encX encY pub key, encKeyFromRTE encX encY = Ok pub /\ checkDecryptionKey pub key = Ok tt /\
    exists new, wt_sent (cm_wait (finalize "k" "http://h" "keywarden" "0a" minute (keygen "k" t_cmd).2).2) = new /\
      forall rq, rq ∈ new -> rq_Method rq = MethodPost -> rq = submit_request encode_key t_client "0a" key.
Proof.
  assert ((keygen "k" t_cmd).1 = Ok tt) as Hok by by vm_compute.
  destruct (keygen "k" t_cmd) as [r s1] eqn:E. cbn [fst] in Hok. subst r.
  destruct (generated_key_is_accepted "k" t_cmd s1 E) as (encX & encY & pub & key & _ & Hp & Hc & Hf).
  exists encX, encY, pub, key. split_and!; [exact Hp|exact Hc|].
  specialize (Hf "http://h" "keywarden" "0a" minute s1 eq_refl)%string. cbn [snd].
  assert (wt_sent (cm_wait s1) = []) as Hs by (apply (f_equal (fun q => wt_sent (cm_wait q.2))) in E; exact (eq_sym E)).
  destruct (finalize _ _ _ _ _ _) as [r s3]. destruct Hf as (new & Hn & Hf). exists new.
  rewrite Hs in Hn. by split.
Defined.

Example toy_finalize_prints :
  let q := finalize "k" "http://h" "keywarden" "0a" minute (keygen "k" t_cmd).2 in
  q.1 = Ok tt /\ last (cm_out q.2) = Some [x05].
Proof. by vm_compute. Qed.
