(* ===== verification/SystemWitnesses.v ===== *)
(** * A run of the whole system

    The engine is started over an empty store and an election goes from its
    creation to its results, over the small instance of Toy.v but for a prover
    whose digest fits the run; meanwhile another goroutine registers a worker
    at every moment it gets. *)

From S2P Require Import Prelude Errors Effects Bytes Types Records KV Keys Artifacts Storage.
From S2P Require Import StorageRefine StorageSpec StorageProps Retries Workers Sdk Config.
From S2P Require Import Validate Seal SealProps SealInv Frame Chains Engine Finalize.
From S2P Require Import Lifecycle LifecycleProps Ingest Submissions EngineSteps Scheduler.
From S2P Require Import Fold Scatter JobSteps JobProps ChainInv FoldSpec Work Apart ApiErrors.
From S2P Require Import Api ApiProps Served Runtimes RuntimeSteps RuntimeSeals RuntimeEngine.
From S2P Require Import RuntimePasses Reachable Triggers Toy Witnesses JobWitnesses ApiWitnesses.
From Stdlib Require Import Strings.Byte.

Open Scope Z_scope.

(** ** The libraries and the other goroutine *)

#[local] Instance RunProvers : Provers := {|
  JobConfig := nat;
  ResultsPayload := Z;
  SubmitProve := SubmitProve (Provers := ToyProvers);
  GetJob := GetJob (Provers := ToyProvers);
  FetchStarkInfo := FetchStarkInfo (Provers := ToyProvers);
  FetchStarkRaw := FetchStarkRaw (Provers := ToyProvers);
  ImportStarkAs := ImportStarkAs (Provers := ToyProvers);
  SubmitFold _ _ _ := Some "g"%string;
  SubmitFinalize _ _ _ := Some "z"%string;
  FetchPublics := FetchPublics (Provers := ToyProvers);
  FetchSnark := FetchSnark (Provers := ToyProvers);
  unmarshal_request := unmarshal_request (Provers := ToyProvers);
  State_ChainConfig := State_ChainConfig (Provers := ToyProvers);
  State_ResultsPayload := State_ResultsPayload (Provers := ToyProvers);
  ParseDigest _ := Some (MkDigest 2 "0102" 1 1 0 [4; 5]%N (byte_of <$> [4; 6]%N));
|}.

#[local] Instance RunOthers : Others TypedDB := {|
  others _ w := (RegisterWorker t_now "ops" "http://b" "b" w).2;
  elapsed _ := 0%N; turns _ := [0; 1; 2]%N; rounds := 8;
|}.
#[local] Existing Instance EngineScheduler | 0.

(** ** The run *)

Definition run_validate : voteRules -> VoteSubmission -> result voteProofBundle := fun _ _ => Ok toy_bundle.
Definition run_vote : VoteSubmission :=
  {| sub_VoteID := [x01]; sub_Address := [x05]; sub_VoteIDKey := 1; sub_Ballot := [x01; x02]; sub_Proof := [x01];
     sub_PublicInputs := []; sub_Sig := []; sub_Census := sub_Census t_submission |}.

Definition run_start : result (World TypedDB) :=
  NewEngine t_now (New td_empty) (MkOptions 2 1 minute 0 0) (Some t_fresh).
Definition run_w0 : World TypedDB := match run_start with Ok w => w | Err _ => t_world [] end.
Definition run_w1 := (Engine.CreateElection t_now "ana" (t_election StatusActive) run_w0).2.
Definition run_w2 := (SubmitVote run_validate t_now t_id run_vote run_w1).2.
Definition run_w3 := (SetStatus t_now "ana" t_id StatusEnded run_w2).2.
Definition run_w4 := (tick t_now [(t_id, 0%nat)] run_w3).2.
Definition run_w5 := (run_background t_now 0 run_w4).2.
Definition run_w6 := (SubmitDecryptionKey t_now "kw" t_id 1 run_w5).2.
Definition run_w7 := (run_background t_now 0 run_w6).2.

Abbreviation run_step := (sys_step run_validate (fun a => a)).

Lemma run_engine w w' : eng_step run_validate (fun a => a) w w' -> rtc run_step w w'.
Proof. intros Hs. by apply rtc_once, SysEngine. Qed.

Lemma run_engine_steps w w' : rtc (eng_step run_validate (fun a => a)) w w' -> rtc run_step w w'.
Proof.
  induction 1 as [w|w1 w2 w3 Hs _ IH]; [done|]. etrans; [by apply run_engine|exact IH].
Qed.

Lemma run_to_drain : rtc (eng_step run_validate (fun a => a)) run_w0 run_w4.
Proof.
  trans run_w1; [apply rtc_once, EngCreate|]. trans run_w2; [apply steps_SubmitVote|].
  trans run_w3; [apply rtc_once, EngSetStatus|]. apply rtc_once, EngTick.
Qed.

Lemma run_steps : rtc run_step run_w0 run_w7.
Proof.
  trans run_w4; [apply run_engine_steps, run_to_drain|]. trans run_w5; [apply run_engine, EngBackground|].
  trans run_w6; [apply run_engine, EngKey|]. apply run_engine, EngBackground.
Qed.

Lemma run_started : NewEngine t_now (New td_empty) (MkOptions 2 1 minute 0 0) (Some t_fresh) = Ok run_w0.
Proof.
  change (run_start = Ok run_w0). unfold run_w0. destruct run_start eqn:E; [done|].
  assert (is_ok run_start = true) as Hok by by vm_compute. by rewrite E in Hok.
Qed.

(** ** The other goroutine *)

Lemma run_others_own n (w : World TypedDB) : eng_own w (others n w).
Proof. apply via_RegisterWorker. Qed.

#[local] Instance run_checked : CheckedOthers.
Proof. split. intros n w. apply results_ok_keep, (eo_results _ _ (run_others_own n w)). Qed.
#[local] Instance run_calm : CalmOthers TypedDB.
Proof. split. intros n w. apply own_calm, run_others_own. Qed.
#[local] Instance run_distinct : DistinctOthers.
Proof. split. intros n w. apply own_distinct, run_others_own. Qed.
#[local] Instance run_sparing id fc : SparingOthers id fc.
Proof. split. intros n w. apply own_spares, run_others_own. Qed.

Lemma run_empty : results_ok (tmap (New td_empty)).
Proof. intros id a Ha. change (tmap (New td_empty)) with (∅ : store) in Ha. by rewrite lookup_empty in Ha. Qed.

(** ** The witnesses *)

Lemma served_results_checked_witness : exists res,
  (Engine_Results t_id run_w7).1 = Ok res /\ rs_Tally res = [4; 5]%N /\ finalized_by t_id res.
Proof.
  destruct (Engine_Results t_id run_w7).1 as [res|e] eqn:E.
  2:{ assert (is_ok (Engine_Results t_id run_w7).1 = true) as Hok by by vm_compute. by rewrite E in Hok. }
  exists res. split; [reflexivity|]. split.
  - assert (rs_Tally <$> (Engine_Results t_id run_w7).1 = Ok [4; 5]%N) as Ht by by vm_compute.
    rewrite E in Ht. by injection Ht.
  - refine (served_results_checked run_validate (fun a => a) t_now (New td_empty) _ (Some t_fresh) run_w0 run_w7
      _ run_started run_steps t_id res E).
    apply run_empty.
Defined.

(** The drain of the election at the moment it ended, and another election's pass meanwhile. *)
Lemma drive_lock_suffices_witness : exists fc w1,
  chain t_id run_w4 = (Ok fc, w1) /\ quiet fc w1 (drive [x0b] true w1).2.
Proof.
  destruct (chain t_id run_w4) as [[fc|e] w1] eqn:E.
  2:{ assert (is_ok (chain t_id run_w4).1 = true) as Hok by by vm_compute. by rewrite E in Hok. }
  exists fc, w1. split; [reflexivity|].
  apply (drive_lock_suffices t_now (New td_empty) (MkOptions 2 1 minute 0 0) (Some t_fresh) t_id fc
    run_w0 run_w4 w1 _ run_started); [|exact E|by apply rtc_once, OwPass].
  eapply eng_steps_works, run_to_drain.
Defined.

(** *** The invariant of the daemon along the run *)

#[local] Instance run_sound : SoundOthers.
Proof.
  apply (requests_sound run_validate (fun a => a)). intros n w. apply rtc_once, ReqRegisterWorker.
Qed.

Abbreviation run_daemon := (daemon_step run_validate (fun a => a)).

Lemma run_requests w w' subs : request run_validate (fun a => a) w w' ->
  rtc run_daemon (MkSystem w subs) (MkSystem w' subs).
Proof. intros Hr. by apply rtc_once, DaemonRequest. Qed.

(** The submission as it arrives and takes its steps, after the creation. *)
Definition run_sub (p : Phase) : Sub := MkSub t_id run_vote p.
Definition run_turn (q : Phase * World TypedDB) : Phase * World TypedDB :=
  submit_step run_validate t_now t_id run_vote q.1 q.2.
Fixpoint run_turns_of (n : nat) (q : Phase * World TypedDB) : Phase * World TypedDB :=
  match n with O => q | S n => run_turns_of n (run_turn q) end.

Lemma run_submission n q : (forall m, m < n -> checked (run_turns_of m q).1 = true -> has_number t_id (run_turns_of m q).2)%nat ->
  rtc run_daemon (MkSystem q.2 {[0%nat := run_sub q.1]})
    (MkSystem (run_turns_of n q).2 {[0%nat := run_sub (run_turns_of n q).1]}).
Proof.
  revert q. induction n as [|n IH]; intros q Hn; [done|]. cbn [run_turns_of]. eapply rtc_l.
  - eapply (DaemonSubmission _ _ _ _ 0 (run_sub q.1) t_now (run_turn q).1 (run_turn q).2).
    + apply lookup_singleton_eq.
    + apply (Hn 0%nat). lia.
    + apply surjective_pairing.
  - rewrite insert_singleton_eq. apply IH. intros m Hm. apply (Hn (S m)). lia.
Qed.

Lemma run_turns_steps n p w : run_turns_of n (p, w) = submit_steps run_validate n t_now t_id run_vote p w.
Proof.
  revert p w. induction n as [|n IH]; intros p w; [done|]. cbn [run_turns_of submit_steps]. unfold run_turn at 1.
  cbn [fst snd]. destruct (submit_step _ _ _ _ _ _) as [p' w']. apply IH.
Qed.

Lemma run_numbered m : (m < 8)%nat -> has_number t_id (run_turns_of m (PStart, run_w1)).2.
Proof.
  intros Hm n Hn.
  assert (forallb (fun m => match counter_at (wmap (run_turns_of m (PStart, run_w1)).2) t_id with
    | Some n => (n + 1 <? two64)%N | None => true end) (seq 0 8) = true) as Hall by by vm_compute.
  rewrite forallb_forall in Hall. specialize (Hall m). rewrite Hn in Hall. apply N.ltb_lt, Hall, in_seq. lia.
Qed.

Lemma run_to_results : exists subs, rtc run_daemon (MkSystem run_w0 ∅) (MkSystem run_w7 subs).
Proof.
  exists {[0%nat := run_sub (run_turns_of 8 (PStart, run_w1)).1]}.
  trans (MkSystem run_w1 ∅); [apply run_requests, ReqCreate|].
  trans (MkSystem run_w1 {[0%nat := run_sub PStart]}); [by apply rtc_once, DaemonArrives|].
  trans (MkSystem run_w2 {[0%nat := run_sub (run_turns_of 8 (PStart, run_w1)).1]}).
  { assert (run_w2 = (run_turns_of 8 (PStart, run_w1)).2) as ->.
    { rewrite run_turns_steps. unfold run_w2. pose proof (SubmitVote_steps run_validate t_now t_id run_vote run_w1) as E.
      destruct (SubmitVote _ _ _ _ _) as [r w']. by rewrite E. }
    apply (run_submission 8 (PStart, run_w1)). intros m Hm _. by apply run_numbered. }
  etrans; [apply run_requests, (ReqSetStatus _ _ t_now "ana" t_id StatusEnded)|].
  etrans; [apply run_requests, (ReqTick _ _ t_now [(t_id, 0%nat)])|].
  { intros p ->%list_elem_of_singleton. by vm_compute. }
  etrans; [apply rtc_once, (DaemonBackground _ _ t_now 0)|].
  etrans; [apply run_requests, (ReqKey _ _ t_now "kw" t_id 1)|].
  apply rtc_once, (DaemonBackground _ _ t_now 0).
Qed.

Lemma run_no_store : tmap (New td_empty) = ∅.
Proof. by change (tmap (New td_empty)) with (∅ : store). Qed.

(** At the end the election has its results, its vote is in a batch, and the
    buffer of its runtime is empty. *)
Lemma daemon_keeps_its_books_witness : exists rt,
  w_heap run_w7 !! 0%nat = Some rt /\ rt_id rt = t_id /\ status (wmap run_w7) t_id = Some StatusResults /\
  rt_inv (sw_of run_w7 rt) /\ log_ok t_id (wmap run_w7) /\ rt_pending rt = [].
Proof.
  destruct run_to_results as [subs Hr].
  destruct (daemon_keeps_its_books run_validate (fun a => a) t_now (New td_empty) (MkOptions 2 1 minute 0 0)
    (Some t_fresh) run_w0 (MkSystem run_w7 subs) run_no_store run_started Hr) as [Hw _].
  assert (w_runtimes run_w7 !! t_id = Some 0%nat) as Hl by by vm_compute.
  destruct (Hw t_id 0%nat Hl) as (rt & st & Hrt & Eid & Hst & Hi & Hlog & _ & Hp).
  assert (status (wmap run_w7) t_id = Some StatusResults) as Hst' by by vm_compute.
  exists rt. split; [exact Hrt|]. split; [exact Eid|]. split; [exact Hst'|]. split; [exact Hi|].
  split; [exact Hlog|]. apply Hp. cbn [sys_world] in Hst. rewrite Hst' in Hst. by injection Hst as <-.
Defined.

(** ** A notification during a pass *)

Section noisy.
(** The other goroutine notifies the election at the second moment. *)
#[local] Instance NoisyOthers : Others TypedDB := {|
  others n w := if (n =? 1)%nat then (w_Notify t_id w).2 else w;
  elapsed _ := 0%N; turns _ := [0; 1; 2]%N; rounds := 8;
|}.

#[local] Instance noisy_loop : OneLoop t_id.
Proof. intros n w. cbn. destruct (n =? 1)%nat; [apply Notify_env_forward|done]. Defined.

Lemma noisy_notifies : notified_at t_id 1.
Proof. intros v [d Hd] Hs. by eapply Notify_triggers. Qed.

Definition noisy_w0 : World TypedDB := (w_Notify t_id (t_job_world t_chain)).2.
Definition noisy_pass : result bool * World TypedDB := dispatch_pass t_id noisy_w0.

End noisy.
