(* ===== verification/FakeWitnesses.v ===== *)
(** * The fake provers at work

    A toy codec and a toy sum for which the laws hold, and two provers that make
    a chain of two folds and finalize it. *)

From S2P Require Import Prelude Errors Bytes Types Records Config Sdk Finalize Scheduler FakeProver FakeProps Toy.
From Stdlib Require Import Strings.Byte.

(** ** A codec *)

(** A field is its bytes, each after a mark, up to an end. *)
Definition toy_field (s : bytes) : bytes := (s ≫= fun c => [x01; c]) ++ [x00].
Fixpoint toy_fields (b acc : bytes) : list bytes :=
  match b with
  | x01 :: c :: b => toy_fields b (acc ++ [c])
  | x00 :: b => acc :: toy_fields b []
  | _ => []
  end.

Definition toy_unary (n : N) : bytes := replicate (N.to_nat n) x01.
Definition toy_count (b : bytes) : N := N.of_nat (length b).
Definition toy_flag (b : bool) : bytes := if b then [x01] else [].
Abbreviation to_b := String.list_byte_of_string.
Abbreviation to_s := String.string_of_list_byte.

Definition toy_marshal_proof (p : FakeProof unit) : bytes :=
  concat (toy_field <$> [to_b (fp_Kind p); to_b (fp_OldRoot p); to_b (fp_NewRoot p); toy_unary (fp_Voters p);
    toy_unary (fp_Overwrites p); toy_unary (fp_Steps p); to_b (fp_Prev p); to_b (fp_FoldVK p);
    toy_flag (bool_decide (is_Some (fp_Config p))); to_b (fp_VK p); toy_flag (fp_Rejected p)]
    ++ (to_b <$> fp_Batches p)).
Definition toy_unmarshal_proof (b : bytes) : option (FakeProof unit) :=
  match toy_fields b [] with
  | k :: o :: n :: v :: w :: s :: pr :: fvk :: cfg :: vk :: rej :: bs =>
      Some (MkFakeProof (to_s k) (to_s o) (to_s n) (toy_count v) (toy_count w) (toy_count s) (to_s pr)
        (to_s <$> bs) (to_s fvk) (if decide (cfg = []) then None else Some tt) (to_s vk)
        (bool_decide (rej <> [])))
  | _ => None
  end.

(** The last 32 bytes. *)
Definition toy_sum (b : bytes) : bytes := take 32 (rev b ++ replicate 32 x00).

#[export] Instance ToyFake : FakeSdk := {|
  ChainParams := unit;
  FakeProver.marshal_proof := toy_marshal_proof;
  FakeProver.unmarshal_proof := toy_unmarshal_proof;
  Sum256 := toy_sum;
  CanonicalConfigCommitment _ bw aw := Some (replicate 32 x07);
  config_ascii _ := true;
|}.

Lemma toy_fields_field s rest acc : toy_fields (toy_field s ++ rest) acc = (acc ++ s) :: toy_fields rest [].
Proof.
  revert acc. induction s as [|c s IH]; intros acc; [by rewrite app_nil_r|].
  unfold toy_field in *. rewrite bind_cons. cbn. rewrite IH, <- app_assoc. done.
Qed.

Lemma toy_fields_concat fs : toy_fields (concat (toy_field <$> fs)) [] = fs.
Proof. induction fs as [|f fs IH]; [done|]. cbn [fmap list_fmap concat]. by rewrite toy_fields_field, IH. Qed.

Lemma toy_count_unary n : toy_count (toy_unary n) = n.
Proof. unfold toy_count, toy_unary. rewrite length_replicate. lia. Qed.

#[export] Instance ToyFakeLaws : FakeLaws.
Proof.
  split.
  - intros [k o n v w s pr bs fvk cfg vk rej] _.
    change (toy_unmarshal_proof (toy_marshal_proof (MkFakeProof k o n v w s pr bs fvk cfg vk rej)) =
      Some (MkFakeProof k o n v w s pr bs fvk cfg vk rej)).
    unfold toy_unmarshal_proof, toy_marshal_proof.
    rewrite toy_fields_concat. cbn [app fp_Kind fp_OldRoot fp_NewRoot fp_Voters fp_Overwrites fp_Steps fp_Prev
      fp_Batches fp_FoldVK fp_Config fp_VK fp_Rejected].
    rewrite !String.string_of_list_byte_of_string, !toy_count_unary. do 2 f_equal.
    + rewrite <- list_fmap_compose. rewrite <- (list_fmap_id bs) at 2. apply list_fmap_ext. intros i x _.
      apply String.string_of_list_byte_of_string.
    + by destruct cfg as [[]|].
    + by destruct rej.
  - intros b. cbn. unfold toy_sum. rewrite length_take, length_app, length_replicate. lia.
  - by vm_compute.
Defined.

(** ** Two provers *)

(** One step of a run; [None] starts the prover. *)
Definition run_one (f : Fakes) (e : nat * time * option fake_op) : Fakes :=
  let '(i, now, op) := e in
  match op with
  | None => MkFakes (fk_ledger f) (<[i := NewFakeProver]> (fk_provers f))
  | Some op =>
      match fk_provers f !! i with
      | Some p => let s := fake_step now op (MkSt (fk_ledger f) p) in
          MkFakes (st_ledger s) (<[i := st_prover s]> (fk_provers f))
      | None => f
      end
  end.
Definition run_fakes (es : list (nat * time * option fake_op)) : Fakes := foldl run_one (MkFakes NewLedger ∅) es.

(** A final root of 32 bytes. *)
Definition toy_root : string := to_s (replicate 64 x63).

Definition two_batches : list (nat * time * option fake_op) :=
  let prove old new := OpProve (Some (MkProveBody (Some (MkStateBlock old new 3 1)) "stark")) in
  [(0, 1%Z, None); (1, 1%Z, None);
   (0, 2%Z, Some (prove "a" "b")); (1, 2%Z, Some (OpHold JobBatch));
   (1, 3%Z, Some (prove "b" toy_root)); (1, 4%Z, Some (OpRelease JobBatch));
   (0, 5%Z, Some (OpFold (Some (MkFoldRequest tt ["batch-1"] "0xABCD" ""))))]%string.

(** The first fold's proof moves to the other prover. *)
Definition fold_proof : bytes :=
  match fk_provers (run_fakes two_batches) !! 0 with
  | Some p => from_option j_proof [] (p_jobs p !! "fold-2"%string)
  | None => []
  end.

Definition two_folds : list (nat * time * option fake_op) :=
  two_batches ++
  [(1, 6%Z, Some (OpImport (Some JobFold) fold_proof));
   (1, 7%Z, Some (OpFold (Some (MkFoldRequest tt ["batch-1"] "" "import-2"))));
   (1, 8%Z, Some (OpFinalize (Some (MkFinalizeRequest tt "fold-3" "" [1%N; 2%N]))))]%string.

Definition toy_fakes : Fakes := run_fakes two_folds.

(** The proofs the provers hold at the end. *)
Definition held_proofs (f : Fakes) : list bytes :=
  map_to_list (fk_provers f) ≫= fun ip => map_to_list (p_jobs ip.2) ≫= fun ij => [j_proof ij.2].
Definition toy_proofs : list bytes := held_proofs toy_fakes.
Definition toy_known (b : bytes) : Prop := b ∈ toy_proofs.

Definition no_collision (bs : list bytes) : bool :=
  forallb (fun a => forallb (fun b => implb (bool_decide (Sum256 a = Sum256 b)) (bool_decide (a = b))) bs) bs.

Lemma toy_collision_free : collision_free toy_known.
Proof.
  assert (no_collision toy_proofs = true) as E by by vm_compute.
  intros a b Ha Hb Heq. unfold no_collision in E. rewrite forallb_forall in E.
  specialize (E a (proj1 (list_elem_of_In _ _) Ha)). cbn beta in E. rewrite forallb_forall in E.
  specialize (E b (proj1 (list_elem_of_In _ _) Hb)). cbn beta in E.
  rewrite bool_decide_eq_true_2 in E by done. by apply bool_decide_eq_true_1 in E.
Qed.

Lemma held_proofs_in f : forallb (fun b => bool_decide (b ∈ toy_proofs)) (held_proofs f) = true -> proofs_in toy_known f.
Proof.
  intros E i p id j Hp Hj _. rewrite forallb_forall in E. apply (bool_decide_eq_true_1 _), E, list_elem_of_In.
  unfold held_proofs. apply list_elem_of_bind. exists (i, p). split; [|by apply elem_of_map_to_list].
  apply list_elem_of_bind. exists (id, j). split; [by apply list_elem_of_singleton|by apply elem_of_map_to_list].
Qed.

(** A run whose steps are polite is reachable. *)
Definition polite_one (f : Fakes) (e : nat * time * option fake_op) : Prop :=
  from_option (polite (fk_ledger f)) True e.2.

Fixpoint polite_run (f : Fakes) (es : list (nat * time * option fake_op)) : Prop :=
  match es with
  | [] => True
  | e :: es => polite_one f e /\
      forallb (fun b => bool_decide (b ∈ toy_proofs)) (held_proofs (run_one f e)) = true /\
      polite_run (run_one f e) es
  end.

Lemma polite_run_reach f es :
  fakes_reach toy_known f -> polite_run f es -> fakes_reach toy_known (foldl run_one f es).
Proof.
  revert f. induction es as [|[[i now] op] es IH]; intros f Hf; [done|]. intros (Hp & Hin & Hr).
  apply IH; [|exact Hr]. apply held_proofs_in in Hin. destruct op as [op|]; cbn in *.
  - destruct (fk_provers f !! i) as [p|] eqn:Ei; [|done]. eapply fakes_next; [done| |exact Hin]. by eapply fakes_op.
  - eapply fakes_next; [done| |exact Hin]. apply fakes_new.
Qed.

Lemma toy_fakes_reach : fakes_reach toy_known toy_fakes.
Proof.
  apply polite_run_reach; [constructor|]. vm_compute. repeat split; by eexists.
Qed.

Definition toy_final : string := default ""%string (last (lg_finalized (fk_ledger toy_fakes))).

Lemma FinalChain_walks_witness :
  collision_free toy_known /\ fakes_reach toy_known toy_fakes /\
  last (lg_finalized (fk_ledger toy_fakes)) = Some toy_final /\
  (fun r => match r with Ok bs => length bs | Err _ => 0 end) (FinalChain (fk_ledger toy_fakes)) = 2 /\
  exists p bs, lg_proofs (fk_ledger toy_fakes) !! toy_final = Some p /\ FinalChain (fk_ledger toy_fakes) = Ok bs /\
    bs <> [] /\ continues (fp_OldRoot p) bs (fp_NewRoot p) /\ Forall accepted bs /\
    fp_Voters p = total fp_Voters bs /\ fp_Overwrites p = total fp_Overwrites bs.
Proof.
  split; [exact toy_collision_free|]. split; [exact toy_fakes_reach|]. split; [by vm_compute|]. split; [by vm_compute|].
  apply (proj2 (FinalChain_walks toy_known) toy_fakes toy_final toy_collision_free toy_fakes_reach). by vm_compute.
Defined.
